(** * HomeChef: data-access layer and AI-response normalisation

    A shallow embedding of the parts of the HomeChef desktop application
    that carry its logic:

    - [app/models/recipe.py]      the [Recipe] record and [Recipe.from_row];
    - [app/db/dao.py]             the data-access operations over the SQLite
                                  tables [recipes], [favorites], [pantry],
                                  [grocery];
    - [app/services/gemini_service.py]
                                  the JSON parse/repair ladder of
                                  [_generate_json] and the clamping done by
                                  [suggest_from_ingredients];
    - [app/ui/widgets/recipe_list.py]
                                  the local keyword-matching fallback of
                                  [_on_suggest.on_result].

    Conventions.  A Python [str] is a [string]; each [ascii] stands for one
    code point of the range U+0000..U+00FF, so [String.length] is Python's
    [len] and [str_take] is a slice.  Python exceptions are the [Raise]
    branch of [outcome].  A SQLite table is the list of its rows in rowid
    order.  Floating-point numbers are never computed with: a JSON float is
    kept as its literal and what CPython makes of it is a parameter
    ([PyFloat]). *)

From Stdlib Require Import ZArith Ascii String List Lia Bool Permutation.
From Stdlib Require Import Sorting.Sorted.
From stdpp Require Import base option list gmap strings pretty sorting.

Local Open Scope Z_scope.

(** ** Python exceptions *)

Inductive exn : Set :=
| AttributeError | TypeError | ValueError | KeyError | OverflowError
| JSONDecodeError | ValidationError | IntegrityError.

Inductive outcome (A : Type) : Type :=
| Ok (a : A)
| Raise (e : exn).
Arguments Ok {A} a.
Arguments Raise {A} e.

Definition bind {A B} (m : outcome A) (f : A -> outcome B) : outcome B :=
  match m with Ok a => f a | Raise e => Raise e end.

Notation "'let?' x ':=' m 'in' k" := (bind m (fun x => k))
  (at level 10, x name, m at level 100, k at level 200).

(** A comprehension [[f(x) for x in l]] whose [f] may raise. *)
Fixpoint map_outcome {A B} (f : A -> outcome B) (l : list A) : outcome (list B) :=
  match l with
  | [] => Ok []
  | x :: l' => let? y := f x in let? ys := map_outcome f l' in Ok (y :: ys)
  end.

(** [try: m  except Exception: h] *)
Definition try_except {A} (m : outcome A) (h : exn -> outcome A) : outcome A :=
  match m with Ok a => Ok a | Raise e => h e end.

Definition default_or {A} (o : option A) (d : A) : A :=
  match o with Some a => a | None => d end.

Definition of_option {A} (e : exn) (o : option A) : outcome A :=
  match o with Some a => Ok a | None => Raise e end.

Definition succeeded {A} (m : outcome A) : bool :=
  match m with Ok _ => true | Raise _ => false end.

(** ** Python strings *)

Definition code (c : ascii) : N := N_of_ascii c.

Definition in_range (lo hi : N) (c : ascii) : bool :=
  ((lo <=? code c) && (code c <=? hi))%N.

(** [str.isspace] on one character, which is also the class [\s] of [re]
    on [str] patterns: TAB..CR, FS..US, SPACE, NEL, NBSP. *)
Definition isspace (c : ascii) : bool :=
  in_range 9 13 c || in_range 28 32 c || (code c =? 133)%N || (code c =? 160)%N.

Definition is_digit (c : ascii) : bool := in_range 48 57 c.

(** [str.lower] on one character: A..Z and the capital letters U+00C0..U+00DE
    (without the multiplication sign U+00D7) move up by 32. *)
Definition lower_char (c : ascii) : ascii :=
  if in_range 65 90 c || (in_range 192 222 c && negb (code c =? 215)%N)
  then ascii_of_N (code c + 32) else c.

Fixpoint lower (s : string) : string :=
  match s with
  | EmptyString => EmptyString
  | String c s' => String (lower_char c) (lower s')
  end.

Definition str_empty (s : string) : bool :=
  match s with EmptyString => true | _ => false end.

Fixpoint lstrip (s : string) : string :=
  match s with
  | String c s' => if isspace c then lstrip s' else s
  | EmptyString => EmptyString
  end.

Fixpoint rstrip (s : string) : string :=
  match s with
  | EmptyString => EmptyString
  | String c s' =>
      let r := rstrip s' in
      if isspace c && str_empty r then EmptyString else String c r
  end.

(** [s.strip()] *)
Definition strip (s : string) : string := rstrip (lstrip s).

(** Membership in a set of characters given as a string. *)
Fixpoint in_chars (chars : string) (c : ascii) : bool :=
  match chars with
  | EmptyString => false
  | String a chars' => Ascii.eqb a c || in_chars chars' c
  end.

(** [s.strip(chars)] *)
Fixpoint lstrip_chars (chars s : string) : string :=
  match s with
  | String c s' => if in_chars chars c then lstrip_chars chars s' else s
  | EmptyString => EmptyString
  end.

Fixpoint rstrip_chars (chars s : string) : string :=
  match s with
  | EmptyString => EmptyString
  | String c s' =>
      let r := rstrip_chars chars s' in
      if in_chars chars c && str_empty r then EmptyString else String c r
  end.

Definition strip_chars (chars s : string) : string :=
  rstrip_chars chars (lstrip_chars chars s).

(** [s[:n]] *)
Fixpoint str_take (n : nat) (s : string) : string :=
  match n, s with
  | S n', String c s' => String c (str_take n' s')
  | _, _ => EmptyString
  end.

Arguments str_take : simpl never.

Fixpoint str_drop (n : nat) (s : string) : string :=
  match n, s with
  | S n', String _ s' => str_drop n' s'
  | _, _ => s
  end.

Fixpoint starts_with (p s : string) : bool :=
  match p, s with
  | EmptyString, _ => true
  | String a p', String b s' => if Ascii.eqb a b then starts_with p' s' else false
  | String _ _, EmptyString => false
  end.

(** [sub in s] *)
Fixpoint contains (sub s : string) : bool :=
  starts_with sub s ||
  match s with
  | EmptyString => false
  | String _ s' => contains sub s'
  end.

(** [s.find(c)] and [s.rfind(c)] for a one-character needle; [None] is -1. *)
Fixpoint find_char (c : ascii) (s : string) : option nat :=
  match s with
  | EmptyString => None
  | String a s' => if Ascii.eqb a c then Some 0%nat else S <$> find_char c s'
  end.

Fixpoint rfind_char (c : ascii) (s : string) : option nat :=
  match s with
  | EmptyString => None
  | String a s' =>
      match rfind_char c s' with
      | Some i => Some (S i)
      | None => if Ascii.eqb a c then Some 0%nat else None
      end
  end.

(** [s.split(c)]: always at least one piece. *)
Fixpoint split_on (c : ascii) (s : string) : list string :=
  match s with
  | EmptyString => [EmptyString]
  | String a s' =>
      if Ascii.eqb a c then EmptyString :: split_on c s'
      else match split_on c s' with
           | piece :: rest => String a piece :: rest
           | [] => [String a EmptyString]
           end
  end.

(** [sep.join(l)] *)
Fixpoint join (sep : string) (l : list string) : string :=
  match l with
  | [] => EmptyString
  | [x] => x
  | x :: rest => x +:+ sep +:+ join sep rest
  end.

Fixpoint chars (s : string) : list string :=
  match s with
  | EmptyString => []
  | String c s' => String c EmptyString :: chars s'
  end.

(** [int(s)] for a string, base 10: surrounding whitespace, one optional
    sign, digits with single underscores between them.  The whitespace
    [int] removes is not that of [str.strip]: TAB..CR, SPACE, NEL and NBSP,
    but not FS..US, which make [int] raise.  The interpreter's limit on the
    number of digits is a resource limit and is not modelled. *)
Definition int_whitespace : string :=
  String "009" (String "010" (String "011" (String "012" (String "013"
    (String " " (String "133" (String "160" EmptyString))))))).

Fixpoint int_digits (acc : Z) (after_digit : bool) (s : string) : option Z :=
  match s with
  | EmptyString => if after_digit then Some acc else None
  | String c s' =>
      if is_digit c then int_digits (acc * 10 + (Z.of_N (code c) - 48)) true s'
      else if Ascii.eqb c "_" && after_digit then int_digits acc false s'
      else None
  end.

Definition int_of_str (s : string) : option Z :=
  match strip_chars int_whitespace s with
  | String "-" r => Z.opp <$> int_digits 0 false r
  | String "+" r => int_digits 0 false r
  | t => int_digits 0 false t
  end.

(** ** JSON values, as [json.loads] returns them *)

Definition dquote : ascii := "034"%char.
Definition backslash : ascii := "092"%char.
Definition squote : ascii := "039"%char.
Definition newline : ascii := "010"%char.
Definition backtick : ascii := "096"%char.

(** A [dict] is kept as its items in insertion order; keys are unique in
    every dict that [json.loads] builds (see [dict_set]). *)
#[local] Unset Elimination Schemes.
Inductive json : Type :=
| JNull
| JBool (b : bool)
| JInt (z : Z)
| JFloat (lit : string)
| JStr (s : string)
| JArr (l : list json)
| JObj (m : list (string * json)).
#[local] Set Elimination Schemes.

Abbreviation dict := (list (string * json)).

(** [d.get(k)] *)
Fixpoint dict_get (k : string) (d : dict) : option json :=
  match d with
  | [] => None
  | (k', v) :: d' => if String.eqb k' k then Some v else dict_get k d'
  end.

(** [d.get(k, default)] *)
Definition dict_get_default (k : string) (default : json) (d : dict) : json :=
  default_or (dict_get k d) default.

(** [d[k] = v] *)
Fixpoint dict_set (k : string) (v : json) (d : dict) : dict :=
  match d with
  | [] => [(k, v)]
  | (k', v') :: d' =>
      if String.eqb k' k then (k', v) :: d' else (k', v') :: dict_set k v d'
  end.

(** What CPython does with the binary64 value of a decimal literal. *)
Class PyFloat := {
  float_bool : string -> bool;        (* bool(x): x != 0.0 *)
  float_int : string -> outcome Z;    (* int(x): raises on nan and inf *)
  float_repr : string -> string       (* str(x) *)
}.

Section Builtins.
Context `{PyFloat}.

(** [bool(v)] *)
Definition py_truthy (v : json) : bool :=
  match v with
  | JNull => false
  | JBool b => b
  | JInt z => negb (z =? 0)
  | JFloat lit => float_bool lit
  | JStr s => negb (str_empty s)
  | JArr l => match l with [] => false | _ => true end
  | JObj m => match m with [] => false | _ => true end
  end.

(** [a or b] *)
Definition py_or (a b : json) : json := if py_truthy a then a else b.

Definition hex_digit (n : N) : ascii :=
  if (n <? 10)%N then ascii_of_N (48 + n) else ascii_of_N (87 + n).

(** One character of [repr(s)] when the surrounding quote is [q]. *)
Definition repr_char (q c : ascii) : string :=
  if Ascii.eqb c q || Ascii.eqb c backslash then String backslash (String c EmptyString)
  else if (code c =? 9)%N then String backslash "t"
  else if (code c =? 10)%N then String backslash "n"
  else if (code c =? 13)%N then String backslash "r"
  else if (code c <? 32)%N || (code c =? 127)%N || in_range 128 160 c || (code c =? 173)%N
  then String backslash (String "x" (String (hex_digit (code c / 16)) (String (hex_digit (code c mod 16)) EmptyString)))
  else String c EmptyString.

Fixpoint repr_body (q : ascii) (s : string) : string :=
  match s with
  | EmptyString => EmptyString
  | String c s' => repr_char q c +:+ repr_body q s'
  end.

(** [repr(s)]: single quotes, unless [s] has a single quote and no double
    quote. *)
Definition repr_str (s : string) : string :=
  let q := if contains (String squote EmptyString) s
              && negb (contains (String dquote EmptyString) s)
           then dquote else squote in
  String q (repr_body q s +:+ String q EmptyString).

(** [repr(v)] *)
Fixpoint py_repr (v : json) : string :=
  match v with
  | JNull => "None"
  | JBool true => "True"
  | JBool false => "False"
  | JInt z => pretty z
  | JFloat lit => float_repr lit
  | JStr s => repr_str s
  | JArr l => "[" +:+ join ", " (map py_repr l) +:+ "]"
  | JObj m =>
      "{" +:+ join ", " (map (fun kv => let '(k, x) := kv in
                                         repr_str k +:+ ": " +:+ py_repr x) m) +:+ "}"
  end.

(** [str(v)] *)
Definition py_str (v : json) : string :=
  match v with
  | JStr s => s
  | _ => py_repr v
  end.

(** [int(v)] *)
Definition py_int (v : json) : outcome Z :=
  match v with
  | JBool b => Ok (Z.b2z b)
  | JInt z => Ok z
  | JFloat lit => float_int lit
  | JStr s => of_option ValueError (int_of_str s)
  | JNull | JArr _ | JObj _ => Raise TypeError
  end.

(** [for x in v]: the items a [for] loop or a comprehension visits. *)
Definition py_iter (v : json) : outcome (list json) :=
  match v with
  | JArr l => Ok l
  | JStr s => Ok (map JStr (chars s))
  | JObj m => Ok (map (fun kv => JStr kv.1) m)
  | JNull | JBool _ | JInt _ | JFloat _ => Raise TypeError
  end.

(** [v[:n]]; a dict cannot be sliced. *)
Definition py_slice (n : nat) (v : json) : outcome json :=
  match v with
  | JArr l => Ok (JArr (take n l))
  | JStr s => Ok (JStr (str_take n s))
  | JObj _ | JNull | JBool _ | JInt _ | JFloat _ => Raise TypeError
  end.

(** [v.get(k, default)]: only a dict has [get]. *)
Definition py_get (k : string) (default : json) (v : json) : outcome json :=
  match v with
  | JObj m => Ok (dict_get_default k default m)
  | _ => Raise AttributeError
  end.

End Builtins.

(** ** [json.loads]

    The decoder of the standard library, restated: whitespace is SPACE, TAB,
    LF and CR; a string literal rejects raw control characters; a number is
    an optional minus, then 0 or a digit string without leading zero, then
    an optional fraction and an optional exponent; the three literals
    NaN, Infinity and -Infinity are accepted.  An escape [\uXXXX] above
    U+00FF is outside the alphabet and is kept in its escaped spelling.
    Recursion is by fuel; [json_loads_fuel] shows the fuel handed out by
    [json_loads] is never used up. *)

Inductive presult : Type :=
| POk (v : json) (rest : string)
| PErr
| PFuel.

Definition is_json_ws (c : ascii) : bool :=
  (code c =? 32)%N || (code c =? 9)%N || (code c =? 10)%N || (code c =? 13)%N.

Fixpoint skip_ws (s : string) : string :=
  match s with
  | String c s' => if is_json_ws c then skip_ws s' else s
  | EmptyString => EmptyString
  end.

Definition is_hex (c : ascii) : bool :=
  is_digit c || in_range 97 102 c || in_range 65 70 c.

Definition hex_val (c : ascii) : N :=
  if is_digit c then code c - 48
  else if in_range 97 102 c then code c - 87
  else code c - 55.

Definition unicode_escape (h1 h2 h3 h4 : ascii) : string :=
  let n := (((hex_val h1 * 16 + hex_val h2) * 16 + hex_val h3) * 16 + hex_val h4)%N in
  if (n <? 256)%N then String (ascii_of_N n) EmptyString
  else String backslash (String "u" (String h1 (String h2 (String h3 (String h4 EmptyString))))).

Definition simple_escape (e : ascii) : option ascii :=
  if Ascii.eqb e dquote then Some dquote
  else if Ascii.eqb e backslash then Some backslash
  else if Ascii.eqb e "/" then Some "/"%char
  else if Ascii.eqb e "b" then Some "008"%char
  else if Ascii.eqb e "f" then Some "012"%char
  else if Ascii.eqb e "n" then Some "010"%char
  else if Ascii.eqb e "r" then Some "013"%char
  else if Ascii.eqb e "t" then Some "009"%char
  else None.

(** The body of a string literal, from just after its opening quote. *)
Fixpoint scan_string (s : string) : option (string * string) :=
  match s with
  | EmptyString => None
  | String c s1 =>
      if Ascii.eqb c dquote then Some (EmptyString, s1)
      else if Ascii.eqb c backslash then
        match s1 with
        | EmptyString => None
        | String e s2 =>
            if Ascii.eqb e "u" then
              match s2 with
              | String h1 (String h2 (String h3 (String h4 s3))) =>
                  if is_hex h1 && is_hex h2 && is_hex h3 && is_hex h4 then
                    match scan_string s3 with
                    | Some (t, r) => Some (unicode_escape h1 h2 h3 h4 +:+ t, r)
                    | None => None
                    end
                  else None
              | _ => None
              end
            else
              match simple_escape e with
              | Some d =>
                  match scan_string s2 with
                  | Some (t, r) => Some (String d t, r)
                  | None => None
                  end
              | None => None
              end
        end
      else if (code c <? 32)%N then None
      else
        match scan_string s1 with
        | Some (t, r) => Some (String c t, r)
        | None => None
        end
  end.

Fixpoint span_digits (s : string) : string * string :=
  match s with
  | String c s' =>
      if is_digit c then let '(d, r) := span_digits s' in (String c d, r)
      else (EmptyString, s)
  | EmptyString => (EmptyString, EmptyString)
  end.

Fixpoint digits_val (acc : Z) (s : string) : Z :=
  match s with
  | EmptyString => acc
  | String c s' => digits_val (acc * 10 + (Z.of_N (code c) - 48)) s'
  end.

(** The optional fraction [(\.[0-9]+)?]. *)
Definition scan_frac (s : string) : string * string :=
  match s with
  | String c r =>
      if Ascii.eqb c "." then
        let '(d, r') := span_digits r in
        if str_empty d then (EmptyString, s) else (String c d, r')
      else (EmptyString, s)
  | EmptyString => (EmptyString, s)
  end.

(** The optional exponent [([eE][-+]?[0-9]+)?]. *)
Definition scan_exp (s : string) : string * string :=
  match s with
  | String e r =>
      if Ascii.eqb e "e" || Ascii.eqb e "E" then
        let '(sg, r1) :=
          match r with
          | String g r' =>
              if Ascii.eqb g "-" || Ascii.eqb g "+"
              then (String g EmptyString, r') else (EmptyString, r)
          | EmptyString => (EmptyString, r)
          end in
        let '(d, r2) := span_digits r1 in
        if str_empty d then (EmptyString, s) else (String e (sg +:+ d), r2)
      else (EmptyString, s)
  | EmptyString => (EmptyString, s)
  end.

(** The integer part without sign: a lone 0, or a run of
    digits. *)
Definition scan_int_part (s : string) : option (string * string) :=
  match s with
  | String c r =>
      if is_digit c then
        Some (if Ascii.eqb c "0" then (String c EmptyString, r) else span_digits s)
      else None
  | EmptyString => None
  end.

(** [int(integer)] when fraction and exponent are absent, else
    [float(integer + frac + exp)]. *)
Definition number_value (neg : bool) (ip fr ex : string) : json :=
  if str_empty fr && str_empty ex
  then JInt (if neg then - digits_val 0 ip else digits_val 0 ip)
  else JFloat ((if neg then "-" else "") +:+ ip +:+ fr +:+ ex).

Definition scan_number (s : string) : option (json * string) :=
  let '(neg, s1) :=
    match s with
    | String c r => if Ascii.eqb c "-" then (true, r) else (false, s)
    | EmptyString => (false, s)
    end in
  match scan_int_part s1 with
  | Some (ip, r1) =>
      let '(fr, r2) := scan_frac r1 in
      let '(ex, r3) := scan_exp r2 in
      Some (number_value neg ip fr ex, r3)
  | None => None
  end.

Definition literal (word : string) (v : json) (s : string) : option (json * string) :=
  if starts_with word s then Some (v, str_drop (String.length word) s) else None.

(** A value that is neither a string, an object nor an array. *)
Definition scan_atom (s : string) : option (json * string) :=
  match literal "null" JNull s with Some x => Some x | None =>
  match literal "true" (JBool true) s with Some x => Some x | None =>
  match literal "false" (JBool false) s with Some x => Some x | None =>
  match scan_number s with Some x => Some x | None =>
  match literal "NaN" (JFloat "NaN") s with Some x => Some x | None =>
  match literal "Infinity" (JFloat "Infinity") s with Some x => Some x | None =>
  literal "-Infinity" (JFloat "-Infinity") s
  end end end end end end.

Fixpoint parse_value (n : nat) (s : string) : presult :=
  match n with
  | O => PFuel
  | S n' =>
      match s with
      | EmptyString => PErr
      | String c s1 =>
          if Ascii.eqb c dquote then
            match scan_string s1 with
            | Some (t, r) => POk (JStr t) r
            | None => PErr
            end
          else if Ascii.eqb c "{" then
            match skip_ws s1 with
            | EmptyString => PErr
            | String c2 r =>
                if Ascii.eqb c2 "}" then POk (JObj []) r
                else parse_members n' (String c2 r) []
            end
          else if Ascii.eqb c "[" then
            match skip_ws s1 with
            | EmptyString => PErr
            | String c2 r =>
                if Ascii.eqb c2 "]" then POk (JArr []) r
                else parse_elements n' (String c2 r) []
            end
          else
            match scan_atom s with
            | Some (v, r) => POk v r
            | None => PErr
            end
      end
  end
with parse_elements (n : nat) (s : string) (acc : list json) : presult :=
  match n with
  | O => PFuel
  | S n' =>
      match parse_value n' s with
      | POk v r =>
          match skip_ws r with
          | EmptyString => PErr
          | String c r2 =>
              if Ascii.eqb c "]" then POk (JArr (acc ++ [v])) r2
              else if Ascii.eqb c "," then parse_elements n' (skip_ws r2) (acc ++ [v])
              else PErr
          end
      | PErr => PErr
      | PFuel => PFuel
      end
  end
with parse_members (n : nat) (s : string) (acc : dict) : presult :=
  match n with
  | O => PFuel
  | S n' =>
      match s with
      | EmptyString => PErr
      | String c s1 =>
          if Ascii.eqb c dquote then
            match scan_string s1 with
            | None => PErr
            | Some (k, r) =>
                match skip_ws r with
                | EmptyString => PErr
                | String c2 r2 =>
                    if Ascii.eqb c2 ":" then
                      match parse_value n' (skip_ws r2) with
                      | POk v r3 =>
                          match skip_ws r3 with
                          | EmptyString => PErr
                          | String c3 r4 =>
                              if Ascii.eqb c3 "}" then POk (JObj (dict_set k v acc)) r4
                              else if Ascii.eqb c3 ","
                              then parse_members n' (skip_ws r4) (dict_set k v acc)
                              else PErr
                          end
                      | PErr => PErr
                      | PFuel => PFuel
                      end
                    else PErr
                end
            end
          else PErr
      end
  end.

(** [json.loads(s)]; [None] stands for the exception it raises. *)
Definition json_loads (s : string) : option json :=
  match parse_value (2 * String.length s + 2) (skip_ws s) with
  | POk v r => if str_empty (skip_ws r) then Some v else None
  | _ => None
  end.

(** ** Stable sorting

    [ORDER BY] and [list.sort] are modelled by one stable insertion sort:
    rows that compare equal keep their rowid (respectively list) order. *)

Fixpoint insert_by {A} (le : A -> A -> bool) (x : A) (l : list A) : list A :=
  match l with
  | [] => [x]
  | y :: l' => if le x y then x :: l else y :: insert_by le x l'
  end.

Definition sort_by {A} (le : A -> A -> bool) (l : list A) : list A :=
  foldr (insert_by le) [] l.

(** ** SQLite values and rows *)

(** The storage classes this code base binds as parameters: [None], [int]
    and [str]. *)
Inductive sqlval : Set :=
| SNull
| SInt (z : Z)
| SText (s : string).

(** The order [ORDER BY ... ASC] sorts by: NULL first, then integers, then
    text under the BINARY collation. *)
Definition sql_le (a b : sqlval) : bool :=
  match a, b with
  | SNull, _ => true
  | SInt _, SNull => false
  | SInt x, SInt y => x <=? y
  | SInt _, SText _ => true
  | SText _, (SNull | SInt _) => false
  | SText x, SText y => String.leb x y
  end.

Definition sql_eqb (a b : sqlval) : bool :=
  match a, b with
  | SInt x, SInt y => x =? y
  | SText x, SText y => String.eqb x y
  | _, _ => false
  end.

(** An integer that SQLite can store: 64 bits, signed.  Binding a Python
    [int] outside this range as a parameter raises [OverflowError]. *)
Definition int64 (z : Z) : bool := (- 2 ^ 63 <=? z) && (z <? 2 ^ 63).

(** [bool(v)], [v or d], [str(v)], [int(v)] on a column value. *)
Definition sql_truthy (v : sqlval) : bool :=
  match v with
  | SNull => false
  | SInt z => negb (z =? 0)
  | SText s => negb (str_empty s)
  end.

Definition sql_or (v d : sqlval) : sqlval := if sql_truthy v then v else d.

Definition sql_str (v : sqlval) : string :=
  match v with
  | SNull => "None"
  | SInt z => pretty z
  | SText s => s
  end.

Definition sql_int (v : sqlval) : outcome Z :=
  match v with
  | SNull => Raise TypeError
  | SInt z => Ok z
  | SText s => of_option ValueError (int_of_str s)
  end.

(** [json.loads(v)] on a column value: only text can be decoded. *)
Definition sql_json_loads (v : sqlval) : outcome json :=
  match v with
  | SText s => of_option JSONDecodeError (json_loads s)
  | SNull | SInt _ => Raise TypeError
  end.

(** [v.split(",")]: only [str] has the method. *)
Definition sql_split (c : ascii) (v : sqlval) : outcome (list string) :=
  match v with
  | SText s => Ok (split_on c s)
  | SNull | SInt _ => Raise AttributeError
  end.

(** [x LIKE pattern]: [%] is any run of characters, [_] any one character;
    letters A..Z compare without case.  SQLite reads the pattern and the
    value as C strings: each ends at its first NUL.  The engine's limit on
    the length of a pattern (50 000 bytes unless configured otherwise) is a
    resource limit and is not modelled. *)
Definition fold_az (c : ascii) : ascii :=
  if in_range 65 90 c then ascii_of_N (code c + 32) else c.

Fixpoint like (p : string) : string -> bool :=
  match p with
  | EmptyString => str_empty
  | String c p' =>
      if Ascii.eqb c "%" then
        fix star (s : string) : bool :=
          like p' s || match s with
                       | EmptyString => false
                       | String _ s' => star s'
                       end
      else fun s =>
        match s with
        | EmptyString => false
        | String a s' =>
            (Ascii.eqb c "_" || Ascii.eqb (fold_az c) (fold_az a)) && like p' s'
        end
  end.

Fixpoint until_nul (s : string) : string :=
  match s with
  | EmptyString => EmptyString
  | String c s' => if (code c =? 0)%N then EmptyString else String c (until_nul s')
  end.

Definition sql_like (v : sqlval) (pattern : string) : bool :=
  match v with
  | SNull => false
  | SInt z => like (until_nul pattern) (pretty z)
  | SText s => like (until_nul pattern) (until_nul s)
  end.

Record recipe_row : Set := {
  col_id : sqlval;
  col_title : sqlval;
  col_description : sqlval;
  col_ingredients_json : sqlval;
  col_steps_json : sqlval;
  col_time_minutes : sqlval;
  col_difficulty : sqlval;
  col_image_path : sqlval;
  col_categories : sqlval
}.

(** Pantry and grocery columns are written by the upsert operations only,
    which bind [str], [str] and [int]; a quantity or a flag may be NULL,
    which is what the COALESCE of the list queries is for. *)
Record pantry_row : Set := {
  pantry_item : string;
  pantry_quantity : option string
}.

Record grocery_row : Set := {
  grocery_item : string;
  grocery_quantity : option string;
  grocery_checked : option Z
}.

Record database : Set := {
  recipes : list recipe_row;
  favorites : list Z;
  pantry : list pantry_row;
  grocery : list grocery_row
}.

(** ** [app/models/recipe.py] *)

Record Recipe : Type := {
  rid : option Z;
  title : string;
  description : string;
  ingredients : list dict;
  steps : list string;
  time_minutes : Z;
  difficulty : string;
  image_path : string;
  categories : list string
}.

(** Field validation of the [BaseModel]: [List[dict]] and [List[str]] both
    need a list; how an item that is not already a [dict] (a [str]) is
    treated differs between pydantic releases and is left open. *)
Class Pydantic := {
  coerce_dict : json -> option dict;
  coerce_str : json -> option string;
  coerce_dict_obj : forall m, coerce_dict (JObj m) = Some m;
  coerce_str_str : forall s, coerce_str (JStr s) = Some s
}.

Definition validate_list {A} (item : json -> option A) (v : json) : outcome (list A) :=
  match v with
  | JArr l => of_option ValidationError (mapM item l)
  | _ => Raise ValidationError
  end.

Section RecipeModel.
Context `{Pydantic}.

Definition load_embedded (v : sqlval) : json :=
  default_or
    (match try_except (if sql_truthy v then sql_json_loads v else Ok (JArr []))
                      (fun _ => Ok (JArr [])) with
     | Ok j => Some j
     | Raise _ => None
     end) (JArr []).

Definition load_categories (v : sqlval) : list string :=
  match try_except
          (let? parts := sql_split "," (sql_or v (SText "")) in
           Ok (map strip (List.filter (fun c => negb (str_empty (strip c))) parts)))
          (fun _ => Ok []) with
  | Ok l => l
  | Raise _ => []
  end.

(** [Recipe.from_row(row)] *)
Definition from_row (row : option recipe_row) : outcome Recipe :=
  match row with
  | None => Raise ValueError
  | Some r =>
      let ingredients := load_embedded (col_ingredients_json r) in
      let steps := load_embedded (col_steps_json r) in
      let categories := load_categories (col_categories r) in
      let? i := sql_int (col_id r) in
      let? t := sql_int (sql_or (col_time_minutes r) (SInt 0)) in
      let? ings := validate_list coerce_dict ingredients in
      let? sts := validate_list coerce_str steps in
      Ok {| rid := Some i;
            title := sql_str (col_title r);
            description := sql_str (sql_or (col_description r) (SText ""));
            ingredients := ings;
            steps := sts;
            time_minutes := t;
            difficulty := sql_str (sql_or (col_difficulty r) (SText ""));
            image_path := sql_str (sql_or (col_image_path r) (SText ""));
            categories := categories |}
  end.

End RecipeModel.

(** ** [app/db/dao.py] *)

(** Modelled from the spec: [app/db/schema.sql] is not among the sources.
    The spec gives the tables as recipes(id, title, ...), favorites(recipe_id),
    pantry(item UNIQUE, quantity) and grocery(item UNIQUE, quantity, checked),
    and has a duplicate favorite insert fail.  The three key constraints are
    the predicates below; every statement of the operations keeps them. *)
Definition favorites_unique (d : database) : Prop := NoDup (favorites d).
Definition pantry_unique (d : database) : Prop := NoDup (map pantry_item (pantry d)).
Definition grocery_unique (d : database) : Prop := NoDup (map grocery_item (grocery d)).

Definition title_le (a b : recipe_row) : bool := sql_le (col_title a) (col_title b).

(** [ORDER BY time_minutes ASC, title ASC] *)
Definition time_title_le (a b : recipe_row) : bool :=
  if sql_le (col_time_minutes a) (col_time_minutes b)
  then (if sql_le (col_time_minutes b) (col_time_minutes a)
        then sql_le (col_title a) (col_title b) else true)
  else false.

(** The WHERE clause [search_recipes] assembles, for parameters that
    bind. *)
Definition search_filter (text : string) (cats : option (list string))
    (max_time : option Z) (difficulty : string) (r : recipe_row) : bool :=
  (if str_empty text then true
   else let like := "%" +:+ text +:+ "%" in
        sql_like (col_title r) like || sql_like (col_description r) like)
  && forallb (fun cat => sql_like (col_categories r) ("%" +:+ cat +:+ "%"))
             (default_or cats [])
  && match max_time with
     | None => true
     | Some m => match col_time_minutes r with SInt t => t <=? m | _ => false end
     end
  && (if str_empty difficulty then true
      else sql_eqb (col_difficulty r) (SText difficulty)).

Section Dao.
Context `{Pydantic}.

Definition rows_to_recipes (rows : list recipe_row) : outcome (list Recipe) :=
  map_outcome (fun r => from_row (Some r)) rows.

Definition list_recipes (d : database) : outcome (list Recipe) :=
  rows_to_recipes (sort_by title_le (recipes d)).

(** [search_recipes]: a time ceiling outside 64 bits does not bind, and the
    query raises before it reads a row. *)
Definition search_recipes (d : database) (text : string)
    (cats : option (list string)) (max_time : option Z) (difficulty : string)
    : outcome (list Recipe) :=
  if match max_time with Some m => int64 m | None => true end
  then rows_to_recipes
         (sort_by time_title_le
            (List.filter (search_filter text cats max_time difficulty) (recipes d)))
  else Raise OverflowError.

(** [get_recipe]: an id outside 64 bits does not bind. *)
Definition get_recipe (d : database) (recipe_id : Z) : outcome (option Recipe) :=
  if int64 recipe_id
  then match List.filter (fun r => sql_eqb (col_id r) (SInt recipe_id)) (recipes d) with
       | [] => Ok None
       | row :: _ => let? r := from_row (Some row) in Ok (Some r)
       end
  else Raise OverflowError.

(** [{str(r["title"]): Recipe.from_row(r) for r in rows}]: a later row
    replaces an earlier one under the same key. *)
Fixpoint title_dict (rows : list recipe_row) (acc : gmap string Recipe)
    : outcome (gmap string Recipe) :=
  match rows with
  | [] => Ok acc
  | r :: rows' =>
      let? rec := from_row (Some r) in
      title_dict rows' (<[sql_str (col_title r) := rec]> acc)
  end.

Definition find_recipes_by_titles (d : database) (titles : list string)
    : outcome (list Recipe) :=
  match titles with
  | [] => Ok []
  | _ =>
      let rows :=
        List.filter (fun r => existsb (fun t => sql_eqb (col_title r) (SText t)) titles)
                    (recipes d) in
      let? title_to_recipe := title_dict rows ∅ in
      Ok (omap (fun t => title_to_recipe !! t) titles)
  end.

End Dao.

Definition get_favorites (d : database) : list Z :=
  sort_by Z.leb (favorites d).

(** [INSERT INTO favorites (recipe_id) VALUES (?)]: an id outside 64 bits
    does not bind; a duplicate violates the key. *)
Definition insert_favorite (recipe_id : Z) (d : database) : outcome database :=
  if negb (int64 recipe_id) then Raise OverflowError
  else if bool_decide (recipe_id ∈ favorites d) then Raise IntegrityError
  else Ok {| recipes := recipes d; favorites := favorites d ++ [recipe_id];
             pantry := pantry d; grocery := grocery d |}.

(** [DELETE FROM favorites WHERE recipe_id = ?]: an id outside 64 bits does
    not bind. *)
Definition delete_favorite (recipe_id : Z) (d : database) : outcome database :=
  if negb (int64 recipe_id) then Raise OverflowError
  else Ok {| recipes := recipes d;
             favorites := List.filter (fun x => negb (x =? recipe_id)) (favorites d);
             pantry := pantry d; grocery := grocery d |}.

(** [set_favorite]: the insert runs under [try: ... except Exception: pass],
    so on an exception the database is as it was; the delete runs outside
    any [try]. *)
Definition set_favorite (recipe_id : Z) (favorite : bool) (d : database)
    : outcome database :=
  if favorite
  then try_except (insert_favorite recipe_id d) (fun _ => Ok d)
  else delete_favorite recipe_id d.

(** *** Pantry *)

Definition pantry_le (a b : pantry_row) : bool :=
  String.leb (pantry_item a) (pantry_item b).

Definition coalesce (q : option string) : string := default_or q "".

Definition list_pantry (d : database) : list (string * string) :=
  map (fun r => (pantry_item r, coalesce (pantry_quantity r)))
      (sort_by pantry_le (pantry d)).

(** [INSERT ... ON CONFLICT(item) DO UPDATE SET quantity=excluded.quantity] *)
Fixpoint pantry_upsert (item quantity : string) (rows : list pantry_row)
    : list pantry_row :=
  match rows with
  | [] => [{| pantry_item := item; pantry_quantity := Some quantity |}]
  | r :: rows' =>
      if String.eqb (pantry_item r) item
      then {| pantry_item := pantry_item r; pantry_quantity := Some quantity |} :: rows'
      else r :: pantry_upsert item quantity rows'
  end.

Definition upsert_pantry_item (item quantity : string) (d : database) : database :=
  {| recipes := recipes d; favorites := favorites d;
     pantry := pantry_upsert (strip item) (strip quantity) (pantry d);
     grocery := grocery d |}.

Definition remove_pantry_item (item : string) (d : database) : database :=
  {| recipes := recipes d; favorites := favorites d;
     pantry := List.filter (fun r => negb (String.eqb (pantry_item r) item)) (pantry d);
     grocery := grocery d |}.

(** *** Grocery *)

Definition checked_value (r : grocery_row) : Z := default_or (grocery_checked r) 0.

(** [ORDER BY checked ASC, item ASC]; a NULL flag sorts first. *)
Definition grocery_le (a b : grocery_row) : bool :=
  let ka := match grocery_checked a with None => SNull | Some z => SInt z end in
  let kb := match grocery_checked b with None => SNull | Some z => SInt z end in
  if sql_le ka kb
  then (if sql_le kb ka then String.leb (grocery_item a) (grocery_item b) else true)
  else false.

Definition list_grocery (d : database) : list (string * string * bool) :=
  map (fun r => (grocery_item r, coalesce (grocery_quantity r),
                 negb (checked_value r =? 0)))
      (sort_by grocery_le (grocery d)).

(** [INSERT ... ON CONFLICT(item) DO UPDATE SET quantity=excluded.quantity,
    checked=excluded.checked] *)
Fixpoint grocery_upsert (item quantity : string) (checked : Z)
    (rows : list grocery_row) : list grocery_row :=
  match rows with
  | [] => [{| grocery_item := item; grocery_quantity := Some quantity;
              grocery_checked := Some checked |}]
  | r :: rows' =>
      if String.eqb (grocery_item r) item
      then {| grocery_item := grocery_item r; grocery_quantity := Some quantity;
              grocery_checked := Some checked |} :: rows'
      else r :: grocery_upsert item quantity checked rows'
  end.

Definition with_grocery (d : database) (g : list grocery_row) : database :=
  {| recipes := recipes d; favorites := favorites d; pantry := pantry d;
     grocery := g |}.

Definition upsert_grocery_item (item quantity : string) (checked : bool)
    (d : database) : database :=
  with_grocery d (grocery_upsert (strip item) (strip quantity) (Z.b2z checked) (grocery d)).

Definition set_grocery_checked (item : string) (checked : bool) (d : database)
    : database :=
  with_grocery d
    (map (fun r => if String.eqb (grocery_item r) item
                   then {| grocery_item := grocery_item r;
                           grocery_quantity := grocery_quantity r;
                           grocery_checked := Some (Z.b2z checked) |}
                   else r) (grocery d)).

Definition remove_grocery_item (item : string) (d : database) : database :=
  with_grocery d
    (List.filter (fun r => negb (String.eqb (grocery_item r) item)) (grocery d)).

Definition clear_grocery (only_checked : bool) (d : database) : database :=
  if only_checked
  then with_grocery d
         (List.filter (fun r => negb (match grocery_checked r with
                                      | Some 1 => true | _ => false end)) (grocery d))
  else with_grocery d [].

(** *** Utilities *)

(** [{name.lower(): qty for name, qty in list_pantry()}] *)
Definition pantry_dict (d : database) : gmap string string :=
  foldl (fun m nq => <[lower nq.1 := nq.2]> m) ∅ (list_pantry d).

(** The loop of [compute_missing_ingredients]; [missing] is the list built
    so far.  [.lower()] exists on [str] only. *)
Fixpoint missing_loop (pantry : gmap string string) (ings : list dict)
    (missing : list string) : outcome (list string) :=
  match ings with
  | [] => Ok missing
  | ing :: rest =>
      match dict_get_default "name" (JStr "") ing with
      | JStr s =>
          let name := lower s in
          if str_empty name then missing_loop pantry rest missing
          else if negb (bool_decide (is_Some (pantry !! name)))
                  || str_empty (default_or (pantry !! name) "")
          then missing_loop pantry rest (missing ++ [s])
          else missing_loop pantry rest missing
      | _ => Raise AttributeError
      end
  end.

Definition compute_missing_ingredients (d : database) (recipe : Recipe)
    : outcome (list string) :=
  missing_loop (pantry_dict d) (ingredients recipe) [].

(** ** [app/services/gemini_service.py] *)

Fixpoint starts_with_nocase (p s : string) : bool :=
  match p, s with
  | EmptyString, _ => true
  | String a p', String b s' =>
      if Ascii.eqb (fold_az a) (fold_az b) then starts_with_nocase p' s' else false
  | String _ _, EmptyString => false
  end.

Fixpoint count_space (s : string) : nat :=
  match s with
  | String c s' => if isspace c then S (count_space s') else O
  | EmptyString => O
  end.

(** How many characters the pattern of [request_json], three backticks at
    the start of a line with an optional word json and any whitespace after
    them, or else three backticks at the end of a line, matches at the head
    of [s]; [bol] says that [s] starts a line; 0 is no match.  The flags are
    IGNORECASE and MULTILINE. *)
Definition fence_match (bol : bool) (s : string) : nat :=
  if starts_with "```" s then
    let r := str_drop 3 s in
    if bol then
      if starts_with_nocase "json" r
      then 3 + 4 + count_space (str_drop 4 r)
      else 3 + count_space r
    else
      match r with
      | EmptyString => 3
      | String c _ => if Ascii.eqb c newline then 3 else 0
      end
  else 0.

(** [re.sub(pattern, "", s)]: scan left to right, drop every match; [skip]
    counts the characters of the current match still to drop. *)
Fixpoint sub_fences_from (skip : nat) (bol : bool) (s : string) : string :=
  match s with
  | EmptyString => EmptyString
  | String c s' =>
      let bol' := Ascii.eqb c newline in
      match skip with
      | S k => sub_fences_from k bol' s'
      | O =>
          match fence_match bol s with
          | S k => sub_fences_from k bol' s'
          | O => String c (sub_fences_from O bol' s')
          end
      end
  end.

Definition sub_fences (s : string) : string := sub_fences_from 0 true s.

Definition loads (s : string) : outcome json :=
  of_option JSONDecodeError (json_loads s).

(** The inner [request_json] of [_generate_json], as a function of
    [response.text]: direct parse, then the parse of the text without code
    fences, then the parse of the span from the first opening brace to the
    last closing brace.  A bare [raise] re-raises the error of the second
    parse. *)
Definition request_json (response_text : string) : outcome json :=
  let txt := strip (if str_empty response_text then "{}" else response_text) in
  try_except (loads txt) (fun _ =>
    let cleaned := strip (sub_fences txt) in
    try_except (loads cleaned) (fun e =>
      match find_char "{" cleaned, rfind_char "}" cleaned with
      | Some start, Some stop =>
          if (start <? stop)%nat
          then loads (str_take (stop + 1 - start) (str_drop start cleaned))
          else Raise e
      | _, _ => Raise e
      end)).

Record idea : Set := {
  idea_title : string;
  idea_description : string;
  idea_ingredients : list (string * string);   (* name, quantity *)
  idea_steps : list string;
  idea_time_minutes : Z;
  idea_difficulty : string;
  idea_categories : list string
}.

Record suggestions : Set := {
  match_titles : list string;
  ideas : list idea;
  substitutions : list string
}.

Section Gemini.
Context `{PyFloat}.

(** [[str(x) for x in v][:n]] *)
Definition str_list (n : nat) (v : json) : outcome (list string) :=
  let? l := py_iter v in Ok (take n (map py_str l)).

(** One round of the ingredient comprehension: [None] when the filter
    [str(i.get("name", "")).strip()] is empty. *)
Definition normalize_ingredient (i : json) : outcome (option (string * string)) :=
  let? probe := py_get "name" (JStr "") i in
  if str_empty (strip (py_str probe)) then Ok None
  else
    let? name := py_get "name" (JStr "") i in
    let? quantity := py_get "quantity" (JStr "") i in
    Ok (Some (str_take 120 (py_str name), str_take 120 (py_str quantity))).

(** The dict display inside the [try] of the ideas loop. *)
Definition normalize_idea (raw : json) : outcome idea :=
  let? t := py_get "title" (JStr "AI Idea") raw in
  let? de := py_get "description" (JStr "") raw in
  let? ings_v := py_get "ingredients" (JArr []) raw in
  let? ings_l := py_iter ings_v in
  let? ings := map_outcome normalize_ingredient ings_l in
  let? steps_v := py_get "steps" (JArr []) raw in
  let? sts := str_list 30 steps_v in
  let? tm_v := py_get "time_minutes" (JInt 0) raw in
  let? tm := py_int (py_or tm_v (JInt 0)) in
  let? df := py_get "difficulty" (JStr "Easy") raw in
  let? cats_v := py_get "categories" (JArr []) raw in
  let? cats := str_list 10 cats_v in
  Ok {| idea_title := str_take 120 (py_str t);
        idea_description := str_take 2000 (py_str de);
        idea_ingredients := omap (fun x => x) ings;
        idea_steps := sts;
        idea_time_minutes := tm;
        idea_difficulty := str_take 20 (py_str df);
        idea_categories := cats |}.

(** [for idea in ...: try: ideas.append(...) except Exception: continue] *)
Fixpoint ideas_loop (raw : list json) (ideas : list idea) : list idea :=
  match raw with
  | [] => ideas
  | x :: rest =>
      match normalize_idea x with
      | Ok i => ideas_loop rest (ideas ++ [i])
      | Raise _ => ideas_loop rest ideas
      end
  end.

(** [suggest_from_ingredients] from the line after [_generate_json]
    returned [data]. *)
Definition suggest_from_ingredients (data : json) : outcome suggestions :=
  let? mt_v := py_get "match_titles" (JArr []) data in
  let? mt := str_list 20 mt_v in
  let? ideas_raw := py_get "ideas" (JArr []) data in
  let? head := py_slice 10 ideas_raw in
  let? entries := py_iter head in
  let ideas := ideas_loop entries [] in
  let? subs_v := py_get "substitutions" (JArr []) data in
  let? subs := str_list 20 subs_v in
  Ok {| match_titles := mt; ideas := ideas; substitutions := subs |}.

(** ** [app/ui/widgets/recipe_list.py]: the local fallback of [on_result] *)

Definition ingredient_names (r : Recipe) : list string :=
  map (fun ing => lower (py_str (dict_get_default "name" (JStr "") ing)))
      (ingredients r).

Definition recipe_score (terms : list string) (r : Recipe) : Z :=
  let names := ingredient_names r in
  foldl (fun score t =>
           if str_empty t then score
           else if existsb (contains t) names then score + 1 else score)
        0 terms.

Definition score_all (terms : list string) (recipes : list Recipe)
    : list (Z * Recipe) :=
  flat_map (fun r => let score := recipe_score terms r in
                     if 0 <? score then [(score, r)] else []) recipes.

(** The sort key [(-x[0], x[1].title.lower())], compared as tuples. *)
Definition scored_le (a b : Z * Recipe) : bool :=
  if - a.1 <? - b.1 then true
  else if - a.1 =? - b.1 then String.leb (lower (title a.2)) (lower (title b.2))
  else false.

Definition local_matches (ings : list string) (recipes : list Recipe)
    : list Recipe :=
  let terms := map lower ings in
  let scored := sort_by scored_le (score_all terms recipes) in
  map snd (take 12 scored).

End Gemini.

(** ** Instances used to run the model *)

(** Exact decimal arithmetic on the literal, in place of binary64. *)
Definition decimal_parts (lit : string) : option (bool * Z * Z) :=
  let '(neg, body) :=
    match lit with
    | String c r => if Ascii.eqb c "-" then (true, r) else (false, lit)
    | EmptyString => (false, lit)
    end in
  let '(ip, r1) := span_digits body in
  let '(fr, r2) := scan_frac r1 in
  let '(ex, _) := scan_exp r2 in
  if str_empty ip then None
  else
    let e := match ex with
             | String _ digits => default_or (int_of_str digits) 0
             | EmptyString => 0
             end in
    Some (neg, digits_val 0 (ip +:+ str_drop 1 fr), e - Z.of_nat (String.length (str_drop 1 fr))).

Definition decimal_float : PyFloat := {|
  float_bool lit :=
    match decimal_parts lit with
    | Some (_, m, _) => negb (m =? 0)
    | None => true
    end;
  float_int lit :=
    match decimal_parts lit with
    | Some (neg, m, e) =>
        let v := if 0 <=? e then m * 10 ^ e else m / 10 ^ (- e) in
        Ok (if neg then - v else v)
    | None => Raise (if String.eqb lit "NaN" then ValueError else OverflowError)
    end;
  float_repr lit := lit
|}.

(** Validation that accepts an item only when it already has the declared
    type. *)
Definition exact_types : Pydantic := {|
  coerce_dict v := match v with JObj m => Some m | _ => None end;
  coerce_str v := match v with JStr s => Some s | _ => None end;
  coerce_dict_obj := fun _ => eq_refl;
  coerce_str_str := fun _ => eq_refl
|}.

(** ** Vocabulary of the statements *)

Fixpoint all_space (s : string) : bool :=
  match s with
  | EmptyString => true
  | String c s' => isspace c && all_space s'
  end.

(** A string that does not start with whitespace. *)
Definition no_lead_space (s : string) : Prop :=
  match s with
  | EmptyString => True
  | String c _ => isspace c = false
  end.

(** A string that [strip] leaves as it is. *)
Definition stripped (s : string) : Prop := strip s = s.

Definition pantry_row_stripped (r : pantry_row) : Prop :=
  stripped (pantry_item r) /\ stripped (coalesce (pantry_quantity r)).

Definition grocery_row_stripped (r : grocery_row) : Prop :=
  stripped (grocery_item r) /\ stripped (coalesce (grocery_quantity r)).

Definition rows_stripped (d : database) : Prop :=
  Forall pantry_row_stripped (pantry d) /\ Forall grocery_row_stripped (grocery d).

(** The write operations of the data-access layer on pantry, grocery and
    favorites, and a run of them. *)
Inductive write_op : Set :=
| UpsertPantry (item quantity : string)
| RemovePantry (item : string)
| UpsertGrocery (item quantity : string) (checked : bool)
| SetGroceryChecked (item : string) (checked : bool)
| RemoveGrocery (item : string)
| ClearGrocery (only_checked : bool)
| SetFavorite (recipe_id : Z) (favorite : bool).

Definition apply_op (o : write_op) (d : database) : database :=
  match o with
  | UpsertPantry i q => upsert_pantry_item i q d
  | RemovePantry i => remove_pantry_item i d
  | UpsertGrocery i q c => upsert_grocery_item i q c d
  | SetGroceryChecked i c => set_grocery_checked i c d
  | RemoveGrocery i => remove_grocery_item i d
  | ClearGrocery b => clear_grocery b d
  | SetFavorite i b =>
      match set_favorite i b d with Ok d' => d' | Raise _ => d end
  end.

Definition run (ops : list write_op) (d : database) : database :=
  foldl (fun d o => apply_op o d) d ops.

(** The grocery entry stored under an item name: quantity and flag as
    [list_grocery] reports them. *)
Definition grocery_entry (item : string) (d : database) : option (string * bool) :=
  match List.find (fun r => String.eqb (grocery_item r) item) (grocery d) with
  | Some r => Some (coalesce (grocery_quantity r), negb (checked_value r =? 0))
  | None => None
  end.

(** The quantity the pantry holds for a lower-cased name: that of the last
    row, in the order of [list_pantry], whose lower-cased item is the name;
    [None] when there is no such row. *)
Definition pantry_lookup (d : database) (name : string) : option string :=
  last (map snd (List.filter (fun nq => String.eqb (lower nq.1) name) (list_pantry d))).

(** An ingredient name counts as missing: it is not empty, and its
    lower-cased form has no pantry quantity or an empty one. *)
Definition is_missing (d : database) (name : string) : bool :=
  negb (str_empty name)
  && match pantry_lookup d (lower name) with
     | None => true
     | Some q => str_empty q
     end.

Definition blank_recipe : Recipe :=
  {| rid := None; title := ""; description := ""; ingredients := []; steps := [];
     time_minutes := 0; difficulty := ""; image_path := ""; categories := [] |}.

(** Ascending title, and ascending time with ties by ascending title, on
    recipes; strings compare by code point. *)
Definition by_title (a b : Recipe) : Prop :=
  String.leb (title a) (title b) = true.

Definition by_time_then_title (a b : Recipe) : Prop :=
  time_minutes a < time_minutes b
  \/ (time_minutes a = time_minutes b /\ String.leb (title a) (title b) = true).

Section DaoVocabulary.
Context `{Pydantic}.

(** The recipe a stored row loads to ([blank_recipe] if it does not
    load). *)
Definition loaded (r : recipe_row) : Recipe :=
  match from_row (Some r) with Ok rec => rec | Raise _ => blank_recipe end.

(** A stored row that loads and whose title and time columns have the
    storage classes of the data model, text and integer. *)
Definition stored_ok (r : recipe_row) : Prop :=
  exists rec, from_row (Some r) = Ok rec
              /\ col_title r = SText (title rec)
              /\ col_time_minutes r = SInt (time_minutes rec).

Definition has_title (d : database) (t : string) : bool :=
  existsb (fun r => sql_eqb (col_title r) (SText t)) (recipes d).

(** The stored recipe of a title: the last row under that title. *)
Definition recipe_titled (d : database) (t : string) : option Recipe :=
  match last (List.filter (fun r => sql_eqb (col_title r) (SText t)) (recipes d)) with
  | Some r => Some (loaded r)
  | None => None
  end.
End DaoVocabulary.

Section FallbackVocabulary.
Context `{PyFloat}.

(** A query term matches a recipe: the term is not empty and, lower-cased,
    is a substring of some lower-cased ingredient name. *)
Definition matches_term (r : Recipe) (t : string) : bool :=
  negb (str_empty t) && existsb (contains (lower t)) (ingredient_names r).

(** How many of the query terms, counted with repetition, match. *)
Definition match_count (ings : list string) (r : Recipe) : Z :=
  Z.of_nat (length (List.filter (matches_term r) ings)).

(** Higher count first; ties by ascending title, respectively by ascending
    lower-cased title. *)
Definition ranked_by_title (ings : list string) (a b : Recipe) : Prop :=
  match_count ings b < match_count ings a
  \/ (match_count ings a = match_count ings b
      /\ String.leb (title a) (title b) = true).

Definition ranked_by_lower_title (ings : list string) (a b : Recipe) : Prop :=
  match_count ings b < match_count ings a
  \/ (match_count ings a = match_count ings b
      /\ String.leb (lower (title a)) (lower (title b)) = true).
End FallbackVocabulary.

(** What a column holding embedded JSON decodes to: [None] when the column
    is NULL, zero or the empty text (nothing is decoded), when it is not
    text, and when the text is not valid JSON. *)
Definition parses (v : sqlval) : option json :=
  match v with
  | SText s => if str_empty s then None else json_loads s
  | SNull | SInt _ => None
  end.

Definition is_str (j : json) : bool := match j with JStr _ => true | _ => false end.


(** A stored row whose embedded ingredients are the JSON scalar 5. *)
Definition row_with_scalar_json : recipe_row :=
  {| col_id := SInt 1; col_title := SText "Toast"; col_description := SText "";
     col_ingredients_json := SText "5"; col_steps_json := SText "[]";
     col_time_minutes := SInt 5; col_difficulty := SText "Easy";
     col_image_path := SText ""; col_categories := SText "Breakfast" |}.

Definition within (n : nat) (s : string) : Prop := (String.length s <= n)%nat.

(** The caps on one normalised idea. *)
Definition idea_clamped (i : idea) : Prop :=
  within 120 (idea_title i)
  /\ within 2000 (idea_description i)
  /\ Forall (fun nq => within 120 nq.1 /\ within 120 nq.2) (idea_ingredients i)
  /\ within 20 (idea_difficulty i)
  /\ (length (idea_steps i) <= 30)%nat
  /\ (length (idea_categories i) <= 10)%nat.

Section NormalisationVocabulary.
Context `{PyFloat}.

(** The idea an entry of the ideas array is rebuilt to, if the rebuild
    does not raise. *)
Definition normalized (x : json) : option idea :=
  match normalize_idea x with Ok i => Some i | Raise _ => None end.

(** An ingredient object is kept when its name is not blank, and is then
    cut to 120 characters of name and of quantity. *)
Definition kept_ingredient (g : dict) : bool :=
  negb (str_empty (strip (py_str (dict_get_default "name" (JStr "") g)))).

Definition clamp_ingredient (g : dict) : string * string :=
  (str_take 120 (py_str (dict_get_default "name" (JStr "") g)),
   str_take 120 (py_str (dict_get_default "quantity" (JStr "") g))).

(** Field by field, what a rebuilt idea holds of the object [f] it comes
    from. *)
Definition rebuilt_from (f : dict) (i : idea) : Prop :=
  idea_title i = str_take 120 (py_str (dict_get_default "title" (JStr "AI Idea") f))
  /\ idea_description i = str_take 2000 (py_str (dict_get_default "description" (JStr "") f))
  /\ idea_difficulty i = str_take 20 (py_str (dict_get_default "difficulty" (JStr "Easy") f))
  /\ (forall gs, dict_get_default "ingredients" (JArr []) f = JArr (map JObj gs) ->
        idea_ingredients i = map clamp_ingredient (List.filter kept_ingredient gs))
  /\ (forall l, dict_get_default "steps" (JArr []) f = JArr l ->
        idea_steps i = take 30 (map py_str l))
  /\ (forall l, dict_get_default "categories" (JArr []) f = JArr l ->
        idea_categories i = take 10 (map py_str l)).

(** The claim's account of one entry of the ideas array, written from its
    words and not from the loop: an entry is rebuilt when it is an object
    whose ingredients can be iterated and are objects, whose steps and
    categories can be iterated and whose time converts to an integer; it
    then becomes the idea with the capped fields, blank-named ingredients
    dropped.  Every other entry is dropped. *)
Definition items_of (v : json) : option (list json) :=
  match py_iter v with Ok l => Some l | Raise _ => None end.

Definition as_object (x : json) : option dict :=
  match x with JObj g => Some g | _ => None end.

Definition int_or_zero (v : json) : option Z :=
  match py_int (py_or v (JInt 0)) with Ok z => Some z | Raise _ => None end.

Definition rebuild (x : json) : option idea :=
  f ← as_object x;
  ings ← items_of (dict_get_default "ingredients" (JArr []) f);
  gs ← mapM as_object ings;
  sts ← items_of (dict_get_default "steps" (JArr []) f);
  tm ← int_or_zero (dict_get_default "time_minutes" (JInt 0) f);
  cats ← items_of (dict_get_default "categories" (JArr []) f);
  Some {| idea_title :=
            str_take 120 (py_str (dict_get_default "title" (JStr "AI Idea") f));
          idea_description :=
            str_take 2000 (py_str (dict_get_default "description" (JStr "") f));
          idea_ingredients := map clamp_ingredient (List.filter kept_ingredient gs);
          idea_steps := take 30 (map py_str sts);
          idea_time_minutes := tm;
          idea_difficulty :=
            str_take 20 (py_str (dict_get_default "difficulty" (JStr "Easy") f));
          idea_categories := take 10 (map py_str cats) |}.
End NormalisationVocabulary.

(** A response text put between code fences, the opening one tagged json;
    [ws1] and [ws2] are the whitespace after the opening and before the
    closing fence. *)
Definition fenced_with (ws1 ws2 J : string) : string :=
  "```json" +:+ ws1 +:+ J +:+ ws2 +:+ "```".

(** Each fence on a line of its own. *)
Definition fenced (J : string) : string :=
  fenced_with (String newline EmptyString) (String newline EmptyString) J.

(** The decoder did not stop for lack of fuel. *)
Definition not_fuel (p : presult) : Prop := p <> PFuel.

(** The ladder as the spec words it: the first attempt, in order, that
    yields a value.  The attempts are the direct parse, the parse of the
    text without its fences, and the parse of the span from the first
    opening brace to the last closing brace. *)
Fixpoint first_success (attempts : list (option json)) : option json :=
  match attempts with
  | [] => None
  | Some v :: _ => Some v
  | None :: rest => first_success rest
  end.

Definition brace_span (s : string) : option string :=
  match find_char "{" s, rfind_char "}" s with
  | Some start, Some stop =>
      if (start <? stop)%nat
      then Some (str_take (stop + 1 - start) (str_drop start s))
      else None
  | _, _ => None
  end.

Definition parse_ladder (text : string) : option json :=
  let txt := strip (if str_empty text then "{}" else text) in
  let cleaned := strip (sub_fences txt) in
  first_success
    [ json_loads txt;
      json_loads cleaned;
      match brace_span cleaned with Some span => json_loads span | None => None end ].

(** Every backtick of [s] stands between two characters of [s] itself,
    neither of them a line feed; [prev] is the character before [s]. *)
Fixpoint ticks_inside (prev : option ascii) (s : string) : bool :=
  match s with
  | EmptyString => true
  | String c s' =>
      (if Ascii.eqb c backtick then
         match prev, s' with
         | Some p, String n _ => negb (Ascii.eqb p newline) && negb (Ascii.eqb n newline)
         | _, _ => false
         end
       else true)
      && ticks_inside (Some c) s'
  end.

Fixpoint no_tick (s : string) : bool :=
  match s with
  | EmptyString => true
  | String c s' => negb (Ascii.eqb c backtick) && no_tick s'
  end.

Fixpoint no_newline (s : string) : bool :=
  match s with
  | EmptyString => true
  | String c s' => negb (Ascii.eqb c newline) && no_newline s'
  end.

Fixpoint last_char (s : string) : option ascii :=
  match s with
  | EmptyString => None
  | String c s' => match last_char s' with Some d => Some d | None => Some c end
  end.

(** [s] is [r] after a prefix whose backticks are all inside. *)
Definition consumed (s r : string) : Prop :=
  exists c, s = c +:+ r /\ ticks_inside None c = true.

(** The line-start flag of the scanner agrees with the character before. *)
Definition bol_agrees (prev : option ascii) (bol : bool) : Prop :=
  match prev with
  | Some p => bol = Ascii.eqb p newline
  | None => True
  end.

(** The line-start flag after the text [a] has gone by. *)
Definition bol_after (a : string) (bol : bool) : bool :=
  match last_char a with
  | Some c => Ascii.eqb c newline
  | None => bol
  end.

(** ** Sample data for the worked examples *)

Definition quoted (s : string) : string :=
  String dquote (s +:+ String dquote EmptyString).

Definition empty_db : database :=
  {| recipes := []; favorites := []; pantry := []; grocery := [] |}.

Definition sample_pantry_db : database :=
  {| recipes := []; favorites := [];
     pantry := [ {| pantry_item := "Salt"; pantry_quantity := Some "1 kg" |};
                 {| pantry_item := "sugar"; pantry_quantity := Some "" |};
                 {| pantry_item := "EGGS"; pantry_quantity := None |} ];
     grocery := [] |}.

Definition sample_cake : Recipe :=
  {| rid := Some 1; title := "Cake"; description := "";
     ingredients := [ [("name", JStr "salt"); ("quantity", JStr "1 tsp")];
                      [("name", JStr "Sugar")];
                      [("name", JStr "Flour")];
                      [("quantity", JStr "2")];
                      [("name", JStr "eggs")];
                      [("name", JStr "Flour")] ];
     steps := []; time_minutes := 30; difficulty := "Easy"; image_path := "";
     categories := [] |}.

Definition sample_row (i : Z) (t : string) (minutes : Z) : recipe_row :=
  {| col_id := SInt i; col_title := SText t; col_description := SNull;
     col_ingredients_json := SText "[]"; col_steps_json := SText "[]";
     col_time_minutes := SInt minutes; col_difficulty := SText "Easy";
     col_image_path := SNull; col_categories := SText "Dinner, Quick" |}.

Definition sample_recipe (i : Z) (t : string) (minutes : Z) : Recipe :=
  {| rid := Some i; title := t; description := ""; ingredients := []; steps := [];
     time_minutes := minutes; difficulty := "Easy"; image_path := "";
     categories := ["Dinner"; "Quick"] |}.

Definition db_with_recipes (rows : list recipe_row) : database :=
  {| recipes := rows; favorites := []; pantry := []; grocery := [] |}.


Definition sugar_recipe (t name : string) : Recipe :=
  {| rid := None; title := t; description := "";
     ingredients := [[("name", JStr name)]];
     steps := []; time_minutes := 0; difficulty := ""; image_path := "";
     categories := [] |}.

Definition sample_json_text : string := "{" +:+ quoted "a" +:+ ": [1, 2]}".

Definition sample_response : dict :=
  [ ("match_titles", JArr [JStr "Toast"; JInt 3]);
    ("ideas", JArr [ JObj [("title", JStr "Omelette");
                           ("ingredients", JArr [JObj [("name", JStr "egg")];
                                                 JObj [("name", JStr "  ")]]);
                           ("time_minutes", JStr "10")];
                     JStr "not an object";
                     JObj [("steps", JArr [JStr "Mix"])] ]) ].

(** A response with one good idea and [null] for the substitutions. *)
Definition response_with_null : dict :=
  [ ("ideas", JArr [JObj [("title", JStr "Omelette"); ("time_minutes", JInt 10)]]);
    ("substitutions", JNull) ].

(** The first character of [s], if there is one, fails the test [p]. *)
Definition head_not (p : ascii -> bool) (s : string) : Prop :=
  match s with
  | EmptyString => True
  | String c _ => p c = false
  end.

Definition is_dot (c : ascii) : bool := Ascii.eqb c ".".
Definition is_e (c : ascii) : bool := Ascii.eqb c "e" || Ascii.eqb c "E".

(** Text that cannot continue a number literal. *)
Definition inert (s : string) : Prop :=
  head_not is_digit s /\ head_not is_dot s /\ head_not is_e s.

Fixpoint all_digits (s : string) : bool :=
  match s with
  | EmptyString => true
  | String c s' => is_digit c && all_digits s'
  end.

Fixpoint all_json_ws (s : string) : bool :=
  match s with
  | EmptyString => true
  | String c s' => is_json_ws c && all_json_ws s'
  end.

(* ================================================================== *)
(** * Callers of the data-access layer *)

(** ** [app/main.py] *)

(** [MainWindow.add_missing_to_grocery]: the missing ingredients are
    computed first, then each is upserted with an empty quantity and
    unchecked.  The message box and the refresh of the page do not touch
    the tables. *)
Definition add_missing_to_grocery (recipe : Recipe) (d : database) : outcome database :=
  let? missing := compute_missing_ingredients d recipe in
  Ok (foldl (fun d item => upsert_grocery_item item "" false d) d missing).

(** The tables after [MainWindow.open_recipe_detail], which calls
    [add_missing_to_grocery] under [try: ... except Exception: pass]. *)
Definition open_recipe_detail (recipe : Recipe) (d : database) : database :=
  match add_missing_to_grocery recipe d with
  | Ok d' => d'
  | Raise _ => d
  end.

(** [RecipeListPage._toggle_favorite]: the favourite state is persisted and
    the page's set of favourites is read back; a recipe without id is left
    alone.  The result is the new set and the new tables. *)
Definition _toggle_favorite (favs : gset Z) (recipe : Recipe) (favorite : bool)
    (d : database) : outcome (gset Z * database) :=
  match rid recipe with
  | None => Ok (favs, d)
  | Some i =>
      let? d' := set_favorite i favorite d in
      Ok (list_to_set (get_favorites d'), d')
  end.

(** ** Vocabulary of the further statements *)

(** Every grocery flag is the integer 0 or 1, which is what the upsert and
    [set_grocery_checked] write. *)
Definition flag_boolean (r : grocery_row) : Prop :=
  grocery_checked r = Some 0 \/ grocery_checked r = Some 1.

Definition flags_boolean (d : database) : Prop := Forall flag_boolean (grocery d).

Definition keys_unique (d : database) : Prop :=
  favorites_unique d /\ pantry_unique d /\ grocery_unique d.

(** The entry [list_pantry] and [list_grocery] report for a stored row. *)
Definition pantry_listing (r : pantry_row) : string * string :=
  (pantry_item r, coalesce (pantry_quantity r)).

Definition grocery_listing (r : grocery_row) : string * string * bool :=
  (grocery_item r, coalesce (grocery_quantity r), negb (checked_value r =? 0)).

(** Unchecked before checked, and ascending item name within each group. *)
Definition grocery_listed_before (a b : string * string * bool) : Prop :=
  (a.2 = false /\ b.2 = true) \/ (a.2 = b.2 /\ String.leb a.1.1 b.1.1 = true).

(** Lexicographic combination of two orders, the shape of a two-column
    [ORDER BY]. *)
Definition lex_le {A} (le1 le2 : A -> A -> bool) (a b : A) : bool :=
  if le1 a b then (if le1 b a then le2 a b else true) else false.

(** The sort key of the [checked] column. *)
Definition flag_key (r : grocery_row) : sqlval :=
  match grocery_checked r with None => SNull | Some z => SInt z end.

(** An ingredient entry whose name, if present, is a string. *)
Definition name_is_str (ing : dict) : bool :=
  is_str (dict_get_default "name" (JStr "") ing).

(** The grocery table holds, under the name [i], a row with the empty
    quantity and the flag 0: what [add_missing_to_grocery] writes. *)
Definition has_blank_entry (d : database) (i : string) : Prop :=
  exists r, List.find (fun r => String.eqb (grocery_item r) i) (grocery d) = Some r
            /\ grocery_quantity r = Some "" /\ grocery_checked r = Some 0.

(** Modelled from the spec: [app/db/schema.sql] is not among the sources.
    The spec gives a recipe an integer id as its identity; the constraint
    is that the id column holds integers (of 64 bits, as the engine stores
    them), no integer twice. *)
Definition recipes_keyed (d : database) : Prop :=
  NoDup (map col_id (recipes d))
  /\ Forall (fun r => exists i, col_id r = SInt i /\ int64 i = true) (recipes d).

(** ASCII case folding of a whole string, as [LIKE] compares. *)
Fixpoint fold_str (s : string) : string :=
  match s with
  | EmptyString => EmptyString
  | String c s' => String (fold_az c) (fold_str s')
  end.

(** A search text without the two wildcards of [LIKE]. *)
Fixpoint no_wildcard (s : string) : bool :=
  match s with
  | EmptyString => true
  | String c s' => negb (Ascii.eqb c "%") && negb (Ascii.eqb c "_") && no_wildcard s'
  end.

(** A text without NUL. *)
Fixpoint no_nul (s : string) : bool :=
  match s with
  | EmptyString => true
  | String c s' => negb (code c =? 0)%N && no_nul s'
  end.

(** The text [LIKE] sees in a column: a text value up to its first NUL;
    NULL matches no pattern. *)
Definition like_text (v : sqlval) : option string :=
  match v with
  | SNull => None
  | SInt z => Some (pretty z)
  | SText s => Some (until_nul s)
  end.

(** [text] occurs in what [LIKE] sees of the column, letters A..Z
    compared without case. *)
Definition occurs_in (text : string) (v : sqlval) : bool :=
  match like_text v with
  | Some s => contains (fold_str text) (fold_str s)
  | None => false
  end.

(** [t] is the end of [s]. *)
Fixpoint ends_in (t s : string) : bool :=
  String.eqb t s || match s with
                    | EmptyString => false
                    | String _ s' => ends_in t s'
                    end.

(** What [LIKE] sees of the column ends with [text], letters A..Z
    compared without case. *)
Definition ends_with (text : string) (v : sqlval) : bool :=
  match like_text v with
  | Some s => ends_in (fold_str text) (fold_str s)
  | None => false
  end.

Definition not_null (v : sqlval) : bool :=
  match v with SNull => false | _ => true end.

(** ** [json.dumps(v, ensure_ascii=False)] and [insert_recipe] *)

(** What [json.dumps] writes for the binary64 value of a decimal literal:
    [float.__repr__], or one of NaN, Infinity and -Infinity. *)
Class JsonFloat := {
  float_dumps : string -> string
}.

(** One character of a string literal: the quote, the backslash and the
    control characters below U+0020 are escaped, nothing else is. *)
Definition escape_char (c : ascii) : string :=
  if Ascii.eqb c dquote then String backslash (String dquote EmptyString)
  else if Ascii.eqb c backslash then String backslash (String backslash EmptyString)
  else if (code c =? 10)%N then String backslash "n"
  else if (code c =? 13)%N then String backslash "r"
  else if (code c =? 9)%N then String backslash "t"
  else if (code c =? 12)%N then String backslash "f"
  else if (code c =? 8)%N then String backslash "b"
  else if (code c <? 32)%N
  then String backslash
         ("u00" +:+ String (hex_digit (code c / 16))
                      (String (hex_digit (code c mod 16)) EmptyString))
  else String c EmptyString.

Fixpoint escape_body (s : string) : string :=
  match s with
  | EmptyString => EmptyString
  | String c s' => escape_char c +:+ escape_body s'
  end.

Definition encode_basestring (s : string) : string :=
  String dquote (escape_body s +:+ String dquote EmptyString).

Section JsonDumps.
Context `{JsonFloat}.

(** The default separators: a comma and a space between items, a colon and
    a space after a key. *)
Fixpoint json_dumps (v : json) : string :=
  match v with
  | JNull => "null"
  | JBool true => "true"
  | JBool false => "false"
  | JInt z => pretty z
  | JFloat lit => float_dumps lit
  | JStr s => encode_basestring s
  | JArr l => "[" +:+ join ", " (map json_dumps l) +:+ "]"
  | JObj m =>
      "{" +:+ join ", " (map (fun kv => let '(k, x) := kv in
                                         encode_basestring k +:+ ": " +:+ json_dumps x) m)
          +:+ "}"
  end.

(** The text of one member of an object. *)
Definition member_text (kv : string * json) : string :=
  let '(k, x) := kv in encode_basestring k +:+ ": " +:+ json_dumps x.

(** The row [insert_recipe] binds, for the rowid the engine assigns. *)
Definition inserted_row (lastrowid : Z) (title description : string)
    (ingredients : list dict) (steps : list string) (time_minutes : Z)
    (difficulty image_path : string) (categories : option (list string))
    : recipe_row :=
  {| col_id := SInt lastrowid;
     col_title := SText title;
     col_description := SText description;
     col_ingredients_json := SText (json_dumps (JArr (map JObj ingredients)));
     col_steps_json := SText (json_dumps (JArr (map JStr steps)));
     col_time_minutes := SInt (if time_minutes =? 0 then 0 else time_minutes);
     col_difficulty := SText difficulty;
     col_image_path := SText image_path;
     col_categories := SText (join "," (default_or categories [])) |}.

(** [insert_recipe]; [lastrowid] is the rowid the engine assigns to the new
    row, which the function returns.  Binding an integer outside 64 bits
    raises. *)
Definition insert_recipe (lastrowid : Z) (title description : string)
    (ingredients : list dict) (steps : list string) (time_minutes : Z)
    (difficulty image_path : string) (categories : option (list string))
    (d : database) : outcome (Z * database) :=
  let row := inserted_row lastrowid title description ingredients steps
               time_minutes difficulty image_path categories in
  if int64 time_minutes
  then Ok (lastrowid,
           {| recipes := recipes d ++ [row]; favorites := favorites d;
              pantry := pantry d; grocery := grocery d |})
  else Raise OverflowError.

End JsonDumps.

Section SaveIdea.
Context `{JsonFloat} `{Pydantic}.

(** [RecipeListPage._save_ai_idea]: the idea is inserted and the page's
    list is read again; the result is the new list and the new tables. *)
Definition _save_ai_idea (lastrowid : Z) (recipe : Recipe) (d : database)
    : outcome (list Recipe * database) :=
  let? ins := insert_recipe lastrowid (title recipe) (description recipe)
                (ingredients recipe) (steps recipe) (time_minutes recipe)
                (difficulty recipe) (image_path recipe) (Some (categories recipe)) d in
  let? listed := list_recipes ins.2 in
  Ok (listed, ins.2).

End SaveIdea.

(** A JSON value without floating-point numbers whose objects have no key
    twice: every such value is a Python value, and its text decodes to
    itself. *)
Fixpoint plain (v : json) : bool :=
  match v with
  | JNull | JBool _ | JInt _ | JStr _ => true
  | JFloat _ => false
  | JArr l => forallb plain l
  | JObj m => forallb (fun kv => plain kv.2) m && bool_decide (NoDup (map fst m))
  end.

Fixpoint no_comma (s : string) : bool :=
  match s with
  | EmptyString => true
  | String c s' => negb (Ascii.eqb c ",") && no_comma s'
  end.

(** A category label that survives the comma-joined column: not empty,
    stripped, without comma. *)
Definition clean_label (c : string) : Prop :=
  c <> EmptyString /\ stripped c /\ no_comma c = true.

(** The list [[p.strip() for p in s.split(",") if p.strip()]]. *)
Definition split_strip (s : string) : list string :=
  map strip (List.filter (fun c => negb (str_empty (strip c))) (split_on "," s)).

(** The text [s] decodes to [v] and the decoder stops at its end, whatever
    follows that cannot continue a number. *)
Definition decodes (s : string) (v : json) : Prop :=
  exists n, forall x, inert x -> parse_value n (s +:+ x) = POk v x.

(** The first character of a value's text, as far as the decoder cares:
    no whitespace and no closing bracket. *)
Definition opens_value (c : ascii) : bool :=
  negb (is_json_ws c) && negb (Ascii.eqb c "]") && negb (Ascii.eqb c "}").

(** A recipe under the id it is saved with. *)
Definition with_id (i : Z) (r : Recipe) : Recipe :=
  {| rid := Some i; title := title r; description := description r;
     ingredients := ingredients r; steps := steps r;
     time_minutes := time_minutes r; difficulty := difficulty r;
     image_path := image_path r; categories := categories r |}.

(** No stored recipe has the id [i]. *)
Definition fresh_id (i : Z) (d : database) : Prop :=
  forall r, r ∈ recipes d -> col_id r <> SInt i.

(** ** [app/ui/widgets/recipe_list.py]: [_on_suggest] and [on_result] *)

(** The ingredient terms [_on_suggest] reads from the text box; with no
    term it returns without calling the service. *)
Definition suggest_terms (raw_text : string) : list string :=
  split_strip (strip raw_text).

(** The dict [suggest_from_ingredients] returns: the dict display of each
    idea in the loop, and the dict display of the return statement. *)
Definition ingredient_json (nq : string * string) : dict :=
  [("name", JStr nq.1); ("quantity", JStr nq.2)].

Definition idea_json (i : idea) : json :=
  JObj [ ("title", JStr (idea_title i));
         ("description", JStr (idea_description i));
         ("ingredients", JArr (map (fun nq => JObj (ingredient_json nq)) (idea_ingredients i)));
         ("steps", JArr (map JStr (idea_steps i)));
         ("time_minutes", JInt (idea_time_minutes i));
         ("difficulty", JStr (idea_difficulty i));
         ("categories", JArr (map JStr (idea_categories i))) ].

Definition suggestions_json (s : suggestions) : json :=
  JObj [ ("match_titles", JArr (map JStr (match_titles s)));
         ("ideas", JArr (map idea_json (ideas s)));
         ("substitutions", JArr (map JStr (substitutions s))) ].

(** What [on_result] hands to [_render_cards], and the message box it
    shows. *)
Inductive notice : Set :=
| LocalMatchesShown      (* AI unavailable. Showing local matches ... *)
| NoSuggestionsFound.    (* No suggestions found ... *)

Record rendered : Type := {
  shown_items : list Recipe;
  shown_matches : list Recipe;
  shown_ideas : list Recipe;
  shown_notice : option notice
}.

(** The recipe shown for free text of the service. *)
Definition ai_suggestion (raw_text : string) : Recipe :=
  {| rid := None; title := "AI Suggestion"; description := raw_text;
     ingredients := []; steps := []; time_minutes := 0; difficulty := "";
     image_path := ""; categories := [] |}.

Section OnResult.
Context `{PyFloat} `{Pydantic}.

(** [Recipe(title=idea.get("title", "AI Idea"), ...)]: the arguments are
    evaluated first, then the model validates them.  An [int] for the
    integer field and a [str] for a string field are taken as they are. *)
Definition idea_recipe (idea : json) : outcome Recipe :=
  let? t := py_get "title" (JStr "AI Idea") idea in
  let? de := py_get "description" (JStr "") idea in
  let? ings := py_get "ingredients" (JArr []) idea in
  let? sts := py_get "steps" (JArr []) idea in
  let? tm_v := py_get "time_minutes" (JInt 0) idea in
  let? tm := py_int (py_or tm_v (JInt 0)) in
  let? df := py_get "difficulty" (JStr "Easy") idea in
  let? cats := py_get "categories" (JArr []) idea in
  let? t' := of_option ValidationError (coerce_str t) in
  let? de' := of_option ValidationError (coerce_str de) in
  let? ings' := validate_list coerce_dict ings in
  let? sts' := validate_list coerce_str sts in
  let? cats' := validate_list coerce_str cats in
  Ok {| rid := None; title := t'; description := de'; ingredients := ings';
        steps := sts'; time_minutes := tm; difficulty := py_str df;
        image_path := ""; categories := cats' |}.

(** [for idea in ideas_raw: try: ai_ideas.append(Recipe(...)) except
    Exception: continue] *)
Fixpoint ideas_to_recipes (raw : list json) (ai_ideas : list Recipe) : list Recipe :=
  match raw with
  | [] => ai_ideas
  | x :: rest =>
      match idea_recipe x with
      | Ok r => ideas_to_recipes rest (ai_ideas ++ [r])
      | Raise _ => ideas_to_recipes rest ai_ideas
      end
  end.

(** [on_result(data)] for the page's recipe list [recipes] and the terms
    [ings] of the request. *)
Definition on_result (recipes : list Recipe) (ings : list string) (d : database)
    (data : json) : outcome rendered :=
  let? mt_v := py_get "match_titles" (JArr []) data in
  let? mt_l := py_iter mt_v in
  let match_titles := map py_str mt_l in
  let? ideas_raw := py_get "ideas" (JArr []) data in
  let? matched := find_recipes_by_titles d match_titles in
  let? entries := py_iter ideas_raw in
  let ai_ideas := ideas_to_recipes entries [] in
  match matched, ai_ideas with
  | [], [] =>
      match local_matches ings recipes with
      | [] =>
          let? raw_v := py_get "raw" (JStr "") data in
          let raw_text := strip (py_str raw_v) in
          if str_empty raw_text
          then Ok {| shown_items := recipes; shown_matches := matched;
                     shown_ideas := ai_ideas; shown_notice := Some NoSuggestionsFound |}
          else Ok {| shown_items := recipes; shown_matches := matched;
                     shown_ideas := ai_ideas ++ [ai_suggestion raw_text];
                     shown_notice := None |}
      | local =>
          Ok {| shown_items := recipes; shown_matches := local; shown_ideas := [];
                shown_notice := Some LocalMatchesShown |}
      end
  | _, _ =>
      Ok {| shown_items := recipes; shown_matches := matched; shown_ideas := ai_ideas;
            shown_notice := None |}
  end.

End OnResult.

(** The recipe an idea of the service becomes. *)
Definition idea_to_recipe (i : idea) : Recipe :=
  {| rid := None; title := idea_title i; description := idea_description i;
     ingredients := map ingredient_json (idea_ingredients i);
     steps := idea_steps i; time_minutes := idea_time_minutes i;
     difficulty := idea_difficulty i; image_path := "";
     categories := idea_categories i |}.

(** ** [app/services/gemini_service.py]: prompt terms and substitution lines *)

(** [", ".join(sorted(set(i.strip() for i in ingredients if i.strip())))]:
    the set has no order of its own, [sorted] gives it one. *)
Definition ingredient_set (ingredients : list string) : gset string :=
  list_to_set (map strip (List.filter (fun i => negb (str_empty (strip i))) ingredients)).

Definition ingredient_terms (ingredients : list string) : list string :=
  sort_by String.leb (elements (ingredient_set ingredients)).

Definition ingredient_list (ingredients : list string) : string :=
  join ", " (ingredient_terms ingredients).

(** The line boundaries of [str.splitlines] below U+0100: LF, VT, FF, CR,
    FS, GS, RS and NEL; CR LF counts once. *)
Definition is_linebreak (c : ascii) : bool :=
  in_range 10 13 c || in_range 28 30 c || (code c =? 133)%N.

Definition carriage_return : ascii := "013"%char.

Fixpoint splitlines (s : string) : list string :=
  match s with
  | EmptyString => []
  | String c s' =>
      if is_linebreak c then
        EmptyString ::
          (if Ascii.eqb c carriage_return then
             match s' with
             | String c2 s'' => if Ascii.eqb c2 newline then splitlines s'' else splitlines s'
             | EmptyString => splitlines s'
             end
           else splitlines s')
      else
        match splitlines s' with
        | line :: rest =>
            (* the first line of [s'] is empty exactly when [s'] starts with
               a line boundary or is empty; in both cases [c] starts it *)
            String c line :: rest
        | [] => [String c EmptyString]
        end
  end.

(** [str.isalpha] on one character below U+0100: the letters of ASCII, the
    ordinal indicators, the micro sign and the letters of Latin-1. *)
Definition isalpha (c : ascii) : bool :=
  in_range 65 90 c || in_range 97 122 c
  || (code c =? 170)%N || (code c =? 181)%N || (code c =? 186)%N
  || in_range 192 214 c || in_range 216 246 c || in_range 248 255 c.

Fixpoint any_char (p : ascii -> bool) (s : string) : bool :=
  match s with
  | EmptyString => false
  | String c s' => p c || any_char p s'
  end.

(** The characters a line is stripped of: space, hyphen, asterisk, TAB. *)
Definition bullet_chars : string :=
  String " " (String "-" (String "*" (String "009" EmptyString))).

(** The lines [substitutions_for_recipe] returns for the text of the
    response. *)
Definition substitution_lines (text : string) : list string :=
  let lines := map (strip_chars bullet_chars)
                   (List.filter (fun l => negb (str_empty (strip l))) (splitlines text)) in
  take 20 (List.filter (any_char isalpha) lines).

(** Vocabulary: first and last character of a line. *)
Definition first_char (s : string) : option ascii :=
  match s with
  | EmptyString => None
  | String c _ => Some c
  end.

Definition outside (chars : string) (o : option ascii) : Prop :=
  match o with
  | Some c => in_chars chars c = false
  | None => True
  end.

Fixpoint all_chars (p : ascii -> bool) (s : string) : bool :=
  match s with
  | EmptyString => true
  | String c s' => p c && all_chars p s'
  end.

(** ** [app/ui/widgets/cooking_widget.py] *)

(** [l[i]] for an integer index: a negative index counts from the end;
    [None] stands for [IndexError]. *)
Definition list_index {A} (l : list A) (i : Z) : option A :=
  let n := Z.of_nat (length l) in
  if (0 <=? i) && (i <? n) then l !! Z.to_nat i
  else if (- n <=? i) && (i <? 0) then l !! Z.to_nat (n + i)
  else None.

Record CookingWidget : Type := {
  gemini_set : bool;                 (* self.gemini is not None *)
  cooking_recipe : option Recipe;
  step_index : Z;
  title_lbl : string;
  step_meta : string;
  step_text : string;
  prev_enabled : bool;
  next_enabled : bool;
  tip_enabled : bool
}.

(** [CookingWidget._render_step]; [None] stands for an [IndexError]. *)
Definition _render_step (w : CookingWidget) : option CookingWidget :=
  let no_steps :=
    {| gemini_set := gemini_set w; cooking_recipe := cooking_recipe w;
       step_index := step_index w; title_lbl := title_lbl w;
       step_meta := ""; step_text := "This recipe has no steps.";
       prev_enabled := false; next_enabled := false;
       tip_enabled := gemini_set w && bool_decide (is_Some (cooking_recipe w)) |} in
  match cooking_recipe w with
  | None => Some no_steps
  | Some r =>
      match steps r with
      | [] => Some no_steps
      | _ =>
          let total := Z.of_nat (length (steps r)) in
          let i := Z.max 0 (Z.min (step_index w) (total - 1)) in
          match list_index (steps r) i with
          | None => None
          | Some text =>
              Some {| gemini_set := gemini_set w; cooking_recipe := cooking_recipe w;
                      step_index := i; title_lbl := title_lbl w;
                      step_meta := "Step " +:+ pretty (i + 1) +:+ " of " +:+ pretty total;
                      step_text := text;
                      prev_enabled := 0 <? i; next_enabled := i <? total - 1;
                      tip_enabled := gemini_set w |}
          end
      end
  end.

Definition with_step (w : CookingWidget) (i : Z) : CookingWidget :=
  {| gemini_set := gemini_set w; cooking_recipe := cooking_recipe w;
     step_index := i; title_lbl := title_lbl w; step_meta := step_meta w;
     step_text := step_text w; prev_enabled := prev_enabled w;
     next_enabled := next_enabled w; tip_enabled := tip_enabled w |}.

Definition set_recipe (recipe : Recipe) (w : CookingWidget) : option CookingWidget :=
  _render_step
    {| gemini_set := gemini_set w; cooking_recipe := Some recipe; step_index := 0;
       title_lbl := "Cooking: " +:+ title recipe; step_meta := step_meta w;
       step_text := step_text w; prev_enabled := prev_enabled w;
       next_enabled := next_enabled w; tip_enabled := tip_enabled w |}.

Definition _prev (w : CookingWidget) : option CookingWidget :=
  _render_step (with_step w (step_index w - 1)).

Definition _next (w : CookingWidget) : option CookingWidget :=
  _render_step (with_step w (step_index w + 1)).

Definition tip_question : string :=
  "Provide a concise, practical tip for executing the current step safely and effectively.".

(** [CookingWidget._ask_tip] up to the request: [None] stands for an
    [IndexError], [Some None] for a return without request, and
    [Some (Some (question, context))] for the request made. *)
Definition _ask_tip (w : CookingWidget) : option (option (string * string)) :=
  if negb (gemini_set w) then Some None
  else
    match cooking_recipe w with
    | None => Some None
    | Some r =>
        match steps r with
        | [] => Some None
        | _ =>
            match list_index (steps r) (step_index w) with
            | None => None
            | Some text =>
                Some (Some (tip_question,
                            "Recipe: " +:+ title r
                              +:+ String newline ("Current Step: " +:+ text)))
            end
        end
    end.

(** The two buttons, and a run of clicks. *)
Inductive click : Set := ClickPrev | ClickNext.

Definition do_click (c : click) (w : CookingWidget) : option CookingWidget :=
  match c with
  | ClickPrev => _prev w
  | ClickNext => _next w
  end.

Fixpoint do_clicks (cs : list click) (w : CookingWidget) : option CookingWidget :=
  match cs with
  | [] => Some w
  | c :: cs' =>
      match do_click c w with
      | Some w' => do_clicks cs' w'
      | None => None
      end
  end.

(** The guide shows a step of the recipe [r]: the index is in range, the
    text is the step under it, and each button is enabled exactly when
    there is a step on its side. *)
Definition shows_step (r : Recipe) (w : CookingWidget) : Prop :=
  let total := Z.of_nat (length (steps r)) in
  cooking_recipe w = Some r
  /\ 0 <= step_index w < total
  /\ steps r !! Z.to_nat (step_index w) = Some (step_text w)
  /\ step_meta w = "Step " +:+ pretty (step_index w + 1) +:+ " of " +:+ pretty total
  /\ prev_enabled w = (0 <? step_index w)
  /\ next_enabled w = (step_index w <? total - 1)
  /\ tip_enabled w = gemini_set w.

(** ** [GeminiService._generate_json]: retries and the free-text fallback *)

(** What one call of [generate_content], read through [response.text],
    comes to: a text ([None] and the empty text are both the empty text
    here, as [or] treats them alike), or an exception with its message. *)
Inductive api_result : Set :=
| ApiText (text : string)
| ApiError (message : string).

(** The part of the service object the calls read and write, and the
    number of requests made so far. *)
Record service : Set := {
  model_name : string;
  requests : nat
}.

Definition _FALLBACK_MODELS : list string :=
  [ "gemini-1.5-flash-latest"; "gemini-1.5-flash-002";
    "gemini-1.5-flash-8b"; "gemini-1.5-pro-002" ].

(** [GeminiService._is_not_found] on the message [str(e)]. *)
Definition _is_not_found (msg : string) : bool :=
  contains "NotFound" msg || contains "404" msg || contains "not found" (lower msg).

Section GenerateJson.

(** The world outside: whether [genai.GenerativeModel(name)] constructs,
    what the request number [n] to the model [name] returns with or
    without the JSON response type, and the message of the decode error
    that [request_json] raises on a response text. *)
Variable model_constructs : string -> bool.
Variable respond : nat -> string -> bool -> api_result.
Variable decode_message : string -> string.

(** [GeminiService._try_switch_model]: the first fallback, other than the
    current model, that constructs. *)
Definition _try_switch_model (st : service) : bool * service :=
  match List.find (fun name => negb (String.eqb name (model_name st))
                               && model_constructs name) _FALLBACK_MODELS with
  | Some name => (true, {| model_name := name; requests := requests st |})
  | None => (false, st)
  end.

Definition after_request (st : service) : service :=
  {| model_name := model_name st; requests := S (requests st) |}.

(** One run of the inner [request_json]: the request with the JSON
    response type, then the parse ladder. *)
Definition request_json_call (st : service) : (string + json) * service :=
  match respond (requests st) (model_name st) true with
  | ApiError m => (inl m, after_request st)
  | ApiText t =>
      match request_json t with
      | Ok v => (inr v, after_request st)
      | Raise _ => (inl (decode_message t), after_request st)
      end
  end.

(** The last resort: the request without the JSON response type, its text
    under the fallback key. *)
Definition plain_text_call (fallback_key : string) (st : service)
    : (string + json) * service :=
  match respond (requests st) (model_name st) false with
  | ApiError m => (inl m, after_request st)
  | ApiText t => (inr (JObj [(fallback_key, JStr t)]), after_request st)
  end.

(** [GeminiService._generate_json]; [inl] is the message of the exception
    that leaves the function. *)
Definition _generate_json (fallback_key : string) (st : service)
    : (string + json) * service :=
  match request_json_call st with
  | (inr v, st1) => (inr v, st1)
  | (inl e, st1) =>
      if _is_not_found e then
        match _try_switch_model st1 with
        | (true, st2) =>
            match request_json_call st2 with
            | (inr v, st3) => (inr v, st3)
            | (inl _, st3) => plain_text_call fallback_key st3
            end
        | (false, st2) => plain_text_call fallback_key st2
        end
      else plain_text_call fallback_key st1
  end.

End GenerateJson.

(** ** The card grid of the recipe list (app/ui/widgets/recipe_list.py) *)

(** What [grid.addWidget] is given: one of the two header labels, or a
    [RecipeCard] built for a recipe, with [is_ai_idea] (the card has the
    save handler exactly when it is set). *)
Inductive grid_widget : Type :=
| header_matches
| header_ai
| RecipeCard (rec : Recipe) (is_ai : bool).

(** One [grid.addWidget(widget, row, col, 1, span)]. *)
Record placement : Type := {
  placed : grid_widget;
  at_row : nat;
  at_col : nat;
  col_span : nat
}.

(** The grid with the [nonlocal] cursor of [_render_cards]. *)
Record card_grid : Type := {
  grid : list placement;
  row : nat;
  col : nat
}.

Definition col_count : nat := 3.

(** The inner [add_card]. *)
Definition add_card (is_ai : bool) (g : card_grid) (rec : Recipe) : card_grid :=
  let cells := grid g ++ [ {| placed := RecipeCard rec is_ai;
                              at_row := row g; at_col := col g; col_span := 1 |} ] in
  let col' := (col g + 1)%nat in
  if (col_count <=? col')%nat
  then {| grid := cells; row := (row g + 1)%nat; col := 0 |}
  else {| grid := cells; row := row g; col := col' |}.

(** [if match_items:] and [if ai_ideas:]: the header across the row, the
    cards, and the move to the start of the next row. *)
Definition add_section (header : grid_widget) (is_ai : bool) (recs : list Recipe)
    (g : card_grid) : card_grid :=
  match recs with
  | [] => g
  | _ :: _ =>
      let g1 := {| grid := grid g ++ [ {| placed := header; at_row := row g;
                                          at_col := 0; col_span := col_count |} ];
                   row := (row g + 1)%nat; col := 0 |} in
      let g2 := fold_left (add_card is_ai) recs g1 in
      if (col g2 =? 0)%nat then g2
      else {| grid := grid g2; row := (row g2 + 1)%nat; col := 0 |}
  end.

(** [RecipeListPage._render_cards]: the placements, in the order of the
    calls, on the grid that [_clear_cards] has emptied. *)
Definition _render_cards (items match_items ai_ideas : list Recipe) : list placement :=
  let g0 := {| grid := []; row := 0; col := 0 |} in
  let g1 := add_section header_matches false match_items g0 in
  let g2 := add_section header_ai true ai_ideas g1 in
  grid (fold_left (add_card false) items g2).

(** The widgets of one section, in order. *)
Definition section_widgets (header : grid_widget) (is_ai : bool) (recs : list Recipe)
    : list grid_widget :=
  match recs with
  | [] => []
  | _ :: _ => header :: map (fun r => RecipeCard r is_ai) recs
  end.

(** [p] ends before [q] starts, reading the grid row by row. *)
Definition placed_before (p q : placement) : Prop :=
  (at_row p < at_row q)%nat
  \/ (at_row p = at_row q /\ (at_col p + col_span p <= at_col q)%nat).

(** The cell at ([r], [c]) lies under the placement. *)
Definition covers (p : placement) (r c : nat) : Prop :=
  at_row p = r /\ (at_col p <= c < at_col p + col_span p)%nat.

(** A placement as [_render_cards] makes them: inside the columns, a
    header across the row from its first column, a card in one cell. *)
Definition fits (p : placement) : Prop :=
  (at_col p + col_span p <= col_count)%nat
  /\ match placed p with
     | RecipeCard _ _ => col_span p = 1%nat
     | _ => at_col p = 0%nat /\ col_span p = col_count
     end.

(** The invariant of the cursor: the placements made so far are in
    reading order, each fits, and all end before the cursor, which is
    inside the columns too. *)
Definition grid_ok (g : card_grid) : Prop :=
  StronglySorted placed_before (grid g)
  /\ Forall (fun p => fits p
                      /\ ((at_row p < row g)%nat
                          \/ (at_row p = row g /\ (at_col p + col_span p <= col g)%nat)))
            (grid g)
  /\ (col g < col_count)%nat.

(** ** More sample data for the worked examples *)

(** The float form for the worked examples, which hold no floats. *)
Definition literal_dumps : JsonFloat := {| float_dumps lit := lit |}.

Definition sample_ops : list write_op :=
  [ UpsertPantry " rice " "1 kg"; UpsertGrocery "milk" "1 l" true;
    UpsertGrocery "eggs" "" false; SetFavorite 3 true; SetFavorite 3 true;
    RemovePantry "rice"; ClearGrocery true ].

Definition sample_grocery_db : database :=
  {| recipes := []; favorites := []; pantry := [];
     grocery := [ {| grocery_item := "milk"; grocery_quantity := Some "1 l";
                     grocery_checked := Some 1 |};
                  {| grocery_item := "eggs"; grocery_quantity := None;
                     grocery_checked := Some 0 |};
                  {| grocery_item := "apples"; grocery_quantity := Some "";
                     grocery_checked := Some 1 |};
                  {| grocery_item := "bread"; grocery_quantity := Some "";
                     grocery_checked := Some 0 |} ] |}.

Definition sample_library : database :=
  db_with_recipes [sample_row 1 "C" 20; sample_row 2 "A" 45].

Definition sample_suggestions : suggestions :=
  {| match_titles := ["A"; "Z"]; ideas := []; substitutions := ["No eggs: use banana"] |}.

(* ================================================================== *)
(** * Properties *)

(** Closes a decidable closed goal by evaluation. *)
Ltac by_decide := apply (bool_decide_unpack _); vm_compute; exact I.

(** ** Strings *)

Lemma app_cons c s t : String c s +:+ t = String c (s +:+ t).
Proof. reflexivity. Qed.

Lemma app_empty_l s : EmptyString +:+ s = s.
Proof. reflexivity. Qed.

Lemma app_empty_r s : s +:+ EmptyString = s.
Proof. induction s as [|c s IH]; [reflexivity|]. rewrite ?app_cons; simpl; rewrite IH. reflexivity. Qed.

Lemma app_ne_l a b : a <> EmptyString -> a +:+ b <> EmptyString.
Proof. destruct a; [congruence|discriminate]. Qed.

Lemma app_ne_r a b : b <> EmptyString -> a +:+ b <> EmptyString.
Proof. destruct a; [auto|discriminate]. Qed.

Lemma app_assoc_str s t u : (s +:+ t) +:+ u = s +:+ (t +:+ u).
Proof.
  induction s as [|c s IH]; [reflexivity|]. rewrite ?app_cons; simpl; rewrite IH. reflexivity.
Qed.

Lemma length_app_str s t :
  String.length (s +:+ t) = (String.length s + String.length t)%nat.
Proof. induction s as [|c s IH]; simpl; [reflexivity|]. rewrite IH. reflexivity. Qed.

Lemma str_empty_true s : str_empty s = true <-> s = EmptyString.
Proof. destruct s; simpl; split; congruence. Qed.

Lemma lstrip_space_app w s : all_space w = true -> lstrip (w +:+ s) = lstrip s.
Proof.
  induction w as [|c w IH]; simpl; [reflexivity|].
  intros [Hc Hw]%andb_true_iff. rewrite ?app_cons. simpl. rewrite Hc. auto.
Qed.

Lemma rstrip_all_space w : all_space w = true -> rstrip w = EmptyString.
Proof.
  induction w as [|c w IH]; simpl; [reflexivity|].
  intros [Hc Hw]%andb_true_iff. rewrite IH, Hc by assumption. reflexivity.
Qed.

Lemma rstrip_app_space s w : all_space w = true -> rstrip (s +:+ w) = rstrip s.
Proof.
  intros Hw. induction s as [|c s IH].
  - rewrite app_empty_l. apply rstrip_all_space, Hw.
  - rewrite ?app_cons. simpl. rewrite IH. reflexivity.
Qed.

Lemma lstrip_app_nonspace s t :
  all_space s = false -> lstrip (s +:+ t) = lstrip s +:+ t.
Proof.
  induction s as [|c s IH]; simpl; [discriminate|].
  rewrite ?app_cons. simpl. destruct (isspace c); simpl; auto.
Qed.

Lemma lstrip_all_space w : all_space w = true -> lstrip w = EmptyString.
Proof.
  induction w as [|c w IH]; simpl; [reflexivity|].
  intros [Hc Hw]%andb_true_iff. rewrite Hc. auto.
Qed.

(** Whitespace around a string does not survive [strip]. *)
Lemma strip_surrounding w1 s w2 :
  all_space w1 = true -> all_space w2 = true ->
  strip (w1 +:+ s +:+ w2) = strip s.
Proof.
  intros H1 H2. unfold strip. rewrite lstrip_space_app by assumption.
  destruct (all_space s) eqn:Hs.
  - rewrite (lstrip_all_space s Hs).
    assert (all_space (s +:+ w2) = true) as Hsw.
    { clear -Hs H2. induction s as [|c s IH]; simpl in *; [assumption|].
      apply andb_true_iff in Hs as [-> Hs]. rewrite ?app_cons. simpl. auto. }
    rewrite (lstrip_all_space _ Hsw). reflexivity.
  - rewrite lstrip_app_nonspace by assumption. apply rstrip_app_space, H2.
Qed.

Lemma lstrip_no_lead_space s : no_lead_space (lstrip s).
Proof.
  induction s as [|c s IH]; simpl; [exact I|].
  destruct (isspace c) eqn:Hc; [assumption|]. simpl. assumption.
Qed.

Lemma lstrip_fixed s : no_lead_space s -> lstrip s = s.
Proof. destruct s as [|c s]; simpl; [reflexivity|]. intros ->. reflexivity. Qed.

Lemma rstrip_no_lead_space s : no_lead_space s -> no_lead_space (rstrip s).
Proof.
  destruct s as [|c s]; simpl; [auto|]. intros Hc. rewrite Hc. simpl. assumption.
Qed.

Lemma rstrip_idem s : rstrip (rstrip s) = rstrip s.
Proof.
  induction s as [|c s IH]; simpl; [reflexivity|].
  destruct (isspace c && str_empty (rstrip s)) eqn:E; simpl; [reflexivity|].
  rewrite IH, E. reflexivity.
Qed.

Lemma strip_idem s : strip (strip s) = strip s.
Proof.
  unfold strip.
  rewrite (lstrip_fixed (rstrip (lstrip s))).
  - apply rstrip_idem.
  - apply rstrip_no_lead_space, lstrip_no_lead_space.
Qed.

Lemma strip_stripped s : stripped (strip s).
Proof. apply strip_idem. Qed.

Example strip_example : strip "  Olive Oil  " = "Olive Oil".
Proof. reflexivity. Qed.

(** ** Stable insertion sort *)

Section SortBy.
Context {A : Type} (le : A -> A -> bool).

Lemma insert_by_perm x l : insert_by le x l ≡ₚ x :: l.
Proof.
  induction l as [|y l IH]; simpl; [reflexivity|].
  destruct (le x y); [reflexivity|].
  rewrite IH. apply Permutation_swap.
Qed.

Lemma sort_by_perm l : sort_by le l ≡ₚ l.
Proof.
  induction l as [|x l IH]; simpl; [reflexivity|].
  unfold sort_by in *. simpl. rewrite insert_by_perm, IH. reflexivity.
Qed.

Lemma elem_of_sort_by x l : x ∈ sort_by le l <-> x ∈ l.
Proof. rewrite sort_by_perm. reflexivity. Qed.

Hypothesis le_total : forall a b, le a b = true \/ le b a = true.

Lemma insert_by_hd x y l :
  HdRel (fun a b => le a b = true) y l -> le y x = true ->
  HdRel (fun a b => le a b = true) y (insert_by le x l).
Proof.
  intros Hl Hyx. destruct l as [|z l]; simpl.
  - constructor. assumption.
  - destruct (le x z); constructor; [assumption|].
    inversion Hl; assumption.
Qed.

Lemma insert_by_sorted x l :
  Sorted (fun a b => le a b = true) l ->
  Sorted (fun a b => le a b = true) (insert_by le x l).
Proof.
  induction 1 as [|y l Hs IH Hhd]; simpl.
  - repeat constructor.
  - destruct (le x y) eqn:E.
    + constructor; [constructor; assumption|]. constructor. assumption.
    + constructor; [assumption|]. apply insert_by_hd; [assumption|].
      destruct (le_total x y) as [Hxy|Hyx]; congruence.
Qed.

Lemma sort_by_sorted l : Sorted (fun a b => le a b = true) (sort_by le l).
Proof.
  induction l as [|x l IH]; [constructor|].
  apply insert_by_sorted, IH.
Qed.

Hypothesis le_trans : forall a b c, le a b = true -> le b c = true -> le a c = true.

Lemma sort_by_strongly_sorted l :
  StronglySorted (fun a b => le a b = true) (sort_by le l).
Proof.
  apply Sorted_StronglySorted; [|apply sort_by_sorted].
  intros a b c. apply le_trans.
Qed.
End SortBy.

(** ** Grocery upsert *)

Lemma grocery_upsert_idem i q c rows :
  grocery_upsert i q c (grocery_upsert i q c rows) = grocery_upsert i q c rows.
Proof.
  induction rows as [|r rows IH]; simpl.
  - rewrite String.eqb_refl. reflexivity.
  - destruct (String.eqb (grocery_item r) i) eqn:E; simpl; rewrite E.
    + reflexivity.
    + rewrite IH. reflexivity.
Qed.

Lemma grocery_upsert_find i q c rows :
  exists r, List.find (fun r => String.eqb (grocery_item r) i) (grocery_upsert i q c rows) = Some r
            /\ grocery_item r = i
            /\ grocery_quantity r = Some q /\ grocery_checked r = Some c.
Proof.
  induction rows as [|r rows IH]; simpl.
  - rewrite String.eqb_refl. eauto.
  - destruct (String.eqb (grocery_item r) i) eqn:E; simpl; rewrite E.
    + apply String.eqb_eq in E. eauto.
    + exact IH.
Qed.

Lemma grocery_upsert_find_other i q c rows j :
  j <> i ->
  List.find (fun r => String.eqb (grocery_item r) j) (grocery_upsert i q c rows)
  = List.find (fun r => String.eqb (grocery_item r) j) rows.
Proof.
  intros Hne. induction rows as [|r rows IH]; simpl.
  - destruct (String.eqb i j) eqn:E; [|reflexivity].
    apply String.eqb_eq in E. congruence.
  - destruct (String.eqb (grocery_item r) i) eqn:E; simpl.
    + apply String.eqb_eq in E.
      assert (String.eqb (grocery_item r) j = false) as ->; [|reflexivity].
      apply String.eqb_neq. congruence.
    + rewrite IH. reflexivity.
Qed.

Lemma grocery_upsert_items_in i q c rows :
  i ∈ map grocery_item rows ->
  map grocery_item (grocery_upsert i q c rows) = map grocery_item rows.
Proof.
  induction rows as [|r rows IH]; simpl; intros Hin.
  - apply elem_of_nil in Hin. contradiction.
  - destruct (String.eqb (grocery_item r) i) eqn:E; simpl; [reflexivity|].
    apply String.eqb_neq in E. apply elem_of_cons in Hin as [Hin|Hin]; [congruence|].
    rewrite IH by assumption. reflexivity.
Qed.

Lemma grocery_upsert_items_fresh i q c rows :
  i ∉ map grocery_item rows ->
  map grocery_item (grocery_upsert i q c rows) = map grocery_item rows ++ [i].
Proof.
  induction rows as [|r rows IH]; simpl; intros Hin; [reflexivity|].
  apply not_elem_of_cons in Hin as [Hne Hin].
  destruct (String.eqb (grocery_item r) i) eqn:E; simpl.
  - apply String.eqb_eq in E. congruence.
  - rewrite IH by assumption. reflexivity.
Qed.

Lemma NoDup_snoc_fresh {A} (l : list A) x : NoDup l -> x ∉ l -> NoDup (l ++ [x]).
Proof.
  intros Hnd Hx. apply NoDup_app. split; [assumption|]. split.
  - intros y Hy ->%list_elem_of_singleton. contradiction.
  - apply NoDup_singleton.
Qed.

Lemma grocery_upsert_unique i q c rows :
  NoDup (map grocery_item rows) -> NoDup (map grocery_item (grocery_upsert i q c rows)).
Proof.
  intros Hnd. destruct (decide (i ∈ map grocery_item rows)) as [Hin|Hin].
  - rewrite grocery_upsert_items_in by assumption. assumption.
  - rewrite grocery_upsert_items_fresh by assumption. apply NoDup_snoc_fresh; assumption.
Qed.

Lemma find_some_elem {A} (f : A -> bool) l x : List.find f l = Some x -> x ∈ l.
Proof. intros Hf. apply list_elem_of_In. eapply find_some, Hf. Qed.

(** C2. Upserting the same (item, quantity, checked) triple twice gives the
    state that one upsert gives.  After an upsert the entry kept under the
    stripped item name carries exactly the quantity and the flag of that
    upsert, whatever was stored before; in particular an upsert with
    checked false over an entry upserted with checked true leaves it
    unchecked.  [list_grocery] reports the entry, and entries under other
    names are not touched. *)
Theorem upsert_grocery_item_idempotent_overwrite :
  forall (d : database) (item quantity : string) (checked : bool),
    upsert_grocery_item item quantity checked
      (upsert_grocery_item item quantity checked d)
    = upsert_grocery_item item quantity checked d
    /\ grocery_entry (strip item) (upsert_grocery_item item quantity checked d)
       = Some (strip quantity, checked)
    /\ (forall q0 : string,
          grocery_entry (strip item)
            (upsert_grocery_item item quantity false
               (upsert_grocery_item item q0 true d))
          = Some (strip quantity, false))
    /\ In (strip item, strip quantity, checked)
          (list_grocery (upsert_grocery_item item quantity checked d))
    /\ (forall other : string, other <> strip item ->
          grocery_entry other (upsert_grocery_item item quantity checked d)
          = grocery_entry other d).
Proof.
  intros d item quantity checked.
  assert (forall d' q c,
            grocery_entry (strip item) (upsert_grocery_item item q c d')
            = Some (strip q, c)) as Hentry.
  { intros d' q c. unfold grocery_entry, upsert_grocery_item. simpl.
    destruct (grocery_upsert_find (strip item) (strip q) (Z.b2z c) (grocery d'))
      as (r & -> & _ & Hq & Hc).
    unfold checked_value. rewrite Hq, Hc. simpl. destruct c; reflexivity. }
  repeat split.
  - unfold upsert_grocery_item, with_grocery. simpl.
    rewrite grocery_upsert_idem. reflexivity.
  - apply Hentry.
  - intros q0. apply Hentry.
  - unfold list_grocery, upsert_grocery_item. simpl.
    destruct (grocery_upsert_find (strip item) (strip quantity) (Z.b2z checked)
                (grocery d)) as (r & Hf & Hi & Hq & Hc).
    apply in_map_iff. exists r. split.
    + unfold checked_value. rewrite Hi, Hq, Hc. simpl. destruct checked; reflexivity.
    + apply list_elem_of_In, elem_of_sort_by. eapply find_some_elem, Hf.
  - intros other Hne. unfold grocery_entry, upsert_grocery_item. simpl.
    rewrite grocery_upsert_find_other by assumption. reflexivity.
Qed.

(** The key constraint of the grocery table is kept by the upsert. *)
Lemma upsert_grocery_item_unique d item quantity checked :
  grocery_unique d -> grocery_unique (upsert_grocery_item item quantity checked d).
Proof. apply grocery_upsert_unique. Qed.

(** ** Whitespace stripping of the upserts *)

Lemma pantry_upsert_stripped i q rows :
  stripped i -> stripped q ->
  Forall pantry_row_stripped rows ->
  Forall pantry_row_stripped (pantry_upsert i q rows).
Proof.
  intros Hi Hq. induction 1 as [|r rows Hr Hrows IH]; simpl.
  - repeat constructor; assumption.
  - destruct (String.eqb (pantry_item r) i) eqn:E; constructor; try assumption.
    split; [apply Hr|exact Hq].
Qed.

Lemma grocery_upsert_stripped i q c rows :
  stripped i -> stripped q ->
  Forall grocery_row_stripped rows ->
  Forall grocery_row_stripped (grocery_upsert i q c rows).
Proof.
  intros Hi Hq. induction 1 as [|r rows Hr Hrows IH]; simpl.
  - repeat constructor; assumption.
  - destruct (String.eqb (grocery_item r) i) eqn:E; constructor; try assumption.
    split; [apply Hr|exact Hq].
Qed.

Lemma Forall_list_filter {A} (P : A -> Prop) f (l : list A) :
  Forall P l -> Forall P (List.filter f l).
Proof.
  induction 1 as [|x l Hx Hl IH]; simpl; [constructor|].
  destruct (f x); [constructor|]; assumption.
Qed.

Lemma set_favorite_inv i b d d' :
  set_favorite i b d = Ok d' ->
  d' = d
  \/ (int64 i = true /\ b = true /\ (i ∉ favorites d)
      /\ d' = {| recipes := recipes d; favorites := favorites d ++ [i];
                 pantry := pantry d; grocery := grocery d |})
  \/ (int64 i = true /\ b = false
      /\ d' = {| recipes := recipes d;
                 favorites := List.filter (fun x => negb (x =? i)) (favorites d);
                 pantry := pantry d; grocery := grocery d |}).
Proof.
  unfold set_favorite, insert_favorite, delete_favorite.
  destruct (int64 i); destruct b; cbn [negb try_except].
  - case_bool_decide as Hin; cbn [try_except]; intros [= <-]; [left; reflexivity|].
    right. left. auto.
  - intros [= <-]. right. right. auto.
  - intros [= <-]. left. reflexivity.
  - discriminate.
Qed.

Lemma set_favorite_tables i b d d' :
  set_favorite i b d = Ok d' ->
  recipes d' = recipes d /\ pantry d' = pantry d /\ grocery d' = grocery d.
Proof.
  intros [->|[(_ & _ & _ & ->)|(_ & _ & ->)]]%set_favorite_inv; auto.
Qed.

Lemma apply_op_stripped o d : rows_stripped d -> rows_stripped (apply_op o d).
Proof.
  intros [Hp Hg]. destruct o; simpl.
  - split; [|assumption]. simpl.
    apply pantry_upsert_stripped; auto using strip_stripped.
  - split; [|assumption]. simpl. apply Forall_list_filter, Hp.
  - split; [assumption|]. simpl.
    apply grocery_upsert_stripped; auto using strip_stripped.
  - split; [assumption|]. simpl. apply Forall_map.
    eapply Forall_impl; [exact Hg|]. intros r Hr. simpl.
    destruct (String.eqb (grocery_item r) item); [|assumption]. exact Hr.
  - split; [assumption|]. simpl. apply Forall_list_filter, Hg.
  - destruct only_checked; (split; [assumption|]); simpl.
    + apply Forall_list_filter, Hg.
    + constructor.
  - destruct (set_favorite recipe_id favorite d) as [d'|e] eqn:E; [|split; assumption].
    apply set_favorite_tables in E as (_ & Hp' & Hg'). split; congruence.
Qed.

Lemma run_stripped ops d : rows_stripped d -> rows_stripped (run ops d).
Proof.
  revert d. induction ops as [|o ops IH]; intros d Hd; [assumption|].
  apply IH, apply_op_stripped, Hd.
Qed.

Lemma pantry_upsert_elem i q rows :
  {| pantry_item := i; pantry_quantity := Some q |} ∈ pantry_upsert i q rows.
Proof.
  induction rows as [|r rows IH]; simpl.
  - apply list_elem_of_here.
  - destruct (String.eqb (pantry_item r) i) eqn:E.
    + apply String.eqb_eq in E. rewrite E. apply list_elem_of_here.
    + apply list_elem_of_further, IH.
Qed.

Lemma upsert_grocery_item_listed item quantity checked d :
  In (strip item, strip quantity, checked)
     (list_grocery (upsert_grocery_item item quantity checked d)).
Proof.
  unfold list_grocery, upsert_grocery_item. simpl.
  destruct (grocery_upsert_find (strip item) (strip quantity) (Z.b2z checked)
              (grocery d)) as (r & Hf & Hi & Hq & Hc).
  apply in_map_iff. exists r. split.
  - unfold checked_value. rewrite Hi, Hq, Hc. simpl. destruct checked; reflexivity.
  - apply list_elem_of_In, elem_of_sort_by. eapply find_some_elem, Hf.
Qed.

(** C9. Both upserts store the stripped item name and the stripped
    quantity: whitespace around either argument changes nothing, so two
    item names that differ only by surrounding whitespace address the same
    entry; the entry that [list_pantry] reports after a pantry upsert is
    the stripped pair, and the entry that [list_grocery] reports after a
    grocery upsert is the stripped pair with the flag given; and in every
    state reached from empty pantry and grocery tables by the write
    operations of the layer, every stored item and quantity is a fixed
    point of [strip]. *)
Theorem upsert_strips_whitespace :
  forall w1 w2 w3 w4 : string,
    all_space w1 = true -> all_space w2 = true ->
    all_space w3 = true -> all_space w4 = true ->
    forall (d : database) (item quantity : string) (checked : bool),
      upsert_pantry_item (w1 +:+ item +:+ w2) (w3 +:+ quantity +:+ w4) d
      = upsert_pantry_item item quantity d
      /\ upsert_grocery_item (w1 +:+ item +:+ w2) (w3 +:+ quantity +:+ w4) checked d
         = upsert_grocery_item item quantity checked d
      /\ In (strip item, strip quantity)
            (list_pantry (upsert_pantry_item (w1 +:+ item +:+ w2) quantity d))
      /\ In (strip item, strip quantity)
            (list_pantry
               (upsert_pantry_item (w1 +:+ item +:+ w2) (w3 +:+ quantity +:+ w4) d))
      /\ In (strip item, strip quantity, checked)
            (list_grocery
               (upsert_grocery_item (w1 +:+ item +:+ w2) (w3 +:+ quantity +:+ w4)
                  checked d))
      /\ stripped (strip item) /\ stripped (strip quantity)
      /\ (forall (ops : list write_op) (rs : list recipe_row) (fs : list Z),
            rows_stripped
              (run ops {| recipes := rs; favorites := fs; pantry := []; grocery := [] |})).
Proof.
  intros w1 w2 w3 w4 H1 H2 H3 H4 d item quantity checked.
  assert (forall q, In (strip item, strip q)
                       (list_pantry (upsert_pantry_item (w1 +:+ item +:+ w2) q d)))
    as Hpantry.
  { intros q. unfold list_pantry, upsert_pantry_item. simpl.
    rewrite strip_surrounding by assumption.
    apply in_map_iff.
    exists {| pantry_item := strip item; pantry_quantity := Some (strip q) |}.
    split; [reflexivity|].
    apply list_elem_of_In, elem_of_sort_by, pantry_upsert_elem. }
  split; [|split; [|split; [|split; [|split; [|split; [|split]]]]]].
  - unfold upsert_pantry_item. rewrite !strip_surrounding by assumption. reflexivity.
  - unfold upsert_grocery_item. rewrite !strip_surrounding by assumption. reflexivity.
  - apply Hpantry.
  - rewrite <- (strip_surrounding w3 quantity w4) at 1 by assumption. apply Hpantry.
  - rewrite <- (strip_surrounding w1 item w2), <- (strip_surrounding w3 quantity w4)
      by assumption.
    apply upsert_grocery_item_listed.
  - apply strip_stripped.
  - apply strip_stripped.
  - intros ops rs fs. apply run_stripped. split; constructor.
Qed.

Lemma upsert_strips_whitespace_witness :
  all_space "  " = true /\ all_space " " = true
  /\ upsert_pantry_item "  Salt " " 1 kg " empty_db = upsert_pantry_item "Salt" "1 kg" empty_db
  /\ list_pantry (upsert_pantry_item "  Salt " " 1 kg " empty_db) = [("Salt", "1 kg")]
  /\ upsert_grocery_item "  Milk " " 2 l " true empty_db
     = upsert_grocery_item "Milk" "2 l" true empty_db
  /\ In ("Milk", "2 l", true)
        (list_grocery (upsert_grocery_item "  Milk " " 2 l " true empty_db)).
Proof.
  split; [reflexivity|]. split; [reflexivity|].
  split; [|split; [reflexivity|split]].
  - apply (upsert_strips_whitespace "  " " " " " " " eq_refl eq_refl eq_refl eq_refl
             empty_db "Salt" "1 kg" false).
  - apply (upsert_strips_whitespace "  " " " " " " " eq_refl eq_refl eq_refl eq_refl
             empty_db "Milk" "2 l" true).
  - apply (upsert_strips_whitespace "  " " " " " " " eq_refl eq_refl eq_refl eq_refl
             empty_db "Milk" "2 l" true).
Defined.

(** ** Favorites *)

Lemma Zleb_total a b : (a <=? b) = true \/ (b <=? a) = true.
Proof. destruct (Z.leb_spec a b); [left; reflexivity|right; apply Z.leb_le; lia]. Qed.

Lemma Zleb_trans a b c : (a <=? b) = true -> (b <=? c) = true -> (a <=? c) = true.
Proof. rewrite !Z.leb_le. lia. Qed.

Lemma strongly_sorted_nodup_lt (l : list Z) :
  StronglySorted (fun a b => (a <=? b) = true) l -> NoDup l -> StronglySorted Z.lt l.
Proof.
  induction 1 as [|x l Hs IH Hall]; intros Hnd; [constructor|].
  apply NoDup_cons in Hnd as [Hx Hnd]. constructor; [auto|].
  rewrite Forall_forall in Hall |- *. intros y Hy.
  specialize (Hall y Hy). apply Z.leb_le in Hall.
  assert (x <> y) by (intros ->; apply Hx, Hy). lia.
Qed.

Lemma get_favorites_perm d : get_favorites d ≡ₚ favorites d.
Proof. apply sort_by_perm. Qed.

Lemma get_favorites_ascending d :
  favorites_unique d -> StronglySorted Z.lt (get_favorites d).
Proof.
  intros Hnd. apply strongly_sorted_nodup_lt.
  - apply sort_by_strongly_sorted; [apply Zleb_total|apply Zleb_trans].
  - unfold get_favorites. rewrite sort_by_perm. exact Hnd.
Qed.

Lemma filter_ne_not_elem (x : Z) l : x ∉ List.filter (fun y => negb (y =? x)) l.
Proof.
  rewrite list_elem_of_In, filter_In. intros [_ Hx]. rewrite Z.eqb_refl in Hx. discriminate.
Qed.

Lemma filter_ne_idem (x : Z) l :
  List.filter (fun y => negb (y =? x)) (List.filter (fun y => negb (y =? x)) l)
  = List.filter (fun y => negb (y =? x)) l.
Proof.
  induction l as [|y l IH]; simpl; [reflexivity|].
  destruct (negb (y =? x)) eqn:E; simpl; [rewrite E, IH|]; auto.
Qed.

Lemma NoDup_list_filter {A} (f : A -> bool) l : NoDup l -> NoDup (List.filter f l).
Proof.
  induction 1 as [|x l Hx Hl IH]; simpl; [constructor|].
  destruct (f x); [|assumption]. constructor; [|assumption].
  rewrite list_elem_of_In, filter_In. intros [Hin _]. apply Hx, list_elem_of_In, Hin.
Qed.

(** C8. In a favorites table that satisfies its key constraint:
    favoriting an id that is already there returns normally and leaves the
    database as it is; [set_favorite(id, True)] never raises; a second
    identical call of [set_favorite] has the outcome of the first, in both
    directions; [get_favorites] is strictly ascending, hence free of
    duplicates, and lists exactly the stored ids.  For an id that fits 64
    bits [set_favorite] returns, a second identical call changes nothing
    more, the id is in the table afterwards exactly when the flag was true,
    and the key constraint still holds.  An id outside 64 bits does not
    bind: favoriting it changes nothing (the [OverflowError] is swallowed
    with the duplicate-insert failure), unfavoriting it raises. *)
Theorem set_favorite_idempotent :
  forall (d : database) (recipe_id : Z),
    favorites_unique d ->
    (recipe_id ∈ favorites d -> set_favorite recipe_id true d = Ok d)
    /\ (exists d1, set_favorite recipe_id true d = Ok d1)
    /\ (forall favorite : bool,
          (let? d1 := set_favorite recipe_id favorite d in
           set_favorite recipe_id favorite d1)
          = set_favorite recipe_id favorite d)
    /\ (int64 recipe_id = true ->
        forall favorite : bool,
          exists d1,
            set_favorite recipe_id favorite d = Ok d1
            /\ set_favorite recipe_id favorite d1 = Ok d1
            /\ (recipe_id ∈ favorites d1 <-> favorite = true)
            /\ favorites_unique d1)
    /\ (int64 recipe_id = false ->
        set_favorite recipe_id true d = Ok d
        /\ set_favorite recipe_id false d = Raise OverflowError)
    /\ StronglySorted Z.lt (get_favorites d)
    /\ get_favorites d ≡ₚ favorites d.
Proof.
  intros d recipe_id Hnd.
  assert (int64 recipe_id = true ->
          forall favorite : bool,
            exists d1,
              set_favorite recipe_id favorite d = Ok d1
              /\ set_favorite recipe_id favorite d1 = Ok d1
              /\ (recipe_id ∈ favorites d1 <-> favorite = true)
              /\ favorites_unique d1) as Hin64.
  { intros H64 [|]; unfold set_favorite, insert_favorite, delete_favorite;
      rewrite H64; cbn [negb].
    - case_bool_decide as Hin; cbn [try_except].
      + exists d. rewrite bool_decide_eq_true_2 by assumption. cbn [try_except].
        repeat split; auto.
      + eexists. split; [reflexivity|]. cbn [favorites].
        rewrite bool_decide_eq_true_2
          by (apply elem_of_app; right; apply list_elem_of_here).
        cbn [try_except]. repeat split; auto.
        * intros _. apply elem_of_app. right. apply list_elem_of_here.
        * apply NoDup_snoc_fresh; assumption.
    - eexists. split; [reflexivity|]. cbn [recipes favorites pantry grocery].
      rewrite filter_ne_idem. repeat split.
      + intros Hin. exfalso. eapply filter_ne_not_elem, Hin.
      + discriminate.
      + apply NoDup_list_filter, Hnd. }
  assert (int64 recipe_id = false ->
          set_favorite recipe_id true d = Ok d
          /\ set_favorite recipe_id false d = Raise OverflowError) as Hout.
  { intros H64. unfold set_favorite, insert_favorite, delete_favorite.
    rewrite H64. split; reflexivity. }
  split; [|split; [|split; [|split; [|split; [|split]]]]].
  - intros Hin. unfold set_favorite, insert_favorite.
    destruct (int64 recipe_id); cbn [negb try_except]; [|reflexivity].
    rewrite bool_decide_eq_true_2 by assumption. reflexivity.
  - destruct (int64 recipe_id) eqn:H64.
    + destruct (Hin64 eq_refl true) as (d1 & H1 & _). eauto.
    + destruct (Hout eq_refl) as [H1 _]. eauto.
  - intros favorite. destruct (int64 recipe_id) eqn:H64.
    + destruct (Hin64 eq_refl favorite) as (d1 & H1 & H2 & _).
      rewrite H1. cbn [bind]. exact H2.
    + destruct (Hout eq_refl) as [H1 H2]. destruct favorite.
      * rewrite H1. cbn [bind]. exact H1.
      * rewrite H2. reflexivity.
  - exact Hin64.
  - exact Hout.
  - apply get_favorites_ascending, Hnd.
  - apply get_favorites_perm.
Qed.

Lemma set_favorite_idempotent_witness :
  favorites_unique {| recipes := []; favorites := [7; 3]; pantry := []; grocery := [] |}
  /\ set_favorite 3 true {| recipes := []; favorites := [7; 3]; pantry := []; grocery := [] |}
     = Ok {| recipes := []; favorites := [7; 3]; pantry := []; grocery := [] |}.
Proof.
  assert (favorites_unique
            {| recipes := []; favorites := [7; 3]; pantry := []; grocery := [] |}) as Hu
    by (unfold favorites_unique; simpl; by_decide).
  split; [exact Hu|].
  apply (proj1 (set_favorite_idempotent _ 3 Hu)). simpl. by_decide.
Defined.

(** ** Missing ingredients *)

Lemma foldl_insert_lookup (l : list (string * string)) (m0 : gmap string string) n :
  foldl (fun m nq => <[lower nq.1 := nq.2]> m) m0 l !! n
  = match last (map snd (List.filter (fun nq => String.eqb (lower nq.1) n) l)) with
    | Some q => Some q
    | None => m0 !! n
    end.
Proof.
  revert m0. induction l as [|[k q] l IH]; intros m0; simpl; [reflexivity|].
  rewrite IH. destruct (String.eqb (lower k) n) eqn:E; simpl.
  - apply String.eqb_eq in E. subst n. rewrite last_cons.
    destruct (last _); [reflexivity|]. apply lookup_insert_eq.
  - apply String.eqb_neq in E. destruct (last _); [reflexivity|].
    apply lookup_insert_ne. assumption.
Qed.

Lemma pantry_dict_lookup d n : pantry_dict d !! n = pantry_lookup d n.
Proof.
  unfold pantry_dict, pantry_lookup. rewrite foldl_insert_lookup.
  destruct (last _); [reflexivity|]. apply lookup_empty.
Qed.

Lemma str_empty_lower s : str_empty (lower s) = str_empty s.
Proof. destruct s; reflexivity. Qed.

Lemma missing_loop_spec d ings : forall names acc,
  map (dict_get_default "name" (JStr "")) ings = map JStr names ->
  missing_loop (pantry_dict d) ings acc = Ok (acc ++ List.filter (is_missing d) names).
Proof.
  induction ings as [|ing ings IH]; intros [|s names] acc Hn; simpl in Hn; try discriminate.
  - simpl. rewrite app_nil_r. reflexivity.
  - injection Hn as Hs Hn. simpl. rewrite Hs.
    unfold is_missing at 1. rewrite str_empty_lower, pantry_dict_lookup.
    destruct (str_empty s); simpl; [apply IH, Hn|].
    destruct (pantry_lookup d (lower s)) as [q|]; simpl.
    + destruct (str_empty q); [|apply IH, Hn].
      rewrite (IH names) by assumption. rewrite <- app_assoc. reflexivity.
    + rewrite (IH names) by assumption. rewrite <- app_assoc. reflexivity.
Qed.

(** C1. For every pantry and every recipe whose ingredient names are
    strings (an ingredient without a name counts as the empty name), the
    result is the list of names filtered by [is_missing]: the names as the
    recipe spells them, in recipe order, once per qualifying occurrence.  A
    name qualifies when it is not empty and its lower-cased form is absent
    from the lower-cased pantry mapping or mapped to the empty quantity. *)
Theorem compute_missing_ingredients_spec :
  forall (d : database) (recipe : Recipe) (names : list string),
    map (dict_get_default "name" (JStr "")) (ingredients recipe) = map JStr names ->
    compute_missing_ingredients d recipe = Ok (List.filter (is_missing d) names)
    /\ (forall n : string, pantry_dict d !! n = pantry_lookup d n).
Proof.
  intros d recipe names Hn. split.
  - unfold compute_missing_ingredients. rewrite (missing_loop_spec d _ names []) by assumption.
    reflexivity.
  - apply pantry_dict_lookup.
Qed.

(** ** Recipe queries *)

Lemma sql_eqb_text v t : sql_eqb v (SText t) = true <-> v = SText t.
Proof.
  destruct v as [|z|s]; simpl; split; try congruence.
  - intros ->%String.eqb_eq. reflexivity.
  - intros [= ->]. apply String.eqb_refl.
Qed.

Lemma sql_le_total a b : sql_le a b = true \/ sql_le b a = true.
Proof.
  destruct a as [|x|s], b as [|y|t]; simpl; auto.
  - apply Zleb_total.
  - apply String.leb_total.
Qed.

Lemma title_le_total a b : title_le a b = true \/ title_le b a = true.
Proof. apply sql_le_total. Qed.

Lemma time_title_le_total a b : time_title_le a b = true \/ time_title_le b a = true.
Proof.
  unfold time_title_le.
  destruct (sql_le (col_time_minutes a) (col_time_minutes b)) eqn:E,
           (sql_le (col_time_minutes b) (col_time_minutes a)) eqn:E'; auto.
  - apply sql_le_total.
  - destruct (sql_le_total (col_time_minutes a) (col_time_minutes b)); congruence.
Qed.

Lemma Sorted_transfer {A B} (R : A -> A -> Prop) (R' : B -> B -> Prop)
    (P : A -> Prop) (f : A -> B) l :
  (forall a b, P a -> P b -> R a b -> R' (f a) (f b)) ->
  Forall P l -> Sorted R l -> Sorted R' (map f l).
Proof.
  intros HR HP Hs. induction Hs as [|x l Hs IH Hhd]; simpl; [constructor|].
  apply Forall_cons in HP as [Hx HP]. constructor; [auto|].
  destruct Hhd as [|y l Hxy]; simpl; constructor.
  apply Forall_cons in HP as [Hy _]. auto.
Qed.

Section DaoProperties.
Context `{Pydantic}.

Lemma map_outcome_loaded rows :
  Forall (fun r => succeeded (from_row (Some r)) = true) rows ->
  rows_to_recipes rows = Ok (map loaded rows).
Proof.
  unfold rows_to_recipes.
  induction 1 as [|r rows Hr Hrows IH]; [reflexivity|].
  cbn [map_outcome map]. rewrite IH.
  assert (from_row (Some r) = Ok (loaded r)) as ->; [|reflexivity].
  unfold loaded. destruct (from_row (Some r)); [reflexivity|discriminate].
Qed.

Lemma stored_ok_loaded r :
  stored_ok r ->
  succeeded (from_row (Some r)) = true
  /\ col_title r = SText (title (loaded r))
  /\ col_time_minutes r = SInt (time_minutes (loaded r)).
Proof.
  intros (rec & Hrec & Ht & Hm). unfold loaded. rewrite Hrec. auto.
Qed.

Lemma search_filter_none cats r :
  default_or cats [] = [] -> search_filter "" cats None "" r = true.
Proof. unfold search_filter. intros ->. reflexivity. Qed.

Lemma list_filter_all {A} (f : A -> bool) l :
  (forall x, f x = true) -> List.filter f l = l.
Proof.
  intros Hf. induction l as [|x l IH]; simpl; [reflexivity|].
  rewrite Hf, IH. reflexivity.
Qed.

(** C4. With no text, no categories, no time ceiling and no difficulty,
    over a table whose rows load and carry a text title and an integer
    time, [search_recipes] and [list_recipes] both return, the two
    results are permutations of each other, the search result ascends by
    time and then title, and the listing ascends by title. *)
Theorem search_recipes_no_filter :
  forall (d : database) (cats : option (list string)),
    default_or cats [] = [] ->
    Forall stored_ok (recipes d) ->
    exists listed found,
      list_recipes d = Ok listed
      /\ search_recipes d "" cats None "" = Ok found
      /\ found ≡ₚ listed
      /\ Sorted by_time_then_title found
      /\ Sorted by_title listed.
Proof.
  intros d cats Hcats Hok.
  assert (forall (le : recipe_row -> recipe_row -> bool),
             Forall stored_ok (sort_by le (recipes d))) as Hsorted_ok.
  { intros le. rewrite Forall_forall in Hok |- *. intros r Hr.
    apply Hok. apply elem_of_sort_by in Hr. exact Hr. }
  assert (forall rows, Forall stored_ok rows ->
             Forall (fun r => succeeded (from_row (Some r)) = true) rows) as Hsucc.
  { intros rows Hrows. eapply Forall_impl; [exact Hrows|].
    intros r Hr. apply stored_ok_loaded, Hr. }
  exists (map loaded (sort_by title_le (recipes d))),
         (map loaded (sort_by time_title_le (recipes d))).
  split; [|split; [|split; [|split]]].
  - unfold list_recipes. apply map_outcome_loaded, Hsucc, Hsorted_ok.
  - unfold search_recipes.
    rewrite list_filter_all by (intros r; apply search_filter_none, Hcats).
    apply map_outcome_loaded, Hsucc, Hsorted_ok.
  - apply Permutation_map. rewrite !sort_by_perm. reflexivity.
  - eapply (Sorted_transfer (fun a b => time_title_le a b = true) _ stored_ok);
      [|apply Hsorted_ok|apply sort_by_sorted, time_title_le_total].
    intros a b Ha Hb. apply stored_ok_loaded in Ha as (_ & Hta & Hma).
    apply stored_ok_loaded in Hb as (_ & Htb & Hmb).
    unfold time_title_le, by_time_then_title. rewrite Hta, Htb, Hma, Hmb. simpl.
    destruct (Z.leb_spec (time_minutes (loaded a)) (time_minutes (loaded b)));
      [|discriminate].
    destruct (Z.leb_spec (time_minutes (loaded b)) (time_minutes (loaded a))).
    + intros Hle. right. split; [lia|exact Hle].
    + intros _. left. lia.
  - eapply (Sorted_transfer (fun a b => title_le a b = true) _ stored_ok);
      [|apply Hsorted_ok|apply sort_by_sorted, title_le_total].
    intros a b Ha Hb. apply stored_ok_loaded in Ha as (_ & Hta & _).
    apply stored_ok_loaded in Hb as (_ & Htb & _).
    unfold title_le, by_title. rewrite Hta, Htb. simpl. auto.
Qed.

Lemma loaded_fields r :
  succeeded (from_row (Some r)) = true ->
  from_row (Some r) = Ok (loaded r)
  /\ title (loaded r) = sql_str (col_title r).
Proof.
  unfold loaded. destruct (from_row (Some r)) as [rec|e] eqn:E; [|discriminate].
  intros _. split; [reflexivity|].
  unfold from_row in E.
  destruct (sql_int (col_id r)); [|discriminate]. simpl in E.
  destruct (sql_int (sql_or (col_time_minutes r) (SInt 0))); [|discriminate]. simpl in E.
  destruct (validate_list coerce_dict _); [|discriminate]. simpl in E.
  destruct (validate_list coerce_str _); [|discriminate]. simpl in E.
  injection E as <-. reflexivity.
Qed.

Lemma title_dict_spec rows : forall acc,
  Forall (fun r => succeeded (from_row (Some r)) = true) rows ->
  exists m,
    title_dict rows acc = Ok m
    /\ forall t,
         m !! t
         = match last (List.filter (fun r => String.eqb (sql_str (col_title r)) t) rows) with
           | Some r => Some (loaded r)
           | None => acc !! t
           end.
Proof.
  induction rows as [|r rows IH]; intros acc Hrows.
  - exists acc. split; reflexivity.
  - apply Forall_cons in Hrows as [Hr Hrows].
    destruct (loaded_fields r Hr) as [Hload _].
    destruct (IH (<[sql_str (col_title r) := loaded r]> acc) Hrows) as (m & Hm & Hlook).
    exists m. split.
    + cbn [title_dict]. rewrite Hload. exact Hm.
    + intros t. rewrite Hlook. cbn [List.filter].
      destruct (String.eqb (sql_str (col_title r)) t) eqn:E.
      * apply String.eqb_eq in E. rewrite last_cons.
        destruct (last _); [reflexivity|]. rewrite E. apply lookup_insert_eq.
      * apply String.eqb_neq in E. destruct (last _); [reflexivity|].
        apply lookup_insert_ne. exact E.
Qed.

Lemma list_filter_filter {A} (p q : A -> bool) l :
  List.filter p (List.filter q l) = List.filter (fun x => q x && p x) l.
Proof.
  induction l as [|x l IH]; simpl; [reflexivity|].
  destruct (q x); simpl; [destruct (p x)|]; rewrite ?IH; reflexivity.
Qed.

Lemma matched_rows_of_title titles t rows :
  t ∈ titles ->
  List.filter (fun r => String.eqb (sql_str (col_title r)) t)
    (List.filter (fun r => existsb (fun t' => sql_eqb (col_title r) (SText t')) titles) rows)
  = List.filter (fun r => sql_eqb (col_title r) (SText t)) rows.
Proof.
  intros Hin. rewrite list_filter_filter. apply filter_ext. intros r.
  destruct (sql_eqb (col_title r) (SText t)) eqn:E.
  - apply sql_eqb_text in E. rewrite E. simpl. rewrite String.eqb_refl, andb_true_r.
    apply existsb_exists. exists t. split; [apply list_elem_of_In, Hin|].
    simpl. apply String.eqb_refl.
  - destruct (existsb _ titles) eqn:Ex; [|reflexivity]. simpl.
    apply existsb_exists in Ex as (t' & _ & Ht'). apply sql_eqb_text in Ht'.
    rewrite Ht' in E |- *. simpl in *. exact E.
Qed.

Lemma recipe_titled_title d t rec :
  Forall (fun r => succeeded (from_row (Some r)) = true) (recipes d) ->
  recipe_titled d t = Some rec ->
  title rec = t /\ exists r, r ∈ recipes d /\ from_row (Some r) = Ok rec.
Proof.
  intros Hrows. unfold recipe_titled.
  destruct (last _) as [r|] eqn:El; [|discriminate]. intros [= <-].
  apply last_Some_elem_of, list_elem_of_In, filter_In in El as [Hin Ht].
  apply sql_eqb_text in Ht. apply list_elem_of_In in Hin.
  rewrite Forall_forall in Hrows.
  destruct (loaded_fields r (Hrows r Hin)) as [Hload Htitle].
  split; [rewrite Htitle, Ht; reflexivity|]. eauto.
Qed.

Lemma recipe_titled_none d t : recipe_titled d t = None <-> has_title d t = false.
Proof.
  unfold recipe_titled, has_title. split.
  - destruct (last _) as [r|] eqn:El; [discriminate|]. intros _.
    apply last_None in El. apply not_true_is_false. intros Hex.
    apply existsb_exists in Hex as (r & Hin & Hr).
    assert (In r (List.filter (fun r => sql_eqb (col_title r) (SText t)) (recipes d)))
      as Hf by (apply filter_In; auto).
    rewrite El in Hf. destruct Hf.
  - intros Hex. destruct (last _) as [r|] eqn:El; [|reflexivity].
    apply last_Some_elem_of, list_elem_of_In, filter_In in El as [Hin Ht].
    assert (existsb (fun r => sql_eqb (col_title r) (SText t)) (recipes d) = true)
      by (apply existsb_exists; eauto).
    congruence.
Qed.

(** C3. Over a table whose rows load, the result visits the input titles
    in input order and keeps, for each title that some row carries, the
    stored recipe of that title; titles no row carries are skipped.  So
    the titles of the result are the input titles filtered by presence
    in the table, whatever the order of the rows; and every returned
    recipe is the load of a stored row. *)
Theorem find_recipes_by_titles_input_order :
  forall (d : database) (titles : list string),
    Forall (fun r => succeeded (from_row (Some r)) = true) (recipes d) ->
    find_recipes_by_titles d titles = Ok (omap (recipe_titled d) titles)
    /\ map title (omap (recipe_titled d) titles) = List.filter (has_title d) titles
    /\ Forall (fun rec => exists r, r ∈ recipes d /\ from_row (Some r) = Ok rec)
              (omap (recipe_titled d) titles).
Proof.
  intros d titles Hrows. split; [|split].
  - unfold find_recipes_by_titles. destruct titles as [|t0 titles0] eqn:Et; [reflexivity|].
    rewrite <- Et. clear Et.
    set (rows := List.filter _ (recipes d)).
    assert (Forall (fun r => succeeded (from_row (Some r)) = true) rows) as Hm.
    { apply Forall_list_filter, Hrows. }
    destruct (title_dict_spec rows ∅ Hm) as (m & -> & Hlook). simpl. f_equal.
    apply list_omap_ext. apply Forall_Forall2_diag, Forall_forall. intros t Ht.
    rewrite Hlook. subst rows. rewrite matched_rows_of_title by assumption.
    unfold recipe_titled. destruct (last _); [reflexivity|apply lookup_empty].
  - induction titles as [|t titles IH]; [reflexivity|].
    cbn [omap list_omap List.filter].
    destruct (recipe_titled d t) as [rec|] eqn:E.
    + destruct (has_title d t) eqn:Eh.
      * cbn [map]. rewrite IH.
        apply (recipe_titled_title d t rec Hrows) in E as [-> _]. reflexivity.
      * apply recipe_titled_none in Eh. congruence.
    + apply recipe_titled_none in E. rewrite E. exact IH.
  - apply Forall_forall. intros rec (t & _ & Ht)%list_elem_of_omap.
    eapply recipe_titled_title; eassumption.
Qed.

End DaoProperties.

(** ** Local fallback matching *)

Lemma leb_string_trans a b c :
  String.leb a b = true -> String.leb b c = true -> String.leb a c = true.
Proof.
  intros Hab Hbc. apply Is_true_true.
  change (String.le a c). transitivity b; apply Is_true_true; assumption.
Qed.

Lemma StronglySorted_transfer {A B} (R : A -> A -> Prop) (R' : B -> B -> Prop)
    (P : A -> Prop) (f : A -> B) l :
  (forall a b, P a -> P b -> R a b -> R' (f a) (f b)) ->
  Forall P l -> StronglySorted R l -> StronglySorted R' (map f l).
Proof.
  intros HR HP Hs. induction Hs as [|x l Hs IH Hall]; simpl; [constructor|].
  apply Forall_cons in HP as [Hx HP]. constructor; [auto|].
  apply Forall_map. rewrite Forall_forall in Hall, HP |- *.
  intros y Hy. apply HR; auto.
Qed.

Lemma StronglySorted_lookup_lt {A} (R : A -> A -> Prop) (l : list A) :
  StronglySorted R l ->
  forall i j a b, l !! i = Some a -> l !! j = Some b -> (i < j)%nat -> R a b.
Proof.
  induction 1 as [|x l Hs IH Hall]; intros i j a b Hi Hj Hlt.
  - rewrite lookup_nil in Hi. discriminate.
  - destruct j as [|j]; [lia|]. simpl in Hj. destruct i as [|i].
    + simpl in Hi. injection Hi as <-. rewrite Forall_forall in Hall.
      apply Hall. eapply list_elem_of_lookup_2, Hj.
    + simpl in Hi. apply (IH i j); [assumption..|lia].
Qed.

Lemma StronglySorted_take {A} (R : A -> A -> Prop) n (l : list A) :
  StronglySorted R l -> StronglySorted R (take n l).
Proof.
  intros Hs. revert n. induction Hs as [|x l Hs IH Hall]; intros [|n]; simpl;
    try constructor; [apply IH|].
  rewrite Forall_forall in Hall |- *. intros y Hy. apply Hall.
  eapply subseteq_take, Hy.
Qed.

Section FallbackProperties.
Context `{PyFloat}.

Lemma recipe_score_count ings r :
  recipe_score (map lower ings) r = match_count ings r.
Proof.
  unfold recipe_score, match_count.
  assert (forall acc,
            foldl (fun score t =>
                     if str_empty t then score
                     else if existsb (contains t) (ingredient_names r)
                          then score + 1 else score) acc (map lower ings)
            = acc + Z.of_nat (length (List.filter (matches_term r) ings))) as Hgen.
  { induction ings as [|t ings IH]; intros acc; simpl; [lia|].
    rewrite IH. unfold matches_term at 2. rewrite str_empty_lower.
    destruct (str_empty t); simpl; [reflexivity|].
    destruct (existsb _ _); simpl; lia. }
  rewrite Hgen. lia.
Qed.

Lemma score_all_spec terms rs :
  score_all terms rs
  = map (fun r => (recipe_score terms r, r))
        (List.filter (fun r => 0 <? recipe_score terms r) rs).
Proof.
  unfold score_all. induction rs as [|r rs IH]; simpl; [reflexivity|].
  rewrite IH. destruct (0 <? recipe_score terms r); reflexivity.
Qed.

Lemma scored_le_total a b : scored_le a b = true \/ scored_le b a = true.
Proof.
  unfold scored_le.
  destruct (Z.ltb_spec (- a.1) (- b.1)); [auto|].
  destruct (Z.ltb_spec (- b.1) (- a.1)); [auto|].
  assert (- a.1 = - b.1) as -> by lia. rewrite Z.eqb_refl.
  apply String.leb_total.
Qed.

Lemma scored_le_trans a b c :
  scored_le a b = true -> scored_le b c = true -> scored_le a c = true.
Proof.
  unfold scored_le.
  destruct (Z.ltb_spec (- a.1) (- b.1)), (Z.ltb_spec (- b.1) (- c.1)),
           (Z.ltb_spec (- a.1) (- c.1)); try reflexivity; try lia;
    destruct (Z.eqb_spec (- a.1) (- b.1)), (Z.eqb_spec (- b.1) (- c.1)),
             (Z.eqb_spec (- a.1) (- c.1)); try discriminate; try lia.
  apply leb_string_trans.
Qed.

(** C7, as the code has it.  The fallback result is the first twelve
    entries of a ranking that holds exactly the recipes matched by at
    least one query term, ordered by descending count of matching terms
    and, among equal counts, by ascending lower-cased title.  Hence a
    returned recipe with a higher count stands before one with a lower
    count. *)
Theorem local_matches_ranking :
  forall (ings : list string) (rs : list Recipe),
    exists ranked : list Recipe,
      ranked ≡ₚ List.filter (fun r => 0 <? match_count ings r) rs
      /\ StronglySorted (ranked_by_lower_title ings) ranked
      /\ local_matches ings rs = take 12 ranked
      /\ (length (local_matches ings rs) <= 12)%nat
      /\ (forall i j a b,
            local_matches ings rs !! i = Some a ->
            local_matches ings rs !! j = Some b ->
            match_count ings b < match_count ings a -> (i < j)%nat).
Proof.
  intros ings rs.
  set (scored := sort_by scored_le (score_all (map lower ings) rs)).
  assert (StronglySorted (ranked_by_lower_title ings) (map snd scored)) as Hsorted.
  { eapply (StronglySorted_transfer (fun a b => scored_le a b = true) _
              (fun x => x.1 = match_count ings x.2)).
    - intros a b Ha Hb. unfold scored_le, ranked_by_lower_title.
      rewrite <- Ha, <- Hb.
      destruct (Z.ltb_spec (- a.1) (- b.1)); [intros _; left; lia|].
      destruct (Z.eqb_spec (- a.1) (- b.1)); [|discriminate].
      intros Hle. right. split; [lia|exact Hle].
    - apply Forall_forall. intros x Hx. subst scored.
      apply elem_of_sort_by in Hx. rewrite score_all_spec in Hx.
      apply list_elem_of_fmap in Hx as (r & -> & _). simpl.
      apply recipe_score_count.
    - apply sort_by_strongly_sorted; [apply scored_le_total|apply scored_le_trans]. }
  assert (local_matches ings rs = take 12 (map snd scored)) as Hlm.
  { unfold local_matches. fold scored. symmetry. apply firstn_map. }
  exists (map snd scored). split; [|split; [|split; [|split]]].
  - subst scored. rewrite sort_by_perm, score_all_spec, map_map. simpl.
    rewrite map_id. apply Permutation_refl'. apply filter_ext. intros r.
    rewrite recipe_score_count. reflexivity.
  - exact Hsorted.
  - exact Hlm.
  - rewrite Hlm, length_take. lia.
  - intros i j a b Hi Hj Hlt. rewrite Hlm in Hi, Hj.
    pose proof (StronglySorted_take _ 12 _ Hsorted) as Hs.
    destruct (Nat.lt_trichotomy i j) as [Hij|[Hij|Hij]]; [assumption| |].
    + subst j. rewrite Hi in Hj. injection Hj as ->. lia.
    + pose proof (StronglySorted_lookup_lt _ _ Hs j i b a Hj Hi Hij) as [Hr|[Hr _]]; lia.
Qed.

End FallbackProperties.

(** ** [Recipe.from_row] *)

Lemma load_embedded_parses v :
  load_embedded v = default_or (parses v) (JArr []).
Proof.
  unfold load_embedded, parses. destruct v as [|z|s]; simpl.
  - reflexivity.
  - destruct (z =? 0); reflexivity.
  - destruct (str_empty s); simpl; [reflexivity|].
    destruct (json_loads s); reflexivity.
Qed.


Section FromRowProperties.
Context `{Pydantic}.



Lemma validate_dicts ings : validate_list coerce_dict (JArr (map JObj ings)) = Ok ings.
Proof.
  unfold validate_list.
  assert (mapM coerce_dict (map JObj ings) = Some ings) as ->; [|reflexivity].
  induction ings as [|g ings IH]; [reflexivity|]. simpl.
  rewrite coerce_dict_obj. simpl. rewrite IH. reflexivity.
Qed.

Lemma validate_strs sts : validate_list coerce_str (JArr (map JStr sts)) = Ok sts.
Proof.
  unfold validate_list.
  assert (mapM coerce_str (map JStr sts) = Some sts) as ->; [|reflexivity].
  induction sts as [|g sts IH]; [reflexivity|]. simpl.
  rewrite coerce_str_str. simpl. rewrite IH. reflexivity.
Qed.


End FromRowProperties.

(** ** Idea normalisation *)

Ltac bind_inv H :=
  match type of H with
  | bind ?m _ = Ok _ =>
      let E := fresh "E" in
      destruct m eqn:E; [cbn [bind] in H|discriminate H]
  end.

Lemma str_take_within n s : within n (str_take n s).
Proof.
  unfold within. revert s. induction n as [|n IH]; intros [|c s]; simpl; try lia.
  specialize (IH s). lia.
Qed.

Section NormalisationProperties.
Context `{PyFloat}.

Lemma str_list_length n v l : str_list n v = Ok l -> (length l <= n)%nat.
Proof.
  unfold str_list. intros Hl. bind_inv Hl. injection Hl as <-.
  rewrite length_take. lia.
Qed.

Lemma str_list_array n l : str_list n (JArr l) = Ok (take n (map py_str l)).
Proof. reflexivity. Qed.

Lemma normalize_ingredient_within i nq :
  normalize_ingredient i = Ok (Some nq) -> within 120 nq.1 /\ within 120 nq.2.
Proof.
  unfold normalize_ingredient. intros Hn. bind_inv Hn.
  destruct (str_empty _); [discriminate|].
  bind_inv Hn. injection Hn as <-. simpl.
  split; apply str_take_within.
Qed.

Lemma ingredients_within l out :
  map_outcome normalize_ingredient l = Ok out ->
  Forall (fun nq => within 120 nq.1 /\ within 120 nq.2) (omap (fun x => x) out).
Proof.
  revert out. induction l as [|i l IH]; intros out Hl; cbn [map_outcome] in Hl.
  - injection Hl as <-. constructor.
  - bind_inv Hl. bind_inv Hl. injection Hl as <-.
    cbn [omap list_omap]. destruct a as [nq|]; [|apply IH; reflexivity].
    constructor; [eapply normalize_ingredient_within; eassumption|].
    apply IH. reflexivity.
Qed.

Lemma ingredients_objects gs :
  map_outcome normalize_ingredient (map JObj gs)
  = Ok (map (fun g => if kept_ingredient g then Some (clamp_ingredient g) else None) gs).
Proof.
  induction gs as [|g gs IH]; [reflexivity|].
  cbn [map map_outcome]. rewrite IH.
  unfold normalize_ingredient, kept_ingredient, clamp_ingredient. simpl.
  destruct (str_empty _); reflexivity.
Qed.

Lemma omap_kept gs :
  omap (fun x => x)
       (map (fun g => if kept_ingredient g then Some (clamp_ingredient g) else None) gs)
  = map clamp_ingredient (List.filter kept_ingredient gs).
Proof.
  induction gs as [|g gs IH]; [reflexivity|].
  cbn [map omap list_omap List.filter]. destruct (kept_ingredient g); simpl; rewrite IH;
    reflexivity.
Qed.

Lemma py_get_inv k dflt x v :
  py_get k dflt x = Ok v -> exists f, x = JObj f /\ v = dict_get_default k dflt f.
Proof. destruct x; simpl; try discriminate. intros [= <-]. eauto. Qed.

Lemma normalize_idea_spec x i :
  normalize_idea x = Ok i ->
  idea_clamped i /\ exists f, x = JObj f /\ rebuilt_from f i.
Proof.
  unfold normalize_idea. intros Hn.
  bind_inv Hn. apply py_get_inv in E as (f & -> & ->).
  cbn [py_get bind] in Hn.
  destruct (py_iter (dict_get_default "ingredients" (JArr []) f)) as [ings_l|] eqn:Ei;
    [cbn [bind] in Hn|discriminate].
  destruct (map_outcome normalize_ingredient ings_l) as [ings|] eqn:Em;
    [cbn [bind] in Hn|discriminate].
  destruct (str_list 30 _) as [sts|] eqn:Es; [cbn [bind] in Hn|discriminate].
  destruct (py_int _) as [tm|]; [cbn [bind] in Hn|discriminate].
  destruct (str_list 10 _) as [cats|] eqn:Ec; [cbn [bind] in Hn|discriminate].
  injection Hn as <-. split.
  - unfold idea_clamped. simpl.
    repeat split; try apply str_take_within.
    + eapply ingredients_within, Em.
    + eapply str_list_length, Es.
    + eapply str_list_length, Ec.
  - exists f. split; [reflexivity|]. unfold rebuilt_from. simpl.
    repeat split.
    + intros gs Hgs. rewrite Hgs in Ei. simpl in Ei. injection Ei as <-.
      rewrite ingredients_objects in Em. injection Em as <-. apply omap_kept.
    + intros l Hl. rewrite Hl, str_list_array in Es. congruence.
    + intros l Hl. rewrite Hl, str_list_array in Ec. congruence.
Qed.

Lemma ingredients_rebuild items :
  match map_outcome normalize_ingredient items with
  | Ok l => Some (omap (fun x => x) l)
  | Raise _ => None
  end
  = (gs ← mapM as_object items;
     Some (map clamp_ingredient (List.filter kept_ingredient gs))).
Proof.
  induction items as [|x items IH]; [reflexivity|].
  cbn [map_outcome mapM]. destruct x as [| | | | | |g]; try reflexivity.
  assert (normalize_ingredient (JObj g)
          = Ok (if kept_ingredient g then Some (clamp_ingredient g) else None)) as ->.
  { unfold normalize_ingredient, kept_ingredient, clamp_ingredient. simpl.
    destruct (str_empty _); reflexivity. }
  cbn [bind as_object].
  destruct (map_outcome normalize_ingredient items) as [l|e];
    destruct (mapM as_object items) as [gs|]; simpl in IH |- *;
    try discriminate; try reflexivity.
  injection IH as IH.
  destruct (kept_ingredient g) eqn:Ek; simpl.
  - do 2 f_equal. exact IH.
  - f_equal. exact IH.
Qed.

(** The loop body does to an entry what the claim says of it. *)
Lemma normalized_rebuild x : normalized x = rebuild x.
Proof.
  unfold normalized, rebuild, normalize_idea.
  destruct x as [| | | | | |f]; try reflexivity.
  cbn [py_get bind as_object]. change (mbind ?k (Some f)) with (k f). cbv beta.
  unfold items_of, int_or_zero, str_list.
  destruct (py_iter (dict_get_default "ingredients" (JArr []) f)) as [ings|];
    [|reflexivity].
  cbn [bind]. change (mbind ?k (Some ings)) with (k ings). cbv beta.
  pose proof (ingredients_rebuild ings) as Hi.
  destruct (map_outcome normalize_ingredient ings) as [l|];
    destruct (mapM as_object ings) as [gs|];
    cbn [bind mbind option_bind] in *; try discriminate; try reflexivity.
  injection Hi as Hi.
  destruct (py_iter (dict_get_default "steps" (JArr []) f)) as [sts|];
    [|reflexivity].
  cbn [bind].
  destruct (py_int _) as [tm|]; [|reflexivity].
  cbn [bind].
  destruct (py_iter (dict_get_default "categories" (JArr []) f)) as [cats|];
    [|reflexivity].
  cbn [bind]. rewrite Hi. reflexivity.
Qed.

Lemma ideas_loop_spec raw acc : ideas_loop raw acc = acc ++ omap normalized raw.
Proof.
  revert acc. induction raw as [|x raw IH]; intros acc; simpl.
  - rewrite app_nil_r. reflexivity.
  - unfold normalized at 1. destruct (normalize_idea x); rewrite IH.
    + rewrite <- app_assoc. reflexivity.
    + reflexivity.
Qed.

Lemma omap_ext_eq {A B} (f g : A -> option B) (l : list A) :
  (forall x, f x = g x) -> omap f l = omap g l.
Proof.
  intros Hfg. induction l as [|x l IH]; [reflexivity|].
  cbn [omap list_omap]. rewrite Hfg. fold (omap f l) (omap g l). rewrite IH. reflexivity.
Qed.

Lemma length_omap_le {A B} (f : A -> option B) l : (length (omap f l) <= length l)%nat.
Proof.
  induction l as [|x l IH]; [simpl; lia|].
  cbn [omap list_omap]. destruct (f x); cbn [length]; fold (omap f l); lia.
Qed.

(** C6. For a response object whose match_titles, ideas and
    substitutions are arrays (a missing key counts as the empty array),
    the normalisation returns; match_titles and substitutions are the
    first 20 entries, as strings; the ideas are the rebuilds of the first
    10 entries of the ideas array, in order, an entry whose rebuild raises
    being left out and the others unaffected (at most 10 ideas result);
    every idea respects the caps (title 120, description 2000, ingredient
    name and quantity 120, difficulty 20, steps 30, categories 10) and is
    the field-by-field truncation of its entry, ingredients with a blank
    name being dropped.  The entries left out are exactly those on which
    the body of the loop raises. *)
Theorem suggest_from_ingredients_clamps :
  forall (m : dict) (titles entries subs : list json),
    dict_get_default "match_titles" (JArr []) m = JArr titles ->
    dict_get_default "ideas" (JArr []) m = JArr entries ->
    dict_get_default "substitutions" (JArr []) m = JArr subs ->
    exists out : suggestions,
      suggest_from_ingredients (JObj m) = Ok out
      /\ match_titles out = take 20 (map py_str titles)
      /\ substitutions out = take 20 (map py_str subs)
      /\ ideas out = omap rebuild (take 10 entries)
      /\ (length (ideas out) <= 10)%nat
      /\ Forall (fun i => idea_clamped i
                          /\ exists f, JObj f ∈ take 10 entries
                                       /\ rebuild (JObj f) = Some i
                                       /\ rebuilt_from f i) (ideas out)
      /\ (forall x, rebuild x = None <-> exists e, normalize_idea x = Raise e).
Proof.
  intros m titles entries subs Ht He Hs.
  eexists. split; [|split; [|split; [|split; [|split; [|split]]]]].
  7:{ intros x. rewrite <- normalized_rebuild. unfold normalized.
      destruct (normalize_idea x) as [i|e]; split.
      - discriminate.
      - intros [e He']. discriminate.
      - eauto.
      - reflexivity. }
  - unfold suggest_from_ingredients. simpl. rewrite Ht, He, Hs. simpl.
    rewrite ideas_loop_spec. reflexivity.
  - reflexivity.
  - reflexivity.
  - simpl. apply omap_ext_eq, normalized_rebuild.
  - simpl. etransitivity; [apply length_omap_le|]. rewrite length_take. lia.
  - simpl. apply Forall_forall. intros i (x & Hx & Hi)%list_elem_of_omap.
    pose proof Hi as Hr. rewrite normalized_rebuild in Hr.
    unfold normalized in Hi. destruct (normalize_idea x) as [i'|] eqn:En; [|discriminate].
    injection Hi as ->. destruct (normalize_idea_spec x i En) as (Hc & f & -> & Hf).
    split; [exact Hc|]. exists f. split; [exact Hx|]. split; [exact Hr|exact Hf].
Qed.

End NormalisationProperties.

(** ** The JSON decoder never accepts a backtick next to a line break *)

Lemma ticks_inside_any_prev p s : ticks_inside None s = true -> ticks_inside p s = true.
Proof.
  destruct s as [|c s]; [reflexivity|]. simpl.
  destruct (Ascii.eqb c backtick); [discriminate|]. auto.
Qed.

Lemma ticks_inside_app p a b :
  ticks_inside p a = true -> ticks_inside None b = true ->
  ticks_inside p (a +:+ b) = true.
Proof.
  revert p. induction a as [|c a IH]; intros p Ha Hb.
  - apply ticks_inside_any_prev, Hb.
  - rewrite app_cons. simpl in *. apply andb_true_iff in Ha as [Hc Ha].
    rewrite (IH _ Ha Hb), andb_true_r.
    destruct (Ascii.eqb c backtick); [|reflexivity].
    destruct p as [p|]; [|discriminate]. destruct a as [|n a]; [discriminate|].
    exact Hc.
Qed.

Lemma no_tick_inside p s : no_tick s = true -> ticks_inside p s = true.
Proof.
  revert p. induction s as [|c s IH]; intros p; simpl; [reflexivity|].
  intros [Hc Hs]%andb_true_iff. apply negb_true_iff in Hc. rewrite Hc. simpl. auto.
Qed.

Lemma no_tick_app a b : no_tick a = true -> no_tick b = true -> no_tick (a +:+ b) = true.
Proof.
  induction a as [|c a IH]; simpl; [auto|].
  intros [Hc Ha]%andb_true_iff Hb. rewrite Hc. simpl. auto.
Qed.

(** A run without line feed that does not end in a backtick, after a
    character that is not a line feed. *)
Lemma no_newline_inside p s d :
  no_newline s = true -> last_char s = Some d -> Ascii.eqb d backtick = false ->
  Ascii.eqb p newline = false ->
  ticks_inside (Some p) s = true.
Proof.
  revert p. induction s as [|c s IH]; intros p Hnl Hlast Hd Hp; [reflexivity|].
  simpl in *. apply andb_true_iff in Hnl as [Hc Hnl]. apply negb_true_iff in Hc.
  destruct s as [|n s].
  - simpl in *. injection Hlast as ->. rewrite Hd. reflexivity.
  - rewrite (IH c); auto.
    + rewrite Hp, andb_true_r. simpl in Hnl. apply andb_true_iff in Hnl as [Hn _].
      rewrite Hn. destruct (Ascii.eqb c backtick); reflexivity.
    + simpl in *. destruct (last_char s); exact Hlast.
Qed.

Lemma skip_ws_split s : exists w, s = w +:+ skip_ws s /\ no_tick w = true.
Proof.
  induction s as [|c s (w & Hw & Hnt)]; simpl.
  - exists EmptyString. auto.
  - destruct (is_json_ws c) eqn:E.
    + exists (String c w). rewrite app_cons, <- Hw. split; [reflexivity|].
      simpl. rewrite Hnt, andb_true_r.
      destruct (Ascii.eqb c backtick) eqn:Eb; [|reflexivity].
      apply Ascii.eqb_eq in Eb. subst c. vm_compute in E. discriminate.
    + exists EmptyString. auto.
Qed.

Lemma span_digits_split s d r :
  span_digits s = (d, r) -> s = d +:+ r /\ no_tick d = true.
Proof.
  revert d r. induction s as [|c s IH]; intros d r; simpl.
  - intros [= <- <-]. auto.
  - destruct (is_digit c) eqn:E.
    + destruct (span_digits s) as [d' r'] eqn:Es. intros [= <- <-].
      destruct (IH d' r' eq_refl) as [-> Hd]. split; [reflexivity|].
      simpl. rewrite Hd, andb_true_r.
      destruct (Ascii.eqb c backtick) eqn:Eb; [|reflexivity].
      apply Ascii.eqb_eq in Eb. subst c. vm_compute in E. discriminate.
    + intros [= <- <-]. auto.
Qed.

Lemma is_hex_not_newline h : is_hex h = true -> Ascii.eqb h newline = false.
Proof.
  intros Hh. destruct (Ascii.eqb h newline) eqn:E; [|reflexivity].
  apply Ascii.eqb_eq in E. subst h. vm_compute in Hh. discriminate.
Qed.

Lemma simple_escape_not_newline e d :
  simple_escape e = Some d -> Ascii.eqb e newline = false.
Proof.
  intros He. destruct (Ascii.eqb e newline) eqn:E; [|reflexivity].
  apply Ascii.eqb_eq in E. subst e. vm_compute in He. discriminate.
Qed.

Lemma printable_not_newline c : (code c <? 32)%N = false -> Ascii.eqb c newline = false.
Proof.
  intros Hc. destruct (Ascii.eqb c newline) eqn:E; [|reflexivity].
  apply Ascii.eqb_eq in E. subst c. vm_compute in Hc. discriminate.
Qed.

Lemma last_char_cons c s d : last_char s = Some d -> last_char (String c s) = Some d.
Proof. simpl. intros ->. reflexivity. Qed.

(** What [scan_string] consumes has no line feed and ends with the closing
    quote; the scan does not depend on what follows. *)
Lemma scan_string_split n : forall s t r,
  (String.length s <= n)%nat ->
  scan_string s = Some (t, r) ->
  exists c, s = c +:+ r /\ no_newline c = true /\ last_char c = Some dquote
            /\ (String.length r < String.length s)%nat
            /\ forall x, scan_string (c +:+ x) = Some (t, x).
Proof.
  induction n as [|n IH]; intros s t r Hlen Hs.
  - destruct s; [discriminate|simpl in Hlen; lia].
  - destruct s as [|c s1]; [discriminate|]. simpl in Hlen. cbn [scan_string] in Hs.
    destruct (Ascii.eqb c dquote) eqn:Eq.
    { injection Hs as <- <-. apply Ascii.eqb_eq in Eq. subst c.
      exists (String dquote EmptyString). simpl. repeat split; auto. }
    destruct (Ascii.eqb c backslash) eqn:Eb.
    { apply Ascii.eqb_eq in Eb. subst c.
      destruct s1 as [|e s2]; [discriminate|].
      destruct (Ascii.eqb e "u") eqn:Eu.
      - apply Ascii.eqb_eq in Eu. subst e.
        destruct s2 as [|h1 [|h2 [|h3 [|h4 s3]]]]; try discriminate.
        destruct (is_hex h1 && is_hex h2 && is_hex h3 && is_hex h4) eqn:Eh; [|discriminate].
        pose proof Eh as Eh'.
        apply andb_true_iff in Eh as [Eh H4]. apply andb_true_iff in Eh as [Eh H3].
        apply andb_true_iff in Eh as [H1 H2].
        destruct (scan_string s3) as [[t' r']|] eqn:Es; [|discriminate].
        injection Hs as <- <-.
        destruct (IH s3 t' r') as (c & -> & Hnl & Hlast & Hr & Hloc);
          [simpl in Hlen; lia|assumption|].
        exists (String backslash (String "u" (String h1 (String h2 (String h3 (String h4 c)))))).
        split; [reflexivity|]. split; [|split; [|split]].
        + simpl. rewrite !is_hex_not_newline by assumption. exact Hnl.
        + repeat apply last_char_cons. exact Hlast.
        + simpl. lia.
        + intros x. rewrite !app_cons. cbn [scan_string].
          change (Ascii.eqb backslash dquote) with false.
          change (Ascii.eqb backslash backslash) with true.
          change (Ascii.eqb "u" "u") with true. cbv iota.
          rewrite Eh', Hloc. reflexivity.
      - destruct (simple_escape e) as [d|] eqn:Ee; [|discriminate].
        destruct (scan_string s2) as [[t' r']|] eqn:Es; [|discriminate].
        injection Hs as <- <-.
        destruct (IH s2 t' r') as (c & -> & Hnl & Hlast & Hr & Hloc);
          [simpl in Hlen; lia|assumption|].
        exists (String backslash (String e c)).
        split; [reflexivity|]. split; [|split; [|split]].
        + simpl. rewrite (simple_escape_not_newline e d Ee). exact Hnl.
        + repeat apply last_char_cons. exact Hlast.
        + simpl. lia.
        + intros x. rewrite !app_cons. cbn [scan_string].
          change (Ascii.eqb backslash dquote) with false.
          change (Ascii.eqb backslash backslash) with true. cbv iota.
          rewrite Eu, Ee, Hloc. reflexivity. }
    destruct (code c <? 32)%N eqn:Ec; [discriminate|].
    destruct (scan_string s1) as [[t' r']|] eqn:Es; [|discriminate].
    injection Hs as <- <-.
    destruct (IH s1 t' r') as (c' & -> & Hnl & Hlast & Hr & Hloc); [lia|assumption|].
    exists (String c c'). split; [reflexivity|]. split; [|split; [|split]].
    + simpl. rewrite (printable_not_newline c Ec). exact Hnl.
    + apply last_char_cons. exact Hlast.
    + simpl. lia.
    + intros x. rewrite app_cons. cbn [scan_string]. rewrite Eq, Eb, Ec, Hloc. reflexivity.
Qed.

(** A string literal, opening quote included, keeps its backticks inside. *)
Lemma string_literal_ticks s t r :
  scan_string s = Some (t, r) ->
  exists c, String dquote s = c +:+ r /\ ticks_inside None c = true
            /\ (String.length r < String.length s)%nat.
Proof.
  intros Hs. destruct (scan_string_split _ s t r (Nat.le_refl _) Hs)
    as (c & -> & Hnl & Hlast & Hr & _).
  exists (String dquote c). split; [reflexivity|]. split; [|exact Hr].
  simpl. eapply no_newline_inside; eauto.
Qed.

Lemma starts_with_split w s :
  starts_with w s = true -> s = w +:+ str_drop (String.length w) s.
Proof.
  revert s. induction w as [|a w IH]; intros s; simpl; [reflexivity|].
  destruct s as [|b s]; [discriminate|].
  destruct (Ascii.eqb a b) eqn:E; [|discriminate].
  apply Ascii.eqb_eq in E. subst b. intros Hw. rewrite app_cons, <- IH by assumption.
  reflexivity.
Qed.

Lemma literal_split w v s x r :
  no_tick w = true -> w <> EmptyString ->
  literal w v s = Some (x, r) ->
  s = w +:+ r /\ (String.length r < String.length s)%nat.
Proof.
  unfold literal. intros Hw Hne. destruct (starts_with w s) eqn:E; [|discriminate].
  intros [= <- <-]. pose proof (starts_with_split w s E) as Hs. split; [exact Hs|].
  rewrite Hs at 2. rewrite length_app_str. destruct w; [congruence|]. simpl. lia.
Qed.

Lemma scan_frac_split s f r :
  scan_frac s = (f, r) -> s = f +:+ r /\ no_tick f = true.
Proof.
  unfold scan_frac. destruct s as [|c s']; [intros [= <- <-]; auto|].
  destruct (Ascii.eqb c ".") eqn:E; [|intros [= <- <-]; auto].
  destruct (span_digits s') as [d r'] eqn:Ed.
  destruct (span_digits_split _ _ _ Ed) as [-> Hd].
  destruct (str_empty d); intros [= <- <-]; [auto|].
  split; [reflexivity|]. simpl. rewrite Hd, andb_true_r.
  apply Ascii.eqb_eq in E. subst c. reflexivity.
Qed.

Lemma scan_exp_split s x r :
  scan_exp s = (x, r) -> s = x +:+ r /\ no_tick x = true.
Proof.
  unfold scan_exp. destruct s as [|e s']; [intros [= <- <-]; auto|].
  destruct (Ascii.eqb e "e" || Ascii.eqb e "E") eqn:E; [|intros [= <- <-]; auto].
  assert (negb (Ascii.eqb e backtick) = true) as He.
  { destruct (Ascii.eqb e backtick) eqn:Eb; [|reflexivity].
    apply Ascii.eqb_eq in Eb. subst e. vm_compute in E. discriminate. }
  destruct s' as [|g s''].
  - simpl. intros [= <- <-]. auto.
  - destruct (Ascii.eqb g "-" || Ascii.eqb g "+") eqn:Eg.
    + destruct (span_digits s'') as [d r'] eqn:Ed.
      destruct (span_digits_split _ _ _ Ed) as [-> Hd].
      destruct (str_empty d); intros [= <- <-]; [auto|].
      split; [reflexivity|]. simpl. rewrite app_empty_l, He, Hd, andb_true_r. simpl.
      destruct (Ascii.eqb g backtick) eqn:Eb; [|reflexivity].
      apply Ascii.eqb_eq in Eb. subst g. vm_compute in Eg. discriminate.
    + destruct (span_digits (String g s'')) as [d r'] eqn:Ed.
      destruct (span_digits_split _ _ _ Ed) as [Hs Hd].
      destruct (str_empty d); intros [= <- <-]; [auto|].
      split; [rewrite Hs; reflexivity|]. simpl. rewrite app_empty_l, He, Hd. reflexivity.
Qed.

Lemma span_digits_digits s d r : span_digits s = (d, r) -> all_digits d = true.
Proof.
  revert d r. induction s as [|c s IH]; intros d r; simpl.
  - intros [= <- <-]. reflexivity.
  - destruct (is_digit c) eqn:E.
    + destruct (span_digits s) as [d' r'] eqn:Es. intros [= <- <-].
      simpl. rewrite E. eapply IH. reflexivity.
    + intros [= <- <-]. reflexivity.
Qed.

Lemma span_digits_app d x :
  all_digits d = true -> head_not is_digit x -> span_digits (d +:+ x) = (d, x).
Proof.
  intros Hd Hx. induction d as [|c d IH]; simpl in *.
  - destruct x as [|a x]; [reflexivity|]. simpl in *. rewrite Hx. reflexivity.
  - apply andb_true_iff in Hd as [Hc Hd]. rewrite ?app_cons. simpl.
    rewrite Hc, (IH Hd). reflexivity.
Qed.

Lemma head_not_app_l p a b : a <> EmptyString -> head_not p a -> head_not p (a +:+ b).
Proof. destruct a; [congruence|]. intros _ Ha. exact Ha. Qed.

Lemma digit_not_tick c : is_digit c = true -> Ascii.eqb c backtick = false.
Proof.
  intros Hc. destruct (Ascii.eqb c backtick) eqn:E; [|reflexivity].
  apply Ascii.eqb_eq in E. subst c. vm_compute in Hc. discriminate.
Qed.

Lemma digit_not_space c : is_digit c = true -> isspace c = false.
Proof.
  unfold is_digit, isspace, in_range. intros Hc.
  apply andb_true_iff in Hc as [H1 H2]. apply N.leb_le in H1, H2.
  repeat match goal with
         | |- context [(?a <=? ?b)%N] => destruct (N.leb_spec a b)
         | |- context [(?a =? ?b)%N] => destruct (N.eqb_spec a b)
         end; simpl; try reflexivity; lia.
Qed.

Lemma all_digits_no_tick d : all_digits d = true -> no_tick d = true.
Proof.
  induction d as [|c d IH]; simpl; [reflexivity|].
  intros [Hc Hd]%andb_true_iff. rewrite (digit_not_tick c Hc), IH by assumption.
  reflexivity.
Qed.

Lemma all_digits_last d c :
  all_digits d = true -> last_char d = Some c -> is_digit c = true.
Proof.
  induction d as [|a d IH]; simpl; [discriminate|].
  intros [Ha Hd]%andb_true_iff. destruct (last_char d) as [b|].
  - intros [= <-]. apply IH; auto.
  - intros [= <-]. exact Ha.
Qed.

Lemma last_char_app a b :
  b <> EmptyString -> last_char (a +:+ b) = last_char b.
Proof.
  intros Hb. induction a as [|c a IH]; [reflexivity|].
  rewrite app_cons. simpl. rewrite IH.
  destruct b as [|d b]; [congruence|]. simpl. destruct (last_char b); reflexivity.
Qed.

Lemma scan_int_part_local s ip r :
  scan_int_part s = Some (ip, r) ->
  s = ip +:+ r /\ all_digits ip = true /\ ip <> EmptyString
  /\ forall x, head_not is_digit x -> scan_int_part (ip +:+ x) = Some (ip, x).
Proof.
  unfold scan_int_part. destruct s as [|c r0]; [discriminate|].
  destruct (is_digit c) eqn:Ed; [|discriminate].
  destruct (Ascii.eqb c "0") eqn:E0.
  - intros [= <- <-]. simpl. rewrite Ed. repeat split; [discriminate|].
    intros x _. rewrite E0. reflexivity.
  - simpl. rewrite Ed. destruct (span_digits r0) as [d r'] eqn:Es. intros [= <- <-].
    destruct (span_digits_split _ _ _ Es) as [-> _].
    pose proof (span_digits_digits _ _ _ Es) as Hd.
    split; [reflexivity|]. split; [simpl; rewrite Ed; exact Hd|].
    split; [discriminate|]. intros x Hx.
    rewrite (span_digits_app (String c d) x); [|simpl; rewrite Ed; exact Hd|exact Hx].
    rewrite app_cons. cbv iota. rewrite Ed, E0. reflexivity.
Qed.

Lemma scan_frac_local s fr r :
  scan_frac s = (fr, r) ->
  (fr = EmptyString
   \/ exists d, fr = String "." d /\ all_digits d = true /\ d <> EmptyString)
  /\ forall x, head_not is_digit x -> head_not is_dot x -> scan_frac (fr +:+ x) = (fr, x).
Proof.
  unfold scan_frac. destruct s as [|c s'].
  - intros [= <- <-]. split; [auto|]. intros [|a x] _ Hx; [reflexivity|].
    simpl in *. unfold is_dot in Hx. rewrite Hx. reflexivity.
  - destruct (Ascii.eqb c ".") eqn:E.
    + apply Ascii.eqb_eq in E. subst c.
      destruct (span_digits s') as [d r'] eqn:Ed.
      pose proof (span_digits_digits _ _ _ Ed) as Hd.
      destruct (str_empty d) eqn:Ee; intros [= <- <-].
      * split; [auto|]. intros [|a x] _ Hx; [reflexivity|].
        simpl in *. unfold is_dot in Hx. rewrite Hx. reflexivity.
      * split.
        -- right. exists d. repeat split; [exact Hd|]. intros ->. discriminate.
        -- intros x Hx _. rewrite app_cons. cbn [Ascii.eqb].
           change (Ascii.eqb "." ".") with true. cbv iota.
           rewrite span_digits_app by assumption. rewrite Ee. reflexivity.
    + intros [= <- <-]. split; [auto|]. intros [|a x] _ Hx; [reflexivity|].
      simpl in *. unfold is_dot in Hx. rewrite Hx. reflexivity.
Qed.

Lemma digit_not_sign c : is_digit c = true -> Ascii.eqb c "-" || Ascii.eqb c "+" = false.
Proof.
  intros Hc. destruct (Ascii.eqb c "-") eqn:E1.
  { apply Ascii.eqb_eq in E1. subst c. vm_compute in Hc. discriminate. }
  destruct (Ascii.eqb c "+") eqn:E2; [|reflexivity].
  apply Ascii.eqb_eq in E2. subst c. vm_compute in Hc. discriminate.
Qed.

Lemma all_digits_head d :
  all_digits d = true -> d <> EmptyString -> exists c d', d = String c d' /\ is_digit c = true.
Proof.
  destruct d as [|c d']; [congruence|]. simpl. intros [Hc _]%andb_true_iff _. eauto.
Qed.

Lemma scan_exp_local s ex r :
  scan_exp s = (ex, r) ->
  (ex = EmptyString
   \/ exists e t d, ex = String e (t +:+ d) /\ is_e e = true
                    /\ no_tick t = true /\ all_digits d = true /\ d <> EmptyString)
  /\ forall x, head_not is_digit x -> head_not is_e x -> scan_exp (ex +:+ x) = (ex, x).
Proof.
  assert (forall x, head_not is_e x -> scan_exp x = (EmptyString, x)) as Hnone.
  { intros [|a x] Hx; [reflexivity|]. simpl in *. unfold is_e in Hx. rewrite Hx. reflexivity. }
  unfold scan_exp at 1. destruct s as [|e s'].
  { intros [= <- <-]. split; [auto|]. intros x _ Hx. apply Hnone, Hx. }
  destruct (Ascii.eqb e "e" || Ascii.eqb e "E") eqn:Ee;
    [|intros [= <- <-]; split; [auto|]; intros x _ Hx; apply Hnone, Hx].
  set (sign := match s' with
               | String g r' =>
                   if Ascii.eqb g "-" || Ascii.eqb g "+"
                   then (String g EmptyString, r') else (EmptyString, s')
               | EmptyString => (EmptyString, s')
               end).
  assert (exists sg r1, sign = (sg, r1)
                        /\ no_tick sg = true
                        /\ (forall d y, all_digits d = true -> d <> EmptyString ->
                              match sg +:+ d +:+ y with
                              | String g r' =>
                                  if Ascii.eqb g "-" || Ascii.eqb g "+"
                                  then (String g EmptyString, r') else (EmptyString, sg +:+ d +:+ y)
                              | EmptyString => (EmptyString, sg +:+ d +:+ y)
                              end = (sg, d +:+ y))) as (sg & r1 & Hsign & Hsg & Hre).
  { subst sign. destruct s' as [|g r'].
    - exists EmptyString, EmptyString. repeat split.
      intros d y Hd Hne. destruct (all_digits_head d Hd Hne) as (c & d' & -> & Hc).
      rewrite app_empty_l, app_cons. rewrite (digit_not_sign c Hc). reflexivity.
    - destruct (Ascii.eqb g "-" || Ascii.eqb g "+") eqn:Eg.
      + exists (String g EmptyString), r'. split; [reflexivity|]. split.
        * simpl. destruct (Ascii.eqb g backtick) eqn:Eb; [|reflexivity].
          apply Ascii.eqb_eq in Eb. subst g. vm_compute in Eg. discriminate.
        * intros d y _ _. rewrite app_cons, app_empty_l, Eg. reflexivity.
      + exists EmptyString, (String g r'). repeat split.
        intros d y Hd Hne. destruct (all_digits_head d Hd Hne) as (c & d' & -> & Hc).
        rewrite app_empty_l, app_cons. rewrite (digit_not_sign c Hc). reflexivity. }
  fold sign. rewrite Hsign.
  destruct (span_digits r1) as [d r2] eqn:Ed.
  pose proof (span_digits_digits _ _ _ Ed) as Hd.
  destruct (str_empty d) eqn:Em; intros [= <- <-].
  { split; [auto|]. intros x _ Hx. apply Hnone, Hx. }
  assert (d <> EmptyString) as Hne by (intros ->; discriminate).
  split.
  - right. exists e, sg, d. auto.
  - intros x Hx _. rewrite app_cons. unfold scan_exp. rewrite Ee.
    rewrite app_assoc_str. rewrite (Hre d x Hd Hne).
    rewrite span_digits_app by assumption. rewrite Em. reflexivity.
Qed.

(** What [scan_number] consumes: a sign, digits, a fraction and an exponent;
    the text ends in a digit, and the scan is the same before any text that
    cannot continue a number. *)
Lemma scan_number_local s v r :
  scan_number s = Some (v, r) ->
  exists c, s = c +:+ r /\ no_tick c = true
            /\ (exists a c', c = String a c' /\ (Ascii.eqb a "-" || is_digit a = true))
            /\ (exists z, last_char c = Some z /\ is_digit z = true)
            /\ forall x, inert x -> scan_number (c +:+ x) = Some (v, x).
Proof.
  unfold scan_number at 1.
  set (split_sign := match s with
                     | String c r0 => if Ascii.eqb c "-" then (true, r0) else (false, s)
                     | EmptyString => (false, s)
                     end).
  assert (exists neg s1, split_sign = (neg, s1)
                         /\ s = (if neg then "-" else "") +:+ s1
                         /\ (neg = false -> head_not (fun c => Ascii.eqb c "-") s1))
    as (neg & s1 & Hss & Hs & Hneg).
  { subst split_sign. destruct s as [|c r0].
    - exists false, EmptyString. repeat split.
    - destruct (Ascii.eqb c "-") eqn:E.
      + apply Ascii.eqb_eq in E. subst c. exists true, r0. repeat split. discriminate.
      + exists false, (String c r0). repeat split. intros _. exact E. }
  rewrite Hss. destruct (scan_int_part s1) as [[ip r1]|] eqn:Ei; [|discriminate].
  destruct (scan_frac r1) as [fr r2] eqn:Ef. destruct (scan_exp r2) as [ex r3] eqn:Ee.
  intros [= <- <-].
  destruct (scan_int_part_local _ _ _ Ei) as (Hs1 & Hip & Hipne & Hiploc).
  destruct (scan_frac_split _ _ _ Ef) as (Hr1 & Hfrt).
  destruct (scan_frac_local _ _ _ Ef) as (Hfrs & Hfrloc).
  destruct (scan_exp_split _ _ _ Ee) as (Hr2 & Hext).
  destruct (scan_exp_local _ _ _ Ee) as (Hexs & Hexloc).
  destruct (all_digits_head ip Hip Hipne) as (a & ip' & Hipe & Ha).
  assert (forall x, inert x ->
            head_not is_digit (ex +:+ x) /\ head_not is_dot (ex +:+ x)
            /\ head_not is_digit (fr +:+ ex +:+ x)) as Hheads.
  { intros x (Hx1 & Hx2 & Hx3).
    assert (head_not is_digit (ex +:+ x) /\ head_not is_dot (ex +:+ x)) as [He1 He2].
    { destruct Hexs as [->|(e & t & d & -> & Hise & _)]; [auto|].
      unfold is_e in Hise. split; simpl.
      - destruct (is_digit e) eqn:E; [|reflexivity].
        exfalso. revert Hise.
        destruct (Ascii.eqb e "e") eqn:E1; [apply Ascii.eqb_eq in E1; subst e; discriminate|].
        destruct (Ascii.eqb e "E") eqn:E2; [apply Ascii.eqb_eq in E2; subst e; discriminate|].
        discriminate.
      - unfold is_dot. destruct (Ascii.eqb e ".") eqn:E; [|reflexivity].
        apply Ascii.eqb_eq in E. subst e. discriminate. }
    split; [exact He1|]. split; [exact He2|].
    destruct Hfrs as [->|(d & -> & _)]; [exact He1|reflexivity]. }
  exists ((if neg then "-" else "") +:+ ip +:+ fr +:+ ex).
  split; [|split; [|split; [|split]]].
  - rewrite Hs, Hs1, Hr1, Hr2. rewrite !app_assoc_str. reflexivity.
  - repeat apply no_tick_app; try assumption.
    + destruct neg; reflexivity.
    + apply all_digits_no_tick, Hip.
  - destruct neg.
    + exists "-"%char, (ip +:+ fr +:+ ex). split; reflexivity.
    + exists a, (ip' +:+ fr +:+ ex). rewrite Hipe. split; [reflexivity|].
      rewrite Ha. apply orb_true_r.
  - assert (exists z, last_char (ip +:+ fr +:+ ex) = Some z /\ is_digit z = true) as (z & Hz & Hzd).
    { destruct Hexs as [->|(e & t & d & -> & _ & _ & Hd & Hdne)].
      - rewrite app_empty_r.
        destruct Hfrs as [->|(d & -> & Hd & Hdne)].
        + rewrite app_empty_r. destruct (last_char ip) as [z|] eqn:El.
          * exists z. split; [reflexivity|]. eapply all_digits_last; eassumption.
          * destruct ip; [congruence|]. simpl in El. destruct (last_char ip); discriminate.
        + rewrite last_char_app by discriminate.
          change (String "." d) with (String "." EmptyString +:+ d).
          rewrite last_char_app by assumption.
          destruct (last_char d) as [z|] eqn:El.
          * exists z. split; [reflexivity|]. eapply all_digits_last; eassumption.
          * destruct d; [congruence|]. simpl in El. destruct (last_char d); discriminate.
      - rewrite <- app_assoc_str. rewrite last_char_app by discriminate.
        change (String e (t +:+ d)) with ((String e t) +:+ d).
        rewrite last_char_app by assumption.
        destruct (last_char d) as [z|] eqn:El.
        + exists z. split; [reflexivity|]. eapply all_digits_last; eassumption.
        + destruct d; [congruence|]. simpl in El. destruct (last_char d); discriminate. }
    exists z. split; [|exact Hzd].
    rewrite last_char_app; [exact Hz|]. destruct ip; [congruence|discriminate].
  - intros x Hx. destruct (Hheads x Hx) as (H1 & H2 & H3).
    unfold scan_number.
    assert (match (if neg then "-" else "") +:+ ip +:+ fr +:+ ex +:+ x with
            | String c r0 =>
                if Ascii.eqb c "-" then (true, r0)
                else (false, (if neg then "-" else "") +:+ ip +:+ fr +:+ ex +:+ x)
            | EmptyString => (false, (if neg then "-" else "") +:+ ip +:+ fr +:+ ex +:+ x)
            end = (neg, ip +:+ fr +:+ ex +:+ x)) as Hsplit.
    { destruct neg; [reflexivity|]. rewrite app_empty_l. rewrite Hipe, app_cons.
      destruct (Ascii.eqb a "-") eqn:E; [|reflexivity].
      apply Ascii.eqb_eq in E. subst a. vm_compute in Ha. discriminate. }
    rewrite !app_assoc_str. rewrite Hsplit.
    rewrite Hiploc by exact H3.
    rewrite Hfrloc by assumption.
    rewrite Hexloc by (destruct Hx as (? & ? & ?); assumption).
    reflexivity.
Qed.

Lemma scan_number_split s v r :
  scan_number s = Some (v, r) ->
  exists c, s = c +:+ r /\ no_tick c = true /\ (String.length r < String.length s)%nat.
Proof.
  intros Hs. destruct (scan_number_local s v r Hs) as (c & Hc & Hnt & (a & c' & -> & _) & _).
  exists (String a c'). split; [exact Hc|]. split; [exact Hnt|].
  rewrite Hc. simpl. rewrite length_app_str. lia.
Qed.


Lemma scan_atom_split s v r :
  scan_atom s = Some (v, r) ->
  exists c, s = c +:+ r /\ no_tick c = true /\ (String.length r < String.length s)%nat.
Proof.
  unfold scan_atom.
  repeat match goal with
  | |- context [literal ?w ?x s] =>
      let E := fresh "E" in
      destruct (literal w x s) as [[? ?]|] eqn:E;
        [ intros [= <- <-]; apply literal_split in E as [? ?];
          [eexists; split; [eassumption|split; [reflexivity|assumption]]
          |reflexivity|discriminate]
        | ]
  | |- context [scan_number s] =>
      let E := fresh "E" in
      destruct (scan_number s) as [[? ?]|] eqn:E;
        [ intros [= <- <-]; eapply scan_number_split, E | ]
  end.
  discriminate.
Qed.

Lemma consumed_refl s : consumed s s.
Proof. exists EmptyString. auto. Qed.

Lemma consumed_trans s r t : consumed s r -> consumed r t -> consumed s t.
Proof.
  intros (a & -> & Ha) (b & -> & Hb). exists (a +:+ b). split.
  - rewrite app_assoc_str. reflexivity.
  - apply ticks_inside_app; assumption.
Qed.

Lemma consumed_no_tick c r : no_tick c = true -> consumed (c +:+ r) r.
Proof. intros Hc. exists c. split; [reflexivity|]. apply no_tick_inside, Hc. Qed.

Lemma consumed_char c s : Ascii.eqb c backtick = false -> consumed (String c s) s.
Proof.
  intros Hc. apply (consumed_no_tick (String c EmptyString)). simpl. rewrite Hc. reflexivity.
Qed.

Lemma consumed_skip_ws s : consumed s (skip_ws s).
Proof.
  destruct (skip_ws_split s) as (w & Hw & Hnt). rewrite Hw at 1.
  apply consumed_no_tick, Hnt.
Qed.

Lemma consumed_skip_ws_to s c r : skip_ws s = String c r -> consumed s (String c r).
Proof. intros <-. apply consumed_skip_ws. Qed.

Ltac not_tick E :=
  let Eb := fresh in
  match goal with
  | |- Ascii.eqb ?c backtick = false =>
      destruct (Ascii.eqb c backtick) eqn:Eb; [|reflexivity];
      apply Ascii.eqb_eq in Eb; subst c; vm_compute in E; discriminate
  end.

Lemma parse_consumed n :
  (forall s v r, parse_value n s = POk v r -> consumed s r)
  /\ (forall s acc v r, parse_elements n s acc = POk v r -> consumed s r)
  /\ (forall s acc v r, parse_members n s acc = POk v r -> consumed s r).
Proof.
  induction n as [|n (IHv & IHe & IHm)]; [repeat split; discriminate|].
  split; [|split].
  - intros s v r Hp. destruct s as [|c s1]; [discriminate|]. cbn [parse_value] in Hp.
    destruct (Ascii.eqb c dquote) eqn:Eq.
    { apply Ascii.eqb_eq in Eq. subst c.
      destruct (scan_string s1) as [[t r']|] eqn:Es; [|discriminate].
      injection Hp as <- <-.
      destruct (string_literal_ticks _ _ _ Es) as (c & Hc & Ht & _). exists c. auto. }
    destruct (Ascii.eqb c "{") eqn:Eo.
    { destruct (skip_ws s1) as [|c2 r2] eqn:Ew; [discriminate|].
      apply consumed_trans with s1; [apply consumed_char; not_tick Eo|].
      apply consumed_trans with (String c2 r2); [apply consumed_skip_ws_to, Ew|].
      destruct (Ascii.eqb c2 "}") eqn:Ec.
      - injection Hp as <- <-. apply consumed_char. not_tick Ec.
      - eapply IHm, Hp. }
    destruct (Ascii.eqb c "[") eqn:Ea.
    { destruct (skip_ws s1) as [|c2 r2] eqn:Ew; [discriminate|].
      apply consumed_trans with s1; [apply consumed_char; not_tick Ea|].
      apply consumed_trans with (String c2 r2); [apply consumed_skip_ws_to, Ew|].
      destruct (Ascii.eqb c2 "]") eqn:Ec.
      - injection Hp as <- <-. apply consumed_char. not_tick Ec.
      - eapply IHe, Hp. }
    destruct (scan_atom (String c s1)) as [[v' r']|] eqn:Es; [|discriminate].
    injection Hp as <- <-.
    destruct (scan_atom_split _ _ _ Es) as (a & Ha & Hnt & _). rewrite Ha at 1.
    apply consumed_no_tick, Hnt.
  - intros s acc v r Hp. cbn [parse_elements] in Hp.
    destruct (parse_value n s) as [v1 r1| |] eqn:Ev; try discriminate.
    apply consumed_trans with r1; [eapply IHv, Ev|].
    destruct (skip_ws r1) as [|c r2] eqn:Ew; [discriminate|].
    apply consumed_trans with (String c r2); [apply consumed_skip_ws_to, Ew|].
    destruct (Ascii.eqb c "]") eqn:Ec.
    + injection Hp as <- <-. apply consumed_char. not_tick Ec.
    + destruct (Ascii.eqb c ",") eqn:Ec2; [|discriminate].
      apply consumed_trans with r2; [apply consumed_char; not_tick Ec2|].
      apply consumed_trans with (skip_ws r2); [apply consumed_skip_ws|].
      eapply IHe, Hp.
  - intros s acc v r Hp. destruct s as [|c s1]; [discriminate|]. cbn [parse_members] in Hp.
    destruct (Ascii.eqb c dquote) eqn:Eq; [|discriminate].
    apply Ascii.eqb_eq in Eq. subst c.
    destruct (scan_string s1) as [[k r1]|] eqn:Es; [|discriminate].
    destruct (string_literal_ticks _ _ _ Es) as (a & Ha & Hta & _).
    apply consumed_trans with r1; [exists a; auto|].
    destruct (skip_ws r1) as [|c2 r2] eqn:Ew; [discriminate|].
    apply consumed_trans with (String c2 r2); [apply consumed_skip_ws_to, Ew|].
    destruct (Ascii.eqb c2 ":") eqn:Ec; [|discriminate].
    apply consumed_trans with r2; [apply consumed_char; not_tick Ec|].
    apply consumed_trans with (skip_ws r2); [apply consumed_skip_ws|].
    destruct (parse_value n (skip_ws r2)) as [v1 r3| |] eqn:Ev; try discriminate.
    apply consumed_trans with r3; [eapply IHv, Ev|].
    destruct (skip_ws r3) as [|c3 r4] eqn:Ew3; [discriminate|].
    apply consumed_trans with (String c3 r4); [apply consumed_skip_ws_to, Ew3|].
    destruct (Ascii.eqb c3 "}") eqn:Ec3.
    + injection Hp as <- <-. apply consumed_char. not_tick Ec3.
    + destruct (Ascii.eqb c3 ",") eqn:Ec4; [|discriminate].
      apply consumed_trans with r4; [apply consumed_char; not_tick Ec4|].
      apply consumed_trans with (skip_ws r4); [apply consumed_skip_ws|].
      eapply IHm, Hp.
Qed.

Lemma all_json_ws_no_tick r : str_empty (skip_ws r) = true -> no_tick r = true.
Proof.
  induction r as [|c r IH]; simpl; [reflexivity|].
  destruct (is_json_ws c) eqn:E; [|discriminate].
  intros Hr. rewrite (IH Hr), andb_true_r.
  destruct (Ascii.eqb c backtick) eqn:Eb; [|reflexivity].
  apply Ascii.eqb_eq in Eb. subst c. vm_compute in E. discriminate.
Qed.

(** Accepted JSON text keeps every backtick strictly inside, away from line
    breaks: a backtick can only occur in a string literal, which holds no
    raw line feed. *)
Lemma json_loads_ticks s v : json_loads s = Some v -> ticks_inside None s = true.
Proof.
  unfold json_loads.
  destruct (parse_value _ (skip_ws s)) as [v' r| |] eqn:Ep; try discriminate.
  destruct (str_empty (skip_ws r)) eqn:Er; [|discriminate]. intros _.
  destruct (parse_consumed (2 * String.length s + 2)) as (Hv & _ & _).
  pose proof (consumed_trans _ _ _ (consumed_skip_ws s) (Hv _ _ _ Ep)) as (c & Hc & Ht).
  rewrite Hc. apply ticks_inside_app; [exact Ht|].
  apply no_tick_inside, all_json_ws_no_tick, Er.
Qed.

(** ** Removing the code fences *)

Lemma starts_with_cons a p b s :
  starts_with (String a p) (String b s) = if Ascii.eqb a b then starts_with p s else false.
Proof. reflexivity. Qed.

Lemma starts_with_fence_cons c s :
  Ascii.eqb c backtick = false -> starts_with "```" (String c s) = false.
Proof.
  intros Hc. rewrite starts_with_cons, Ascii.eqb_sym. change "`"%char with backtick.
  rewrite Hc. reflexivity.
Qed.

Lemma starts_with_fence_inv c s :
  starts_with "```" (String c s) = true ->
  c = backtick /\ starts_with "``" s = true.
Proof.
  rewrite starts_with_cons. destruct (Ascii.eqb "`" c) eqn:E; [|discriminate].
  apply Ascii.eqb_eq in E. subst c. auto.
Qed.

Lemma tick_inside_next prev s :
  ticks_inside prev (String backtick s) = true ->
  exists n s', s = String n s' /\ Ascii.eqb n newline = false
               /\ ticks_inside (Some backtick) s = true
               /\ exists p, prev = Some p /\ Ascii.eqb p newline = false.
Proof.
  cbn [ticks_inside]. rewrite Ascii.eqb_refl.
  destruct prev as [p|]; [|discriminate]. destruct s as [|n s']; [discriminate|].
  intros [Hpn Ht]%andb_true_iff. apply andb_true_iff in Hpn as [Hp Hn].
  apply negb_true_iff in Hp, Hn. eauto 10.
Qed.

Lemma fence_match_inside prev bol c s rest :
  ticks_inside prev (String c s) = true -> bol_agrees prev bol ->
  fence_match bol (String c s +:+ rest) = O.
Proof.
  intros Ht Hb. unfold fence_match. rewrite app_cons.
  destruct (starts_with "```" (String c (s +:+ rest))) eqn:Es; [|reflexivity].
  apply starts_with_fence_inv in Es as [-> Es].
  apply tick_inside_next in Ht as (n & s1 & -> & _ & Ht & p & -> & Hp).
  simpl in Hb. rewrite Hp in Hb. subst bol.
  rewrite app_cons in Es |- *. rewrite starts_with_cons in Es.
  destruct (Ascii.eqb "`" n) eqn:En; [|discriminate]. apply Ascii.eqb_eq in En. subst n.
  apply tick_inside_next in Ht as (n & s2 & -> & _ & Ht & _).
  rewrite app_cons in Es |- *. rewrite starts_with_cons in Es.
  destruct (Ascii.eqb "`" n) eqn:En; [|discriminate]. apply Ascii.eqb_eq in En. subst n.
  apply tick_inside_next in Ht as (n & s3 & -> & Hn & _).
  rewrite app_cons. cbn [str_drop]. rewrite Hn. reflexivity.
Qed.

Lemma bol_after_cons c s bol : bol_after (String c s) bol = bol_after s (Ascii.eqb c newline).
Proof. unfold bol_after. simpl. destruct (last_char s); reflexivity. Qed.

(** Text whose backticks are all inside goes through [re.sub] unchanged. *)
Lemma sub_fences_inside core : forall prev bol rest,
  ticks_inside prev core = true -> bol_agrees prev bol ->
  sub_fences_from 0 bol (core +:+ rest)
  = core +:+ sub_fences_from 0 (bol_after core bol) rest.
Proof.
  induction core as [|c core IH]; intros prev bol rest Ht Hb; [reflexivity|].
  pose proof (fence_match_inside prev bol c core rest Ht Hb) as Hm.
  rewrite app_cons in Hm |- *. cbn [sub_fences_from]. rewrite Hm.
  rewrite bol_after_cons. rewrite app_cons. f_equal.
  apply (IH (Some c)); [|reflexivity].
  simpl in Ht. apply andb_true_iff in Ht as [_ Ht]. exact Ht.
Qed.

(** The characters of a match are dropped. *)
Lemma sub_fences_skip a : forall bol b,
  sub_fences_from (String.length a) bol (a +:+ b)
  = sub_fences_from 0 (bol_after a bol) b.
Proof.
  induction a as [|c a IH]; intros bol b; [reflexivity|].
  rewrite app_cons, bol_after_cons. cbn [String.length sub_fences_from]. apply IH.
Qed.

Lemma count_space_run w x :
  all_space w = true -> no_lead_space x -> x <> EmptyString ->
  count_space (w +:+ x) = String.length w.
Proof.
  intros Hw Hx Hne. induction w as [|c w IH]; simpl in *.
  - destruct x as [|d x]; [congruence|]. simpl in *. rewrite Hx. reflexivity.
  - apply andb_true_iff in Hw as [Hc Hw]. rewrite ?app_cons. simpl. rewrite Hc, IH; auto.
Qed.

Lemma lstrip_split s : exists w, s = w +:+ lstrip s /\ all_space w = true.
Proof.
  induction s as [|c s (w & Hw & Hs)]; simpl.
  - exists EmptyString. auto.
  - destruct (isspace c) eqn:E.
    + exists (String c w). rewrite app_cons, <- Hw. simpl. rewrite E. auto.
    + exists EmptyString. auto.
Qed.

Lemma rstrip_split s : exists w, s = rstrip s +:+ w /\ all_space w = true.
Proof.
  induction s as [|c s (w & Hw & Hs)]; simpl.
  - exists EmptyString. auto.
  - destruct (isspace c && str_empty (rstrip s)) eqn:E.
    + apply andb_true_iff in E as [Hc He]. apply str_empty_true in He.
      rewrite He in Hw. rewrite app_empty_l in Hw. subst w.
      exists (String c s). simpl. rewrite Hc. auto.
    + exists w. rewrite app_cons, <- Hw. auto.
Qed.

Lemma strip_split s :
  exists w1 w2, s = w1 +:+ strip s +:+ w2 /\ all_space w1 = true /\ all_space w2 = true.
Proof.
  destruct (lstrip_split s) as (w1 & H1 & Hw1).
  destruct (rstrip_split (lstrip s)) as (w2 & H2 & Hw2).
  exists w1, w2. unfold strip. rewrite <- H2. auto.
Qed.

Lemma rstrip_last s d : last_char (rstrip s) = Some d -> isspace d = false.
Proof.
  induction s as [|c s IH]; simpl; [discriminate|].
  destruct (isspace c && str_empty (rstrip s)) eqn:E; [discriminate|]. simpl.
  destruct (last_char (rstrip s)) as [d'|] eqn:El.
  - intros [= <-]. apply IH. reflexivity.
  - intros [= <-]. destruct (rstrip s); [|simpl in El; destruct (last_char s0); discriminate].
    simpl in E. rewrite andb_true_r in E. exact E.
Qed.

Lemma all_space_no_tick w : all_space w = true -> no_tick w = true.
Proof.
  induction w as [|c w IH]; simpl; [reflexivity|].
  intros [Hc Hw]%andb_true_iff. rewrite IH by assumption.
  destruct (Ascii.eqb c backtick) eqn:Eb; [|reflexivity].
  apply Ascii.eqb_eq in Eb. subst c. vm_compute in Hc. discriminate.
Qed.

Lemma rstrip_app_keep s t : rstrip t <> EmptyString -> rstrip (s +:+ t) = s +:+ rstrip t.
Proof.
  intros Ht. induction s as [|c s IH]; [reflexivity|].
  rewrite !app_cons. simpl. rewrite IH.
  destruct (s +:+ rstrip t) eqn:E; [|rewrite andb_false_r; reflexivity].
  destruct s; [|discriminate]. rewrite app_empty_l in E. congruence.
Qed.

(** ** The parse ladder on a fenced response *)

Lemma json_loads_backtick r : json_loads (String backtick r) = None.
Proof. reflexivity. Qed.

Lemma all_space_app a b : all_space a = true -> all_space b = true -> all_space (a +:+ b) = true.
Proof.
  induction a as [|c a IH]; simpl; [auto|].
  intros [Hc Ha]%andb_true_iff Hb. rewrite ?app_cons. simpl. rewrite Hc. auto.
Qed.

Lemma last_char_snoc a c : last_char (a +:+ String c EmptyString) = Some c.
Proof.
  induction a as [|d a IH]; [reflexivity|]. rewrite app_cons. simpl. rewrite IH. reflexivity.
Qed.

Lemma no_lead_space_app a b : a <> EmptyString -> no_lead_space a -> no_lead_space (a +:+ b).
Proof. destruct a; [congruence|]. intros _ Ha. exact Ha. Qed.

Lemma strip_fenced ws1 ws2 J : strip (fenced_with ws1 ws2 J) = fenced_with ws1 ws2 J.
Proof.
  unfold strip. rewrite lstrip_fixed by reflexivity.
  unfold fenced_with. rewrite <- !app_assoc_str.
  apply rstrip_app_keep. discriminate.
Qed.

Lemma strip_nonempty_facts J :
  strip J <> EmptyString ->
  no_lead_space (strip J) /\ rstrip (strip J) = strip J /\ J <> EmptyString.
Proof.
  intros Hne. split; [|split].
  - apply rstrip_no_lead_space, lstrip_no_lead_space.
  - apply rstrip_idem.
  - intros ->. apply Hne. reflexivity.
Qed.

Lemma fence_match_open x : fence_match true ("```json" +:+ x) = (7 + count_space x)%nat.
Proof. reflexivity. Qed.

Lemma closing_fence_removed bol : sub_fences_from 0 bol "```" = EmptyString.
Proof. destruct bol; reflexivity. Qed.

(** What [re.sub] leaves of a fenced text: the text without its leading
    whitespace, and the whitespace before the closing fence. *)
Lemma sub_fences_fenced ws1 ws2 J w1 w2 :
  all_space ws1 = true -> all_space ws2 = true ->
  J = w1 +:+ strip J +:+ w2 -> all_space w1 = true -> all_space w2 = true ->
  strip J <> EmptyString -> ticks_inside None (strip J) = true ->
  sub_fences (fenced_with ws1 ws2 J) = strip J +:+ (w2 +:+ ws2).
Proof.
  intros Hws1 Hws2 HJ Hw1 Hw2 Hne Hticks.
  destruct (strip_nonempty_facts J Hne) as (Hlead & _ & _).
  set (core := strip J) in *.
  set (tail := (w2 +:+ ws2)).
  set (lead := (ws1 +:+ w1)).
  set (b := core +:+ tail +:+ "```").
  assert (fenced_with ws1 ws2 J = "```json" +:+ (lead +:+ b)) as Hshape.
  { unfold fenced_with. rewrite HJ at 1. subst lead b tail.
    rewrite !app_assoc_str. reflexivity. }
  assert (no_lead_space b /\ b <> EmptyString) as [Hb Hbne].
  { subst b. split; [apply no_lead_space_app; assumption|]. apply app_ne_l, Hne. }
  assert (all_space lead = true) as Hlead_ws by (apply all_space_app; assumption).
  rewrite Hshape. unfold sub_fences.
  change ("```json" +:+ (lead +:+ b)) with (String backtick (("``json" +:+ lead) +:+ b)) at 1.
  cbn [sub_fences_from].
  change (String backtick (("``json" +:+ lead) +:+ b)) with ("```json" +:+ (lead +:+ b)).
  rewrite fence_match_open, count_space_run by assumption.
  change (7 + String.length lead)%nat with (S (String.length ("``json" +:+ lead))).
  cbv iota. rewrite sub_fences_skip. subst b.
  rewrite (sub_fences_inside core None) by (assumption || exact I).
  rewrite (sub_fences_inside tail None); [| |exact I].
  - rewrite closing_fence_removed, app_empty_r. reflexivity.
  - apply no_tick_inside. subst tail.
    apply no_tick_app; apply all_space_no_tick; assumption.
Qed.

(** ** The decoder reads no further than the value *)

Lemma starts_with_app w x : starts_with w (w +:+ x) = true.
Proof.
  induction w as [|a w IH]; [reflexivity|]. rewrite app_cons, starts_with_cons.
  rewrite Ascii.eqb_refl. exact IH.
Qed.

Lemma str_drop_app w x : str_drop (String.length w) (w +:+ x) = x.
Proof. induction w as [|a w IH]; [reflexivity|]. rewrite app_cons. simpl. exact IH. Qed.

Lemma literal_local w v s v' r :
  literal w v s = Some (v', r) ->
  v' = v /\ s = w +:+ r /\ forall x, literal w v (w +:+ x) = Some (v, x).
Proof.
  unfold literal. destruct (starts_with w s) eqn:E; [|discriminate].
  intros [= <- <-]. split; [reflexivity|]. split; [apply starts_with_split, E|].
  intros x. rewrite starts_with_app, str_drop_app. reflexivity.
Qed.

Lemma json_ws_space c : is_json_ws c = true -> isspace c = true.
Proof.
  unfold is_json_ws, isspace, in_range.
  repeat match goal with
         | |- context [(?a =? ?b)%N] => destruct (N.eqb_spec a b)
         end; simpl; try discriminate; intros _;
    repeat match goal with
           | |- context [(?a <=? ?b)%N] => destruct (N.leb_spec a b)
           end; simpl; try reflexivity; lia.
Qed.

Lemma head_not_space_ws c : head_not isspace c -> head_not is_json_ws c.
Proof.
  destruct c as [|a c]; [auto|]. simpl. intros Ha.
  destruct (is_json_ws a) eqn:E; [|reflexivity].
  apply json_ws_space in E. congruence.
Qed.

(** An atom: what is consumed starts and ends with a character that is not
    whitespace, and the scan is the same before any text that cannot
    continue a number. *)
Lemma scan_atom_local s v r :
  scan_atom s = Some (v, r) ->
  exists c, s = c +:+ r /\ c <> EmptyString /\ head_not isspace c
            /\ (exists z, last_char c = Some z /\ isspace z = false)
            /\ forall x, inert x -> scan_atom (c +:+ x) = Some (v, x).
Proof.
  unfold scan_atom at 1.
  destruct (literal "null" JNull s) as [[v0 r0]|] eqn:E1.
  { intros [= <- <-]. apply literal_local in E1 as (-> & -> & _).
    exists "null". repeat split; try discriminate. eexists. split; reflexivity. }
  destruct (literal "true" (JBool true) s) as [[v0 r0]|] eqn:E2.
  { intros [= <- <-]. apply literal_local in E2 as (-> & -> & _).
    exists "true". repeat split; try discriminate. eexists. split; reflexivity. }
  destruct (literal "false" (JBool false) s) as [[v0 r0]|] eqn:E3.
  { intros [= <- <-]. apply literal_local in E3 as (-> & -> & _).
    exists "false". repeat split; try discriminate. eexists. split; reflexivity. }
  destruct (scan_number s) as [[v0 r0]|] eqn:E4.
  { intros [= <- <-].
    destruct (scan_number_local _ _ _ E4)
      as (c & Hc & _ & (a & c' & -> & Ha) & (z & Hz & Hzd) & Hloc).
    exists (String a c'). split; [exact Hc|]. split; [discriminate|].
    assert (isspace a = false /\ forall w u y,
               In w ["null"; "true"; "false"] ->
               literal w u (String a y) = None) as [Hsp Hlit].
    { apply orb_true_iff in Ha as [Ha|Ha].
      - apply Ascii.eqb_eq in Ha. subst a. split; [reflexivity|].
        intros w u y [<-|[<-|[<-|[]]]]; reflexivity.
      - split; [apply digit_not_space, Ha|].
        intros w u y Hw. unfold literal.
        assert (starts_with w (String a y) = false) as ->; [|reflexivity].
        destruct Hw as [<-|[<-|[<-|[]]]]; rewrite starts_with_cons;
          match goal with
          | |- (if Ascii.eqb ?k a then _ else _) = false =>
              destruct (Ascii.eqb k a) eqn:Ek; [|reflexivity];
              apply Ascii.eqb_eq in Ek; subst a; vm_compute in Ha; discriminate
          end. }
    split; [exact Hsp|]. split.
    - exists z. split; [exact Hz|]. apply digit_not_space, Hzd.
    - intros x Hx. unfold scan_atom. rewrite app_cons.
      rewrite !Hlit by (simpl; auto). rewrite <- app_cons, Hloc by exact Hx. reflexivity. }
  destruct (literal "NaN" (JFloat "NaN") s) as [[v0 r0]|] eqn:E5.
  { intros [= <- <-]. apply literal_local in E5 as (-> & -> & _).
    exists "NaN". repeat split; try discriminate. eexists. split; reflexivity. }
  destruct (literal "Infinity" (JFloat "Infinity") s) as [[v0 r0]|] eqn:E6.
  { intros [= <- <-]. apply literal_local in E6 as (-> & -> & _).
    exists "Infinity". repeat split; try discriminate. eexists. split; reflexivity. }
  intros E7. apply literal_local in E7 as (-> & -> & _).
  exists "-Infinity". repeat split; try discriminate. eexists. split; reflexivity.
Qed.

Lemma skip_ws_head s ch r :
  skip_ws s = String ch r ->
  exists w, s = w +:+ String ch r /\ all_json_ws w = true /\ is_json_ws ch = false.
Proof.
  induction s as [|c s IH]; simpl; [discriminate|].
  destruct (is_json_ws c) eqn:E.
  - intros Hs. destruct (IH Hs) as (w & -> & Hw & Hch).
    exists (String c w). simpl. rewrite E. auto.
  - intros [= -> ->]. exists EmptyString. auto.
Qed.

Lemma skip_ws_split_ws s : exists w, s = w +:+ skip_ws s /\ all_json_ws w = true.
Proof.
  induction s as [|c s (w & Hw & Hws)]; simpl.
  - exists EmptyString. auto.
  - destruct (is_json_ws c) eqn:E.
    + exists (String c w). rewrite app_cons, <- Hw. simpl. rewrite E. auto.
    + exists EmptyString. auto.
Qed.

Lemma skip_ws_app w c x :
  all_json_ws w = true -> c <> EmptyString -> head_not is_json_ws c ->
  skip_ws (w +:+ c +:+ x) = c +:+ x.
Proof.
  intros Hw Hne Hc. induction w as [|a w IH]; simpl in *.
  - destruct c as [|b c]; [congruence|]. simpl in *. rewrite Hc. reflexivity.
  - apply andb_true_iff in Hw as [Ha Hw]. rewrite ?app_cons. simpl. rewrite Ha. auto.
Qed.

Lemma skip_ws_app_char w ch x :
  all_json_ws w = true -> is_json_ws ch = false ->
  skip_ws (w +:+ String ch x) = String ch x.
Proof.
  intros Hw Hch. apply (skip_ws_app w (String ch EmptyString) x Hw); [discriminate|exact Hch].
Qed.

Lemma skip_ws_empty_all r : str_empty (skip_ws r) = true -> all_json_ws r = true.
Proof.
  induction r as [|c r IH]; simpl; [reflexivity|].
  destruct (is_json_ws c); [auto|discriminate].
Qed.

Lemma skip_ws_all w : all_json_ws w = true -> skip_ws w = EmptyString.
Proof.
  induction w as [|c w IH]; simpl; [reflexivity|].
  intros [-> Hw]%andb_true_iff. auto.
Qed.

Lemma all_json_ws_space w : all_json_ws w = true -> all_space w = true.
Proof.
  induction w as [|c w IH]; simpl; [reflexivity|].
  intros [Hc Hw]%andb_true_iff. rewrite (json_ws_space c Hc). auto.
Qed.

Lemma inert_ws_head w ch x :
  all_json_ws w = true -> is_digit ch = false -> is_dot ch = false -> is_e ch = false ->
  inert (w +:+ String ch x).
Proof.
  intros Hw H1 H2 H3. destruct w as [|a w].
  - repeat split; assumption.
  - simpl in Hw. apply andb_true_iff in Hw as [Ha _].
    assert (is_digit a = false /\ is_dot a = false /\ is_e a = false) as (? & ? & ?).
    { unfold is_dot, is_e. repeat split;
        match goal with
        | |- ?t = false => destruct t eqn:E; [|reflexivity]
        end.
      - unfold is_json_ws in Ha. unfold is_digit, in_range in E.
        apply andb_true_iff in E as [E1 E2]. apply N.leb_le in E1, E2.
        repeat match type of Ha with
               | context [(?p =? ?q)%N] => destruct (N.eqb_spec p q); [lia|]
               end. discriminate.
      - apply Ascii.eqb_eq in E. subst a. discriminate.
      - apply orb_true_iff in E as [E|E]; apply Ascii.eqb_eq in E; subst a; discriminate. }
    repeat split; assumption.
Qed.

Ltac str_ne :=
  repeat first [ assumption | discriminate | apply app_ne_l; assumption | apply app_ne_r ].

Ltac last_char_tac :=
  repeat first [ eassumption | reflexivity
               | rewrite last_char_app by str_ne | apply last_char_cons ].

(** A successful parse splits its input into the text of the value and the
    rest, and gives the same value before any other rest that cannot
    continue a number.  The text of a value starts and ends with a
    character that is not whitespace. *)
Lemma parse_local n :
  (forall s v r, parse_value n s = POk v r ->
     exists c, s = c +:+ r /\ c <> EmptyString /\ head_not isspace c
               /\ (exists z, last_char c = Some z /\ isspace z = false)
               /\ forall x, inert x -> parse_value n (c +:+ x) = POk v x)
  /\ (forall s acc v r, parse_elements n s acc = POk v r ->
        exists c, s = c +:+ r /\ c <> EmptyString /\ head_not isspace c
                  /\ last_char c = Some "]"%char
                  /\ forall x, parse_elements n (c +:+ x) acc = POk v x)
  /\ (forall s acc v r, parse_members n s acc = POk v r ->
        exists c, s = c +:+ r /\ c <> EmptyString /\ head_not isspace c
                  /\ last_char c = Some "}"%char
                  /\ forall x, parse_members n (c +:+ x) acc = POk v x).
Proof.
  induction n as [|n (IHv & IHe & IHm)]; [repeat split; discriminate|].
  split; [|split].
  - intros s v r Hp. destruct s as [|c s1]; [discriminate|]. cbn [parse_value] in Hp.
    destruct (Ascii.eqb c dquote) eqn:Eq.
    { apply Ascii.eqb_eq in Eq. subst c.
      destruct (scan_string s1) as [[t r']|] eqn:Es; [|discriminate].
      injection Hp as <- <-.
      destruct (scan_string_split _ s1 t r' (Nat.le_refl _) Es)
        as (c & -> & _ & Hlast & _ & Hloc).
      exists (String dquote c). split; [reflexivity|]. split; [discriminate|].
      split; [reflexivity|]. split.
      - exists dquote. split; [apply last_char_cons, Hlast|reflexivity].
      - intros x _. rewrite app_cons. cbn [parse_value].
        rewrite Ascii.eqb_refl, Hloc. reflexivity. }
    destruct (Ascii.eqb c "{") eqn:Eo.
    { apply Ascii.eqb_eq in Eo. subst c.
      destruct (skip_ws s1) as [|c2 r2] eqn:Ew; [discriminate|].
      destruct (skip_ws_head _ _ _ Ew) as (w & -> & Hw & Hc2).
      destruct (Ascii.eqb c2 "}") eqn:Ec.
      - injection Hp as <- <-. apply Ascii.eqb_eq in Ec. subst c2.
        exists (String "{" (w +:+ "}")). split; [|split; [discriminate|split; [reflexivity|split]]].
        + rewrite app_cons, app_assoc_str. reflexivity.
        + exists "}"%char. split; [|reflexivity].
          apply last_char_cons. apply last_char_snoc.
        + intros x _. rewrite app_cons, app_assoc_str. cbn [parse_value].
          change (Ascii.eqb "{" dquote) with false. change (Ascii.eqb "{" "{") with true.
          cbv iota.
          rewrite (skip_ws_app w "}" x Hw) by (discriminate || exact Hc2). reflexivity.
      - destruct (IHm _ _ _ _ Hp) as (cm & Hcm & Hne & Hhd & Hlast & Hloc).
        exists (String "{" (w +:+ cm)). split; [|split; [discriminate|split; [reflexivity|split]]].
        + rewrite app_cons, app_assoc_str, <- Hcm. reflexivity.
        + exists "}"%char. split; [|reflexivity].
          apply last_char_cons. rewrite last_char_app by assumption. exact Hlast.
        + intros x _. rewrite app_cons, app_assoc_str. cbn [parse_value].
          change (Ascii.eqb "{" dquote) with false. change (Ascii.eqb "{" "{") with true.
          cbv iota.
          rewrite (skip_ws_app w cm x Hw Hne (head_not_space_ws _ Hhd)).
          destruct cm as [|c0 cm']; [congruence|]. rewrite app_cons in Hcm |- *.
          injection Hcm as <- _. rewrite Ec. rewrite <- app_cons. apply Hloc. }
    destruct (Ascii.eqb c "[") eqn:Ea.
    { apply Ascii.eqb_eq in Ea. subst c.
      destruct (skip_ws s1) as [|c2 r2] eqn:Ew; [discriminate|].
      destruct (skip_ws_head _ _ _ Ew) as (w & -> & Hw & Hc2).
      destruct (Ascii.eqb c2 "]") eqn:Ec.
      - injection Hp as <- <-. apply Ascii.eqb_eq in Ec. subst c2.
        exists (String "[" (w +:+ "]")). split; [|split; [discriminate|split; [reflexivity|split]]].
        + rewrite app_cons, app_assoc_str. reflexivity.
        + exists "]"%char. split; [|reflexivity].
          apply last_char_cons. apply last_char_snoc.
        + intros x _. rewrite app_cons, app_assoc_str. cbn [parse_value].
          change (Ascii.eqb "[" dquote) with false. change (Ascii.eqb "[" "{") with false.
          change (Ascii.eqb "[" "[") with true. cbv iota.
          rewrite (skip_ws_app w "]" x Hw) by (discriminate || exact Hc2). reflexivity.
      - destruct (IHe _ _ _ _ Hp) as (cm & Hcm & Hne & Hhd & Hlast & Hloc).
        exists (String "[" (w +:+ cm)). split; [|split; [discriminate|split; [reflexivity|split]]].
        + rewrite app_cons, app_assoc_str, <- Hcm. reflexivity.
        + exists "]"%char. split; [|reflexivity].
          apply last_char_cons. rewrite last_char_app by assumption. exact Hlast.
        + intros x _. rewrite app_cons, app_assoc_str. cbn [parse_value].
          change (Ascii.eqb "[" dquote) with false. change (Ascii.eqb "[" "{") with false.
          change (Ascii.eqb "[" "[") with true. cbv iota.
          rewrite (skip_ws_app w cm x Hw Hne (head_not_space_ws _ Hhd)).
          destruct cm as [|c0 cm']; [congruence|]. rewrite app_cons in Hcm |- *.
          injection Hcm as <- _. rewrite Ec. rewrite <- app_cons. apply Hloc. }
    destruct (scan_atom (String c s1)) as [[v' r']|] eqn:Es; [|discriminate].
    injection Hp as <- <-.
    destruct (scan_atom_local _ _ _ Es) as (a & Ha & Hne & Hhd & Hlast & Hloc).
    exists a. split; [exact Ha|]. split; [exact Hne|]. split; [exact Hhd|].
    split; [exact Hlast|]. intros x Hx.
    destruct a as [|a0 a']; [congruence|]. rewrite app_cons in Ha. injection Ha as <- _.
    rewrite app_cons. cbn [parse_value]. rewrite Eq, Eo, Ea.
    rewrite <- app_cons, (Hloc x Hx). reflexivity.
  - intros s acc v r Hp. cbn [parse_elements] in Hp.
    destruct (parse_value n s) as [v1 r1| |] eqn:Ev; try discriminate.
    destruct (IHv _ _ _ Ev) as (c1 & -> & Hne1 & Hhd1 & _ & Hloc1).
    destruct (skip_ws r1) as [|ch r2] eqn:Ew; [discriminate|].
    destruct (skip_ws_head _ _ _ Ew) as (w & -> & Hw & Hch).
    destruct (Ascii.eqb ch "]") eqn:Ec.
    + injection Hp as <- <-. apply Ascii.eqb_eq in Ec. subst ch.
      exists (c1 +:+ w +:+ "]"). split; [|split; [|split; [|split]]].
      * rewrite !app_assoc_str. reflexivity.
      * destruct c1; [congruence|discriminate].
      * apply no_lead_space_app; assumption.
      * rewrite <- app_assoc_str. apply last_char_snoc.
      * intros x. rewrite !app_assoc_str. cbn [parse_elements].
        rewrite Hloc1 by (apply inert_ws_head; [assumption|reflexivity..]).
        rewrite (skip_ws_app w "]" x Hw) by (discriminate || exact Hch). reflexivity.
    + destruct (Ascii.eqb ch ",") eqn:Ec2; [|discriminate].
      apply Ascii.eqb_eq in Ec2. subst ch.
      destruct (IHe _ _ _ _ Hp) as (ce & Hce & Hnee & Hhde & Hlaste & Hloce).
      destruct (skip_ws_split_ws r2) as (w2 & Hr2 & Hw2). rewrite Hce in Hr2.
      exists (c1 +:+ w +:+ String "," (w2 +:+ ce)). split; [|split; [|split; [|split]]].
      * rewrite Hr2, !app_assoc_str, app_cons, !app_assoc_str. reflexivity.
      * destruct c1; [congruence|discriminate].
      * apply no_lead_space_app; assumption.
      * last_char_tac.
      * intros x. rewrite !app_assoc_str. cbn [parse_elements].
        rewrite Hloc1 by (apply inert_ws_head; [assumption|reflexivity..]).
        rewrite app_cons.
        rewrite (skip_ws_app_char w "," _ Hw Hch).
        change (Ascii.eqb "," "]") with false.
        change (Ascii.eqb "," ",") with true. cbv iota.
        rewrite app_assoc_str.
        rewrite (skip_ws_app w2 ce x Hw2 Hnee (head_not_space_ws _ Hhde)).
        apply Hloce.
  - intros s acc v r Hp. destruct s as [|c s1]; [discriminate|]. cbn [parse_members] in Hp.
    destruct (Ascii.eqb c dquote) eqn:Eq; [|discriminate].
    apply Ascii.eqb_eq in Eq. subst c.
    destruct (scan_string s1) as [[k r1]|] eqn:Es; [|discriminate].
    destruct (scan_string_split _ s1 k r1 (Nat.le_refl _) Es)
      as (ck & -> & _ & Hlastk & _ & Hlock).
    destruct (skip_ws r1) as [|c2 r2] eqn:Ew; [discriminate|].
    destruct (skip_ws_head _ _ _ Ew) as (w1 & -> & Hw1 & Hc2).
    destruct (Ascii.eqb c2 ":") eqn:Ec; [|discriminate].
    apply Ascii.eqb_eq in Ec. subst c2.
    destruct (parse_value n (skip_ws r2)) as [v1 r3| |] eqn:Ev; try discriminate.
    destruct (IHv _ _ _ Ev) as (cv & Hcv & Hnev & Hhdv & _ & Hlocv).
    destruct (skip_ws_split_ws r2) as (w2 & Hr2 & Hw2). rewrite Hcv in Hr2.
    destruct (skip_ws r3) as [|c3 r4] eqn:Ew3; [discriminate|].
    destruct (skip_ws_head _ _ _ Ew3) as (w3 & -> & Hw3 & Hc3).
    assert (forall y,
              scan_string (ck +:+ w1 +:+ String ":" (w2 +:+ cv +:+ w3 +:+ String c3 y))
              = Some (k, w1 +:+ String ":" (w2 +:+ cv +:+ w3 +:+ String c3 y))
              /\ skip_ws (w1 +:+ String ":" (w2 +:+ cv +:+ w3 +:+ String c3 y))
                 = String ":" (w2 +:+ cv +:+ w3 +:+ String c3 y)
              /\ skip_ws (w2 +:+ cv +:+ w3 +:+ String c3 y) = cv +:+ w3 +:+ String c3 y
              /\ skip_ws (w3 +:+ String c3 y) = String c3 y) as Hsteps.
    { intros y. split; [apply Hlock|]. split; [|split].
      - apply (skip_ws_app w1 (String ":" EmptyString)); [assumption|discriminate|exact Hc2].
      - apply (skip_ws_app w2 cv); [assumption..|apply head_not_space_ws, Hhdv].
      - apply (skip_ws_app w3 (String c3 EmptyString)); [assumption|discriminate|exact Hc3]. }
    destruct (Ascii.eqb c3 "}") eqn:Ec3.
    + injection Hp as <- <-. apply Ascii.eqb_eq in Ec3. subst c3.
      exists (String dquote (ck +:+ w1 +:+ String ":" (w2 +:+ cv +:+ w3 +:+ "}"))).
      split; [|split; [discriminate|split; [reflexivity|split]]].
      * rewrite Hr2. rewrite !app_cons, !app_assoc_str, !app_cons, !app_assoc_str.
        reflexivity.
      * last_char_tac.
      * intros x. destruct (Hsteps x) as (H1 & H2 & H3 & H4).
        rewrite app_cons. rewrite !app_assoc_str, !app_cons, !app_assoc_str.
        cbn [parse_members]. rewrite Ascii.eqb_refl.
        change (String "}" x) with ("}" +:+ x) in H1, H2, H3, H4.
        rewrite H1, H2. change (Ascii.eqb ":" ":") with true. cbv iota.
        rewrite H3. rewrite Hlocv by (apply inert_ws_head; [assumption|reflexivity..]).
        rewrite H4. reflexivity.
    + destruct (Ascii.eqb c3 ",") eqn:Ec4; [|discriminate].
      apply Ascii.eqb_eq in Ec4. subst c3.
      destruct (IHm _ _ _ _ Hp) as (cm & Hcm & Hnem & Hhdm & Hlastm & Hlocm).
      destruct (skip_ws_split_ws r4) as (w4 & Hr4 & Hw4). rewrite Hcm in Hr4.
      exists (String dquote (ck +:+ w1 +:+ String ":" (w2 +:+ cv +:+ w3 +:+ String "," (w4 +:+ cm)))).
      split; [|split; [discriminate|split; [reflexivity|split]]].
      * rewrite Hr2, Hr4. rewrite !app_cons, !app_assoc_str, !app_cons, !app_assoc_str.
        rewrite !app_cons, !app_assoc_str. reflexivity.
      * last_char_tac.
      * intros x. destruct (Hsteps (w4 +:+ cm +:+ x)) as (H1 & H2 & H3 & H4).
        rewrite app_cons. rewrite !app_assoc_str, !app_cons, !app_assoc_str.
        rewrite !app_cons, !app_assoc_str.
        cbn [parse_members]. rewrite Ascii.eqb_refl.
        rewrite H1, H2. change (Ascii.eqb ":" ":") with true. cbv iota.
        rewrite H3. rewrite Hlocv by (apply inert_ws_head; [assumption|reflexivity..]).
        rewrite H4. change (Ascii.eqb "," "}") with false.
        change (Ascii.eqb "," ",") with true. cbv iota.
        rewrite (skip_ws_app w4 cm x Hw4 Hnem (head_not_space_ws _ Hhdm)).
        apply Hlocm.
Qed.

(** ** Fuel *)

(** More fuel does not change a result already reached. *)
Lemma parse_fuel_mono n :
  (forall s, not_fuel (parse_value n s) -> parse_value (S n) s = parse_value n s)
  /\ (forall s acc, not_fuel (parse_elements n s acc) ->
        parse_elements (S n) s acc = parse_elements n s acc)
  /\ (forall s acc, not_fuel (parse_members n s acc) ->
        parse_members (S n) s acc = parse_members n s acc).
Proof.
  unfold not_fuel.
  induction n as [|n (IHv & IHe & IHm)]; [repeat split; intros; simpl in *; congruence|].
  split; [|split].
  - intros s Hp. destruct s as [|c s1]; [reflexivity|].
    cbn [parse_value] in Hp |- *.
    destruct (Ascii.eqb c dquote); [reflexivity|].
    destruct (Ascii.eqb c "{").
    { destruct (skip_ws s1) as [|c2 r2]; [reflexivity|].
      destruct (Ascii.eqb c2 "}"); [reflexivity|]. apply IHm, Hp. }
    destruct (Ascii.eqb c "[").
    { destruct (skip_ws s1) as [|c2 r2]; [reflexivity|].
      destruct (Ascii.eqb c2 "]"); [reflexivity|]. apply IHe, Hp. }
    reflexivity.
  - intros s acc Hp. cbn [parse_elements] in Hp |- *.
    rewrite IHv by (intros E; rewrite E in Hp; congruence).
    destruct (parse_value n s) as [v1 r1| |]; try reflexivity.
    destruct (skip_ws r1) as [|ch r2]; [reflexivity|].
    destruct (Ascii.eqb ch "]"); [reflexivity|].
    destruct (Ascii.eqb ch ","); [|reflexivity]. apply IHe, Hp.
  - intros s acc Hp. destruct s as [|c s1]; [reflexivity|].
    cbn [parse_members] in Hp |- *.
    destruct (Ascii.eqb c dquote); [|reflexivity].
    destruct (scan_string s1) as [[k r1]|]; [|reflexivity].
    destruct (skip_ws r1) as [|c2 r2]; [reflexivity|].
    destruct (Ascii.eqb c2 ":"); [|reflexivity].
    rewrite IHv by (intros E; rewrite E in Hp; congruence).
    destruct (parse_value n (skip_ws r2)) as [v1 r3| |]; try reflexivity.
    destruct (skip_ws r3) as [|c3 r4]; [reflexivity|].
    destruct (Ascii.eqb c3 "}"); [reflexivity|].
    destruct (Ascii.eqb c3 ","); [|reflexivity]. apply IHm, Hp.
Qed.

Lemma parse_value_fuel_le n m s :
  (n <= m)%nat -> not_fuel (parse_value n s) -> parse_value m s = parse_value n s.
Proof.
  induction 1 as [|m Hle IH]; [reflexivity|]. intros Hp.
  destruct (parse_fuel_mono m) as (Hv & _ & _).
  rewrite Hv; rewrite (IH Hp); [reflexivity|exact Hp].
Qed.

Lemma skip_ws_length s : (String.length (skip_ws s) <= String.length s)%nat.
Proof.
  induction s as [|c s IH]; simpl; [lia|]. destruct (is_json_ws c); simpl; lia.
Qed.

Lemma parse_rest_shorter n :
  (forall s v r, parse_value n s = POk v r -> (String.length r < String.length s)%nat)
  /\ (forall s acc v r, parse_elements n s acc = POk v r ->
        (String.length r < String.length s)%nat)
  /\ (forall s acc v r, parse_members n s acc = POk v r ->
        (String.length r < String.length s)%nat).
Proof.
  destruct (parse_local n) as (Hv & He & Hm).
  split; [|split]; intros.
  - destruct (Hv _ _ _ H) as (c & -> & Hne & _). rewrite length_app_str.
    destruct c; [congruence|simpl; lia].
  - destruct (He _ _ _ _ H) as (c & -> & Hne & _). rewrite length_app_str.
    destruct c; [congruence|simpl; lia].
  - destruct (Hm _ _ _ _ H) as (c & -> & Hne & _). rewrite length_app_str.
    destruct c; [congruence|simpl; lia].
Qed.

(** The fuel is enough: with more than twice the length of the input, the
    decoder never stops for lack of fuel. *)
Lemma parse_fuel_enough n :
  (forall s, (2 * String.length s < n)%nat -> not_fuel (parse_value n s))
  /\ (forall s acc, (2 * String.length s + 1 < n)%nat -> not_fuel (parse_elements n s acc))
  /\ (forall s acc, (2 * String.length s + 1 < n)%nat -> not_fuel (parse_members n s acc)).
Proof.
  unfold not_fuel.
  induction n as [|n (IHv & IHe & IHm)]; [repeat split; intros; lia|].
  destruct (parse_rest_shorter n) as (Sv & Se & Sm).
  split; [|split].
  - intros s Hlen. destruct s as [|c s1]; [discriminate|]. cbn [parse_value].
    simpl in Hlen.
    destruct (Ascii.eqb c dquote); [destruct (scan_string s1) as [[? ?]|]; discriminate|].
    destruct (Ascii.eqb c "{").
    { pose proof (skip_ws_length s1) as Hs.
      destruct (skip_ws s1) as [|c2 r2]; [discriminate|].
      destruct (Ascii.eqb c2 "}"); [discriminate|]. apply IHm. simpl in *. lia. }
    destruct (Ascii.eqb c "[").
    { pose proof (skip_ws_length s1) as Hs.
      destruct (skip_ws s1) as [|c2 r2]; [discriminate|].
      destruct (Ascii.eqb c2 "]"); [discriminate|]. apply IHe. simpl in *. lia. }
    destruct (scan_atom (String c s1)) as [[? ?]|]; discriminate.
  - intros s acc Hlen. cbn [parse_elements].
    pose proof (IHv s) as Hnf.
    destruct (parse_value n s) as [v1 r1| |] eqn:Ev; [|discriminate|apply Hnf; lia].
    apply Sv in Ev. pose proof (skip_ws_length r1) as Hs1.
    destruct (skip_ws r1) as [|ch r2]; [discriminate|].
    destruct (Ascii.eqb ch "]"); [discriminate|].
    destruct (Ascii.eqb ch ","); [|discriminate].
    apply IHe. pose proof (skip_ws_length r2). simpl in *. lia.
  - intros s acc Hlen. destruct s as [|c s1]; [discriminate|]. cbn [parse_members].
    simpl in Hlen.
    destruct (Ascii.eqb c dquote); [|discriminate].
    destruct (scan_string s1) as [[k r1]|] eqn:Es; [|discriminate].
    destruct (scan_string_split _ s1 k r1 (Nat.le_refl _) Es) as (_ & _ & _ & _ & Hr1 & _).
    pose proof (skip_ws_length r1) as Hs1.
    destruct (skip_ws r1) as [|c2 r2]; [discriminate|].
    destruct (Ascii.eqb c2 ":"); [|discriminate].
    pose proof (skip_ws_length r2) as Hs2.
    pose proof (IHv (skip_ws r2)) as Hnf.
    destruct (parse_value n (skip_ws r2)) as [v1 r3| |] eqn:Ev;
      [|discriminate|apply Hnf; simpl in *; lia].
    apply Sv in Ev. pose proof (skip_ws_length r3) as Hs3.
    destruct (skip_ws r3) as [|c3 r4]; [discriminate|].
    destruct (Ascii.eqb c3 "}"); [discriminate|].
    destruct (Ascii.eqb c3 ","); [|discriminate].
    apply IHm. pose proof (skip_ws_length r4). simpl in *. lia.
Qed.

(** [json_loads] never runs out of fuel. *)
Lemma json_loads_fuel s :
  not_fuel (parse_value (2 * String.length s + 2) (skip_ws s)).
Proof.
  destruct (parse_fuel_enough (2 * String.length s + 2)) as (Hv & _ & _).
  apply Hv. pose proof (skip_ws_length s). lia.
Qed.

Lemma rstrip_fixed c z : last_char c = Some z -> isspace z = false -> rstrip c = c.
Proof.
  revert z. induction c as [|a c IH]; intros z; simpl; [discriminate|].
  destruct (last_char c) as [d|] eqn:El.
  - intros [= <-] Hz. rewrite (IH d eq_refl Hz).
    destruct c; [discriminate|]. rewrite andb_false_r. reflexivity.
  - intros [= <-] Hz. rewrite Hz. simpl.
    destruct c; [reflexivity|]. simpl in El. destruct (last_char c); discriminate.
Qed.

(** Valid JSON text stays valid, with the same value, when it is stripped. *)
Lemma json_loads_strip J v : json_loads J = Some v -> json_loads (strip J) = Some v.
Proof.
  unfold json_loads at 1.
  destruct (parse_value _ (skip_ws J)) as [v' r| |] eqn:Ep; try discriminate.
  destruct (str_empty (skip_ws r)) eqn:Er; [|discriminate]. intros [= ->].
  destruct (parse_local (2 * String.length J + 2)) as (Hv & _ & _).
  destruct (Hv _ _ _ Ep) as (c & Hc & Hne & Hhd & (z & Hz & Hzs) & Hloc).
  destruct (skip_ws_split_ws J) as (w0 & HJ & Hw0). rewrite Hc in HJ.
  assert (strip J = c) as ->.
  { rewrite HJ. rewrite strip_surrounding;
      [|apply all_json_ws_space, Hw0|apply all_json_ws_space, skip_ws_empty_all, Er].
    unfold strip. rewrite lstrip_fixed by assumption. eapply rstrip_fixed; eassumption. }
  assert (skip_ws c = c) as Hsc.
  { destruct c as [|a c]; [congruence|]. simpl in Hhd |- *.
    destruct (is_json_ws a) eqn:E; [|reflexivity].
    apply json_ws_space in E. congruence. }
  assert (parse_value (2 * String.length J + 2) c = POk v EmptyString) as Hfull.
  { rewrite <- (app_empty_r c) at 1. apply Hloc. repeat split. }
  assert (String.length c <= String.length J)%nat as Hlen.
  { rewrite HJ, !length_app_str. lia. }
  unfold json_loads. rewrite Hsc.
  assert (parse_value (2 * String.length c + 2) c = POk v EmptyString) as ->;
    [|reflexivity].
  rewrite <- Hfull. symmetry. apply parse_value_fuel_le; [lia|].
  destruct (parse_fuel_enough (2 * String.length c + 2)) as (Hf & _ & _).
  apply Hf. lia.
Qed.

(** ** The ladder on fenced JSON *)

Lemma request_json_ladder text :
  request_json text
  = let txt := strip (if str_empty text then "{}" else text) in
    match json_loads txt with
    | Some v => Ok v
    | None =>
        let cleaned := strip (sub_fences txt) in
        match json_loads cleaned with
        | Some v => Ok v
        | None =>
            match find_char "{" cleaned, rfind_char "}" cleaned with
            | Some start, Some stop =>
                if (start <? stop)%nat
                then loads (str_take (stop + 1 - start) (str_drop start cleaned))
                else Raise JSONDecodeError
            | _, _ => Raise JSONDecodeError
            end
        end
    end.
Proof.
  unfold request_json, loads. cbv zeta.
  destruct (json_loads (strip _)); [reflexivity|]. cbn [of_option try_except].
  destruct (json_loads (strip (sub_fences _))); reflexivity.
Qed.

(** The source's nest of [try] blocks is the ladder of the spec. *)
Lemma request_json_parse_ladder text :
  request_json text = of_option JSONDecodeError (parse_ladder text).
Proof.
  rewrite request_json_ladder. unfold parse_ladder, brace_span, loads. cbv zeta.
  destruct (json_loads (strip (if str_empty text then _ else _))); [reflexivity|].
  cbn [first_success].
  destruct (json_loads (strip (sub_fences _))); [reflexivity|].
  cbn [first_success].
  destruct (find_char _ _) as [start|]; [|reflexivity].
  destruct (rfind_char _ _) as [stop|]; [|reflexivity].
  destruct (start <? stop)%nat; [|reflexivity].
  destruct (json_loads _); reflexivity.
Qed.

(** C5. Let [J] be valid JSON text with value [v].  The ladder applied to
    [J] returns [v], and so does the ladder applied to [J] between code
    fences, the opening one tagged json, whatever whitespace separates the
    fences from the text: the direct parse of the fenced text fails,
    removing the fences and stripping gives back the stripped text, and the
    second rung decodes it.  On every response text the ladder is: direct
    parse, then the parse of the text without fences, then the parse of the
    span from the first opening to the last closing brace. *)
Theorem request_json_fenced :
  forall (J : string) (v : json) (ws1 ws2 : string),
    json_loads J = Some v ->
    all_space ws1 = true -> all_space ws2 = true ->
    request_json J = Ok v
    /\ request_json (fenced_with ws1 ws2 J) = Ok v
    /\ request_json (fenced J) = Ok v
    /\ json_loads (strip (fenced_with ws1 ws2 J)) = None
    /\ strip (sub_fences (strip (fenced_with ws1 ws2 J))) = strip J
    /\ (forall text, request_json text = of_option JSONDecodeError (parse_ladder text)).
Proof.
  intros J v ws1 ws2 HJv Hws1 Hws2.
  pose proof (json_loads_strip J v HJv) as Hv.
  assert (strip J <> EmptyString) as Hne by (intros E; rewrite E in Hv; discriminate).
  destruct (strip_nonempty_facts J Hne) as (Hlead & Hr & HJ).
  destruct (strip_split J) as (w1 & w2 & Hsplit & Hw1 & Hw2).
  assert (forall a b, all_space a = true -> all_space b = true ->
            json_loads (strip (fenced_with a b J)) = None
            /\ strip (sub_fences (strip (fenced_with a b J))) = strip J
            /\ request_json (fenced_with a b J) = Ok v) as Hfenced.
  { intros a b Ha Hb.
    assert (json_loads (strip (fenced_with a b J)) = None) as Hdirect.
    { rewrite strip_fenced. apply json_loads_backtick. }
    assert (strip (sub_fences (strip (fenced_with a b J))) = strip J) as Hclean.
    { rewrite strip_fenced.
      rewrite (sub_fences_fenced a b J w1 w2 Ha Hb Hsplit Hw1 Hw2 Hne
                 (json_loads_ticks _ _ Hv)).
      unfold strip at 1. rewrite lstrip_fixed by (apply no_lead_space_app; assumption).
      rewrite rstrip_app_space; [exact Hr|]. apply all_space_app; assumption. }
    split; [exact Hdirect|]. split; [exact Hclean|].
    rewrite request_json_ladder. cbv zeta.
    change (str_empty (fenced_with a b J)) with false. cbv iota.
    rewrite Hdirect, Hclean, Hv. reflexivity. }
  destruct (Hfenced ws1 ws2 Hws1 Hws2) as (Hdirect & Hclean & Hreq).
  split; [|split; [|split; [|split; [|split]]]]; try assumption.
  - rewrite request_json_ladder. cbv zeta.
    destruct J; [congruence|]. cbn [str_empty]. rewrite Hv. reflexivity.
  - apply (Hfenced (String newline EmptyString) (String newline EmptyString));
      reflexivity.
  - apply request_json_parse_ladder.
Qed.

(* ================================================================== *)
(** * Further properties *)

(** ** Sorting and filtering *)

Section SortByFilter.
Context {A : Type} (le : A -> A -> bool).
Hypothesis le_total : forall a b, le a b = true \/ le b a = true.
Hypothesis le_trans : forall a b c, le a b = true -> le b c = true -> le a c = true.

Lemma insert_by_below x l :
  Forall (fun y => le x y = true) l -> insert_by le x l = x :: l.
Proof.
  destruct l as [|y l]; [reflexivity|]. intros Hall.
  apply Forall_cons in Hall as [Hxy _]. simpl. rewrite Hxy. reflexivity.
Qed.

Lemma insert_by_filter_out (p : A -> bool) x l :
  p x = false -> List.filter p (insert_by le x l) = List.filter p l.
Proof.
  intros Hp. induction l as [|y l IH]; simpl.
  - rewrite Hp. reflexivity.
  - destruct (le x y); simpl.
    + rewrite Hp. reflexivity.
    + rewrite IH. reflexivity.
Qed.

Lemma insert_by_filter_in (p : A -> bool) x l :
  StronglySorted (fun a b => le a b = true) l ->
  p x = true ->
  List.filter p (insert_by le x l) = insert_by le x (List.filter p l).
Proof.
  intros Hs Hp. induction Hs as [|y l Hs IH Hy]; simpl.
  - rewrite Hp. reflexivity.
  - destruct (le x y) eqn:Exy; simpl.
    + rewrite Hp. destruct (p y) eqn:Epy.
      * simpl. rewrite Exy. reflexivity.
      * symmetry. rewrite insert_by_below; [reflexivity|].
        apply Forall_list_filter. eapply Forall_impl; [exact Hy|].
        intros z Hz. simpl in Hz. eapply le_trans; eassumption.
    + destruct (p y) eqn:Epy; simpl; rewrite ?Exy, IH; reflexivity.
Qed.

(** A stable sort commutes with a filter. *)
Lemma sort_by_filter (p : A -> bool) l :
  sort_by le (List.filter p l) = List.filter p (sort_by le l).
Proof.
  induction l as [|x l IH]; [reflexivity|].
  change (sort_by le (x :: l)) with (insert_by le x (sort_by le l)).
  cbn [List.filter]. destruct (p x) eqn:Ep.
  - change (sort_by le (x :: List.filter p l))
      with (insert_by le x (sort_by le (List.filter p l))).
    rewrite IH. symmetry. apply insert_by_filter_in; [|assumption].
    apply sort_by_strongly_sorted; assumption.
  - rewrite insert_by_filter_out by assumption. exact IH.
Qed.
End SortByFilter.

(** Lexicographic combination of two total preorders, the shape of a
    two-column [ORDER BY]. *)
Section Lexicographic.
Context {A : Type} (le1 le2 : A -> A -> bool).
Hypothesis le1_total : forall a b, le1 a b = true \/ le1 b a = true.
Hypothesis le1_trans : forall a b c, le1 a b = true -> le1 b c = true -> le1 a c = true.
Hypothesis le2_total : forall a b, le2 a b = true \/ le2 b a = true.
Hypothesis le2_trans : forall a b c, le2 a b = true -> le2 b c = true -> le2 a c = true.

Lemma lex_le_total a b : lex_le le1 le2 a b = true \/ lex_le le1 le2 b a = true.
Proof.
  unfold lex_le. destruct (le1 a b) eqn:E1, (le1 b a) eqn:E2; auto.
  destruct (le1_total a b); congruence.
Qed.

Lemma lex_le_trans a b c :
  lex_le le1 le2 a b = true -> lex_le le1 le2 b c = true -> lex_le le1 le2 a c = true.
Proof.
  unfold lex_le.
  destruct (le1 a b) eqn:Eab; [|discriminate].
  destruct (le1 b c) eqn:Ebc; [|intros _; discriminate].
  rewrite (le1_trans _ _ _ Eab Ebc).
  destruct (le1 c a) eqn:Eca; [|reflexivity].
  rewrite (le1_trans _ _ _ Ebc Eca), (le1_trans _ _ _ Eca Eab).
  apply le2_trans.
Qed.
End Lexicographic.

Lemma sql_le_trans a b c : sql_le a b = true -> sql_le b c = true -> sql_le a c = true.
Proof.
  destruct a, b, c; simpl; try congruence.
  - apply Zleb_trans.
  - apply leb_string_trans.
Qed.

Lemma time_title_le_trans a b c :
  time_title_le a b = true -> time_title_le b c = true -> time_title_le a c = true.
Proof.
  apply (lex_le_trans (fun x y => sql_le (col_time_minutes x) (col_time_minutes y))
                      (fun x y => sql_le (col_title x) (col_title y)));
    intros; eapply sql_le_trans; eassumption.
Qed.

Lemma grocery_le_total a b : grocery_le a b = true \/ grocery_le b a = true.
Proof.
  apply (lex_le_total (fun x y => sql_le (flag_key x) (flag_key y))
                      (fun x y => String.leb (grocery_item x) (grocery_item y))).
  - intros; apply sql_le_total.
  - intros; apply String.leb_total.
Qed.

Lemma grocery_le_trans a b c :
  grocery_le a b = true -> grocery_le b c = true -> grocery_le a c = true.
Proof.
  apply (lex_le_trans (fun x y => sql_le (flag_key x) (flag_key y))
                      (fun x y => String.leb (grocery_item x) (grocery_item y))).
  - intros; eapply sql_le_trans; eassumption.
  - intros; eapply leb_string_trans; eassumption.
Qed.

Lemma pantry_le_total a b : pantry_le a b = true \/ pantry_le b a = true.
Proof. apply String.leb_total. Qed.

Lemma pantry_le_trans a b c :
  pantry_le a b = true -> pantry_le b c = true -> pantry_le a c = true.
Proof. apply leb_string_trans. Qed.

(** ** Favourites: write, then read back *)

Lemma elem_of_list_filter {A} (f : A -> bool) l x :
  x ∈ List.filter f l <-> x ∈ l /\ f x = true.
Proof. rewrite !list_elem_of_In. apply filter_In. Qed.

Lemma elem_of_get_favorites d j : j ∈ get_favorites d <-> j ∈ favorites d.
Proof. apply elem_of_sort_by. Qed.

(** X1. Toggling the favourite state of a saved recipe whose id fits 64
    bits makes its id a member of the favourites read back exactly when
    the new state is "favourite"; the membership of every other id is as
    before.  A recipe without id changes nothing.  An id outside 64 bits
    does not bind: marking it favourite leaves the tables as they were
    (the set is read back from them), unmarking it raises
    [OverflowError]. *)
Theorem toggle_favorite_membership :
  forall (favs : gset Z) (recipe : Recipe) (favorite : bool) (d : database),
    match rid recipe with
    | None => _toggle_favorite favs recipe favorite d = Ok (favs, d)
    | Some i =>
        if int64 i then
          exists (favs' : gset Z) (d' : database),
            _toggle_favorite favs recipe favorite d = Ok (favs', d')
            /\ set_favorite i favorite d = Ok d'
            /\ (i ∈ favs' <-> favorite = true)
            /\ (forall j, j <> i -> (j ∈ favs' <-> j ∈ get_favorites d))
            /\ (forall j, j ∈ favs' <-> j ∈ get_favorites d')
        else if favorite then
          _toggle_favorite favs recipe favorite d = Ok (list_to_set (get_favorites d), d)
        else
          _toggle_favorite favs recipe favorite d = Raise OverflowError
    end.
Proof.
  intros favs recipe favorite d. unfold _toggle_favorite.
  destruct (rid recipe) as [i|]; [|reflexivity].
  destruct (int64 i) eqn:H64.
  - assert (exists d', set_favorite i favorite d = Ok d'
                       /\ (i ∈ favorites d' <-> favorite = true)
                       /\ (forall j, j <> i -> (j ∈ favorites d' <-> j ∈ favorites d)))
      as (d' & Hset & Hi & Hj).
    { unfold set_favorite, insert_favorite, delete_favorite. rewrite H64. cbn [negb].
      destruct favorite.
      - case_bool_decide as Hin; cbn [try_except].
        + exists d. split; [reflexivity|]. split; [tauto|]. tauto.
        + eexists. split; [reflexivity|]. cbn [favorites]. split.
          * split; [reflexivity|]. intros _. apply elem_of_app. right.
            apply list_elem_of_here.
          * intros j Hne. rewrite elem_of_app, list_elem_of_singleton. tauto.
      - eexists. split; [reflexivity|]. cbn [favorites]. split.
        + split; [|discriminate]. intros Hin%elem_of_list_filter.
          destruct Hin as [_ Hin]. rewrite Z.eqb_refl in Hin. discriminate.
        + intros j Hne. rewrite elem_of_list_filter.
          destruct (Z.eqb_spec j i); [contradiction|]. simpl. tauto. }
    exists (list_to_set (get_favorites d')), d'. rewrite Hset. cbn [bind].
    split; [reflexivity|]. split; [reflexivity|].
    split; [|split].
    + rewrite elem_of_list_to_set, elem_of_get_favorites. exact Hi.
    + intros j Hne. rewrite elem_of_list_to_set, !elem_of_get_favorites. apply Hj, Hne.
    + intros j. rewrite elem_of_list_to_set. reflexivity.
  - unfold set_favorite, insert_favorite, delete_favorite. rewrite H64.
    destruct favorite; reflexivity.
Qed.

(** ** The key constraints and the flag range are invariants *)

Lemma pantry_upsert_items_in i q rows :
  i ∈ map pantry_item rows ->
  map pantry_item (pantry_upsert i q rows) = map pantry_item rows.
Proof.
  induction rows as [|r rows IH]; simpl; intros Hin.
  - apply elem_of_nil in Hin. contradiction.
  - destruct (String.eqb (pantry_item r) i) eqn:E; simpl; [reflexivity|].
    apply String.eqb_neq in E. apply elem_of_cons in Hin as [Hin|Hin]; [congruence|].
    rewrite IH by assumption. reflexivity.
Qed.

Lemma pantry_upsert_items_fresh i q rows :
  i ∉ map pantry_item rows ->
  map pantry_item (pantry_upsert i q rows) = map pantry_item rows ++ [i].
Proof.
  induction rows as [|r rows IH]; simpl; intros Hin; [reflexivity|].
  apply not_elem_of_cons in Hin as [Hne Hin].
  destruct (String.eqb (pantry_item r) i) eqn:E; simpl.
  - apply String.eqb_eq in E. congruence.
  - rewrite IH by assumption. reflexivity.
Qed.

Lemma pantry_upsert_unique i q rows :
  NoDup (map pantry_item rows) -> NoDup (map pantry_item (pantry_upsert i q rows)).
Proof.
  intros Hnd. destruct (decide (i ∈ map pantry_item rows)) as [Hin|Hin].
  - rewrite pantry_upsert_items_in by assumption. assumption.
  - rewrite pantry_upsert_items_fresh by assumption. apply NoDup_snoc_fresh; assumption.
Qed.

Lemma NoDup_map_list_filter {A B} (f : A -> B) (p : A -> bool) l :
  NoDup (map f l) -> NoDup (map f (List.filter p l)).
Proof.
  induction l as [|x l IH]; simpl; intros Hnd; [assumption|].
  apply NoDup_cons in Hnd as [Hx Hnd]. destruct (p x); simpl; [|auto].
  apply NoDup_cons. split; [|auto].
  intros Hin. apply Hx. apply list_elem_of_fmap in Hin as (y & Hy & Hin).
  apply elem_of_list_filter in Hin as [Hin _].
  apply list_elem_of_fmap. eauto.
Qed.

Lemma grocery_upsert_flags i q (c : bool) rows :
  Forall flag_boolean rows -> Forall flag_boolean (grocery_upsert i q (Z.b2z c) rows).
Proof.
  assert (flag_boolean {| grocery_item := i; grocery_quantity := Some q;
                          grocery_checked := Some (Z.b2z c) |}) as Hnew
    by (destruct c; [right|left]; reflexivity).
  induction 1 as [|r rows Hr Hrows IH]; simpl.
  - constructor; [exact Hnew|constructor].
  - destruct (String.eqb (grocery_item r) i) eqn:E; constructor; assumption.
Qed.

Lemma apply_op_constraints o d :
  keys_unique d /\ flags_boolean d ->
  keys_unique (apply_op o d) /\ flags_boolean (apply_op o d).
Proof.
  intros [(Hf & Hp & Hg) Hb]. unfold keys_unique, favorites_unique, pantry_unique,
    grocery_unique, flags_boolean in *.
  destruct o as [i q|i|i q c|i c|i|b|i b]; simpl.
  - repeat split; try assumption. apply pantry_upsert_unique, Hp.
  - repeat split; try assumption. apply NoDup_map_list_filter, Hp.
  - repeat split; try assumption.
    + apply grocery_upsert_unique, Hg.
    + apply grocery_upsert_flags, Hb.
  - repeat split; try assumption.
    + rewrite map_map.
      erewrite map_ext; [exact Hg|]. intros r. simpl.
      destruct (String.eqb (grocery_item r) i); reflexivity.
    + apply Forall_fmap. eapply Forall_impl; [exact Hb|]. intros r Hr. simpl.
      destruct (String.eqb (grocery_item r) i); [|exact Hr].
      destruct c; [right|left]; reflexivity.
  - repeat split; try assumption.
    + apply NoDup_map_list_filter, Hg.
    + apply Forall_list_filter, Hb.
  - destruct b; simpl; repeat split; try assumption.
    + apply NoDup_map_list_filter, Hg.
    + apply Forall_list_filter, Hb.
    + constructor.
    + constructor.
  - destruct (set_favorite i b d) as [d'|e] eqn:E; [|repeat split; assumption].
    apply set_favorite_inv in E as [->|[(_ & _ & Hin & ->)|(_ & _ & ->)]];
      cbn [recipes favorites pantry grocery]; repeat split; try assumption.
    + apply NoDup_snoc_fresh; assumption.
    + apply NoDup_list_filter, Hf.
Qed.

(** X2. Every write operation of the data-access layer keeps the key
    constraints of the three tables (no favourite id twice, no pantry item
    twice, no grocery item twice) and keeps every grocery flag 0 or 1; so
    does every run of them, in particular every run from empty tables. *)
Theorem write_ops_keep_constraints :
  forall (ops : list write_op) (d : database),
    keys_unique d /\ flags_boolean d ->
    keys_unique (run ops d) /\ flags_boolean (run ops d).
Proof.
  intros ops. unfold run. induction ops as [|o ops IH]; intros d Hd; [exact Hd|].
  simpl. apply IH, apply_op_constraints, Hd.
Qed.

(** ** Pantry: listing, upsert and removal *)

Lemma elem_of_list_pantry d n q :
  (n, q) ∈ list_pantry d <-> exists r, r ∈ pantry d /\ pantry_listing r = (n, q).
Proof.
  unfold list_pantry. rewrite list_elem_of_fmap. split.
  - intros (r & Hr & Hin). exists r. split; [apply elem_of_sort_by in Hin; exact Hin|].
    symmetry. exact Hr.
  - intros (r & Hin & Hr). exists r. split; [symmetry; exact Hr|].
    apply elem_of_sort_by. exact Hin.
Qed.

(** X3. [list_pantry] reports every stored pantry row exactly once,
    a NULL quantity as the empty string, in ascending order of the item
    name (code point order); under the key constraint no name is listed
    twice. *)
Theorem list_pantry_ascending :
  forall d : database,
    StronglySorted (fun a b => String.leb a.1 b.1 = true) (list_pantry d)
    /\ list_pantry d ≡ₚ map pantry_listing (pantry d)
    /\ (pantry_unique d -> NoDup (map fst (list_pantry d))).
Proof.
  intros d. unfold list_pantry. split; [|split].
  - apply (StronglySorted_transfer (fun a b => pantry_le a b = true) _ (fun _ => True)).
    + intros a b _ _ Hab. exact Hab.
    + apply Forall_true. intros; exact I.
    + apply sort_by_strongly_sorted; [apply pantry_le_total|apply pantry_le_trans].
  - change (fun r => (pantry_item r, coalesce (pantry_quantity r))) with pantry_listing.
    apply fmap_Permutation. apply sort_by_perm.
  - intros Hu. rewrite map_map. simpl.
    change (map (fun r => pantry_item r)) with (map pantry_item).
    unfold pantry_unique in Hu.
    assert (map pantry_item (sort_by pantry_le (pantry d)) ≡ₚ map pantry_item (pantry d))
      as Hperm by apply (fmap_Permutation pantry_item), sort_by_perm.
    rewrite Hperm. exact Hu.
Qed.

Lemma pantry_upsert_elem_iff i q rows r :
  NoDup (map pantry_item rows) ->
  r ∈ pantry_upsert i q rows
  <-> r = {| pantry_item := i; pantry_quantity := Some q |}
      \/ (pantry_item r <> i /\ r ∈ rows).
Proof.
  induction rows as [|r0 rows IH]; simpl; intros Hnd.
  - rewrite list_elem_of_singleton. split; [auto|]. intros [?|[_ Hin]]; [assumption|].
    apply elem_of_nil in Hin. contradiction.
  - apply NoDup_cons in Hnd as [Hr0 Hnd].
    destruct (String.eqb (pantry_item r0) i) eqn:E.
    + apply String.eqb_eq in E. rewrite !elem_of_cons. rewrite E. split.
      * intros [->|Hin]; [auto|]. right. split; [|auto].
        intros Hi. apply Hr0. rewrite E, <- Hi. apply list_elem_of_fmap. eauto.
      * intros [->|[Hne [->|Hin]]]; [auto|contradiction|auto].
    + apply String.eqb_neq in E. rewrite !elem_of_cons, IH by assumption. split.
      * intros [->|[->|[Hne Hin]]]; auto.
      * intros [->|[Hne [->|Hin]]]; auto.
Qed.

(** X4. After [upsert_pantry_item(item, quantity)] on a pantry
    that satisfies its key constraint, the listing holds the stripped item
    with the stripped quantity, and apart from that exactly the entries of
    the other names it held before. *)
Theorem upsert_pantry_item_lookup :
  forall (d : database) (item quantity : string),
    pantry_unique d ->
    pantry_unique (upsert_pantry_item item quantity d)
    /\ forall n q,
         (n, q) ∈ list_pantry (upsert_pantry_item item quantity d)
         <-> (n = strip item /\ q = strip quantity)
             \/ (n <> strip item /\ (n, q) ∈ list_pantry d).
Proof.
  intros d item quantity Hu. split; [apply pantry_upsert_unique, Hu|].
  intros n q. rewrite !elem_of_list_pantry. simpl. split.
  - intros (r & Hin & Hr). apply pantry_upsert_elem_iff in Hin as [->|[Hne Hin]]; [| |exact Hu].
    + left. injection Hr as <- <-. auto.
    + right. injection Hr as <- <-. split; [exact Hne|]. exists r. auto.
  - intros [[-> ->]|[Hne (r & Hin & Hr)]].
    + eexists. split; [apply pantry_upsert_elem|reflexivity].
    + exists r. split; [|exact Hr]. apply pantry_upsert_elem_iff; [exact Hu|].
      right. split; [|exact Hin]. injection Hr as <- _. exact Hne.
Qed.

Lemma pantry_upsert_filter_out i q rows :
  List.filter (fun r => negb (String.eqb (pantry_item r) i)) (pantry_upsert i q rows)
  = List.filter (fun r => negb (String.eqb (pantry_item r) i)) rows.
Proof.
  induction rows as [|r rows IH]; simpl.
  - rewrite String.eqb_refl. reflexivity.
  - destruct (String.eqb (pantry_item r) i) eqn:E; simpl; rewrite E; simpl.
    + reflexivity.
    + rewrite IH. reflexivity.
Qed.

Lemma grocery_upsert_filter_out i q c rows :
  List.filter (fun r => negb (String.eqb (grocery_item r) i)) (grocery_upsert i q c rows)
  = List.filter (fun r => negb (String.eqb (grocery_item r) i)) rows.
Proof.
  induction rows as [|r rows IH]; simpl.
  - rewrite String.eqb_refl. reflexivity.
  - destruct (String.eqb (grocery_item r) i) eqn:E; simpl; rewrite E; simpl.
    + reflexivity.
    + rewrite IH. reflexivity.
Qed.

(** X5. [remove_pantry_item] deletes the entry of exactly the name
    it is given and nothing else.  Unlike the upsert it does not strip its
    argument.  Removing with the string that was upserted, when that
    string is stripped, leaves the pantry that removing the name before
    the upsert would have left: the entry is gone, and with it an earlier
    entry of that name, which is not restored; the pantry is back as it
    was exactly when it held no entry of the name.  When the string
    carries surrounding whitespace, the new entry stays in the pantry. *)
Theorem remove_pantry_item_exact_name :
  forall (d : database) (item quantity : string),
    (forall n q, (n, q) ∈ list_pantry (remove_pantry_item item d)
                 <-> n <> item /\ (n, q) ∈ list_pantry d)
    /\ (strip item = item ->
        remove_pantry_item item (upsert_pantry_item item quantity d)
        = remove_pantry_item item d)
    /\ (strip item = item ->
        (remove_pantry_item item (upsert_pantry_item item quantity d) = d
         <-> forall r, r ∈ pantry d -> pantry_item r <> item))
    /\ (strip item <> item ->
        (strip item, strip quantity)
          ∈ list_pantry (remove_pantry_item item (upsert_pantry_item item quantity d))).
Proof.
  intros d item quantity.
  assert (strip item = item ->
          remove_pantry_item item (upsert_pantry_item item quantity d)
          = remove_pantry_item item d) as Hsame.
  { intros Hs. unfold remove_pantry_item, upsert_pantry_item. simpl.
    rewrite Hs, pantry_upsert_filter_out. reflexivity. }
  split; [|split; [|split]].
  - intros n q. rewrite !elem_of_list_pantry. simpl. split.
    + intros (r & Hin & Hr). apply elem_of_list_filter in Hin as [Hin Hne].
      apply negb_true_iff, String.eqb_neq in Hne. injection Hr as <- <-. eauto.
    + intros (Hne & r & Hin & Hr). exists r. split; [|exact Hr].
      apply elem_of_list_filter. split; [exact Hin|].
      apply negb_true_iff, String.eqb_neq. injection Hr as <- _. exact Hne.
  - exact Hsame.
  - intros Hs. rewrite (Hsame Hs). unfold remove_pantry_item. split.
    + intros Heq r Hr. rewrite <- Heq in Hr. cbn [pantry] in Hr.
      apply elem_of_list_filter in Hr as [_ Hne].
      apply negb_true_iff, String.eqb_neq in Hne. exact Hne.
    + intros Hno. destruct d as [rs fs ps gs]. cbn [recipes favorites pantry grocery] in *.
      f_equal. apply forallb_filter_id, forallb_forall. intros r Hr.
      apply negb_true_iff, String.eqb_neq, Hno, list_elem_of_In, Hr.
  - intros Hs. apply elem_of_list_pantry. simpl.
    exists {| pantry_item := strip item; pantry_quantity := Some (strip quantity) |}.
    split; [|reflexivity].
    apply elem_of_list_filter. split; [apply pantry_upsert_elem|]. simpl.
    apply negb_true_iff, String.eqb_neq. exact Hs.
Qed.

(** ** Grocery: listing order, flag update and clearing *)

Lemma flags_boolean_sorted d :
  flags_boolean d -> Forall flag_boolean (sort_by grocery_le (grocery d)).
Proof. intros Hb. rewrite sort_by_perm. exact Hb. Qed.

Lemma grocery_le_listed a b :
  flag_boolean a -> flag_boolean b -> grocery_le a b = true ->
  grocery_listed_before (grocery_listing a) (grocery_listing b).
Proof.
  unfold flag_boolean, grocery_le, grocery_listed_before, grocery_listing, checked_value.
  intros [Ha|Ha] [Hb|Hb]; rewrite Ha, Hb; simpl; intros Hle;
    [right|left|discriminate|right]; auto.
Qed.

(** X6. On a grocery table whose flags are 0 or 1, [list_grocery]
    reports every stored row exactly once, unchecked entries before checked
    ones and each group in ascending order of the item name. *)
Theorem list_grocery_order :
  forall d : database,
    flags_boolean d ->
    StronglySorted grocery_listed_before (list_grocery d)
    /\ list_grocery d ≡ₚ map grocery_listing (grocery d).
Proof.
  intros d Hb. unfold list_grocery.
  change (fun r => (grocery_item r, coalesce (grocery_quantity r),
                    negb (checked_value r =? 0))) with grocery_listing.
  split.
  - apply (StronglySorted_transfer (fun a b => grocery_le a b = true) _ flag_boolean).
    + apply grocery_le_listed.
    + apply flags_boolean_sorted, Hb.
    + apply sort_by_strongly_sorted; [apply grocery_le_total|apply grocery_le_trans].
  - apply (fmap_Permutation grocery_listing), sort_by_perm.
Qed.

Lemma with_grocery_same d : with_grocery d (grocery d) = d.
Proof. destruct d; reflexivity. Qed.

Lemma find_map_flag item c rows :
  List.find (fun r => String.eqb (grocery_item r) item)
    (map (fun r => if String.eqb (grocery_item r) item
                   then {| grocery_item := grocery_item r;
                           grocery_quantity := grocery_quantity r;
                           grocery_checked := Some c |}
                   else r) rows)
  = (fun r => {| grocery_item := grocery_item r;
                 grocery_quantity := grocery_quantity r;
                 grocery_checked := Some c |})
    <$> List.find (fun r => String.eqb (grocery_item r) item) rows.
Proof.
  induction rows as [|r rows IH]; [reflexivity|]. simpl.
  destruct (String.eqb (grocery_item r) item) eqn:E; simpl; rewrite E; [reflexivity|].
  exact IH.
Qed.

Lemma find_map_flag_other item j c rows :
  j <> item ->
  List.find (fun r => String.eqb (grocery_item r) j)
    (map (fun r => if String.eqb (grocery_item r) item
                   then {| grocery_item := grocery_item r;
                           grocery_quantity := grocery_quantity r;
                           grocery_checked := Some c |}
                   else r) rows)
  = List.find (fun r => String.eqb (grocery_item r) j) rows.
Proof.
  intros Hne. induction rows as [|r rows IH]; [reflexivity|]. simpl.
  destruct (String.eqb (grocery_item r) item) eqn:E; simpl.
  - apply String.eqb_eq in E. rewrite E.
    destruct (String.eqb item j) eqn:E2; [apply String.eqb_eq in E2; congruence|].
    exact IH.
  - destruct (String.eqb (grocery_item r) j); [reflexivity|exact IH].
Qed.

(** X7. [set_grocery_checked(item, checked)] changes the flag of the
    entry of exactly that name and nothing else: item names and quantities
    stay, every other entry stays, and when no entry has the name the table
    is unchanged (nothing is inserted). *)
Theorem set_grocery_checked_only_flag :
  forall (d : database) (item : string) (checked : bool),
    grocery_entry item (set_grocery_checked item checked d)
    = (fun e => (e.1, checked)) <$> grocery_entry item d
    /\ (forall j, j <> item ->
          grocery_entry j (set_grocery_checked item checked d) = grocery_entry j d)
    /\ map grocery_item (grocery (set_grocery_checked item checked d))
       = map grocery_item (grocery d)
    /\ map grocery_quantity (grocery (set_grocery_checked item checked d))
       = map grocery_quantity (grocery d)
    /\ (grocery_entry item d = None -> set_grocery_checked item checked d = d).
Proof.
  intros d item checked. unfold grocery_entry, set_grocery_checked. simpl.
  split; [|split; [|split; [|split]]].
  - rewrite find_map_flag.
    destruct (List.find _ (grocery d)) as [r|]; simpl; [|reflexivity].
    unfold checked_value. simpl. destruct checked; reflexivity.
  - intros j Hne. rewrite find_map_flag_other by exact Hne. reflexivity.
  - rewrite map_map. apply map_ext. intros r.
    destruct (String.eqb (grocery_item r) item); reflexivity.
  - rewrite map_map. apply map_ext. intros r.
    destruct (String.eqb (grocery_item r) item); reflexivity.
  - intros Hnone.
    assert (List.find (fun r => String.eqb (grocery_item r) item) (grocery d) = None) as Hf
      by (destruct (List.find _ (grocery d)); [discriminate|reflexivity]).
    transitivity (with_grocery d (grocery d)); [|apply with_grocery_same]. f_equal.
    transitivity (map (fun r => r) (grocery d)); [|apply map_id].
    apply map_ext_in. intros r Hin.
    destruct (String.eqb (grocery_item r) item) eqn:E; [|reflexivity].
    exfalso. eapply find_none in Hf; [|exact Hin]. simpl in Hf. congruence.
Qed.

Lemma map_list_filter {A B} (f : A -> B) (p : A -> bool) (q : B -> bool) l :
  Forall (fun x => p x = q (f x)) l ->
  map f (List.filter p l) = List.filter q (map f l).
Proof.
  induction 1 as [|x l Hx Hl IH]; [reflexivity|]. simpl. rewrite <- Hx.
  destruct (p x); simpl; rewrite IH; reflexivity.
Qed.

(** X8. [clear_grocery(False)] empties the listing.  On a table
    whose flags are 0 or 1, [clear_grocery(True)] leaves exactly the
    unchecked entries of the listing, in their order.  Neither touches
    another table. *)
Theorem clear_grocery_listing :
  forall d : database,
    flags_boolean d ->
    list_grocery (clear_grocery false d) = []
    /\ list_grocery (clear_grocery true d)
       = List.filter (fun e => negb e.2) (list_grocery d)
    /\ (forall b, recipes (clear_grocery b d) = recipes d
                  /\ favorites (clear_grocery b d) = favorites d
                  /\ pantry (clear_grocery b d) = pantry d).
Proof.
  intros d Hb. split; [reflexivity|]. split; [|intros []; auto].
  unfold list_grocery, clear_grocery. simpl.
  rewrite sort_by_filter by (apply grocery_le_total || apply grocery_le_trans).
  apply map_list_filter.
  eapply Forall_impl; [apply flags_boolean_sorted, Hb|].
  intros r [Hr|Hr]; simpl; unfold checked_value; rewrite Hr; reflexivity.
Qed.

(** ** Missing ingredients onto the grocery list *)

Lemma missing_loop_outcome p ings : forall acc,
  (Forall (fun ing => name_is_str ing = true) ings
   /\ exists l, missing_loop p ings acc = Ok l)
  \/ (Exists (fun ing => name_is_str ing = false) ings
      /\ missing_loop p ings acc = Raise AttributeError).
Proof.
  induction ings as [|ing ings IH]; intros acc.
  - left. split; [constructor|]. eexists. reflexivity.
  - cbn [missing_loop].
    destruct (dict_get_default "name" (JStr "") ing) eqn:En;
      try (right; split; [apply Exists_cons_hd; unfold name_is_str; rewrite En|]; reflexivity).
    assert (name_is_str ing = true) as Hs by (unfold name_is_str; rewrite En; reflexivity).
    assert (forall acc',
              (Forall (fun ing => name_is_str ing = true) (ing :: ings)
               /\ exists l, missing_loop p ings acc' = Ok l)
              \/ (Exists (fun ing => name_is_str ing = false) (ing :: ings)
                  /\ missing_loop p ings acc' = Raise AttributeError)) as Hrest.
    { intros acc'. destruct (IH acc') as [[Hall Hok]|[Hex Hr]].
      - left. split; [constructor; assumption|exact Hok].
      - right. split; [apply Exists_cons_tl, Hex|exact Hr]. }
    destruct (str_empty (lower s)); [apply Hrest|].
    destruct (negb _ || _); apply Hrest.
Qed.

Lemma Forall_Exists_clash {A} (f : A -> bool) l :
  Forall (fun x => f x = true) l -> Exists (fun x => f x = false) l -> False.
Proof.
  intros Hall Hex. apply Exists_exists in Hex as (x & Hin & Hx).
  rewrite Forall_forall in Hall. specialize (Hall x Hin). congruence.
Qed.

(** X9. [compute_missing_ingredients] raises exactly when some
    ingredient of the recipe has a name that is not a string, and then
    with [AttributeError]; [add_missing_to_grocery] raises with it, and
    [open_recipe_detail], which swallows the exception, leaves the tables
    as they were. *)
Theorem compute_missing_ingredients_raises :
  forall (d : database) (recipe : Recipe),
    (compute_missing_ingredients d recipe = Raise AttributeError
     <-> Exists (fun ing => name_is_str ing = false) (ingredients recipe))
    /\ ((exists l, compute_missing_ingredients d recipe = Ok l)
        <-> Forall (fun ing => name_is_str ing = true) (ingredients recipe))
    /\ (Exists (fun ing => name_is_str ing = false) (ingredients recipe) ->
        add_missing_to_grocery recipe d = Raise AttributeError
        /\ open_recipe_detail recipe d = d).
Proof.
  intros d recipe. unfold open_recipe_detail, add_missing_to_grocery,
    compute_missing_ingredients.
  destruct (missing_loop_outcome (pantry_dict d) (ingredients recipe) [])
    as [[Hall (l & Hok)]|[Hex Hr]].
  - rewrite Hok. split; [|split].
    + split; [discriminate|]. intros Hex. destruct (Forall_Exists_clash _ _ Hall Hex).
    + split; [intros _; exact Hall|eauto].
    + intros Hex. destruct (Forall_Exists_clash _ _ Hall Hex).
  - rewrite Hr. split; [|split].
    + split; [intros _; exact Hex|reflexivity].
    + split; [intros (l & Hl); discriminate|].
      intros Hall. destruct (Forall_Exists_clash _ _ Hall Hex).
    + intros _. split; reflexivity.
Qed.

Lemma grocery_upsert_same i q c rows r :
  List.find (fun r => String.eqb (grocery_item r) i) rows = Some r ->
  grocery_quantity r = Some q -> grocery_checked r = Some c ->
  grocery_upsert i q c rows = rows.
Proof.
  intros Hf Hq Hc. induction rows as [|r0 rows IH]; [discriminate|].
  simpl in *. destruct (String.eqb (grocery_item r0) i) eqn:E.
  - injection Hf as ->. destruct r as [ri rq rc]. simpl in *. subst. reflexivity.
  - rewrite IH by assumption. reflexivity.
Qed.

Lemma upsert_blank_same n d :
  has_blank_entry d (strip n) -> upsert_grocery_item n "" false d = d.
Proof.
  intros (r & Hf & Hq & Hc). unfold upsert_grocery_item.
  change (strip "") with EmptyString. change (Z.b2z false) with 0.
  rewrite (grocery_upsert_same _ _ _ _ r Hf Hq Hc). apply with_grocery_same.
Qed.

Lemma upsert_blank_makes n d : has_blank_entry (upsert_grocery_item n "" false d) (strip n).
Proof.
  unfold has_blank_entry, upsert_grocery_item. simpl.
  destruct (grocery_upsert_find (strip n) (strip "") (Z.b2z false) (grocery d))
    as (r & Hf & _ & Hq & Hc).
  exists r. auto.
Qed.

Lemma upsert_blank_keeps n d i :
  has_blank_entry d i -> has_blank_entry (upsert_grocery_item n "" false d) i.
Proof.
  intros Hi. destruct (decide (i = strip n)) as [->|Hne]; [apply upsert_blank_makes|].
  destruct Hi as (r & Hf & Hq & Hc). exists r. split; [|auto].
  unfold upsert_grocery_item. simpl. rewrite grocery_upsert_find_other by exact Hne.
  exact Hf.
Qed.

Lemma add_all_blank l : forall d,
  let d' := foldl (fun d item => upsert_grocery_item item "" false d) d l in
  (forall n, n ∈ l -> has_blank_entry d' (strip n))
  /\ (forall i, has_blank_entry d i -> has_blank_entry d' i)
  /\ (forall j, (forall n, n ∈ l -> strip n <> j) -> grocery_entry j d' = grocery_entry j d)
  /\ recipes d' = recipes d /\ favorites d' = favorites d /\ pantry d' = pantry d.
Proof.
  induction l as [|x l IH]; intros d; simpl.
  - split; [|auto]. intros n Hin. apply elem_of_nil in Hin. contradiction.
  - destruct (IH (upsert_grocery_item x "" false d)) as (Hin & Hkeep & Hother & Hr & Hf & Hp).
    split; [|split; [|split]].
    + intros n [->|Hn]%elem_of_cons; [|apply Hin, Hn].
      apply Hkeep, upsert_blank_makes.
    + intros i Hi. apply Hkeep, upsert_blank_keeps, Hi.
    + intros j Hj. rewrite Hother.
      * unfold grocery_entry, upsert_grocery_item. simpl.
        rewrite grocery_upsert_find_other; [reflexivity|].
        intros ->. apply (Hj x); [apply list_elem_of_here|reflexivity].
      * intros n Hn. apply Hj. apply list_elem_of_further, Hn.
    + rewrite Hr, Hf, Hp. auto.
Qed.

Lemma add_all_blank_same l : forall d,
  (forall n, n ∈ l -> has_blank_entry d (strip n)) ->
  foldl (fun d item => upsert_grocery_item item "" false d) d l = d.
Proof.
  induction l as [|x l IH]; intros d Hall; [reflexivity|]. simpl.
  rewrite upsert_blank_same by (apply Hall, list_elem_of_here).
  apply IH. intros n Hn. apply Hall, list_elem_of_further, Hn.
Qed.

Lemma is_missing_pantry d d' n : pantry d' = pantry d -> is_missing d' n = is_missing d n.
Proof.
  intros Hp. unfold is_missing, pantry_lookup, list_pantry. rewrite Hp. reflexivity.
Qed.

Lemma pantry_dict_pantry d d' : pantry d' = pantry d -> pantry_dict d' = pantry_dict d.
Proof. intros Hp. unfold pantry_dict, list_pantry. rewrite Hp. reflexivity. Qed.

(** X10. For a recipe whose ingredient names are strings,
    [add_missing_to_grocery] returns, and afterwards every missing
    ingredient has a grocery entry under its stripped name with the empty
    quantity and unchecked, whatever quantity and flag an entry of that
    name had before; entries of other names and the other tables are
    unchanged; running it a second time changes nothing. *)
Theorem add_missing_to_grocery_resets :
  forall (d : database) (recipe : Recipe) (names : list string),
    map (dict_get_default "name" (JStr "")) (ingredients recipe) = map JStr names ->
    exists d',
      add_missing_to_grocery recipe d = Ok d'
      /\ (forall n, n ∈ names -> is_missing d n = true ->
            grocery_entry (strip n) d' = Some (EmptyString, false))
      /\ (forall j, (forall n, n ∈ names -> is_missing d n = true -> strip n <> j) ->
            grocery_entry j d' = grocery_entry j d)
      /\ recipes d' = recipes d /\ favorites d' = favorites d /\ pantry d' = pantry d
      /\ add_missing_to_grocery recipe d' = Ok d'.
Proof.
  intros d recipe names Hn. unfold add_missing_to_grocery, compute_missing_ingredients.
  rewrite (missing_loop_spec d _ names []) by exact Hn. simpl.
  set (missing := List.filter (is_missing d) names).
  destruct (add_all_blank missing d) as (Hin & _ & Hother & Hr & Hf & Hp).
  set (d' := foldl (fun d item => upsert_grocery_item item "" false d) d missing) in *.
  exists d'. split; [reflexivity|]. split; [|split; [|split; [|split; [|split]]]]; try assumption.
  - intros n Hnin Hm.
    destruct (Hin n) as (r & Hfind & Hq & Hc).
    { apply elem_of_list_filter. auto. }
    unfold grocery_entry. rewrite Hfind. unfold checked_value. rewrite Hq, Hc. reflexivity.
  - intros j Hj. apply Hother. intros n [Hnin Hm]%elem_of_list_filter. apply Hj; assumption.
  - rewrite (pantry_dict_pantry d d' Hp).
    rewrite (missing_loop_spec d _ names []) by exact Hn. simpl. f_equal.
    apply add_all_blank_same. exact Hin.
Qed.

(** ** Listing and searching recipes *)

Lemma like_percent p s :
  like (String "%" p) s
  = like p s || match s with
                | EmptyString => false
                | String _ s' => like (String "%" p) s'
                end.
Proof. destruct s; reflexivity. Qed.

Lemma like_char c p s :
  Ascii.eqb c "%" = false ->
  like (String c p) s
  = match s with
    | EmptyString => false
    | String a s' => (Ascii.eqb c "_" || Ascii.eqb (fold_az c) (fold_az a)) && like p s'
    end.
Proof. intros Hc. cbn [like]. rewrite Hc. reflexivity. Qed.

Lemma like_any s : like "%" s = true.
Proof.
  induction s as [|a s IH]; [reflexivity|].
  rewrite like_percent, IH. apply orb_true_r.
Qed.

Lemma like_prefix t : forall s,
  no_wildcard t = true ->
  like (t +:+ "%") s = starts_with (fold_str t) (fold_str s).
Proof.
  induction t as [|c t IH]; intros s Ht.
  - rewrite app_empty_l. apply like_any.
  - simpl in Ht. apply andb_prop in Ht as [Hc Ht]. apply andb_prop in Hc as [Hp Hu].
    apply negb_true_iff in Hp, Hu.
    rewrite app_cons, like_char by exact Hp. rewrite Hu. simpl.
    destruct s as [|a s]; [reflexivity|]. simpl.
    destruct (Ascii.eqb (fold_az c) (fold_az a)); [apply IH, Ht|reflexivity].
Qed.

Lemma like_substring t s :
  no_wildcard t = true ->
  like ("%" +:+ t +:+ "%") s = contains (fold_str t) (fold_str s).
Proof.
  intros Ht. change ("%" +:+ t +:+ "%") with (String "%" (t +:+ "%")).
  induction s as [|a s IH].
  - rewrite like_percent, like_prefix by exact Ht. reflexivity.
  - rewrite like_percent, like_prefix, IH by exact Ht. reflexivity.
Qed.

Lemma like_exact t : forall s,
  no_wildcard t = true -> like t s = String.eqb (fold_str t) (fold_str s).
Proof.
  induction t as [|c t IH]; intros s Ht.
  - destruct s; reflexivity.
  - simpl in Ht. apply andb_prop in Ht as [Hc Ht]. apply andb_prop in Hc as [Hp Hu].
    apply negb_true_iff in Hp, Hu.
    rewrite like_char by exact Hp. rewrite Hu.
    destruct s as [|a s]; [reflexivity|]. cbn [fold_str String.eqb orb].
    destruct (Ascii.eqb (fold_az c) (fold_az a)); [apply IH, Ht|reflexivity].
Qed.

Lemma like_suffix t s :
  no_wildcard t = true ->
  like (String "%" t) s = ends_in (fold_str t) (fold_str s).
Proof.
  intros Ht. induction s as [|a s IH].
  - rewrite like_percent, like_exact by exact Ht. reflexivity.
  - rewrite like_percent, like_exact, IH by exact Ht. reflexivity.
Qed.

Lemma until_nul_no_nul s : no_nul s = true -> until_nul s = s.
Proof.
  induction s as [|c s IH]; [reflexivity|]. simpl. intros [Hc Hs]%andb_prop.
  apply negb_true_iff in Hc. rewrite Hc, IH by exact Hs. reflexivity.
Qed.

Lemma until_nul_app_l a b : no_nul a = false -> until_nul (a +:+ b) = until_nul a.
Proof.
  induction a as [|c a IH]; [discriminate|]. rewrite app_cons. simpl.
  destruct (code c =? 0)%N; [reflexivity|]. simpl. intros Ha. rewrite IH by exact Ha.
  reflexivity.
Qed.

Lemma until_nul_app_r a b :
  no_nul a = true -> until_nul (a +:+ b) = a +:+ until_nul b.
Proof.
  induction a as [|c a IH]; [intros _; rewrite !app_empty_l; reflexivity|].
  rewrite !app_cons. simpl. intros [Hc Ha]%andb_prop.
  apply negb_true_iff in Hc. rewrite Hc, IH by exact Ha. reflexivity.
Qed.

Lemma until_nul_pattern text :
  until_nul ("%" +:+ text +:+ "%")
  = if no_nul text then "%" +:+ text +:+ "%" else String "%" (until_nul text).
Proof.
  change ("%" +:+ text +:+ "%") with (String "%" (text +:+ "%")).
  change (until_nul (String "%" (text +:+ "%")))
    with (String "%" (until_nul (text +:+ "%"))).
  destruct (no_nul text) eqn:Hn.
  - rewrite until_nul_app_r by exact Hn. reflexivity.
  - rewrite until_nul_app_l by exact Hn. reflexivity.
Qed.

Lemma sql_like_substring text v :
  no_wildcard text = true -> no_nul text = true ->
  sql_like v ("%" +:+ text +:+ "%") = occurs_in text v.
Proof.
  intros Ht Hn. unfold sql_like, occurs_in. rewrite until_nul_pattern, Hn.
  destruct v; cbn [like_text]; [reflexivity| |]; apply like_substring, Ht.
Qed.

Lemma sql_like_cut text v :
  no_wildcard (until_nul text) = true -> no_nul text = false ->
  sql_like v ("%" +:+ text +:+ "%") = ends_with (until_nul text) v.
Proof.
  intros Ht Hn. unfold sql_like, ends_with. rewrite until_nul_pattern, Hn.
  destruct v; cbn [like_text]; [reflexivity| |]; apply like_suffix, Ht.
Qed.

Lemma sql_like_percent v : sql_like v ("%" +:+ "%" +:+ "%") = not_null v.
Proof.
  assert (forall s, like ("%" +:+ "%" +:+ "%") s = true) as Hl.
  { intros s. change ("%" +:+ "%" +:+ "%") with (String "%" (String "%" "%")).
    destruct s; rewrite like_percent, like_percent, like_any; reflexivity. }
  unfold sql_like.
  change (until_nul ("%" +:+ "%" +:+ "%")) with ("%" +:+ "%" +:+ "%").
  destruct v; cbn [not_null]; [reflexivity| |]; apply Hl.
Qed.

Section SearchProperties.
Context `{Pydantic}.

Lemma from_row_inv r rec :
  from_row (Some r) = Ok rec ->
  exists i t ings sts,
    sql_int (col_id r) = Ok i
    /\ sql_int (sql_or (col_time_minutes r) (SInt 0)) = Ok t
    /\ validate_list coerce_dict (load_embedded (col_ingredients_json r)) = Ok ings
    /\ validate_list coerce_str (load_embedded (col_steps_json r)) = Ok sts
    /\ rec = {| rid := Some i;
                title := sql_str (col_title r);
                description := sql_str (sql_or (col_description r) (SText ""));
                ingredients := ings;
                steps := sts;
                time_minutes := t;
                difficulty := sql_str (sql_or (col_difficulty r) (SText ""));
                image_path := sql_str (sql_or (col_image_path r) (SText ""));
                categories := load_categories (col_categories r) |}.
Proof.
  unfold from_row. intros E.
  destruct (sql_int (col_id r)) as [i|]; [|discriminate]. simpl in E.
  destruct (sql_int (sql_or (col_time_minutes r) (SInt 0))) as [t|]; [|discriminate].
  simpl in E.
  destruct (validate_list coerce_dict _) as [ings|]; [|discriminate]. simpl in E.
  destruct (validate_list coerce_str _) as [sts|]; [|discriminate]. simpl in E.
  injection E as <-. exists i, t, ings, sts. auto.
Qed.

Lemma rows_to_recipes_inv rows l :
  rows_to_recipes rows = Ok l ->
  Forall (fun r => succeeded (from_row (Some r)) = true) rows /\ l = map loaded rows.
Proof.
  unfold rows_to_recipes. revert l.
  induction rows as [|r rows IH]; intros l E; cbn [map_outcome] in E.
  - injection E as <-. split; [constructor|reflexivity].
  - destruct (from_row (Some r)) as [rec|] eqn:Er; [|discriminate]. cbn [bind] in E.
    destruct (map_outcome _ rows) as [l'|]; [|discriminate]. cbn [bind] in E.
    injection E as <-. destruct (IH l' eq_refl) as [Hall ->].
    split; [constructor; [cbv beta; rewrite Er; reflexivity|exact Hall]|].
    cbn [map]. f_equal. unfold loaded. rewrite Er. reflexivity.
Qed.

Lemma rows_to_recipes_ok_iff rows :
  (exists l, rows_to_recipes rows = Ok l)
  <-> Forall (fun r => succeeded (from_row (Some r)) = true) rows.
Proof.
  split.
  - intros (l & Hl). apply rows_to_recipes_inv in Hl. tauto.
  - intros Hall. eexists. apply map_outcome_loaded, Hall.
Qed.

(** X11. [list_recipes] returns exactly when every stored row loads,
    and then with one recipe per stored row; one row that fails to load
    makes the whole listing raise. *)
Theorem list_recipes_all_or_nothing :
  forall d : database,
    ((exists l, list_recipes d = Ok l)
     <-> Forall (fun r => succeeded (from_row (Some r)) = true) (recipes d))
    /\ (forall l, list_recipes d = Ok l -> l ≡ₚ map loaded (recipes d))
    /\ (forall r e, r ∈ recipes d -> from_row (Some r) = Raise e ->
          exists e', list_recipes d = Raise e').
Proof.
  intros d. unfold list_recipes.
  assert ((exists l, rows_to_recipes (sort_by title_le (recipes d)) = Ok l)
          <-> Forall (fun r => succeeded (from_row (Some r)) = true) (recipes d)) as Hiff.
  { rewrite rows_to_recipes_ok_iff. rewrite sort_by_perm. reflexivity. }
  split; [exact Hiff|]. split.
  - intros l Hl. apply rows_to_recipes_inv in Hl as [_ ->].
    apply (fmap_Permutation loaded), sort_by_perm.
  - intros r e Hin Hr.
    destruct (rows_to_recipes (sort_by title_le (recipes d))) as [l|e'] eqn:E; [|eauto].
    exfalso. assert (succeeded (from_row (Some r)) = true) as Hs.
    { destruct Hiff as [Hiff _]. specialize (Hiff (ex_intro _ l eq_refl)).
      rewrite Forall_forall in Hiff. apply Hiff, Hin. }
    rewrite Hr in Hs. discriminate.
Qed.

Lemma map_filter_sublist {A B} (f : A -> B) (p : A -> bool) l :
  map f (List.filter p l) `sublist_of` map f l.
Proof.
  induction l as [|x l IH]; simpl; [constructor|].
  destruct (p x); simpl; [apply sublist_skip|apply sublist_cons]; exact IH.
Qed.

(** X12. When the search without filters returns, the search with
    any filters whose time ceiling fits 64 bits returns too, and its
    result is a sub-list of the unfiltered result, in the same order:
    filters only leave recipes out.  With a time ceiling every recipe
    found takes at most that many minutes; with a difficulty every recipe
    found has exactly it.  A time ceiling outside 64 bits does not bind:
    the search raises [OverflowError], whatever the table holds. *)
Theorem search_recipes_filters :
  forall (d : database) (text : string) (cats : option (list string))
         (max_time : option Z) (diff : string) (all : list Recipe),
    search_recipes d "" None None "" = Ok all ->
    ((forall m, max_time = Some m -> int64 m = true) ->
     exists found,
       search_recipes d text cats max_time diff = Ok found
       /\ found `sublist_of` all
       /\ (forall m, max_time = Some m -> Forall (fun rec => time_minutes rec <= m) found)
       /\ (diff <> EmptyString -> Forall (fun rec => difficulty rec = diff) found))
    /\ (forall m, max_time = Some m -> int64 m = false ->
        search_recipes d text cats max_time diff = Raise OverflowError).
Proof.
  intros d text cats max_time diff all Hall. split.
  2:{ intros m -> Hm. unfold search_recipes. rewrite Hm. reflexivity. }
  intros Hbind. unfold search_recipes in *. cbv iota in Hall.
  assert (match max_time with Some m => int64 m | None => true end = true) as ->
    by (destruct max_time as [m|]; [apply Hbind|]; reflexivity).
  rewrite (list_filter_all (search_filter "" None None "")) in Hall
    by (intros r; apply search_filter_none; reflexivity).
  apply rows_to_recipes_inv in Hall as [Hload ->].
  set (f := search_filter text cats max_time diff).
  rewrite sort_by_filter by (apply time_title_le_total || apply time_title_le_trans).
  set (S := sort_by time_title_le (recipes d)) in *.
  exists (map loaded (List.filter f S)). split; [|split; [|split]].
  - apply map_outcome_loaded, Forall_list_filter, Hload.
  - apply map_filter_sublist.
  - intros m ->. apply Forall_fmap, Forall_forall. intros r Hr.
    apply elem_of_list_filter in Hr as [Hin Hf]. simpl.
    rewrite Forall_forall in Hload. specialize (Hload r Hin).
    apply loaded_fields in Hload as [Hrec _].
    apply from_row_inv in Hrec as (i & t & ings & sts & _ & Ht & _ & _ & ->). simpl.
    unfold f, search_filter in Hf.
    apply andb_prop in Hf as [Hf _]. apply andb_prop in Hf as [_ Hf].
    destruct (col_time_minutes r) as [|z|]; try discriminate.
    apply Z.leb_le in Hf. unfold sql_or in Ht. simpl in Ht.
    destruct (Z.eqb_spec z 0); simpl in Ht; injection Ht as <-; lia.
  - intros Hd. apply Forall_fmap, Forall_forall. intros r Hr.
    apply elem_of_list_filter in Hr as [Hin Hf]. simpl.
    rewrite Forall_forall in Hload. specialize (Hload r Hin).
    apply loaded_fields in Hload as [Hrec _].
    apply from_row_inv in Hrec as (i & t & ings & sts & _ & _ & _ & _ & ->). simpl.
    unfold f, search_filter in Hf. apply andb_prop in Hf as [_ Hf].
    destruct (str_empty diff) eqn:Ee; [apply str_empty_true in Ee; contradiction|].
    apply sql_eqb_text in Hf. rewrite Hf. unfold sql_or. simpl. rewrite Ee. reflexivity.
Qed.

(** X13. A search text without [%], [_] and NUL selects exactly the rows
    in whose title or description it occurs as a substring, the letters
    A..Z compared without case; a NULL column matches nothing, and of a
    column that holds a NUL only the part before it is searched.  A search
    text that holds a NUL is cut there and loses the closing [%]: it
    selects the rows whose title or description ends with the part before
    the NUL.  The two wildcards are not escaped: the text [%] selects every
    row whose title or description is not NULL. *)
Theorem search_recipes_text :
  forall (d : database) (text : string),
    (no_wildcard text = true -> no_nul text = true -> text <> EmptyString ->
     search_recipes d text None None ""
     = rows_to_recipes
         (sort_by time_title_le
            (List.filter (fun r => occurs_in text (col_title r)
                                   || occurs_in text (col_description r))
                         (recipes d))))
    /\ (no_wildcard (until_nul text) = true -> no_nul text = false ->
        search_recipes d text None None ""
        = rows_to_recipes
            (sort_by time_title_le
               (List.filter (fun r => ends_with (until_nul text) (col_title r)
                                      || ends_with (until_nul text) (col_description r))
                            (recipes d))))
    /\ search_recipes d "%" None None ""
       = rows_to_recipes
           (sort_by time_title_le
              (List.filter (fun r => not_null (col_title r) || not_null (col_description r))
                           (recipes d))).
Proof.
  intros d text. unfold search_recipes. cbv iota. split; [|split].
  - intros Hw Hn Hne. do 2 f_equal. apply filter_ext. intros r. unfold search_filter.
    destruct (str_empty text) eqn:Ee; [apply str_empty_true in Ee; contradiction|].
    cbv zeta. rewrite !sql_like_substring by assumption.
    simpl. rewrite !andb_true_r. reflexivity.
  - intros Hw Hn. do 2 f_equal. apply filter_ext. intros r. unfold search_filter.
    destruct text as [|c text]; [discriminate|]. cbn [str_empty]. cbv zeta.
    rewrite !sql_like_cut by assumption.
    simpl. rewrite !andb_true_r. reflexivity.
  - do 2 f_equal. apply filter_ext. intros r. unfold search_filter.
    change (str_empty "%") with false. cbv iota zeta.
    rewrite !sql_like_percent. simpl. rewrite !andb_true_r. reflexivity.
Qed.

Lemma filter_unique_key {A} (f : A -> sqlval) l r :
  NoDup (map f l) -> r ∈ l -> (forall x, x ∈ l -> exists i, f x = SInt i) ->
  List.filter (fun x => sql_eqb (f x) (f r)) l = [r].
Proof.
  intros Hnd Hin Hint.
  assert (forall x, x ∈ l -> sql_eqb (f x) (f r) = true -> f x = f r) as Heq.
  { intros x Hx. destruct (Hint x Hx) as [i ->], (Hint r Hin) as [j ->]. simpl.
    intros ->%Z.eqb_eq. reflexivity. }
  assert (sql_eqb (f r) (f r) = true) as Hrefl.
  { destruct (Hint r Hin) as [j ->]. simpl. apply Z.eqb_refl. }
  clear Hint. induction l as [|x l IH]; [apply elem_of_nil in Hin; contradiction|].
  simpl in Hnd. apply NoDup_cons in Hnd as [Hx Hnd]. simpl.
  apply elem_of_cons in Hin as [->|Hin].
  - rewrite Hrefl. f_equal.
    assert (forall y, y ∈ l -> sql_eqb (f y) (f x) = false) as Hno.
    { intros y Hy. destruct (sql_eqb (f y) (f x)) eqn:E; [|reflexivity].
      exfalso. apply Hx. rewrite <- (Heq y (list_elem_of_further _ _ _ Hy) E).
      apply list_elem_of_fmap. eauto. }
    clear -Hno. induction l as [|y l IH]; [reflexivity|]. simpl.
    rewrite Hno by apply list_elem_of_here. apply IH. intros z Hz.
    apply Hno, list_elem_of_further, Hz.
  - destruct (sql_eqb (f x) (f r)) eqn:E.
    + exfalso. apply Hx. rewrite (Heq x (list_elem_of_here _ _) E).
      apply list_elem_of_fmap. eauto.
    + apply IH; [exact Hnd|exact Hin|].
      intros y Hy. apply Heq, list_elem_of_further, Hy.
Qed.

(** X14. On a recipes table whose ids are integers, no id twice:
    every recipe that [list_recipes] returns carries an id, and
    [get_recipe] of that id returns that recipe; [get_recipe] of an id
    that fits 64 bits and that no row carries returns [None] without
    raising; [get_recipe] of an id outside 64 bits raises
    [OverflowError]. *)
Theorem get_recipe_of_listed :
  forall (d : database) (l : list Recipe),
    recipes_keyed d ->
    list_recipes d = Ok l ->
    Forall (fun rec => exists i, rid rec = Some i /\ get_recipe d i = Ok (Some rec)) l
    /\ (forall i, int64 i = true -> (forall r, r ∈ recipes d -> col_id r <> SInt i) ->
          get_recipe d i = Ok None)
    /\ (forall i, int64 i = false -> get_recipe d i = Raise OverflowError).
Proof.
  intros d l [Hnd Hint] Hl. unfold list_recipes in Hl.
  apply rows_to_recipes_inv in Hl as [Hload ->]. split; [|split].
  - apply Forall_fmap, Forall_forall. intros r Hr. simpl.
    rewrite Forall_forall in Hload. specialize (Hload r Hr).
    apply elem_of_sort_by in Hr.
    rewrite Forall_forall in Hint. destruct (Hint r Hr) as (i & Hi & H64).
    apply loaded_fields in Hload as [Hrec _].
    pose proof Hrec as Hinv.
    apply from_row_inv in Hinv as (i' & t & ings & sts & Hid & _ & _ & _ & Heq).
    rewrite Hi in Hid. injection Hid as <-.
    exists i. split; [rewrite Heq; reflexivity|].
    unfold get_recipe. rewrite H64, <- Hi.
    rewrite (filter_unique_key col_id (recipes d) r Hnd Hr)
      by (intros x Hx; destruct (Hint x Hx) as (k & Hk & _); eauto).
    rewrite Hrec. reflexivity.
  - intros i H64 Hno. unfold get_recipe. rewrite H64.
    assert (List.filter (fun r => sql_eqb (col_id r) (SInt i)) (recipes d) = []) as ->;
      [|reflexivity].
    clear Hnd Hint Hload. revert Hno. generalize (recipes d) as rows.
    induction rows as [|r rows IH]; intros Hno; [reflexivity|]. simpl.
    destruct (sql_eqb (col_id r) (SInt i)) eqn:E.
    + exfalso. apply (Hno r); [apply list_elem_of_here|].
      destruct (col_id r); simpl in E; try discriminate.
      apply Z.eqb_eq in E. congruence.
    + apply IH. intros x Hx. apply Hno, list_elem_of_further, Hx.
  - intros i H64. unfold get_recipe. rewrite H64. reflexivity.
Qed.
End SearchProperties.

(** ** [json.dumps], then [json.loads] *)

Lemma scan_escape_char c rest t r :
  scan_string rest = Some (t, r) ->
  scan_string (escape_char c +:+ rest) = Some (String c t, r).
Proof.
  intros Hr.
  destruct c as [b0 b1 b2 b3 b4 b5 b6 b7];
    destruct b0, b1, b2, b3, b4, b5, b6, b7;
    match goal with
    | |- context [escape_char ?c] =>
        let e := eval vm_compute in (escape_char c) in
        change (escape_char c) with e
    end;
    rewrite ?app_cons, app_empty_l; simpl; rewrite Hr; reflexivity.
Qed.

Lemma scan_escape_body s x :
  scan_string (escape_body s +:+ String dquote x) = Some (s, x).
Proof.
  induction s as [|c s IH]; cbn [escape_body].
  - rewrite app_empty_l. reflexivity.
  - rewrite app_assoc_str. apply scan_escape_char, IH.
Qed.

Lemma parse_value_string n s x :
  parse_value (S n) (encode_basestring s +:+ x) = POk (JStr s) x.
Proof.
  unfold encode_basestring. rewrite app_cons, app_assoc_str, app_cons, app_empty_l.
  cbn [parse_value]. change (Ascii.eqb dquote dquote) with true. cbv iota.
  rewrite scan_escape_body. reflexivity.
Qed.

Lemma parse_members_fuel_le n m s acc :
  (n <= m)%nat -> not_fuel (parse_members n s acc) ->
  parse_members m s acc = parse_members n s acc.
Proof.
  induction 1 as [|m Hle IH]; [reflexivity|]. intros Hp.
  destruct (parse_fuel_mono m) as (_ & _ & Hm).
  rewrite Hm; rewrite (IH Hp); [reflexivity|exact Hp].
Qed.

Lemma parse_elements_fuel_le n m s acc :
  (n <= m)%nat -> not_fuel (parse_elements n s acc) ->
  parse_elements m s acc = parse_elements n s acc.
Proof.
  induction 1 as [|m Hle IH]; [reflexivity|]. intros Hp.
  destruct (parse_fuel_mono m) as (_ & He & _).
  rewrite He; rewrite (IH Hp); [reflexivity|exact Hp].
Qed.

Lemma pretty_N_go_app x : forall s, pretty_N_go x s = pretty_N_go x "" +:+ s.
Proof.
  induction (N.lt_wf_0 x) as [x _ IH]. intros s.
  destruct (N.eq_dec x 0%N) as [->|Hx]; [reflexivity|].
  assert (0 < x)%N as Hpos by lia.
  rewrite (pretty_N_go_step x s), (pretty_N_go_step x "") by exact Hpos.
  assert (x `div` 10 < x)%N as Hlt by (apply N.div_lt; lia).
  rewrite (IH _ Hlt (String (pretty_N_char (x `mod` 10)) s)).
  rewrite (IH _ Hlt (String (pretty_N_char (x `mod` 10)) "")).
  rewrite app_assoc_str. reflexivity.
Qed.

Lemma pretty_N_char_digit n :
  (n < 10)%N ->
  is_digit (pretty_N_char n) = true
  /\ Z.of_N (code (pretty_N_char n)) - 48 = Z.of_N n
  /\ (Ascii.eqb (pretty_N_char n) "0" = true -> n = 0%N).
Proof.
  intros Hn.
  pose (ok := fun k : N =>
          is_digit (pretty_N_char k)
          && (Z.of_N (code (pretty_N_char k)) - 48 =? Z.of_N k)
          && implb (Ascii.eqb (pretty_N_char k) "0") (k =? 0)%N).
  assert (forallb ok (List.map N.of_nat (seq 0 10)) = true) as Hall
    by (vm_compute; reflexivity).
  assert (ok n = true) as Hok.
  { apply (proj1 (forallb_forall _ _) Hall).
    rewrite <- (N2Nat.id n). apply in_map, in_seq. lia. }
  unfold ok in Hok. apply andb_prop in Hok as [Hok Hz]. apply andb_prop in Hok as [Hd He].
  split; [exact Hd|]. split; [apply Z.eqb_eq, He|].
  intros H0. rewrite H0 in Hz. apply N.eqb_eq, Hz.
Qed.

Lemma all_digits_app a b : all_digits (a +:+ b) = all_digits a && all_digits b.
Proof.
  induction a as [|c a IH]; [reflexivity|].
  rewrite app_cons. simpl. rewrite IH. apply andb_assoc.
Qed.

Lemma digits_val_app a : forall acc b,
  digits_val acc (a +:+ b) = digits_val (digits_val acc a) b.
Proof.
  induction a as [|c a IH]; intros acc b; [reflexivity|].
  rewrite app_cons. simpl. apply IH.
Qed.

Lemma pretty_N_go_digits x :
  all_digits (pretty_N_go x "") = true
  /\ digits_val 0 (pretty_N_go x "") = Z.of_N x
  /\ ((0 < x)%N ->
      exists c r, pretty_N_go x "" = String c r
                  /\ is_digit c = true /\ Ascii.eqb c "0" = false).
Proof.
  induction (N.lt_wf_0 x) as [x _ IH].
  destruct (N.eq_dec x 0%N) as [->|Hx].
  { split; [reflexivity|]. split; [reflexivity|]. lia. }
  assert (0 < x)%N as Hpos by lia.
  rewrite (pretty_N_go_step x "") by exact Hpos. rewrite pretty_N_go_app.
  destruct (IH (x `div` 10)%N) as (Hd & Hv & Hh); [apply N.div_lt; lia|].
  destruct (pretty_N_char_digit (x `mod` 10)%N) as (Hcd & Hcv & Hc0);
    [apply N.mod_lt; lia|].
  split; [|split].
  - rewrite all_digits_app, Hd. simpl. rewrite Hcd. reflexivity.
  - rewrite digits_val_app, Hv. simpl. rewrite Hcv.
    assert (10 <> 0)%N as H10 by lia.
    pose proof (N.div_mod x 10 H10) as Hdm. lia.
  - intros _. destruct (N.eq_dec (x `div` 10)%N 0%N) as [H0|H0].
    + rewrite H0. rewrite app_empty_l. eexists _, _. split; [reflexivity|].
      split; [exact Hcd|]. destruct (Ascii.eqb _ "0") eqn:E; [|reflexivity].
      specialize (Hc0 eq_refl). exfalso.
      assert (10 <> 0)%N as H10 by lia.
      pose proof (N.div_mod x 10 H10) as Hdm. rewrite H0, Hc0 in Hdm. lia.
    + destruct Hh as (c & r & Hcr & Hcdig & Hcnz); [apply N.neq_0_lt_0; exact H0|].
      rewrite Hcr. rewrite app_cons. eauto.
Qed.

(** The decimal text of an integer: digits, a lone 0 or no leading zero,
    after an optional minus. *)
Lemma pretty_Z_shape (z : Z) :
  exists (neg : bool) (D : string),
    pretty z = (if neg then "-" else "") +:+ D
    /\ all_digits D = true
    /\ (D = "0" \/ exists c r, D = String c r /\ is_digit c = true /\ Ascii.eqb c "0" = false)
    /\ z = (if neg then - digits_val 0 D else digits_val 0 D).
Proof.
  destruct z as [|p|p].
  - exists false, "0"%string. repeat split; auto.
  - exists false, (pretty_N_go (N.pos p) "").
    destruct (pretty_N_go_digits (N.pos p)) as (Hd & Hv & Hh).
    split; [reflexivity|]. split; [exact Hd|]. split; [right; apply Hh; lia|].
    rewrite Hv. reflexivity.
  - exists true, (pretty_N_go (N.pos p) "").
    destruct (pretty_N_go_digits (N.pos p)) as (Hd & Hv & Hh).
    split; [reflexivity|]. split; [exact Hd|]. split; [right; apply Hh; lia|].
    rewrite Hv. reflexivity.
Qed.

Lemma scan_frac_none x : head_not is_dot x -> scan_frac x = (EmptyString, x).
Proof.
  destruct x as [|c x]; [reflexivity|]. unfold head_not, is_dot, scan_frac.
  intros ->. reflexivity.
Qed.

Lemma scan_exp_none x : head_not is_e x -> scan_exp x = (EmptyString, x).
Proof.
  destruct x as [|c x]; [reflexivity|]. unfold head_not, is_e, scan_exp.
  intros ->. reflexivity.
Qed.

Lemma scan_int_part_digits D x :
  all_digits D = true ->
  (D = "0" \/ exists c r, D = String c r /\ is_digit c = true /\ Ascii.eqb c "0" = false) ->
  head_not is_digit x ->
  scan_int_part (D +:+ x) = Some (D, x).
Proof.
  intros Hd [->|(c & r & -> & Hc & Hnz)] Hx.
  - reflexivity.
  - rewrite app_cons. unfold scan_int_part. rewrite Hc, Hnz.
    rewrite <- app_cons. rewrite span_digits_app by assumption. reflexivity.
Qed.

Lemma scan_number_digits (neg : bool) D x :
  all_digits D = true ->
  (D = "0" \/ exists c r, D = String c r /\ is_digit c = true /\ Ascii.eqb c "0" = false) ->
  inert x ->
  scan_number ((if neg then "-" else "") +:+ D +:+ x)
  = Some (JInt (if neg then - digits_val 0 D else digits_val 0 D), x).
Proof.
  intros Hd Hshape (Hx1 & Hx2 & Hx3).
  assert (scan_number ((if neg then "-" else "") +:+ D +:+ x)
          = match scan_int_part (D +:+ x) with
            | Some (ip, r1) =>
                let '(fr, r2) := scan_frac r1 in
                let '(ex, r3) := scan_exp r2 in
                Some (number_value neg ip fr ex, r3)
            | None => None
            end) as ->.
  { destruct neg; [reflexivity|]. rewrite app_empty_l.
    destruct Hshape as [->|(c & r & -> & Hc & _)]; [reflexivity|].
    rewrite app_cons. unfold scan_number.
    pose proof (digit_not_sign c Hc) as Hs. apply orb_false_iff in Hs as [-> _].
    reflexivity. }
  rewrite scan_int_part_digits by assumption.
  rewrite scan_frac_none, scan_exp_none by assumption.
  destruct neg; reflexivity.
Qed.

Lemma digit_opens c : is_digit c = true -> opens_value c = true.
Proof.
  destruct c as [b0 b1 b2 b3 b4 b5 b6 b7];
    destruct b0, b1, b2, b3, b4, b5, b6, b7; vm_compute; congruence.
Qed.

Lemma parse_value_number n c s v r :
  is_digit c || Ascii.eqb c "-" = true ->
  scan_number (String c s) = Some (v, r) ->
  parse_value (S n) (String c s) = POk v r.
Proof.
  intros Hc Hs. cbn [parse_value]. unfold scan_atom, literal.
  destruct c as [b0 b1 b2 b3 b4 b5 b6 b7];
    destruct b0, b1, b2, b3, b4, b5, b6, b7; try discriminate Hc;
    cbn [starts_with Ascii.eqb Bool.eqb]; rewrite Hs; reflexivity.
Qed.

Lemma skip_ws_opens c r : opens_value c = true -> skip_ws (String c r) = String c r.
Proof.
  unfold opens_value. intros Hc. apply andb_prop in Hc as [Hc _].
  apply andb_prop in Hc as [Hc _]. apply negb_true_iff in Hc.
  cbn [skip_ws]. rewrite Hc. reflexivity.
Qed.

Lemma dict_set_fresh k v d :
  k ∉ map fst d -> dict_set k v d = d ++ [(k, v)].
Proof.
  induction d as [|[k' v'] d IH]; simpl; intros Hk; [reflexivity|].
  apply not_elem_of_cons in Hk as [Hne Hk].
  destruct (String.eqb k' k) eqn:E; [apply String.eqb_eq in E; congruence|].
  rewrite IH by assumption. reflexivity.
Qed.

Lemma foldl_dict_set m : forall acc,
  NoDup (map fst (acc ++ m)) ->
  foldl (fun a kv => dict_set kv.1 kv.2 a) acc m = acc ++ m.
Proof.
  induction m as [|[k v] m IH]; intros acc Hnd; simpl.
  - rewrite app_nil_r. reflexivity.
  - assert (k ∉ map fst acc) as Hk.
    { rewrite map_app in Hnd. apply NoDup_app in Hnd as (_ & Hd & _).
      intros Hin. apply (Hd k Hin). simpl. apply list_elem_of_here. }
    rewrite dict_set_fresh by exact Hk.
    rewrite IH; [rewrite <- app_assoc; reflexivity|].
    rewrite <- app_assoc. exact Hnd.
Qed.

Lemma json_induction (P : json -> Prop) :
  P JNull -> (forall b, P (JBool b)) -> (forall z, P (JInt z)) ->
  (forall lit, P (JFloat lit)) -> (forall s, P (JStr s)) ->
  (forall l, Forall P l -> P (JArr l)) ->
  (forall m, Forall (fun kv => P kv.2) m -> P (JObj m)) ->
  forall v, P v.
Proof.
  intros Hnull Hbool Hint Hfloat Hstr Harr Hobj.
  exact (fix IH (v : json) : P v :=
           match v with
           | JNull => Hnull
           | JBool b => Hbool b
           | JInt z => Hint z
           | JFloat lit => Hfloat lit
           | JStr s => Hstr s
           | JArr l =>
               Harr l ((fix go (l : list json) : Forall P l :=
                          match l with
                          | [] => @List.Forall_nil _ P
                          | x :: l' => @List.Forall_cons _ P x l' (IH x) (go l')
                          end) l)
           | JObj m =>
               Hobj m ((fix go (m : list (string * json))
                          : Forall (fun kv => P kv.2) m :=
                          match m with
                          | [] => @List.Forall_nil _ (fun kv => P kv.2)
                          | kv :: m' => @List.Forall_cons _ (fun kv => P kv.2) kv m' (IH kv.2) (go m')
                          end) m)
           end).
Qed.

Lemma parse_elements_S n s acc :
  parse_elements (S n) s acc
  = match parse_value n s with
    | POk v r =>
        match skip_ws r with
        | EmptyString => PErr
        | String c r2 =>
            if Ascii.eqb c "]" then POk (JArr (acc ++ [v])) r2
            else if Ascii.eqb c "," then parse_elements n (skip_ws r2) (acc ++ [v])
            else PErr
        end
    | PErr => PErr
    | PFuel => PFuel
    end.
Proof. reflexivity. Qed.

Lemma parse_members_S n s1 acc :
  parse_members (S n) (String dquote s1) acc
  = match scan_string s1 with
    | None => PErr
    | Some (k, r) =>
        match skip_ws r with
        | EmptyString => PErr
        | String c2 r2 =>
            if Ascii.eqb c2 ":" then
              match parse_value n (skip_ws r2) with
              | POk v r3 =>
                  match skip_ws r3 with
                  | EmptyString => PErr
                  | String c3 r4 =>
                      if Ascii.eqb c3 "}" then POk (JObj (dict_set k v acc)) r4
                      else if Ascii.eqb c3 ","
                      then parse_members n (skip_ws r4) (dict_set k v acc)
                      else PErr
                  end
              | PErr => PErr
              | PFuel => PFuel
              end
            else PErr
        end
    end.
Proof. reflexivity. Qed.

Lemma inert_closer c x :
  is_digit c = false -> is_dot c = false -> is_e c = false -> inert (String c x).
Proof. intros. repeat split; assumption. Qed.

Lemma decodes_at s v n m x :
  (forall y, inert y -> parse_value n (s +:+ y) = POk v y) ->
  (n <= m)%nat -> inert x -> parse_value m (s +:+ x) = POk v x.
Proof.
  intros Hn Hle Hx. rewrite <- (Hn x Hx). apply parse_value_fuel_le; [exact Hle|].
  rewrite (Hn x Hx). discriminate.
Qed.

Lemma skip_ws_space r : skip_ws (String " " r) = skip_ws r.
Proof. reflexivity. Qed.

Lemma skip_ws_punct c r : is_json_ws c = false -> skip_ws (String c r) = String c r.
Proof. intros Hc. cbn [skip_ws]. rewrite Hc. reflexivity. Qed.

Section JsonRoundTrip.
Context `{JsonFloat}.

Lemma dumps_head v :
  plain v = true -> exists c r, json_dumps v = String c r /\ opens_value c = true.
Proof.
  destruct v as [|[]|z|lit|s|l|m]; simpl; intros Hp; try discriminate;
    try (eexists _, _; split; [reflexivity|reflexivity]).
  destruct (pretty_Z_shape z) as ([] & D & -> & Hd & Hshape & _).
  - eexists _, _. split; [reflexivity|reflexivity].
  - rewrite app_empty_l.
    destruct Hshape as [->|(c & r & -> & Hc & _)].
    + eexists _, _. split; [reflexivity|reflexivity].
    + eexists _, _. split; [reflexivity|]. apply digit_opens, Hc.
Qed.

Lemma elements_decode l :
  l <> [] ->
  Forall (fun v => plain v = true /\ decodes (json_dumps v) v) l ->
  exists n, forall acc x,
    parse_elements n (join ", " (map json_dumps l) +:+ String "]" x) acc
    = POk (JArr (acc ++ l)) x.
Proof.
  induction l as [|v l IH]; [congruence|]. intros _ Hall.
  apply Forall_cons in Hall as [[Hpv (nv & Hv)] Hall].
  destruct l as [|v2 l].
  - exists (S nv). intros acc x. cbn [map join]. rewrite parse_elements_S.
    rewrite (Hv (String "]" x)) by (apply inert_closer; reflexivity).
    reflexivity.
  - destruct (IH ltac:(discriminate) Hall) as (nr & Hr).
    exists (S (Nat.max nv nr)). intros acc x.
    change (join ", " (map json_dumps (v :: v2 :: l)))
      with (json_dumps v +:+ ", " +:+ join ", " (map json_dumps (v2 :: l))).
    rewrite !app_assoc_str. rewrite parse_elements_S.
    change (", " +:+ ?y) with (String "," (String " " y)).
    rewrite (decodes_at _ v nv) by
      (try exact Hv; try lia; apply inert_closer; reflexivity).
    rewrite (skip_ws_punct ",") by reflexivity.
    change (Ascii.eqb "," "]") with false. change (Ascii.eqb "," ",") with true.
    cbv iota. rewrite skip_ws_space.
    apply Forall_cons in Hall as [[Hp2 _] _].
    destruct (dumps_head v2 Hp2) as (c & r & Hc & Hopen).
    assert (skip_ws (join ", " (map json_dumps (v2 :: l)) +:+ String "]" x)
            = join ", " (map json_dumps (v2 :: l)) +:+ String "]" x) as ->.
    { destruct l as [|v3 l]; cbn [map join]; rewrite Hc, ?app_cons;
        apply skip_ws_opens, Hopen. }
    rewrite (parse_elements_fuel_le nr) by (try lia; rewrite Hr; discriminate).
    rewrite Hr. rewrite <- app_assoc. reflexivity.
Qed.

Lemma member_text_app k v y :
  member_text (k, v) +:+ y
  = String dquote (escape_body k
                   +:+ String dquote (String ":" (String " " (json_dumps v +:+ y)))).
Proof.
  unfold member_text, encode_basestring.
  rewrite !app_cons, !app_assoc_str, !app_cons, app_empty_l. reflexivity.
Qed.

Lemma members_decode m :
  m <> [] ->
  Forall (fun kv => plain kv.2 = true /\ decodes (json_dumps kv.2) kv.2) m ->
  exists n, forall acc x,
    parse_members n (join ", " (map member_text m) +:+ String "}" x) acc
    = POk (JObj (foldl (fun a kv => dict_set kv.1 kv.2 a) acc m)) x.
Proof.
  induction m as [|[k v] m IH]; [congruence|]. intros _ Hall.
  apply Forall_cons in Hall as [[Hpv (nv & Hv)] Hall]. simpl in Hpv, Hv.
  destruct (dumps_head v Hpv) as (c & r & Hc & Hopen).
  assert (forall y, skip_ws (json_dumps v +:+ y) = json_dumps v +:+ y) as Hsk
    by (intros y; rewrite Hc, app_cons; apply skip_ws_opens, Hopen).
  destruct m as [|kv2 m].
  - exists (S nv). intros acc x. cbn [map join]. rewrite member_text_app.
    rewrite parse_members_S, scan_escape_body.
    rewrite (skip_ws_punct ":") by reflexivity.
    change (Ascii.eqb ":" ":") with true. cbv iota.
    rewrite skip_ws_space, Hsk.
    rewrite (Hv (String "}" x)) by (apply inert_closer; reflexivity).
    reflexivity.
  - destruct (IH ltac:(discriminate) Hall) as (nr & Hr).
    exists (S (Nat.max nv nr)). intros acc x.
    change (join ", " (map member_text ((k, v) :: kv2 :: m)))
      with (member_text (k, v) +:+ ", " +:+ join ", " (map member_text (kv2 :: m))).
    rewrite !app_assoc_str. rewrite member_text_app.
    rewrite parse_members_S, scan_escape_body.
    rewrite (skip_ws_punct ":") by reflexivity.
    change (Ascii.eqb ":" ":") with true. cbv iota.
    rewrite skip_ws_space, Hsk.
    change (", " +:+ ?y) with (String "," (String " " y)).
    rewrite (decodes_at _ v nv) by
      (try exact Hv; try lia; apply inert_closer; reflexivity).
    rewrite (skip_ws_punct ",") by reflexivity.
    change (Ascii.eqb "," "}") with false. change (Ascii.eqb "," ",") with true.
    cbv iota. rewrite skip_ws_space.
    assert (skip_ws (join ", " (map member_text (kv2 :: m)) +:+ String "}" x)
            = join ", " (map member_text (kv2 :: m)) +:+ String "}" x) as ->.
    { destruct kv2 as [k2 v2]. destruct m as [|kv3 m]; cbn [map join];
        rewrite ?app_assoc_str, member_text_app; reflexivity. }
    rewrite (parse_members_fuel_le nr) by (try lia; rewrite Hr; discriminate).
    rewrite Hr. reflexivity.
Qed.

Lemma decodes_plain : forall v, plain v = true -> decodes (json_dumps v) v.
Proof.
  apply (json_induction (fun v => plain v = true -> decodes (json_dumps v) v)).
  - intros _. exists 1%nat. intros x _. reflexivity.
  - intros [] _; exists 1%nat; intros x _; reflexivity.
  - intros z _. exists 1%nat. intros x Hx. cbn [json_dumps].
    destruct (pretty_Z_shape z) as (neg & D & Hz & Hd & Hshape & Hval).
    pose proof (scan_number_digits neg D x Hd Hshape Hx) as Hscan.
    rewrite <- Hval in Hscan. rewrite Hz, app_assoc_str.
    destruct neg.
    + apply parse_value_number; [reflexivity|exact Hscan].
    + rewrite app_empty_l in Hscan |- *.
      destruct Hshape as [->|(c & r & -> & Hc & _)].
      * apply parse_value_number; [reflexivity|exact Hscan].
      * rewrite app_cons in Hscan |- *.
        apply parse_value_number; [rewrite Hc; reflexivity|exact Hscan].
  - intros lit Hp. discriminate.
  - intros s _. exists 1%nat. intros x _. apply parse_value_string.
  - intros l IH Hp. cbn [plain] in Hp. destruct l as [|v l].
    { exists 1%nat. intros x _. reflexivity. }
    assert (Forall (fun v => plain v = true /\ decodes (json_dumps v) v) (v :: l)) as Hall.
    { pose proof (proj1 (forallb_forall _ _) Hp) as Hp'. rewrite Forall_forall in IH |- *.
      intros y Hy. split; [apply Hp', list_elem_of_In, Hy|].
      apply IH; [exact Hy|apply Hp', list_elem_of_In, Hy]. }
    destruct (elements_decode (v :: l) ltac:(discriminate) Hall) as (n & Hn).
    exists (S n). intros x _. cbn [json_dumps].
    rewrite !app_assoc_str.
    change ("]" +:+ x) with (String "]" x).
    change ("[" +:+ ?y) with (String "[" y).
    pose proof Hall as Hv. apply Forall_cons in Hv as [[Hpv _] _].
    destruct (dumps_head v Hpv) as (c & r & Hc & Hopen).
    assert (exists r', join ", " (map json_dumps (v :: l)) +:+ String "]" x = String c r')
      as (r' & Hr').
    { destruct l as [|v2 l]; cbn [map join]; rewrite Hc, ?app_cons; eauto. }
    cbn [parse_value]. change (Ascii.eqb "[" dquote) with false.
    change (Ascii.eqb "[" "{") with false. change (Ascii.eqb "[" "[") with true.
    cbv iota. rewrite Hr', skip_ws_opens by exact Hopen.
    assert (Ascii.eqb c "]" = false) as ->.
    { unfold opens_value in Hopen. apply andb_prop in Hopen as [Ho _].
      apply andb_prop in Ho as [_ Ho]. apply negb_true_iff in Ho. exact Ho. }
    rewrite <- Hr'. apply Hn.
  - intros m IH Hp. cbn [plain] in Hp. apply andb_prop in Hp as [Hp Hnd].
    apply bool_decide_eq_true in Hnd. destruct m as [|kv m].
    { exists 1%nat. intros x _. reflexivity. }
    assert (Forall (fun kv => plain kv.2 = true /\ decodes (json_dumps kv.2) kv.2) (kv :: m))
      as Hall.
    { pose proof (proj1 (forallb_forall _ _) Hp) as Hp'. rewrite Forall_forall in IH |- *.
      intros y Hy. split; [apply Hp', list_elem_of_In, Hy|].
      apply IH; [exact Hy|apply Hp', list_elem_of_In, Hy]. }
    destruct (members_decode (kv :: m) ltac:(discriminate) Hall) as (n & Hn).
    exists (S n). intros x _. cbn [json_dumps].
    change (map (fun kv0 => let '(k, x0) := kv0 in
                            encode_basestring k +:+ ": " +:+ json_dumps x0) (kv :: m))
      with (map member_text (kv :: m)).
    rewrite !app_assoc_str.
    change ("}" +:+ x) with (String "}" x).
    change ("{" +:+ ?y) with (String "{" y).
    assert (exists r', join ", " (map member_text (kv :: m)) +:+ String "}" x
                       = String dquote r') as (r' & Hr').
    { destruct kv as [k v]. destruct m as [|kv2 m]; cbn [map join];
        rewrite ?app_assoc_str, member_text_app; eauto. }
    cbn [parse_value]. change (Ascii.eqb "{" dquote) with false.
    change (Ascii.eqb "{" "{") with true. cbv iota.
    rewrite Hr'. cbn [skip_ws]. change (is_json_ws dquote) with false. cbv iota.
    change (Ascii.eqb dquote "}") with false. cbv iota.
    rewrite <- Hr', Hn. rewrite (foldl_dict_set (kv :: m) []) by exact Hnd.
    reflexivity.
Qed.

(** The text [json.dumps] writes for a plain value is decoded by
    [json.loads] to that value. *)
Lemma json_loads_dumps v : plain v = true -> json_loads (json_dumps v) = Some v.
Proof.
  intros Hp. destruct (decodes_plain v Hp) as (n & Hn).
  destruct (dumps_head v Hp) as (c & r & Hc & Hopen).
  specialize (Hn EmptyString ltac:(repeat split)). rewrite app_empty_r in Hn.
  unfold json_loads. set (N := (2 * String.length (json_dumps v) + 2)%nat).
  assert (skip_ws (json_dumps v) = json_dumps v) as ->
    by (rewrite Hc; apply skip_ws_opens, Hopen).
  assert (parse_value N (json_dumps v) = POk v EmptyString) as ->; [|reflexivity].
  pose proof (json_loads_fuel (json_dumps v)) as Hf. fold N in Hf.
  assert (skip_ws (json_dumps v) = json_dumps v) as Hs
    by (rewrite Hc; apply skip_ws_opens, Hopen).
  rewrite Hs in Hf.
  destruct (Nat.le_gt_cases n N) as [Hle|Hgt].
  - rewrite (parse_value_fuel_le n N) by (try exact Hle; rewrite Hn; discriminate).
    exact Hn.
  - rewrite <- Hn. symmetry. apply parse_value_fuel_le; [lia|exact Hf].
Qed.
End JsonRoundTrip.

(** ** Comma-separated lists *)

Lemma split_on_single s : no_comma s = true -> split_on "," s = [s].
Proof.
  induction s as [|a s IH]; [reflexivity|]. simpl. intros Hs.
  apply andb_prop in Hs as [Ha Hs]. apply negb_true_iff in Ha. rewrite Ha.
  rewrite IH by exact Hs. reflexivity.
Qed.

Lemma split_on_app a rest :
  no_comma a = true ->
  split_on "," (a +:+ String "," rest) = a :: split_on "," rest.
Proof.
  induction a as [|c a IH]; [reflexivity|]. rewrite app_cons. simpl. intros Ha.
  apply andb_prop in Ha as [Hc Ha]. apply negb_true_iff in Hc. rewrite Hc.
  rewrite IH by exact Ha. reflexivity.
Qed.

Lemma split_on_join pieces :
  pieces <> [] -> Forall (fun p => no_comma p = true) pieces ->
  split_on "," (join "," pieces) = pieces.
Proof.
  induction pieces as [|p pieces IH]; [congruence|]. intros _ Hall.
  apply Forall_cons in Hall as [Hp Hall]. destruct pieces as [|q pieces].
  - apply split_on_single, Hp.
  - change (join "," (p :: q :: pieces)) with (p +:+ "," +:+ join "," (q :: pieces)).
    change ("," +:+ ?y) with (String "," y).
    rewrite split_on_app by exact Hp. rewrite IH by (discriminate || exact Hall).
    reflexivity.
Qed.

Lemma split_strip_filter l :
  map strip (List.filter (fun c => negb (str_empty (strip c))) l)
  = List.filter (fun c => negb (str_empty c)) (map strip l).
Proof.
  induction l as [|x l IH]; [reflexivity|]. simpl.
  destruct (str_empty (strip x)); simpl; rewrite IH; reflexivity.
Qed.

(** Splitting what was joined: the pieces, stripped, without the blank
    ones. *)
Lemma split_strip_join pieces :
  Forall (fun p => no_comma p = true) pieces ->
  split_strip (join "," pieces)
  = List.filter (fun c => negb (str_empty c)) (map strip pieces).
Proof.
  intros Hall. unfold split_strip. destruct pieces as [|p pieces]; [reflexivity|].
  rewrite split_on_join by (discriminate || exact Hall). apply split_strip_filter.
Qed.

Lemma split_strip_clean cats :
  Forall clean_label cats -> split_strip (join "," cats) = cats.
Proof.
  intros Hall. rewrite split_strip_join.
  - induction Hall as [|c cats (Hne & Hs & _) Hall IH]; [reflexivity|].
    simpl. rewrite Hs. destruct c; [congruence|]. simpl. rewrite IH. reflexivity.
  - eapply Forall_impl; [exact Hall|]. intros c (_ & _ & Hc). exact Hc.
Qed.

Lemma no_comma_split s : Forall (fun p => no_comma p = true) (split_on "," s).
Proof.
  induction s as [|a s IH]; [repeat constructor|]. simpl.
  destruct (Ascii.eqb a ",") eqn:Ea; [constructor; [reflexivity|exact IH]|].
  destruct (split_on "," s) as [|p rest]; [repeat constructor; simpl; rewrite Ea; reflexivity|].
  apply Forall_cons in IH as [Hp Hrest]. constructor; [|exact Hrest].
  simpl. rewrite Ea, Hp. reflexivity.
Qed.

Lemma no_comma_lstrip s : no_comma s = true -> no_comma (lstrip s) = true.
Proof.
  induction s as [|a s IH]; [reflexivity|]. intros Hs. simpl.
  destruct (isspace a); [|exact Hs]. simpl in Hs. apply andb_prop in Hs as [_ Hs].
  apply IH, Hs.
Qed.

Lemma no_comma_rstrip s : no_comma s = true -> no_comma (rstrip s) = true.
Proof.
  induction s as [|a s IH]; [reflexivity|]. intros Hs. simpl in Hs |- *.
  apply andb_prop in Hs as [Ha Hs].
  destruct (isspace a && str_empty (rstrip s)); [reflexivity|].
  simpl. rewrite Ha, IH by exact Hs. reflexivity.
Qed.

Lemma split_strip_clean_labels s : Forall clean_label (split_strip s).
Proof.
  unfold split_strip. apply Forall_fmap, Forall_forall. intros p Hp.
  apply elem_of_list_filter in Hp as [Hin Hne]. simpl.
  pose proof (no_comma_split s) as Hall. rewrite Forall_forall in Hall.
  split; [|split].
  - intros E. rewrite E in Hne. discriminate.
  - apply strip_stripped.
  - apply no_comma_rstrip, no_comma_lstrip, Hall, Hin.
Qed.

Lemma split_strip_blank s : all_space s = true -> split_strip s = [].
Proof.
  intros Hs. assert (no_comma s = true) as Hc.
  { induction s as [|a s IH]; [reflexivity|]. simpl in Hs |- *.
    apply andb_prop in Hs as [Ha Hs]. rewrite IH by exact Hs.
    destruct (Ascii.eqb_spec a ","); [subst; discriminate|reflexivity]. }
  unfold split_strip. rewrite split_on_single by exact Hc. simpl.
  assert (strip s = EmptyString) as ->; [|reflexivity].
  unfold strip. rewrite lstrip_all_space by exact Hs. reflexivity.
Qed.

Section CategoriesProperties.
Context `{Pydantic}.

Lemma load_categories_split v :
  load_categories v
  = match v with SText s => split_strip s | _ => [] end.
Proof.
  destruct v as [|z|s]; [reflexivity| |].
  - unfold load_categories, sql_or. simpl. destruct (z =? 0); reflexivity.
  - unfold load_categories, sql_or. simpl. destruct s; reflexivity.
Qed.

(** X15. The categories of every recipe that [Recipe.from_row] loads
    are non-empty, stripped and free of commas, whatever the categories
    column holds; a column that is not text gives none. *)
Theorem from_row_categories_clean :
  forall (r : recipe_row) (rec : Recipe),
    from_row (Some r) = Ok rec ->
    Forall clean_label (categories rec)
    /\ categories rec = match col_categories r with
                        | SText s => split_strip s
                        | _ => []
                        end.
Proof.
  intros r rec Hrec.
  apply from_row_inv in Hrec as (i & t & ings & sts & _ & _ & _ & _ & ->). simpl.
  rewrite load_categories_split. split; [|reflexivity].
  destruct (col_categories r); [constructor|constructor|apply split_strip_clean_labels].
Qed.
End CategoriesProperties.

(** ** [insert_recipe], then [Recipe.from_row] *)

Lemma filter_no_id i rows :
  (forall r, r ∈ rows -> col_id r <> SInt i) ->
  List.filter (fun r => sql_eqb (col_id r) (SInt i)) rows = [].
Proof.
  induction rows as [|r rows IH]; intros Hno; [reflexivity|]. simpl.
  destruct (sql_eqb (col_id r) (SInt i)) eqn:E.
  - exfalso. apply (Hno r); [apply list_elem_of_here|].
    destruct (col_id r); simpl in E; try discriminate.
    apply Z.eqb_eq in E. congruence.
  - apply IH. intros x Hx. apply Hno, list_elem_of_further, Hx.
Qed.

Section InsertProperties.
Context `{JsonFloat} `{Pydantic}.

Lemma plain_dicts ings :
  Forall (fun g => plain (JObj g) = true) ings -> plain (JArr (map JObj ings)) = true.
Proof.
  induction 1 as [|g ings Hg Hall IH]; [reflexivity|].
  cbn [plain map forallb] in *. rewrite IH. rewrite andb_true_r. exact Hg.
Qed.

Lemma plain_strs sts : plain (JArr (map JStr sts)) = true.
Proof. induction sts as [|s sts IH]; [reflexivity|]. exact IH. Qed.

Lemma load_embedded_dumps v :
  plain v = true -> load_embedded (SText (json_dumps v)) = v.
Proof.
  intros Hp. rewrite load_embedded_parses. unfold parses.
  destruct (dumps_head v Hp) as (c & r & Hc & _).
  rewrite json_loads_dumps by exact Hp. rewrite Hc. reflexivity.
Qed.

Lemma from_row_inserted i t desc ings sts minutes diff img cats :
  Forall (fun g => plain (JObj g) = true) ings ->
  Forall clean_label (default_or cats []) ->
  from_row (Some (inserted_row i t desc ings sts minutes diff img cats))
  = Ok {| rid := Some i; title := t; description := desc; ingredients := ings;
          steps := sts; time_minutes := minutes; difficulty := diff;
          image_path := img; categories := default_or cats [] |}.
Proof.
  intros Hings Hcats. unfold from_row, inserted_row.
  cbn [col_id col_title col_description col_ingredients_json col_steps_json
       col_time_minutes col_difficulty col_image_path col_categories].
  rewrite !load_embedded_dumps by (apply plain_dicts, Hings || apply plain_strs).
  rewrite validate_dicts, validate_strs. rewrite load_categories_split.
  rewrite split_strip_clean by exact Hcats.
  cbn [sql_int bind].
  assert (sql_int (sql_or (SInt (if minutes =? 0 then 0 else minutes)) (SInt 0)) = Ok minutes)
    as ->.
  { unfold sql_or. simpl. destruct (Z.eqb_spec minutes 0) as [->|Hne]; [reflexivity|].
    simpl. destruct (Z.eqb_spec minutes 0); [contradiction|reflexivity]. }
  cbn [bind]. do 2 f_equal.
  - unfold sql_or. simpl. destruct desc; reflexivity.
  - unfold sql_or. simpl. destruct diff; reflexivity.
  - unfold sql_or. simpl. destruct img; reflexivity.
Qed.

Lemma insert_recipe_inserted lastrowid t desc ings sts minutes diff img cats d :
  Forall (fun g => plain (JObj g) = true) ings ->
  Forall clean_label (default_or cats []) ->
  int64 minutes = true ->
  let row := inserted_row lastrowid t desc ings sts minutes diff img cats in
  let rec := {| rid := Some lastrowid; title := t; description := desc;
                ingredients := ings; steps := sts; time_minutes := minutes;
                difficulty := diff; image_path := img;
                categories := default_or cats [] |} in
  exists d',
    insert_recipe lastrowid t desc ings sts minutes diff img cats d = Ok (lastrowid, d')
    /\ recipes d' = recipes d ++ [row]
    /\ favorites d' = favorites d /\ pantry d' = pantry d /\ grocery d' = grocery d
    /\ from_row (Some row) = Ok rec
    /\ (fresh_id lastrowid d ->
        get_recipe d' lastrowid
        = if int64 lastrowid then Ok (Some rec) else Raise OverflowError).
Proof.
  intros Hings Hcats Hmin row rec.
  unfold insert_recipe. rewrite Hmin. eexists. split; [reflexivity|].
  cbn [recipes favorites pantry grocery].
  pose proof (from_row_inserted lastrowid t desc ings sts minutes diff img cats Hings Hcats)
    as Hrow. fold row rec in Hrow |- *.
  repeat (split; [reflexivity|]). split; [exact Hrow|].
  intros Hfresh. unfold get_recipe. destruct (int64 lastrowid); [|reflexivity].
  cbn [recipes]. rewrite List.filter_app.
  rewrite (filter_no_id lastrowid (recipes d) Hfresh).
  assert (List.filter (fun r => sql_eqb (col_id r) (SInt lastrowid)) [row] = [row]) as ->
    by (simpl; rewrite Z.eqb_refl; reflexivity).
  cbn [app]. rewrite Hrow. reflexivity.
Qed.

(** X16. [insert_recipe] returns the rowid it was assigned, appends
    one row and touches no other table.  When the ingredients hold no
    floating-point numbers, every category is non-empty, stripped and free
    of commas, and the time fits 64 bits, [Recipe.from_row] loads the new
    row back to exactly the recipe that was inserted, under the new id;
    and when no other row has that id, [get_recipe] of it returns that
    recipe (a rowid is a 64-bit integer; a number outside 64 bits would
    not bind, and [get_recipe] of it raises). *)
Theorem insert_recipe_round_trip :
  forall (lastrowid : Z) (t desc : string) (ings : list dict) (sts : list string)
         (minutes : Z) (diff img : string) (cats : option (list string))
         (d : database),
    Forall (fun g => plain (JObj g) = true) ings ->
    Forall clean_label (default_or cats []) ->
    int64 minutes = true ->
    let row := inserted_row lastrowid t desc ings sts minutes diff img cats in
    let rec := {| rid := Some lastrowid; title := t; description := desc;
                  ingredients := ings; steps := sts; time_minutes := minutes;
                  difficulty := diff; image_path := img;
                  categories := default_or cats [] |} in
    exists d',
      insert_recipe lastrowid t desc ings sts minutes diff img cats d = Ok (lastrowid, d')
      /\ recipes d' = recipes d ++ [row]
      /\ favorites d' = favorites d /\ pantry d' = pantry d /\ grocery d' = grocery d
      /\ from_row (Some row) = Ok rec
      /\ (fresh_id lastrowid d ->
          get_recipe d' lastrowid
          = if int64 lastrowid then Ok (Some rec) else Raise OverflowError).
Proof.
  intros lastrowid t desc ings sts minutes diff img cats d.
  apply insert_recipe_inserted.
Qed.

(** X17. Saving an AI idea whose ingredients, categories and time
    satisfy the conditions of the round trip, into a library that lists,
    returns a listing that holds the idea under its new id besides exactly
    the recipes listed before; [get_recipe] of a new id that no other row
    has returns the idea (the id being a rowid, of 64 bits; a number
    outside 64 bits would not bind). *)
Theorem save_ai_idea_adds_one :
  forall (lastrowid : Z) (recipe : Recipe) (d : database) (listed : list Recipe),
    Forall (fun g => plain (JObj g) = true) (ingredients recipe) ->
    Forall clean_label (categories recipe) ->
    int64 (time_minutes recipe) = true ->
    list_recipes d = Ok listed ->
    exists listed' d',
      _save_ai_idea lastrowid recipe d = Ok (listed', d')
      /\ listed' ≡ₚ with_id lastrowid recipe :: listed
      /\ (fresh_id lastrowid d ->
          get_recipe d' lastrowid
          = if int64 lastrowid then Ok (Some (with_id lastrowid recipe))
            else Raise OverflowError).
Proof.
  intros lastrowid recipe d listed Hings Hcats Hmin Hlist.
  destruct (insert_recipe_inserted lastrowid (title recipe) (description recipe)
              (ingredients recipe) (steps recipe) (time_minutes recipe)
              (difficulty recipe) (image_path recipe) (Some (categories recipe)) d
              Hings Hcats Hmin)
    as (d' & Hins & Hrows & _ & _ & _ & Hrow & Hget).
  cbn [default_or] in Hrow, Hget. fold (with_id lastrowid recipe) in Hrow, Hget.
  unfold _save_ai_idea. rewrite Hins. cbn [bind snd].
  unfold list_recipes in Hlist |- *. apply rows_to_recipes_inv in Hlist as [Hload ->].
  rewrite sort_by_perm in Hload.
  assert (Forall (fun r => succeeded (from_row (Some r)) = true) (recipes d')) as Hload'.
  { rewrite Hrows. apply Forall_app. split; [exact Hload|].
    constructor; [rewrite Hrow; reflexivity|constructor]. }
  rewrite map_outcome_loaded by (rewrite sort_by_perm; exact Hload').
  cbn [bind]. eexists _, _. split; [reflexivity|]. split; [|exact Hget].
  rewrite (fmap_Permutation loaded _ _ (sort_by_perm title_le (recipes d'))).
  rewrite (fmap_Permutation loaded _ _ (sort_by_perm title_le (recipes d))).
  rewrite Hrows. change (loaded <$> ?l) with (map loaded l). rewrite map_app. simpl.
  unfold loaded at 2. rewrite Hrow.
  rewrite Permutation_app_comm. reflexivity.
Qed.
End InsertProperties.

(** ** The ideas of the service on the page *)

Section OnResultProperties.
Context `{PyFloat} `{Pydantic}.

Lemma idea_recipe_normalised i : idea_recipe (idea_json i) = Ok (idea_to_recipe i).
Proof.
  unfold idea_recipe, idea_json. cbn [py_get bind].
  change (dict_get_default "title" _ _) with (JStr (idea_title i)).
  change (dict_get_default "description" _ _) with (JStr (idea_description i)).
  change (dict_get_default "ingredients" _ _)
    with (JArr (map (fun nq => JObj (ingredient_json nq)) (idea_ingredients i))).
  change (dict_get_default "steps" _ _) with (JArr (map JStr (idea_steps i))).
  change (dict_get_default "time_minutes" _ _) with (JInt (idea_time_minutes i)).
  change (dict_get_default "difficulty" _ _) with (JStr (idea_difficulty i)).
  change (dict_get_default "categories" _ _) with (JArr (map JStr (idea_categories i))).
  assert (py_int (py_or (JInt (idea_time_minutes i)) (JInt 0)) = Ok (idea_time_minutes i))
    as ->.
  { unfold py_or. simpl. destruct (Z.eqb_spec (idea_time_minutes i) 0) as [->|];
      reflexivity. }
  cbn [bind]. rewrite !coerce_str_str. cbn [of_option bind].
  rewrite <- (map_map ingredient_json JObj), validate_dicts, !validate_strs.
  reflexivity.
Qed.

Lemma ideas_to_recipes_normalised l : forall acc,
  ideas_to_recipes (map idea_json l) acc = acc ++ map idea_to_recipe l.
Proof.
  induction l as [|i l IH]; intros acc; cbn [map ideas_to_recipes].
  - rewrite app_nil_r. reflexivity.
  - rewrite idea_recipe_normalised, IH, <- app_assoc. reflexivity.
Qed.

(** X18. On the dict that [suggest_from_ingredients] returns,
    [on_result] turns every idea into a recipe (none is dropped by the
    model validation) and shows them with the catalogue matches.  When
    there is neither a match nor an idea it shows the local matches, or,
    when there are none either, the message that nothing was found: the
    dict has no key [raw], so the branch that shows free text of the
    service as a recipe "AI Suggestion" is never taken. *)
Theorem on_result_of_suggestions :
  forall (s : suggestions) (recipes : list Recipe) (ings : list string)
         (d : database) (matched : list Recipe),
    find_recipes_by_titles d (match_titles s) = Ok matched ->
    on_result recipes ings d (suggestions_json s)
    = Ok (match matched, ideas s with
          | [], [] =>
              match local_matches ings recipes with
              | [] => {| shown_items := recipes; shown_matches := [];
                         shown_ideas := []; shown_notice := Some NoSuggestionsFound |}
              | local => {| shown_items := recipes; shown_matches := local;
                            shown_ideas := []; shown_notice := Some LocalMatchesShown |}
              end
          | _, _ => {| shown_items := recipes; shown_matches := matched;
                       shown_ideas := map idea_to_recipe (ideas s);
                       shown_notice := None |}
          end).
Proof.
  intros s recipes ings d matched Hm. unfold on_result, suggestions_json.
  cbn [py_get bind].
  change (dict_get_default "match_titles" _ _) with (JArr (map JStr (match_titles s))).
  change (dict_get_default "ideas" _ _) with (JArr (map idea_json (ideas s))).
  change (dict_get_default "raw" _ _) with (JStr "").
  cbn [py_iter bind]. rewrite map_map. cbn [py_str]. rewrite map_id, Hm. cbn [bind].
  rewrite ideas_to_recipes_normalised. cbn [app].
  destruct matched as [|m matched]; [|destruct (ideas s); reflexivity].
  destruct (ideas s) as [|i l]; [|reflexivity]. cbn [map].
  destruct (local_matches ings recipes); reflexivity.
Qed.
End OnResultProperties.

(** ** The terms of a suggestion request *)

Lemma join_cons_cons sep x y l : join sep (x :: y :: l) = x +:+ sep +:+ join sep (y :: l).
Proof. reflexivity. Qed.

Lemma join_comma_padded y r :
  join "," (String " " y :: r) = String " " (join "," (y :: r)).
Proof. destruct r; reflexivity. Qed.

Lemma join_comma_space x r :
  join ", " (x :: r) = join "," (x :: map (String " ") r).
Proof.
  revert x. induction r as [|y r IH]; intros x; [reflexivity|].
  cbn [map]. rewrite !join_cons_cons, join_comma_padded, <- IH. reflexivity.
Qed.

Lemma clean_label_head c :
  clean_label c ->
  no_lead_space c /\ exists z, last_char c = Some z /\ isspace z = false.
Proof.
  intros (Hne & Hs & _). unfold stripped in Hs. split.
  - rewrite <- Hs. apply rstrip_no_lead_space, lstrip_no_lead_space.
  - destruct (last_char c) as [z|] eqn:El.
    + exists z. split; [reflexivity|]. rewrite <- Hs in El. unfold strip in El.
      eapply rstrip_last, El.
    + destruct c; [congruence|]. simpl in El. destruct (last_char c); discriminate.
Qed.

Lemma last_default_irrel {A} (l : list A) a x y :
  List.last (a :: l) x = List.last (a :: l) y.
Proof.
  revert a. induction l as [|b l IH]; intros a; [reflexivity|].
  change (List.last (b :: l) x = List.last (b :: l) y). apply IH.
Qed.

Lemma join_last sep l x :
  sep <> EmptyString -> Forall (fun c => c <> EmptyString) (x :: l) ->
  last_char (join sep (x :: l)) = last_char (List.last l x).
Proof.
  intros Hsep. revert x. induction l as [|y l IH]; intros x Hall; [reflexivity|].
  apply Forall_cons in Hall as [Hx Hall]. rewrite join_cons_cons.
  assert (join sep (y :: l) <> EmptyString) as Hj.
  { destruct l; [apply Forall_cons in Hall as [Hy _]; exact Hy|].
    rewrite join_cons_cons. apply Forall_cons in Hall as [Hy _]. apply app_ne_l, Hy. }
  rewrite last_char_app by (apply app_ne_r, Hj).
  rewrite last_char_app by exact Hj. rewrite IH by exact Hall.
  destruct l as [|a l]; [reflexivity|].
  change (List.last (y :: a :: l) x) with (List.last (a :: l) x).
  f_equal. apply last_default_irrel.
Qed.

Lemma stripped_join l : Forall clean_label l -> stripped (join ", " l).
Proof.
  intros Hall. destruct l as [|x l]; [reflexivity|].
  assert (Forall (fun c => c <> EmptyString) (x :: l)) as Hne
    by (eapply Forall_impl; [exact Hall|]; intros c (Hc & _); exact Hc).
  assert (clean_label (List.last l x)) as Hlast.
  { rewrite Forall_forall in Hall. apply Hall. apply list_elem_of_In.
    destruct l as [|y l]; [left; reflexivity|].
    change (In (List.last (y :: l) x) (x :: y :: l)). right.
    destruct (exists_last (l := y :: l) ltac:(discriminate)) as (l' & a & E).
    rewrite E, last_last. apply in_or_app. right. left. reflexivity. }
  apply clean_label_head in Hlast as (_ & z & Hz & Hzs).
  pose proof Hall as Hx. apply Forall_cons in Hx as [Hx _].
  pose proof (clean_label_head x Hx) as (Hlead & _). destruct Hx as (Hxne & _).
  unfold stripped, strip. rewrite lstrip_fixed.
  - eapply rstrip_fixed; [|exact Hzs]. rewrite join_last by (discriminate || exact Hne).
    exact Hz.
  - destruct l; [exact Hlead|]. rewrite join_cons_cons. apply no_lead_space_app; assumption.
Qed.

Lemma no_comma_padded l :
  Forall clean_label l -> Forall (fun p => no_comma p = true) (map (String " ") l).
Proof.
  intros Hall. apply Forall_fmap. eapply Forall_impl; [exact Hall|].
  intros c (_ & _ & Hc). exact Hc.
Qed.

Lemma strip_padded c : clean_label c -> strip (String " " c) = c.
Proof.
  intros (_ & Hs & _). unfold strip. change (lstrip (String " " c)) with (lstrip c).
  exact Hs.
Qed.

(** X19. The ingredient terms [_on_suggest] takes from the text box
    are non-empty, stripped and free of commas; a blank text gives none
    (and no request is made); and terms typed with a comma and a space
    between them are read back as they are. *)
Theorem suggest_terms_clean :
  forall raw : string,
    Forall clean_label (suggest_terms raw)
    /\ (all_space raw = true -> suggest_terms raw = [])
    /\ (forall l, Forall clean_label l -> suggest_terms (join ", " l) = l).
Proof.
  intros raw. unfold suggest_terms. split; [apply split_strip_clean_labels|]. split.
  - intros Hraw. unfold strip. rewrite lstrip_all_space by exact Hraw. reflexivity.
  - intros l Hall. rewrite stripped_join by exact Hall.
    destruct l as [|x l]; [reflexivity|].
    rewrite join_comma_space.
    apply Forall_cons in Hall as [Hx Hall].
    rewrite split_strip_join.
    + cbn [map List.filter]. destruct Hx as (Hxne & Hxs & _). rewrite Hxs.
      destruct x; [congruence|]. cbn [str_empty negb]. f_equal.
      induction Hall as [|c l Hc Hall IH]; [reflexivity|].
      cbn [map List.filter]. rewrite strip_padded by exact Hc.
      destruct Hc as (Hcne & _). destruct c; [congruence|]. cbn [str_empty negb].
      rewrite IH. reflexivity.
    + constructor; [apply Hx|apply no_comma_padded, Hall].
Qed.

(** ** The lines of a substitution answer *)

Lemma splitlines_no_break_bounded n : forall s,
  (String.length s <= n)%nat ->
  Forall (fun l => all_chars (fun c => negb (is_linebreak c)) l = true) (splitlines s).
Proof.
  induction n as [|n IH]; intros [|c s] Hlen; simpl in Hlen; try lia; try constructor.
  cbn [splitlines]. destruct (is_linebreak c) eqn:Ec.
  - constructor; [reflexivity|].
    destruct (Ascii.eqb c carriage_return); [|apply IH; lia].
    destruct s as [|c2 s]; [constructor|].
    destruct (Ascii.eqb c2 newline); apply IH; simpl in *; lia.
  - assert (Forall (fun l => all_chars (fun c => negb (is_linebreak c)) l = true)
                   (splitlines s)) as Hs by (apply IH; lia).
    destruct (splitlines s) as [|line rest].
    + repeat constructor. simpl. rewrite Ec. reflexivity.
    + apply Forall_cons in Hs as [Hl Hrest]. constructor; [|exact Hrest].
      simpl. rewrite Ec, Hl. reflexivity.
Qed.

Lemma all_chars_lstrip_chars p cs s :
  all_chars p s = true -> all_chars p (lstrip_chars cs s) = true.
Proof.
  induction s as [|c s IH]; [reflexivity|]. intros Hs. simpl.
  destruct (in_chars cs c); [|exact Hs]. simpl in Hs. apply andb_prop in Hs as [_ Hs].
  apply IH, Hs.
Qed.

Lemma all_chars_rstrip_chars p cs s :
  all_chars p s = true -> all_chars p (rstrip_chars cs s) = true.
Proof.
  induction s as [|c s IH]; [reflexivity|]. intros Hs. simpl in Hs |- *.
  apply andb_prop in Hs as [Hc Hs].
  destruct (in_chars cs c && str_empty (rstrip_chars cs s)); [reflexivity|].
  simpl. rewrite Hc, IH by exact Hs. reflexivity.
Qed.

Lemma first_char_lstrip_chars cs s : outside cs (first_char (lstrip_chars cs s)).
Proof.
  induction s as [|c s IH]; [exact I|]. simpl.
  destruct (in_chars cs c) eqn:E; [exact IH|exact E].
Qed.

Lemma first_char_rstrip_chars cs s :
  outside cs (first_char s) -> outside cs (first_char (rstrip_chars cs s)).
Proof.
  destruct s as [|c s]; [intros; exact I|]. simpl. intros Hc. rewrite Hc. exact Hc.
Qed.

Lemma last_char_rstrip_chars cs s : outside cs (last_char (rstrip_chars cs s)).
Proof.
  induction s as [|c s IH]; [exact I|]. simpl.
  destruct (in_chars cs c) eqn:Ec; simpl.
  - destruct (rstrip_chars cs s) as [|d r] eqn:Er; [exact I|]. simpl in IH |- *.
    destruct (last_char r); exact IH.
  - destruct (rstrip_chars cs s) as [|d r] eqn:Er; [exact Ec|]. simpl in IH |- *.
    destruct (last_char r); exact IH.
Qed.

(** X20. [substitutions_for_recipe] returns at most 20 lines of the
    response; each contains a letter, neither starts nor ends with a
    space, a hyphen, an asterisk or a TAB, and contains no line
    boundary. *)
Theorem substitution_lines_clean :
  forall text : string,
    (length (substitution_lines text) <= 20)%nat
    /\ Forall (fun l => any_char isalpha l = true
                        /\ outside bullet_chars (first_char l)
                        /\ outside bullet_chars (last_char l)
                        /\ all_chars (fun c => negb (is_linebreak c)) l = true)
              (substitution_lines text).
Proof.
  intros text. unfold substitution_lines. split; [apply firstn_le_length|].
  apply Forall_take, Forall_forall. intros l Hl.
  apply elem_of_list_filter in Hl as [Hl Halpha].
  apply list_elem_of_fmap in Hl as (raw & -> & Hraw).
  apply elem_of_list_filter in Hraw as [Hraw _].
  pose proof (splitlines_no_break_bounded _ text (le_n _)) as Hnb.
  rewrite Forall_forall in Hnb. specialize (Hnb raw Hraw).
  split; [exact Halpha|]. split; [|split].
  - apply first_char_rstrip_chars, first_char_lstrip_chars.
  - apply last_char_rstrip_chars.
  - apply all_chars_rstrip_chars, all_chars_lstrip_chars, Hnb.
Qed.

(** ** The ingredient list of the prompt *)

Lemma elem_of_ingredient_set l x :
  x ∈ ingredient_set l <-> x <> EmptyString /\ exists i, i ∈ l /\ strip i = x.
Proof.
  unfold ingredient_set. rewrite elem_of_list_to_set, list_elem_of_fmap. split.
  - intros (i & -> & Hi). apply elem_of_list_filter in Hi as [Hi Hne]. split; [|eauto].
    intros E. rewrite E in Hne. discriminate.
  - intros (Hne & i & Hi & <-). exists i. split; [reflexivity|].
    apply elem_of_list_filter. split; [exact Hi|].
    destruct (strip i); [congruence|reflexivity].
Qed.

Lemma sorted_enumeration_unique (e1 e2 : list string) :
  NoDup e1 -> NoDup e2 -> (forall x, x ∈ e1 <-> x ∈ e2) ->
  sort_by String.leb e1 = sort_by String.leb e2.
Proof.
  intros H1 H2 Hiff.
  apply (StronglySorted_unique_strong (fun a b => String.leb a b = true)).
  - intros a b _ _. apply String.leb_antisym.
  - apply sort_by_strongly_sorted; [apply String.leb_total|apply leb_string_trans].
  - apply sort_by_strongly_sorted; [apply String.leb_total|apply leb_string_trans].
  - rewrite !sort_by_perm. apply NoDup_Permutation; assumption.
Qed.

(** X21. The ingredient list of the prompt holds the stripped,
    non-blank ingredients, each once, in ascending order; it is the same
    for every order in which the set yields its elements, and so the same
    for inputs that name the same ingredients in another order or more
    than once. *)
Theorem ingredient_list_canonical :
  forall ingredients : list string,
    StronglySorted (fun a b => String.leb a b = true /\ a <> b)
                   (ingredient_terms ingredients)
    /\ (forall x, x ∈ ingredient_terms ingredients
                  <-> x <> EmptyString /\ exists i, i ∈ ingredients /\ strip i = x)
    /\ (forall e, NoDup e -> (forall x, x ∈ e <-> x ∈ ingredient_set ingredients) ->
                  join ", " (sort_by String.leb e) = ingredient_list ingredients)
    /\ (forall other, (forall i, i ∈ ingredients <-> i ∈ other) ->
                      ingredient_list other = ingredient_list ingredients).
Proof.
  intros l. unfold ingredient_list, ingredient_terms.
  assert (NoDup (sort_by String.leb (elements (ingredient_set l)))) as Hnd.
  { rewrite sort_by_perm. apply NoDup_elements. }
  split; [|split; [|split]].
  - assert (StronglySorted (fun a b => String.leb a b = true)
                           (sort_by String.leb (elements (ingredient_set l)))) as Hs
      by (apply sort_by_strongly_sorted; [apply String.leb_total|apply leb_string_trans]).
    revert Hnd Hs. generalize (sort_by String.leb (elements (ingredient_set l))) as k.
    induction k as [|a k IH]; intros Hnd Hs; [constructor|].
    apply NoDup_cons in Hnd as [Ha Hnd]. apply StronglySorted_inv in Hs as [Hs Hall].
    constructor; [apply IH; assumption|].
    rewrite Forall_forall in Hall |- *. intros b Hb. split; [apply Hall, Hb|].
    intros ->. contradiction.
  - intros x. rewrite elem_of_sort_by, elem_of_elements. apply elem_of_ingredient_set.
  - intros e He Hiff. f_equal. apply sorted_enumeration_unique.
    + exact He.
    + apply NoDup_elements.
    + intros x. rewrite elem_of_elements. apply Hiff.
  - intros other Hiff. f_equal. apply sorted_enumeration_unique.
    + apply NoDup_elements.
    + apply NoDup_elements.
    + intros x. rewrite !elem_of_elements, !elem_of_ingredient_set.
      split; intros (Hne & i & Hi & Hs); (split; [exact Hne|]); exists i;
        (split; [apply Hiff, Hi|exact Hs]).
Qed.

(** ** The cooking guide *)

Lemma list_index_in_range {A} (l : list A) i :
  0 <= i < Z.of_nat (length l) -> list_index l i = l !! Z.to_nat i.
Proof.
  intros Hi. unfold list_index.
  destruct (Z.leb_spec 0 i); [|lia]. destruct (Z.ltb_spec i (Z.of_nat (length l))); [|lia].
  reflexivity.
Qed.

Lemma list_case_nonempty {A B} (l : list A) (a b : B) :
  l <> [] -> match l with [] => a | _ :: _ => b end = b.
Proof. destruct l; [congruence|reflexivity]. Qed.

Lemma steps_total r : steps r <> [] -> 0 < Z.of_nat (length (steps r)).
Proof. destruct (steps r); [congruence|]. simpl. lia. Qed.

Lemma render_step_shows r w :
  cooking_recipe w = Some r -> steps r <> [] ->
  exists w',
    _render_step w = Some w'
    /\ shows_step r w'
    /\ step_index w' = Z.max 0 (Z.min (step_index w) (Z.of_nat (length (steps r)) - 1))
    /\ gemini_set w' = gemini_set w /\ title_lbl w' = title_lbl w.
Proof.
  intros Hr Hne. unfold _render_step. rewrite Hr.
  rewrite list_case_nonempty by exact Hne.
  pose proof (steps_total r Hne) as Htot.
  set (total := Z.of_nat (length (steps r))) in *.
  set (i := Z.max 0 (Z.min (step_index w) (total - 1))).
  assert (0 <= i < total) as Hi by (unfold i; lia).
  rewrite list_index_in_range by exact Hi.
  destruct (lookup_lt_is_Some_2 (steps r) (Z.to_nat i)) as [text Ht]; [unfold total in Hi; lia|].
  rewrite Ht. eexists. split; [reflexivity|]. split; [|auto].
  unfold shows_step. cbn. fold total. auto 10.
Qed.

Lemma render_step_fixed r w : shows_step r w -> _render_step w = Some w.
Proof.
  intros (Hr & Hi & Ht & Hm & Hp & Hn & Htip).
  cbv zeta in Hi, Hm, Hn.
  assert (steps r <> []) as Hne by (intros E; rewrite E in Hi; simpl in Hi; lia).
  unfold _render_step. rewrite Hr. rewrite list_case_nonempty by exact Hne.
  replace (Z.max 0 (Z.min (step_index w) (Z.of_nat (length (steps r)) - 1)))
    with (step_index w) by lia.
  rewrite list_index_in_range by exact Hi. rewrite Ht.
  destruct w; cbn in *. subst. reflexivity.
Qed.

Lemma render_step_no_steps w :
  (forall r, cooking_recipe w = Some r -> steps r = []) ->
  exists w', _render_step w = Some w' /\ cooking_recipe w' = cooking_recipe w
             /\ gemini_set w' = gemini_set w.
Proof.
  intros Hno. unfold _render_step. destruct (cooking_recipe w) as [r|] eqn:Er.
  - rewrite (Hno r eq_refl). eexists. split; [reflexivity|]. cbn. auto.
  - eexists. split; [reflexivity|]. cbn. auto.
Qed.

Lemma do_click_shows r c w :
  shows_step r w -> steps r <> [] ->
  exists w',
    do_click c w = Some w' /\ shows_step r w'
    /\ gemini_set w' = gemini_set w /\ title_lbl w' = title_lbl w
    /\ step_index w'
       = match c with
         | ClickPrev => Z.max 0 (step_index w - 1)
         | ClickNext => Z.min (step_index w + 1) (Z.of_nat (length (steps r)) - 1)
         end.
Proof.
  intros (Hr & Hi & _) Hne. cbv zeta in Hi.
  destruct c; unfold do_click, _prev, _next.
  - destruct (render_step_shows r (with_step w (step_index w - 1)) Hr Hne)
      as (w' & Hw' & Hs & Hidx & Hg & Ht).
    exists w'. repeat (split; [assumption|]). rewrite Hidx. cbn. lia.
  - destruct (render_step_shows r (with_step w (step_index w + 1)) Hr Hne)
      as (w' & Hw' & Hs & Hidx & Hg & Ht).
    exists w'. repeat (split; [assumption|]). rewrite Hidx. cbn. lia.
Qed.

Lemma do_clicks_shows r cs : forall w,
  shows_step r w -> steps r <> [] ->
  exists w', do_clicks cs w = Some w' /\ shows_step r w'
             /\ gemini_set w' = gemini_set w /\ title_lbl w' = title_lbl w.
Proof.
  induction cs as [|c cs IH]; intros w Hs Hne; [eauto|]. cbn [do_clicks].
  destruct (do_click_shows r c w Hs Hne) as (w1 & -> & Hs1 & Hg1 & Ht1 & _).
  destruct (IH w1 Hs1 Hne) as (w' & Hw' & Hs' & Hg' & Ht').
  exists w'. rewrite Hg', Ht'. auto.
Qed.

Lemma do_clicks_no_steps cs : forall w,
  (forall r, cooking_recipe w = Some r -> steps r = []) ->
  exists w', do_clicks cs w = Some w' /\ cooking_recipe w' = cooking_recipe w
             /\ gemini_set w' = gemini_set w.
Proof.
  induction cs as [|c cs IH]; intros w Hno; [eauto|]. cbn [do_clicks].
  assert (exists w1, do_click c w = Some w1 /\ cooking_recipe w1 = cooking_recipe w
                     /\ gemini_set w1 = gemini_set w) as (w1 & -> & Hr1 & Hg1).
  { destruct c; unfold do_click, _prev, _next.
    - destruct (render_step_no_steps (with_step w (step_index w - 1)) Hno) as (w1 & ? & ? & ?).
      exists w1. auto.
    - destruct (render_step_no_steps (with_step w (step_index w + 1)) Hno) as (w1 & ? & ? & ?).
      exists w1. auto. }
  destruct (IH w1) as (w' & Hw' & Hr' & Hg'); [rewrite Hr1; exact Hno|].
  exists w'. rewrite Hr', Hg'. auto.
Qed.

(** X22. After a recipe is set, no run of Previous and Next clicks
    makes the guide raise.  For a recipe with steps the step index stays
    in range, the step shown is the one under the index, each button is
    enabled exactly when there is a step on its side, a click at either
    end leaves the guide as it is, and the tip request names the step
    shown; the step lookup of [_ask_tip] never fails. *)
Theorem cooking_guide_in_range :
  forall (r : Recipe) (w0 : CookingWidget) (cs : list click),
    exists w1 w,
      set_recipe r w0 = Some w1
      /\ do_clicks cs w1 = Some w
      /\ (exists request, _ask_tip w = Some request)
      /\ (steps r = [] -> _ask_tip w = Some None)
      /\ (steps r <> [] ->
          shows_step r w
          /\ (step_index w = 0 -> do_click ClickPrev w = Some w)
          /\ (step_index w = Z.of_nat (length (steps r)) - 1 ->
              do_click ClickNext w = Some w)
          /\ (gemini_set w0 = true ->
              _ask_tip w
              = Some (Some (tip_question,
                            "Recipe: " +:+ title r
                              +:+ String newline ("Current Step: " +:+ step_text w))))).
Proof.
  intros r w0 cs. unfold set_recipe.
  set (w00 := {| gemini_set := gemini_set w0; cooking_recipe := Some r; step_index := 0;
                 title_lbl := "Cooking: " +:+ title r; step_meta := step_meta w0;
                 step_text := step_text w0; prev_enabled := prev_enabled w0;
                 next_enabled := next_enabled w0; tip_enabled := tip_enabled w0 |}).
  destruct (decide (steps r = [])) as [Es|Hne].
  - assert (forall r', cooking_recipe w00 = Some r' -> steps r' = []) as Hno
      by (intros r' [= <-]; exact Es).
    destruct (render_step_no_steps w00 Hno) as (w1 & Hw1 & Hr1 & Hg1).
    destruct (do_clicks_no_steps cs w1) as (w & Hw & Hr & Hg); [rewrite Hr1; exact Hno|].
    exists w1, w. split; [exact Hw1|]. split; [exact Hw|].
    assert (_ask_tip w = Some None) as Htip.
    { unfold _ask_tip. destruct (negb (gemini_set w)); [reflexivity|].
      rewrite Hr, Hr1. cbn. rewrite Es. reflexivity. }
    split; [eauto|]. split; [intros _; exact Htip|]. congruence.
  - destruct (render_step_shows r w00 eq_refl Hne) as (w1 & Hw1 & Hs1 & _ & Hg1 & _).
    destruct (do_clicks_shows r cs w1 Hs1 Hne) as (w & Hw & Hs & Hg & _).
    exists w1, w. split; [exact Hw1|]. split; [exact Hw|].
    assert (_ask_tip w
            = if negb (gemini_set w) then Some None
              else Some (Some (tip_question,
                               "Recipe: " +:+ title r
                                 +:+ String newline ("Current Step: " +:+ step_text w))))
      as Htip.
    { destruct Hs as (Hr & Hi & Ht & _). cbv zeta in Hi. unfold _ask_tip.
      destruct (negb (gemini_set w)); [reflexivity|]. rewrite Hr.
      rewrite list_case_nonempty by exact Hne.
      rewrite list_index_in_range by exact Hi. rewrite Ht. reflexivity. }
    split; [rewrite Htip; destruct (negb (gemini_set w)); eauto|].
    split; [intros E; contradiction|]. intros _. split; [exact Hs|].
    pose proof (render_step_fixed r w Hs) as Hfix.
    pose proof Hs as (Hr & Hi & _). cbv zeta in Hi.
    split; [|split].
    + intros H0. unfold do_click, _prev. transitivity (_render_step w); [|exact Hfix].
      unfold _render_step. cbn [cooking_recipe with_step step_index gemini_set title_lbl].
      rewrite Hr. rewrite !list_case_nonempty by exact Hne.
      replace (Z.max 0 (Z.min (step_index w - 1) (Z.of_nat (length (steps r)) - 1)))
        with (Z.max 0 (Z.min (step_index w) (Z.of_nat (length (steps r)) - 1))) by lia.
      reflexivity.
    + intros Hlast. unfold do_click, _next. transitivity (_render_step w); [|exact Hfix].
      unfold _render_step. cbn [cooking_recipe with_step step_index gemini_set title_lbl].
      rewrite Hr. rewrite !list_case_nonempty by exact Hne.
      replace (Z.max 0 (Z.min (step_index w + 1) (Z.of_nat (length (steps r)) - 1)))
        with (Z.max 0 (Z.min (step_index w) (Z.of_nat (length (steps r)) - 1))) by lia.
      reflexivity.
    + intros Hgem. rewrite Htip, Hg, Hg1. cbn. rewrite Hgem. reflexivity.
Qed.

(** ** Retries and the free-text fallback *)

Section GenerateJsonProperties.
Variable model_constructs : string -> bool.
Variable respond : nat -> string -> bool -> api_result.
Variable decode_message : string -> string.

Lemma try_switch_model_spec st ok st' :
  _try_switch_model model_constructs st = (ok, st') ->
  requests st' = requests st
  /\ (if ok
      then model_name st' ∈ _FALLBACK_MODELS
           /\ model_name st' <> model_name st
           /\ model_constructs (model_name st') = true
      else st' = st).
Proof.
  unfold _try_switch_model.
  destruct (List.find _ _FALLBACK_MODELS) as [name|] eqn:Ef; intros [= <- <-].
  - split; [reflexivity|]. apply find_some in Ef as [Hin Hp]. cbn.
    apply andb_prop in Hp as [Hne Hc]. apply negb_true_iff, String.eqb_neq in Hne.
    split; [apply list_elem_of_In, Hin|]. split; [exact Hne|exact Hc].
  - split; reflexivity.
Qed.

Lemma request_json_call_spec st res st' :
  request_json_call respond decode_message st = (res, st') ->
  st' = after_request st
  /\ match res with
     | inr v => exists t, respond (requests st) (model_name st) true = ApiText t
                          /\ request_json t = Ok v
     | inl m => respond (requests st) (model_name st) true = ApiError m
                \/ exists t e, respond (requests st) (model_name st) true = ApiText t
                               /\ request_json t = Raise e /\ m = decode_message t
     end.
Proof.
  unfold request_json_call.
  destruct (respond (requests st) (model_name st) true) as [t|m] eqn:Er.
  - destruct (request_json t) as [v|e] eqn:Ej; intros [= <- <-]; split; eauto 10.
  - intros [= <- <-]. split; [reflexivity|]. left. reflexivity.
Qed.

Lemma plain_text_call_spec key st res st' :
  plain_text_call respond key st = (res, st') ->
  st' = after_request st
  /\ match res with
     | inr v => exists t, respond (requests st) (model_name st) false = ApiText t
                          /\ v = JObj [(key, JStr t)]
     | inl m => respond (requests st) (model_name st) false = ApiError m
     end.
Proof.
  unfold plain_text_call.
  destruct (respond (requests st) (model_name st) false) as [t|m] eqn:Er;
    intros [= <- <-]; split; eauto.
Qed.

(** X23. [_generate_json] makes between one and three requests and
    switches the model at most once, to a fallback other than the current
    model that constructs.  What it returns is the value the parse ladder
    found in the response of a JSON request, or the text of the final
    plain request under the fallback key; the only exception that leaves
    it is the one raised by that final plain request, so neither a decode
    error nor the error of a JSON request reaches the caller.  When the
    first response parses, that is the result, after one request and
    without a switch. *)
Theorem generate_json_outcomes :
  forall (key : string) (st : service),
    let res := (_generate_json model_constructs respond decode_message key st).1 in
    let st' := (_generate_json model_constructs respond decode_message key st).2 in
    (requests st < requests st' <= requests st + 3)%nat
    /\ (model_name st' = model_name st
        \/ (model_name st' ∈ _FALLBACK_MODELS
            /\ model_name st' <> model_name st
            /\ model_constructs (model_name st') = true))
    /\ match res with
       | inr v =>
           (exists n t, (requests st <= n < requests st')%nat
                        /\ respond n (model_name st') true = ApiText t
                        /\ request_json t = Ok v)
           \/ (exists t, respond (requests st' - 1) (model_name st') false = ApiText t
                         /\ v = JObj [(key, JStr t)])
       | inl m => respond (requests st' - 1) (model_name st') false = ApiError m
       end
    /\ (forall t v, respond (requests st) (model_name st) true = ApiText t ->
                    request_json t = Ok v ->
                    res = inr v /\ st' = after_request st).
Proof.
  intros key st res st'. subst res st'. unfold _generate_json.
  destruct (request_json_call respond decode_message st) as [r1 st1] eqn:E1.
  apply request_json_call_spec in E1 as [-> H1].
  assert (forall st0 : service, (requests (after_request st0) - 1)%nat = requests st0) as Hpred
    by (intros st0; cbn; lia).
  assert (forall stp r sp,
            plain_text_call respond key stp = (r, sp) ->
            (requests st < requests stp <= requests st + 2)%nat ->
            (model_name stp = model_name st
             \/ (model_name stp ∈ _FALLBACK_MODELS
                 /\ model_name stp <> model_name st
                 /\ model_constructs (model_name stp) = true)) ->
            (requests st < requests sp <= requests st + 3)%nat
            /\ (model_name sp = model_name st
                \/ (model_name sp ∈ _FALLBACK_MODELS
                    /\ model_name sp <> model_name st
                    /\ model_constructs (model_name sp) = true))
            /\ match r with
               | inr v =>
                   (exists n t, (requests st <= n < requests sp)%nat
                                /\ respond n (model_name sp) true = ApiText t
                                /\ request_json t = Ok v)
                   \/ (exists t, respond (requests sp - 1) (model_name sp) false = ApiText t
                                 /\ v = JObj [(key, JStr t)])
               | inl m => respond (requests sp - 1) (model_name sp) false = ApiError m
               end) as Hplain.
  { intros stp r sp Hp Hreq Hmod. apply plain_text_call_spec in Hp as [-> Hr].
    rewrite Hpred. cbn [after_request requests model_name].
    split; [lia|]. split; [exact Hmod|]. destruct r as [m|v]; [exact Hr|].
    right. destruct Hr as (t & Ht & ->). eauto. }
  destruct r1 as [e|v].
  - assert ((forall t v, respond (requests st) (model_name st) true = ApiText t ->
                         request_json t = Ok v -> False)) as Hfirst.
    { intros t v Ht Hv. destruct H1 as [H1|(t' & e' & Ht' & He' & _)]; congruence. }
    destruct (_is_not_found e).
    + destruct (_try_switch_model model_constructs (after_request st)) as [ok st2] eqn:E2.
      apply try_switch_model_spec in E2 as [Hreq2 Hsw].
      cbn [after_request requests model_name] in Hreq2, Hsw.
      destruct ok.
      * destruct Hsw as (Hin & Hne & Hcon).
        destruct (request_json_call respond decode_message st2) as [r3 st3] eqn:E3.
        apply request_json_call_spec in E3 as [-> H3].
        destruct r3 as [e3|v3].
        -- destruct (plain_text_call respond key (after_request st2)) as [r sp] eqn:Ep.
           cbn [fst snd].
           destruct (Hplain _ _ _ Ep) as (Ha & Hb & Hc).
           { cbn. lia. }
           { right. cbn. auto. }
           split; [exact Ha|]. split; [exact Hb|]. split; [exact Hc|].
           intros t v Ht Hv. destruct (Hfirst t v Ht Hv).
        -- cbn [fst snd after_request requests model_name].
           split; [lia|]. split; [right; auto|]. split.
           ++ left. destruct H3 as (t & Ht & Hv). exists (requests st2), t.
              split; [lia|]. auto.
           ++ intros t v Ht Hv. destruct (Hfirst t v Ht Hv).
      * subst st2.
        destruct (plain_text_call respond key (after_request st)) as [r sp] eqn:Ep.
        cbn [fst snd].
        destruct (Hplain _ _ _ Ep) as (Ha & Hb & Hc).
        { cbn. lia. }
        { left. reflexivity. }
        split; [exact Ha|]. split; [exact Hb|]. split; [exact Hc|].
        intros t v Ht Hv. destruct (Hfirst t v Ht Hv).
    + destruct (plain_text_call respond key (after_request st)) as [r sp] eqn:Ep.
      cbn [fst snd].
      destruct (Hplain _ _ _ Ep) as (Ha & Hb & Hc).
      { cbn. lia. }
      { left. reflexivity. }
      split; [exact Ha|]. split; [exact Hb|]. split; [exact Hc|].
      intros t v Ht Hv. destruct (Hfirst t v Ht Hv).
  - cbn [fst snd after_request requests model_name].
    split; [lia|]. split; [left; reflexivity|]. split.
    + left. destruct H1 as (t & Ht & Hv). exists (requests st), t. split; [lia|]. auto.
    + intros t v' Ht Hv. destruct H1 as (t' & Ht' & Hv').
      rewrite Ht in Ht'. injection Ht' as <-. rewrite Hv in Hv'. injection Hv' as <-.
      split; reflexivity.
Qed.
End GenerateJsonProperties.

Section FreeTextProperties.
Context `{PyFloat} `{Pydantic}.

(** X24. When the service's answer arrives as free text under the
    fallback key [raw], [suggest_from_ingredients] returns no title, no
    idea and no substitution, and does not pass the text on; [on_result]
    then shows the local matches, or the message that nothing was found,
    and never the text. *)
Theorem free_text_is_dropped :
  forall (text : string) (recipes : list Recipe) (ings : list string) (d : database),
    exists s shown,
      suggest_from_ingredients (JObj [("raw", JStr text)]) = Ok s
      /\ match_titles s = [] /\ ideas s = [] /\ substitutions s = []
      /\ on_result recipes ings d (suggestions_json s) = Ok shown
      /\ shown_items shown = recipes
      /\ shown_ideas shown = []
      /\ shown_matches shown = local_matches ings recipes
      /\ shown_notice shown
         = Some (match local_matches ings recipes with
                 | [] => NoSuggestionsFound
                 | _ => LocalMatchesShown
                 end).
Proof.
  intros text recipes ings d.
  exists {| match_titles := []; ideas := []; substitutions := [] |}.
  assert (on_result recipes ings d
            (suggestions_json {| match_titles := []; ideas := []; substitutions := [] |})
          = Ok (match local_matches ings recipes with
                | [] => {| shown_items := recipes; shown_matches := [];
                           shown_ideas := []; shown_notice := Some NoSuggestionsFound |}
                | local => {| shown_items := recipes; shown_matches := local;
                              shown_ideas := []; shown_notice := Some LocalMatchesShown |}
                end)) as Hres.
  { unfold on_result, suggestions_json. cbn [py_get bind].
    change (dict_get_default "match_titles" _ _) with (JArr []).
    change (dict_get_default "ideas" _ _) with (JArr []).
    change (dict_get_default "raw" _ _) with (JStr "").
    cbn [py_iter bind map find_recipes_by_titles ideas_to_recipes].
    destruct (local_matches ings recipes); reflexivity. }
  eexists. split; [reflexivity|]. repeat (split; [reflexivity|]).
  split; [exact Hres|]. destruct (local_matches ings recipes); repeat split; reflexivity.
Qed.
End FreeTextProperties.

(** ** The card grid *)

Lemma StronglySorted_snoc {A} (R : A -> A -> Prop) (l : list A) (x : A) :
  StronglySorted R l -> Forall (fun y => R y x) l -> StronglySorted R (l ++ [x]).
Proof.
  induction 1 as [|y l Hs IH Hy]; intros Hall; cbn.
  - repeat constructor.
  - apply Forall_cons_1 in Hall as [Hyx Hall]. constructor; [apply IH, Hall|].
    apply Forall_app. split; [exact Hy|]. repeat constructor. exact Hyx.
Qed.

Lemma add_card_ok is_ai g rec :
  grid_ok g ->
  grid_ok (add_card is_ai g rec)
  /\ (row g <= row (add_card is_ai g rec))%nat
  /\ map placed (grid (add_card is_ai g rec))
     = map placed (grid g) ++ [RecipeCard rec is_ai].
Proof.
  intros (Hs & Hall & Hcol). unfold add_card, grid_ok, col_count in *. cbv zeta.
  destruct (3 <=? col g + 1)%nat eqn:E;
    [apply Nat.leb_le in E | apply Nat.leb_gt in E]; cbn [grid row col].
  - split; [|split]; [|lia|rewrite map_app; reflexivity].
    split; [|split; [|lia]].
    + apply StronglySorted_snoc; [exact Hs|].
      eapply Forall_impl; [exact Hall|]. intros p [_ Hp]. unfold placed_before. cbn. lia.
    + apply Forall_app. split.
      * eapply Forall_impl; [exact Hall|]. intros p [Hb Hp]. split; [exact Hb|]. lia.
      * apply Forall_cons_2; [unfold fits, col_count; cbn; lia | apply Forall_nil_2].
  - split; [|split]; [|lia|rewrite map_app; reflexivity].
    split; [|split; [|lia]].
    + apply StronglySorted_snoc; [exact Hs|].
      eapply Forall_impl; [exact Hall|]. intros p [_ Hp]. unfold placed_before. cbn. lia.
    + apply Forall_app. split.
      * eapply Forall_impl; [exact Hall|]. intros p [Hb Hp]. split; [exact Hb|]. lia.
      * apply Forall_cons_2; [unfold fits, col_count; cbn; lia | apply Forall_nil_2].
Qed.
Lemma add_cards_ok is_ai recs g :
  grid_ok g ->
  grid_ok (fold_left (add_card is_ai) recs g)
  /\ map placed (grid (fold_left (add_card is_ai) recs g))
     = map placed (grid g) ++ map (fun r => RecipeCard r is_ai) recs.
Proof.
  revert g. induction recs as [|r recs IH]; intros g Hg; cbn [fold_left map].
  - split; [exact Hg|]. rewrite app_nil_r. reflexivity.
  - destruct (add_card_ok is_ai g r Hg) as (Hg1 & _ & Hm).
    destruct (IH _ Hg1) as (Hg2 & Hm2). split; [exact Hg2|].
    rewrite Hm2, Hm, <- app_assoc. reflexivity.
Qed.

Lemma add_section_ok header is_ai recs g :
  header = header_matches \/ header = header_ai ->
  grid_ok g -> col g = 0%nat ->
  grid_ok (add_section header is_ai recs g)
  /\ col (add_section header is_ai recs g) = 0%nat
  /\ map placed (grid (add_section header is_ai recs g))
     = map placed (grid g) ++ section_widgets header is_ai recs.
Proof.
  intros Hh Hg Hc0. unfold add_section, section_widgets.
  destruct recs as [|r0 recs0]; [rewrite app_nil_r; auto|].
  set (recs := r0 :: recs0).
  set (g1 := {| grid := grid g ++ [ {| placed := header; at_row := row g;
                                      at_col := 0; col_span := col_count |} ];
               row := (row g + 1)%nat; col := 0 |}).
  assert (grid_ok g1) as Hg1.
  { destruct Hg as (Hs & Hall & Hcol). unfold g1, grid_ok, col_count in *. cbn [grid row col].
    split; [|split; [|lia]].
    - apply StronglySorted_snoc; [exact Hs|].
      eapply Forall_impl; [exact Hall|]. intros p [_ Hp]. unfold placed_before. cbn. lia.
    - apply Forall_app. split.
      + eapply Forall_impl; [exact Hall|]. intros p [Hb Hp]. split; [exact Hb|]. lia.
      + apply Forall_cons_2; [|apply Forall_nil_2].
        unfold fits, col_count. destruct Hh as [-> | ->]; cbn; lia. }
  destruct (add_cards_ok is_ai recs g1 Hg1) as (Hg2 & Hm).
  assert (map placed (grid g1) = map placed (grid g) ++ [header]) as Hm1
    by (unfold g1; cbn [grid]; rewrite map_app; reflexivity).
  rewrite Hm1, <- app_assoc in Hm. cbn [app] in Hm.
  destruct (col (fold_left (add_card is_ai) recs g1) =? 0)%nat eqn:E.
  - apply Nat.eqb_eq in E. auto.
  - cbn [grid row col]. split; [|split; [reflexivity|exact Hm]].
    destruct Hg2 as (Hs & Hall & Hcol). unfold grid_ok, col_count in *. cbn [grid row col].
    split; [exact Hs|]. split; [|lia].
    eapply Forall_impl; [exact Hall|]. intros p [Hb Hp]. split; [exact Hb|]. lia.
Qed.

Lemma render_cards_grid_ok items match_items ai_ideas :
  StronglySorted placed_before (_render_cards items match_items ai_ideas)
  /\ Forall fits (_render_cards items match_items ai_ideas)
  /\ map placed (_render_cards items match_items ai_ideas)
     = section_widgets header_matches false match_items
       ++ section_widgets header_ai true ai_ideas
       ++ map (fun r => RecipeCard r false) items.
Proof.
  unfold _render_cards.
  set (g0 := {| grid := []; row := 0; col := 0 |}).
  assert (grid_ok g0) as Hg0.
  { unfold g0, grid_ok, col_count. cbn. repeat constructor. }
  destruct (add_section_ok header_matches false match_items g0 (or_introl eq_refl) Hg0 eq_refl)
    as (Hg1 & Hc1 & Hm1).
  destruct (add_section_ok header_ai true ai_ideas _ (or_intror eq_refl) Hg1 Hc1) as (Hg2 & Hc2 & Hm2).
  destruct (add_cards_ok false items _ Hg2) as ((Hs & Hall & _) & Hm3).
  split; [exact Hs|]. split.
  - eapply Forall_impl; [exact Hall|]. intros p [Hb _]. exact Hb.
  - rewrite Hm3, Hm2, Hm1. cbn [grid map app g0]. rewrite <- app_assoc. reflexivity.
Qed.

Lemma sorted_lookup_lt {A} (R : A -> A -> Prop) (l : list A) (i j : nat) (x y : A) :
  StronglySorted R l -> l !! i = Some x -> l !! j = Some y -> (i < j)%nat -> R x y.
Proof.
  intros Hs. revert i j. induction Hs as [|z l Hs IH Hz]; intros i j Hi Hj Hlt.
  - discriminate.
  - destruct j as [|j]; [lia|]. cbn in Hj. destruct i as [|i]; cbn in Hi.
    + injection Hi as <-. apply (proj1 (Forall_forall _ _) Hz).
      eapply list_elem_of_lookup_2, Hj.
    + apply (IH i j); auto. lia.
Qed.

Lemma placed_before_trans_cover p q r c :
  placed_before p q -> covers p r c -> covers q r c -> False.
Proof. unfold placed_before, covers. lia. Qed.

(** X25. [_render_cards] places the header of the matches and their
    cards, then the header of the ideas and theirs (a header only for a
    list that is not empty), then the remaining cards, in that order and
    only the idea cards with the save handler; every widget stays inside
    the three columns, and no cell of the grid lies under two of them. *)
Theorem render_cards_layout :
  forall (items match_items ai_ideas : list Recipe),
    let cells := _render_cards items match_items ai_ideas in
    map placed cells
    = section_widgets header_matches false match_items
      ++ section_widgets header_ai true ai_ideas
      ++ map (fun r => RecipeCard r false) items
    /\ (forall p, p ∈ cells ->
          (at_col p + col_span p <= col_count)%nat
          /\ match placed p with
             | RecipeCard _ _ => col_span p = 1%nat
             | _ => at_col p = 0%nat /\ col_span p = col_count
             end)
    /\ (forall (i j : nat) (p q : placement) (r c : nat),
          cells !! i = Some p -> cells !! j = Some q ->
          covers p r c -> covers q r c -> i = j).
Proof.
  intros items match_items ai_ideas cells.
  destruct (render_cards_grid_ok items match_items ai_ideas) as (Hs & Hb & Hm).
  fold cells in Hs, Hb, Hm. split; [exact Hm|]. split.
  - intros p Hp. exact (proj1 (Forall_forall _ _) Hb p Hp).
  - intros i j p q r c Hi Hj Hp Hq.
    destruct (Nat.lt_trichotomy i j) as [Hlt|[Heq|Hgt]]; [|exact Heq|].
    + destruct (placed_before_trans_cover p q r c); auto.
      eapply sorted_lookup_lt; eauto.
    + destruct (placed_before_trans_cover q p r c); auto.
      eapply sorted_lookup_lt; eauto.
Qed.

(** * Worked examples *)

#[global] Existing Instance decimal_float.
#[global] Existing Instance exact_types.

Lemma compute_missing_ingredients_witness :
  map (dict_get_default "name" (JStr "")) (ingredients sample_cake)
  = map JStr ["salt"; "Sugar"; "Flour"; ""; "eggs"; "Flour"]
  /\ compute_missing_ingredients sample_pantry_db sample_cake
     = Ok ["Sugar"; "Flour"; "eggs"; "Flour"].
Proof.
  split; [reflexivity|].
  apply (compute_missing_ingredients_spec sample_pantry_db sample_cake
           ["salt"; "Sugar"; "Flour"; ""; "eggs"; "Flour"] eq_refl).
Defined.

Lemma sample_rows_load :
  Forall (fun r => succeeded (from_row (Some r)) = true)
         [sample_row 1 "C" 20; sample_row 2 "A" 45].
Proof. repeat constructor. Qed.

Lemma find_recipes_by_titles_witness :
  Forall (fun r => succeeded (from_row (Some r)) = true)
         (recipes (db_with_recipes [sample_row 1 "C" 20; sample_row 2 "A" 45]))
  /\ find_recipes_by_titles (db_with_recipes [sample_row 1 "C" 20; sample_row 2 "A" 45])
       ["B"; "A"; "C"]
     = Ok [sample_recipe 2 "A" 45; sample_recipe 1 "C" 20].
Proof.
  split; [exact sample_rows_load|].
  apply (find_recipes_by_titles_input_order
           (db_with_recipes [sample_row 1 "C" 20; sample_row 2 "A" 45])
           ["B"; "A"; "C"] sample_rows_load).
Defined.

(** The same lookup over the rows stored in the other order. *)
Example find_recipes_by_titles_other_order :
  find_recipes_by_titles (db_with_recipes [sample_row 2 "A" 45; sample_row 1 "C" 20])
    ["B"; "A"; "C"]
  = Ok [sample_recipe 2 "A" 45; sample_recipe 1 "C" 20].
Proof. vm_compute. reflexivity. Qed.

Lemma sample_rows_stored_ok :
  Forall stored_ok [sample_row 1 "Stew" 90; sample_row 2 "Toast" 5; sample_row 3 "Salad" 5].
Proof.
  repeat constructor; eexists; (split; [reflexivity|split; reflexivity]).
Qed.

Lemma search_recipes_no_filter_witness :
  default_or (@None (list string)) [] = []
  /\ Forall stored_ok
       (recipes (db_with_recipes
                   [sample_row 1 "Stew" 90; sample_row 2 "Toast" 5; sample_row 3 "Salad" 5]))
  /\ exists listed found,
       list_recipes (db_with_recipes
                       [sample_row 1 "Stew" 90; sample_row 2 "Toast" 5; sample_row 3 "Salad" 5])
       = Ok listed
       /\ search_recipes (db_with_recipes
                            [sample_row 1 "Stew" 90; sample_row 2 "Toast" 5; sample_row 3 "Salad" 5])
            "" None None "" = Ok found
       /\ found ≡ₚ listed
       /\ Sorted by_time_then_title found
       /\ Sorted by_title listed.
Proof.
  split; [reflexivity|]. split; [exact sample_rows_stored_ok|].
  apply (search_recipes_no_filter
           (db_with_recipes
              [sample_row 1 "Stew" 90; sample_row 2 "Toast" 5; sample_row 3 "Salad" 5])
           None eq_refl sample_rows_stored_ok).
Defined.

Example search_recipes_sample :
  search_recipes (db_with_recipes
                    [sample_row 1 "Stew" 90; sample_row 2 "Toast" 5; sample_row 3 "Salad" 5])
    "" None None ""
  = Ok [sample_recipe 3 "Salad" 5; sample_recipe 2 "Toast" 5; sample_recipe 1 "Stew" 90].
Proof. reflexivity. Qed.

Example list_recipes_sample :
  list_recipes (db_with_recipes
                  [sample_row 1 "Stew" 90; sample_row 2 "Toast" 5; sample_row 3 "Salad" 5])
  = Ok [sample_recipe 3 "Salad" 5; sample_recipe 1 "Stew" 90; sample_recipe 2 "Toast" 5].
Proof. reflexivity. Qed.

Lemma request_json_fenced_witness :
  json_loads sample_json_text = Some (JObj [("a", JArr [JInt 1; JInt 2])])
  /\ all_space " " = true
  /\ request_json (fenced sample_json_text) = Ok (JObj [("a", JArr [JInt 1; JInt 2])]).
Proof.
  split; [reflexivity|]. split; [reflexivity|].
  apply (request_json_fenced sample_json_text (JObj [("a", JArr [JInt 1; JInt 2])])
           " " " " eq_refl eq_refl eq_refl).
Defined.

(** The third rung: JSON between prose. *)
Example request_json_prose :
  request_json ("Here you go: " +:+ sample_json_text +:+ " Enjoy!")
  = Ok (JObj [("a", JArr [JInt 1; JInt 2])]).
Proof. reflexivity. Qed.

Lemma suggest_from_ingredients_clamps_witness :
  dict_get_default "match_titles" (JArr []) sample_response = JArr [JStr "Toast"; JInt 3]
  /\ dict_get_default "substitutions" (JArr []) sample_response = JArr []
  /\ exists out,
       suggest_from_ingredients (JObj sample_response) = Ok out
       /\ match_titles out = ["Toast"; "3"]
       /\ map idea_title (ideas out) = ["Omelette"; "AI Idea"]
       /\ (length (ideas out) <= 10)%nat.
Proof.
  split; [reflexivity|]. split; [reflexivity|].
  destruct (suggest_from_ingredients_clamps sample_response
              [JStr "Toast"; JInt 3]
              [ JObj [("title", JStr "Omelette");
                      ("ingredients", JArr [JObj [("name", JStr "egg")];
                                            JObj [("name", JStr "  ")]]);
                      ("time_minutes", JStr "10")];
                JStr "not an object";
                JObj [("steps", JArr [JStr "Mix"])] ]
              [] eq_refl eq_refl eq_refl) as (out & Hout & Hmt & _ & Hideas & Hlen & _ & _).
  exists out. split; [exact Hout|]. split; [exact Hmt|]. split; [|exact Hlen].
  rewrite Hideas. reflexivity.
Defined.

(** C6 as stated fails: the three lists are read outside the [try] of the
    ideas loop.  The one idea of this response is rebuilt, but [null] for
    the substitutions cannot be iterated, the call raises, and the idea is
    lost with the rest. *)
Lemma suggest_from_ingredients_null_counterexample :
  rebuild (JObj [("title", JStr "Omelette"); ("time_minutes", JInt 10)])
  = Some {| idea_title := "Omelette"; idea_description := "";
            idea_ingredients := []; idea_steps := []; idea_time_minutes := 10;
            idea_difficulty := "Easy"; idea_categories := [] |}
  /\ suggest_from_ingredients (JObj response_with_null) = Raise TypeError.
Proof. split; reflexivity. Qed.

Example suggest_from_ingredients_sample :
  suggest_from_ingredients (JObj sample_response)
  = Ok {| match_titles := ["Toast"; "3"];
          ideas := [ {| idea_title := "Omelette"; idea_description := "";
                        idea_ingredients := [("egg", "")]; idea_steps := [];
                        idea_time_minutes := 10; idea_difficulty := "Easy";
                        idea_categories := [] |};
                     {| idea_title := "AI Idea"; idea_description := "";
                        idea_ingredients := []; idea_steps := ["Mix"];
                        idea_time_minutes := 0; idea_difficulty := "Easy";
                        idea_categories := [] |} ];
          substitutions := [] |}.
Proof. reflexivity. Qed.

(** C7 as stated fails: two recipes both match the one query term, so they
    tie; the code puts apple pie first, by lower-cased title, while ascending
    title puts Banana bread first (capital B is code point 66, a is 97). *)
Lemma local_matches_title_order_counterexample :
  local_matches ["sugar"]
    [sugar_recipe "Banana bread" "Brown Sugar"; sugar_recipe "apple pie" "sugar"]
  = [sugar_recipe "apple pie" "sugar"; sugar_recipe "Banana bread" "Brown Sugar"]
  /\ ~ Sorted (ranked_by_title ["sugar"])
         (local_matches ["sugar"]
            [sugar_recipe "Banana bread" "Brown Sugar"; sugar_recipe "apple pie" "sugar"]).
Proof.
  split; [reflexivity|].
  intros Hs. apply Sorted_inv in Hs as [_ Hhd]. apply HdRel_inv in Hhd.
  destruct Hhd as [Hlt|[_ Hle]].
  - vm_compute in Hlt. discriminate.
  - vm_compute in Hle. discriminate.
Qed.




(** ** Worked examples of the further properties *)

#[global] Existing Instance literal_dumps.

Lemma empty_db_constraints : keys_unique empty_db /\ flags_boolean empty_db.
Proof. repeat split; constructor. Defined.

Lemma write_ops_keep_constraints_witness :
  (keys_unique empty_db /\ flags_boolean empty_db)
  /\ keys_unique (run sample_ops empty_db) /\ flags_boolean (run sample_ops empty_db).
Proof.
  split; [exact empty_db_constraints|].
  apply (write_ops_keep_constraints sample_ops empty_db empty_db_constraints).
Defined.

Lemma sample_pantry_unique : pantry_unique sample_pantry_db.
Proof. apply (bool_decide_unpack _). vm_compute. exact I. Defined.

Lemma upsert_pantry_item_lookup_witness :
  pantry_unique sample_pantry_db
  /\ pantry_unique (upsert_pantry_item " rice " " 2 kg" sample_pantry_db)
  /\ forall n q,
       (n, q) ∈ list_pantry (upsert_pantry_item " rice " " 2 kg" sample_pantry_db)
       <-> (n = strip " rice " /\ q = strip " 2 kg")
           \/ (n <> strip " rice " /\ (n, q) ∈ list_pantry sample_pantry_db).
Proof.
  split; [exact sample_pantry_unique|].
  apply (upsert_pantry_item_lookup sample_pantry_db " rice " " 2 kg" sample_pantry_unique).
Defined.

Lemma sample_grocery_flags : flags_boolean sample_grocery_db.
Proof.
  unfold flags_boolean, flag_boolean. cbn.
  repeat (apply Forall_cons_2; [first [left; reflexivity | right; reflexivity]|]).
  apply Forall_nil_2.
Defined.

Lemma list_grocery_order_witness :
  flags_boolean sample_grocery_db
  /\ StronglySorted grocery_listed_before (list_grocery sample_grocery_db)
  /\ list_grocery sample_grocery_db ≡ₚ map grocery_listing (grocery sample_grocery_db).
Proof.
  split; [exact sample_grocery_flags|].
  apply (list_grocery_order sample_grocery_db sample_grocery_flags).
Defined.

Lemma clear_grocery_listing_witness :
  flags_boolean sample_grocery_db
  /\ list_grocery (clear_grocery false sample_grocery_db) = []
  /\ list_grocery (clear_grocery true sample_grocery_db)
     = List.filter (fun e => negb e.2) (list_grocery sample_grocery_db)
  /\ (forall b, recipes (clear_grocery b sample_grocery_db) = recipes sample_grocery_db
                /\ favorites (clear_grocery b sample_grocery_db) = favorites sample_grocery_db
                /\ pantry (clear_grocery b sample_grocery_db) = pantry sample_grocery_db).
Proof.
  split; [exact sample_grocery_flags|].
  apply (clear_grocery_listing sample_grocery_db sample_grocery_flags).
Defined.

Lemma add_missing_to_grocery_resets_witness :
  map (dict_get_default "name" (JStr "")) (ingredients sample_cake)
  = map JStr ["salt"; "Sugar"; "Flour"; ""; "eggs"; "Flour"]
  /\ exists d',
      add_missing_to_grocery sample_cake sample_pantry_db = Ok d'
      /\ (forall n, n ∈ ["salt"; "Sugar"; "Flour"; ""; "eggs"; "Flour"] ->
            is_missing sample_pantry_db n = true ->
            grocery_entry (strip n) d' = Some (EmptyString, false))
      /\ (forall j, (forall n, n ∈ ["salt"; "Sugar"; "Flour"; ""; "eggs"; "Flour"] ->
                       is_missing sample_pantry_db n = true -> strip n <> j) ->
            grocery_entry j d' = grocery_entry j sample_pantry_db)
      /\ recipes d' = recipes sample_pantry_db
      /\ favorites d' = favorites sample_pantry_db
      /\ pantry d' = pantry sample_pantry_db
      /\ add_missing_to_grocery sample_cake d' = Ok d'.
Proof.
  split; [reflexivity|].
  apply (add_missing_to_grocery_resets sample_pantry_db sample_cake
           ["salt"; "Sugar"; "Flour"; ""; "eggs"; "Flour"] eq_refl).
Defined.

Lemma sample_library_search :
  search_recipes sample_library "" None None ""
  = Ok [sample_recipe 1 "C" 20; sample_recipe 2 "A" 45].
Proof. vm_compute. reflexivity. Defined.

Lemma search_recipes_filters_witness :
  search_recipes sample_library "" None None ""
  = Ok [sample_recipe 1 "C" 20; sample_recipe 2 "A" 45]
  /\ (exists found,
        search_recipes sample_library "a" (Some ["Quick"]) (Some 30) "Easy" = Ok found
        /\ found `sublist_of` [sample_recipe 1 "C" 20; sample_recipe 2 "A" 45]
        /\ (forall m, Some 30 = Some m -> Forall (fun rec => time_minutes rec <= m) found)
        /\ ("Easy" <> EmptyString -> Forall (fun rec => difficulty rec = "Easy") found))
  /\ search_recipes sample_library "a" (Some ["Quick"]) (Some (2 ^ 63)) "Easy"
     = Raise OverflowError.
Proof.
  split; [exact sample_library_search|]. split.
  - apply (proj1 (search_recipes_filters sample_library "a" (Some ["Quick"]) (Some 30)
                    "Easy" [sample_recipe 1 "C" 20; sample_recipe 2 "A" 45]
                    sample_library_search)).
    intros m [= <-]. reflexivity.
  - apply (proj2 (search_recipes_filters sample_library "a" (Some ["Quick"])
                    (Some (2 ^ 63)) "Easy"
                    [sample_recipe 1 "C" 20; sample_recipe 2 "A" 45]
                    sample_library_search) (2 ^ 63) eq_refl eq_refl).
Defined.

Lemma sample_library_keyed : recipes_keyed sample_library.
Proof.
  split.
  - unfold sample_library, db_with_recipes. cbn [recipes map col_id sample_row].
    apply NoDup_cons_2; [|apply NoDup_cons_2; [|apply NoDup_nil_2]].
    + intros Hin. apply list_elem_of_In in Hin. destruct Hin as [E|[]]. discriminate E.
    + intros Hin. apply list_elem_of_In in Hin. destruct Hin.
  - apply Forall_cons_2; [exists 1; split; reflexivity|].
    apply Forall_cons_2; [exists 2; split; reflexivity|]. apply Forall_nil_2.
Defined.

Lemma sample_library_listing :
  list_recipes sample_library = Ok [sample_recipe 2 "A" 45; sample_recipe 1 "C" 20].
Proof. vm_compute. reflexivity. Defined.

Lemma get_recipe_of_listed_witness :
  recipes_keyed sample_library
  /\ list_recipes sample_library = Ok [sample_recipe 2 "A" 45; sample_recipe 1 "C" 20]
  /\ Forall (fun rec => exists i, rid rec = Some i
                                  /\ get_recipe sample_library i = Ok (Some rec))
            [sample_recipe 2 "A" 45; sample_recipe 1 "C" 20]
  /\ (forall i, int64 i = true ->
        (forall r, r ∈ recipes sample_library -> col_id r <> SInt i) ->
        get_recipe sample_library i = Ok None)
  /\ (forall i, int64 i = false -> get_recipe sample_library i = Raise OverflowError).
Proof.
  split; [exact sample_library_keyed|]. split; [exact sample_library_listing|].
  apply (get_recipe_of_listed sample_library
           [sample_recipe 2 "A" 45; sample_recipe 1 "C" 20]
           sample_library_keyed sample_library_listing).
Defined.

Lemma sample_row_loads : from_row (Some (sample_row 1 "C" 20)) = Ok (sample_recipe 1 "C" 20).
Proof. vm_compute. reflexivity. Defined.

Lemma from_row_categories_clean_witness :
  from_row (Some (sample_row 1 "C" 20)) = Ok (sample_recipe 1 "C" 20)
  /\ Forall clean_label (categories (sample_recipe 1 "C" 20))
  /\ categories (sample_recipe 1 "C" 20)
     = match col_categories (sample_row 1 "C" 20) with
       | SText s => split_strip s
       | _ => []
       end.
Proof.
  split; [exact sample_row_loads|].
  apply (from_row_categories_clean (sample_row 1 "C" 20) (sample_recipe 1 "C" 20)
           sample_row_loads).
Defined.

Lemma sample_cake_plain : Forall (fun g => plain (JObj g) = true) (ingredients sample_cake).
Proof.
  cbn [ingredients sample_cake].
  repeat (apply Forall_cons_2; [vm_compute; reflexivity|]). apply Forall_nil_2.
Defined.

Lemma sample_labels_clean : Forall clean_label ["Dessert"; "Party food"].
Proof.
  repeat (apply Forall_cons_2;
          [split; [discriminate|split; vm_compute; reflexivity]|]).
  apply Forall_nil_2.
Defined.

Lemma sample_library_fresh : fresh_id 3 sample_library.
Proof.
  intros r Hr. cbn in Hr.
  apply list_elem_of_In in Hr. destruct Hr as [<-|[<-|[]]]; discriminate.
Defined.

Lemma insert_recipe_round_trip_witness :
  Forall (fun g => plain (JObj g) = true) (ingredients sample_cake)
  /\ Forall clean_label (default_or (Some ["Dessert"; "Party food"]) [])
  /\ int64 30 = true
  /\ let row := inserted_row 3 "Cake" "Sweet" (ingredients sample_cake) ["Mix"; "Bake"] 30
                  "Easy" "" (Some ["Dessert"; "Party food"]) in
     let rec := {| rid := Some 3; title := "Cake"; description := "Sweet";
                   ingredients := ingredients sample_cake;
                   steps := ["Mix"; "Bake"]; time_minutes := 30;
                   difficulty := "Easy"; image_path := "";
                   categories := default_or (Some ["Dessert"; "Party food"]) [] |} in
     exists d',
       insert_recipe 3 "Cake" "Sweet" (ingredients sample_cake) ["Mix"; "Bake"] 30
         "Easy" "" (Some ["Dessert"; "Party food"]) sample_library = Ok (3, d')
       /\ recipes d' = recipes sample_library ++ [row]
       /\ favorites d' = favorites sample_library
       /\ pantry d' = pantry sample_library
       /\ grocery d' = grocery sample_library
       /\ from_row (Some row) = Ok rec
       /\ (fresh_id 3 sample_library ->
           get_recipe d' 3 = if int64 3 then Ok (Some rec) else Raise OverflowError).
Proof.
  split; [exact sample_cake_plain|]. split; [exact sample_labels_clean|].
  split; [reflexivity|].
  apply (insert_recipe_round_trip 3 "Cake" "Sweet" (ingredients sample_cake)
           ["Mix"; "Bake"] 30 "Easy" "" (Some ["Dessert"; "Party food"])
           sample_library sample_cake_plain sample_labels_clean eq_refl).
Defined.

Lemma save_ai_idea_adds_one_witness :
  Forall (fun g => plain (JObj g) = true) (ingredients (sugar_recipe "Candy" "sugar"))
  /\ Forall clean_label (categories (sugar_recipe "Candy" "sugar"))
  /\ int64 (time_minutes (sugar_recipe "Candy" "sugar")) = true
  /\ list_recipes sample_library = Ok [sample_recipe 2 "A" 45; sample_recipe 1 "C" 20]
  /\ exists listed' d',
      _save_ai_idea 3 (sugar_recipe "Candy" "sugar") sample_library = Ok (listed', d')
      /\ listed' ≡ₚ with_id 3 (sugar_recipe "Candy" "sugar")
                     :: [sample_recipe 2 "A" 45; sample_recipe 1 "C" 20]
      /\ (fresh_id 3 sample_library ->
          get_recipe d' 3
          = if int64 3 then Ok (Some (with_id 3 (sugar_recipe "Candy" "sugar")))
            else Raise OverflowError).
Proof.
  assert (Forall (fun g => plain (JObj g) = true)
                 (ingredients (sugar_recipe "Candy" "sugar"))) as Hp
    by (apply Forall_cons_2; [vm_compute; reflexivity|apply Forall_nil_2]).
  assert (Forall clean_label (categories (sugar_recipe "Candy" "sugar"))) as Hc
    by apply Forall_nil_2.
  split; [exact Hp|]. split; [exact Hc|]. split; [reflexivity|].
  split; [exact sample_library_listing|].
  apply (save_ai_idea_adds_one 3 (sugar_recipe "Candy" "sugar") sample_library
           [sample_recipe 2 "A" 45; sample_recipe 1 "C" 20]
           Hp Hc eq_refl sample_library_listing).
Defined.

Lemma sample_titles_found :
  find_recipes_by_titles sample_library (match_titles sample_suggestions)
  = Ok [sample_recipe 2 "A" 45].
Proof. vm_compute. reflexivity. Defined.

Lemma on_result_of_suggestions_witness :
  find_recipes_by_titles sample_library (match_titles sample_suggestions)
  = Ok [sample_recipe 2 "A" 45]
  /\ on_result [sample_recipe 1 "C" 20] ["rice"] sample_library
       (suggestions_json sample_suggestions)
     = Ok {| shown_items := [sample_recipe 1 "C" 20];
             shown_matches := [sample_recipe 2 "A" 45];
             shown_ideas := []; shown_notice := None |}.
Proof.
  split; [exact sample_titles_found|].
  apply (on_result_of_suggestions sample_suggestions [sample_recipe 1 "C" 20] ["rice"]
           sample_library [sample_recipe 2 "A" 45] sample_titles_found).
Defined.

(** The removal takes the name as it is given: the entry upserted under a
    padded name is stored stripped, and the padded name removes nothing. *)
Example remove_pantry_item_padded_name :
  list_pantry (remove_pantry_item " rice " (upsert_pantry_item " rice " "1 kg" empty_db))
  = [("rice", "1 kg")].
Proof. vm_compute. reflexivity. Qed.

(** A category that holds a comma comes back as two. *)
Example category_with_comma_is_split :
  (let? rec := from_row (Some (inserted_row 1 "Stew" "" [] [] 60 "Easy" ""
                                      (Some ["Slow, warm"]))) in
   Ok (categories rec))
  = Ok ["Slow"; "warm"].
Proof. vm_compute. reflexivity. Qed.

(** One match and four recipes: the header takes the first row, the match
    the second, and the recipes start on the third. *)
Example render_cards_cells :
  map (fun p => (at_row p, at_col p, col_span p))
      (_render_cards [sample_recipe 1 "A" 5; sample_recipe 2 "B" 5;
                      sample_recipe 3 "C" 5; sample_recipe 4 "D" 5]
                     [sample_recipe 2 "B" 5] [])
  = [(0, 0, 3); (1, 0, 1); (2, 0, 1); (2, 1, 1); (2, 2, 1); (3, 0, 1)]%nat.
Proof. vm_compute. reflexivity. Qed.

(** A numbered line, a bulleted line, an empty line, a rule and a line
    without letters. *)
Example substitution_lines_of_response :
  substitution_lines
    ("1. Use oil" +:+ String newline
       ("- * butter *" +:+ String newline
          (String newline ("---" +:+ String newline " 2) "))))
  = ["1. Use oil"; "butter"].
Proof. vm_compute. reflexivity. Qed.

(** A model that is not found, with fallbacks that construct but are not
    found either: two JSON requests, one switch, and the text of the third
    request under the fallback key. *)
Example generate_json_not_found :
  _generate_json (fun _ => true)
    (fun _ _ json_mode => if json_mode then ApiError "404 model not found"
                          else ApiText "Try an omelette.")
    (fun _ => "Expecting value")
    "raw" {| model_name := "gemini-1.5-flash"; requests := 0 |}
  = (inr (JObj [("raw", JStr "Try an omelette.")]),
     {| model_name := "gemini-1.5-flash-latest"; requests := 3 |}).
Proof. vm_compute. reflexivity. Qed.

(** One row whose ingredients column holds a JSON number: the row does not
    load, and the listing of the whole library raises. *)
Example list_recipes_one_bad_row :
  list_recipes (db_with_recipes [sample_row 2 "A" 45; row_with_scalar_json])
  = Raise ValidationError.
Proof. vm_compute. reflexivity. Qed.

(** An id outside 64 bits: marking it favourite changes nothing, unmarking
    it raises. *)
Example set_favorite_outside_64_bits :
  set_favorite (2 ^ 63) true empty_db = Ok empty_db
  /\ set_favorite (2 ^ 63) false empty_db = Raise OverflowError
  /\ set_favorite (2 ^ 63 - 1) true empty_db
     = Ok {| recipes := []; favorites := [2 ^ 63 - 1]; pantry := []; grocery := [] |}.
Proof. repeat split. Qed.

(** A title that holds a NUL is searched up to it, and a search text that
    holds a NUL has to end the title. *)
Example search_recipes_nul :
  let nul_title := String "a" (String "000" "b") in
  let library := db_with_recipes [sample_row 1 nul_title 20; sample_row 2 "ab" 45] in
  search_recipes library "b" None None "" = Ok [sample_recipe 2 "ab" 45]
  /\ search_recipes library nul_title None None "" = Ok [sample_recipe 1 nul_title 20].
Proof. vm_compute. split; reflexivity. Qed.

(** [int] does not take the separators U+001C..U+001F for whitespace,
    which [str.strip] does. *)
Example int_of_str_separator :
  int_of_str (String "028" "5") = None
  /\ strip (String "028" "5") = "5"
  /\ int_of_str (String "160" " 5 ") = Some 5.
Proof. repeat split. Qed.
